(* ===== verification/_CoqProject ===== *)
-Q . S2P
Prelude.v
JsString.v
JsNumber.v
JsRounding.v
JsValue.v
JsJson.v
JsonRoundtrip.v
Regex.v
JsDate.v
ExpressionTypes.v
ExpressionParser.v
ExpressionCompiler.v
ExpressionRuntime.v
ExpressionStructure.v
ExpressionDisplay.v
BillingExpr.v
Sha256.v
StatusCodes.v
RouteEvents.v
AuthStore.v
AuthSync.v
AuthSession.v
AdvancedCustom.v
PlaygroundMessages.v
StreamRequest.v
ChatHandler.v
Conversation.v
PlaygroundStorage.v
PlaygroundSaved.v
ServerError.v
ChannelForm.v
ChannelSave.v
ModelMapping.v
ChannelList.v
ChannelConfiguration.v
ChannelDiscovery.v
Interaction.v
ChannelDialog.v
ChannelEdit.v
ChannelSubmit.v
ParamOverride.v
ParamSaved.v
ParamDrafts.v
ParamEditor.v
