(* ===== verification/Prelude.v ===== *)
(** * PowerBarRations console: a verification library

    PowerBarRations is a gateway for language-model services with a web console.
    This library models core logic of the console, the TypeScript code under
    [src/web/src], as executable Rocq definitions, and proves what makes it
    correct.  Every definition follows the code function by function; names are
    kept, with a qualifier or an underscore where Rocq reserves them.

    ** The parts

    Language and platform, shared by all components:
    - [Prelude] (this file): results that may throw, a state-and-error monad with
      a weakest-precondition calculus, its notations, and the hint database [pbr].
    - [JsString], [JsNumber], [JsRounding], [JsValue], [JsJson], [JsDate],
      [Regex]: strings of UTF-16 code units, binary64 numbers ([SpecFloat]) with
      their decimal reading and printing and enclosure lemmas for their
      rounding, values of type [unknown], [JSON.parse] and [JSON.stringify],
      dates, and a backtracking matcher for regular expressions.
    - [JsonRoundtrip]: which values are read back from their printed text, with and
      without indentation, and that what was read is one of them.

    Billing expressions ([features/usage-logs/lib/billing-expression/]):
    - [ExpressionTypes] ([types.ts]): vocabulary, syntax trees, diagnostics, the
      bounded traversal on an explicit stack.
    - [ExpressionParser] and [ExpressionCompiler] ([parser.ts]): the lexer and the
      precedence-climbing parser; the type check, the check of fixed pricing
      trees, and compilation behind a bounded cache.
    - [ExpressionRuntime] ([runtime.ts]): request paths, rendering, time zones and
      the evaluator with its mutable fields as a threaded state.
    - [ExpressionStructure] ([structure.ts]): splitting and unwrapping of text.
    - [ExpressionDisplay] ([display.ts]): chains of tiers and time pricing as shown.
    - [BillingExpr] ([features/usage-logs/lib/billing-expr.ts]): the tiers and
      request rules of a log row, which the compiler and the display feed.

    Other logic of the console:
    - [Sha256] ([lib/sha256.ts]): the hash used without Web Crypto.
    - [StatusCodes] ([lib/http-status-code-rules.ts] and
      [features/channels/lib/status-code-risk-guard.ts]): status code rules and
      the review of status code mappings.
    - [RouteEvents] ([lib/route-events.ts]): the stream of lane snapshots.
    - [AuthStore], [AuthSync], [AuthSession] ([stores/auth-store.ts], the bundle of
      [lib/pbr-auth.ts], [lib/session-hint.ts], [lib/auth-session-sync.ts],
      [lib/auth-session.ts]): the login session, its refresh, and the messages
      between tabs.
    - [ServerError] ([lib/server-error-message.ts], [lib/handle-server-error.ts]): the
      walk over an error and its causes, and what the console says of it.

    Channels ([features/channels/]):
    - [AdvancedCustom] ([lib/advanced-custom.ts]): the routes of a custom channel:
      parsing, validation, and the edits of the editor.
    - [ChannelForm] and [ChannelSave] ([lib/channel-form.ts]): the checks of the
      channel form, the transformation of a channel into form values and back into
      payloads, and that saving and opening agree.
    - [ModelMapping] ([lib/model-mapping-validation.ts], [lib/upstream-update-utils.ts]):
      models as text, the mapping of models, and what one lacks of the other.
    - [ChannelList] ([lib/channel-utils.ts]): the list of channels: protocols, keys,
      relative times, rows by tag.
    - [ChannelConfiguration] ([lib/channel-configuration.ts],
      [lib/channel-field-update.ts]): the status of the sections of the form, and the
      delayed update of a number in the list.
    - [ChannelDiscovery] ([hooks/use-channel-model-discovery.ts]): the models a probe
      found.
    - [ChannelDialog] and [ChannelSubmit] ([hooks/use-channel-mutate-form.ts],
      [lib/channel-reference-conflict.ts], the submission in
      [components/drawers/channel-mutate-dialog.tsx]): the checks, questions and
      requests of a submission, as a program that asks ([Interaction]).
    - [ChannelEdit] (the other handlers of the dialog, [lib/channel-connection-info.ts]).
    - [ParamOverride], [ParamSaved], [ParamDrafts], [ParamEditor]
      ([components/dialogs/param-override-editor-dialog.tsx]): the rules that rewrite
      requests, their validation and saved text; what is saved and opened again; the
      drafts of special values; the dialog as a machine of handlers.

    The playground ([features/playground/]):
    - [PlaygroundMessages] ([lib/message/], [lib/streaming/payload-builder.ts]):
      messages, the reasoning between tags, streamed chunks, the end of a message.
    - [StreamRequest] ([hooks/use-stream-request.ts], [lib/streaming/]): the
      controller of event sources, against an interface for its client.
    - [ChatHandler] ([hooks/use-chat-handler.ts]): its client: batching of chunks,
      the updates given to React, stopping, requests without streaming.
    - [Conversation] ([hooks/use-playground-conversation.ts]): what the user does.
    - [PlaygroundStorage] and [PlaygroundSaved] ([lib/storage/], [lib/state/],
      [hooks/use-playground-state.ts]): what the browser keeps: schemas, loading,
      saving, and that they agree.

    ** How the code's effects are modelled

    Code that throws returns an [outcome]; code with mutable fields is an [action]
    on a record of those fields (in [ParamOverride] on the counter of identifiers), or an [io] computation where the state outlives
    an exception ([StreamRequest], [PlaygroundStorage]).  A submission that waits for
    the user and the server is a finite program that asks ([Interaction]); its
    theorems are about all traces of questions and answers.  Errors that may share
    parts and form cycles are objects of a heap ([ServerError]).  Other asynchronous
    code ([RouteEvents], [AuthSession], [StreamRequest], [ChatHandler],
    [ChannelDiscovery]) is cut at its awaits: a step function runs from one await to
    the next, an event is what a promise delivers or a call from outside, and a
    theorem about all sequences of events covers every interleaving.  Code that is not part
    of the repository is an argument: the time zone database (a formatter for
    each zone name), the clock, random numbers, the server's answers and the
    lock manager.  No property is stated under an assumption on them beyond
    the ones its statement shows.

    ** Fuel and bounds

    - The parser takes [parser_fuel] levels.  Each call path consumes a token at
      least once in two levels and the parser throws after 10000 tokens, so it
      never runs out ([ExpressionParser.parse_total_well_formed]).
    - The traversal takes two steps per node and one more, and refuses trees
      deeper than 256; [ExpressionTypes.visitExpression_postorder] excludes
      running out.
    - Unwrapping parentheses, the loop over buffered lines, the JSON reader and the
      loop over reasoning tags take the length of their text as fuel; their
      theorems show that it suffices.
    - The walk over an error takes three values per object and two more; each object
      is walked once ([ServerError.getServerErrorSources_spec]).
    - Numbers are binary64 throughout, 32-bit where the code uses bit operators, so
      rounding, overflow to infinity and not-a-number are those of the code.

    ** What the theorems show

    - Parsing and compilation: parsing is total and yields well-formed trees with
      distinct spans; the traversal is a postorder fold; the type check decides
      a declarative judgement; a compiled expression holds exactly its tree,
      dependencies and rules; the cache is transparent and bounded.
    - Evaluation: the evaluator refines a stateless reference semantics, never gets
      stuck, and respects static types; request paths and condition probes do
      what they promise; time zones give calendar values in range.
    - Display: the chain shown is the chain the evaluator follows, with the prices
      of the expression; the split into rules and base loses nothing; time
      conditions are read back.
    - Hash and status codes: the hash is FIPS 180-4 (its constants are derived, not
      copied); status code rules have a normal form that parses to itself.
    - Route events: frames do not depend on chunks and are read back; a connection
      delivers exactly its valid frames; a closed stream never reconnects; the
      back-off counts failures and its delays stay within their bounds; the two
      sources of snapshots are merged as specified.
    - Login session: the store is always empty or complete; a refresh overtaken by a
      sign-in or sign-out has no effect; a refresh ends after at most eight
      requests; each answer of the server has its specified effect; a skipped
      boot check is not taken for a verdict; a rotation cannot change sessions;
      cookies and cross-tab messages arrive.
    - Server errors: the walk over an error ends and finds what its causes and
      responses lead to; an error that is safe to show hides its cause; a failure is
      shown once.
    - Custom channels: validation decides a declarative well-formedness and names the
      first offending route; edits of a management path resolve as edited and
      leave the other paths alone; what the editor offers is valid.
    - Channel form: what an accepted form saves is read back by the form and saved
      again unchanged; a save writes the settings of the channel's type, removes
      those of other types and keeps every other field.
    - Saving a channel: without the sensitive permission only public fields are sent;
      lanes are cleaned up only after a conflict that the user confirmed; what is sent
      was checked, and lacks no model of the mapping unless the user said so; a
      submission asks at most five questions and reports the last answer.
    - Parameter overrides: what is saved has all that its modes require, and opens again
      as rules that save the same text; the dialog keeps its rules, their identifiers
      and its selection sound, whatever is done; a dropped rule stands where the
      pointer showed, a duplicate saves what its rule saves, and a switch to the text
      and back keeps the rules.  Its editor of pruning rules adds, edits and removes
      none, which is an error of the code.
    - Channel dialog and list: the warnings about the mapping are those of the
      submission; lists of models are read back from their text; a probe shows what
      answers the current request; a section shows an error exactly when a field of
      it has one; rows by tag are the grouping by tag; a delayed update commits the
      last value once.
    - Playground: the split of a text at its tags is exact; a source is heard until
      at most one end and is closed; overtaken requests are silent; from a
      question, edit or regeneration to its answer the text received is what is
      shown, however it is cut, batched and rendered; after a stop nothing
      changes the messages; finished messages survive a reload, changes made after
      loading are saved, and the client key is never kept beyond the session.
    Examples named in the findings show where the code departs from its intent.

    ** Not modelled

    - Formatting and currency ([lib/format.ts], [lib/currency.ts], [lib/time.ts]):
      built on [Intl], which the platform supplies.
    - React components ([.tsx]): rendering and event wiring.  Of React the chat
      handler's model has the queue of state updates: an update runs at once when
      none waits and React chooses so, or at the next render.
    - Labels, placeholders and class names ([ParamEditor] has the state and the handlers
      of its dialog, not its layout; the position of the pointer, the text of a drop
      and whether React runs an update at once are arguments).
    - Toasts, the options of the playground, and in the channel dialog the loading of a
      channel into the form.  A channel dialog runs one submission at a time: its
      button is disabled meanwhile.
    - Requests to the server beyond the session check: plain calls.
    - The Go backend, the scripts under [verify] and the built assets: other
      languages.
    - [toLowerCase] is exact on ASCII, Latin-1, Greek, Cyrillic and fullwidth
      letters and leaves other code units unchanged; objects with their own
      [toString] or [valueOf] are outside [String()]. *)

From Stdlib Require Export String Ascii ZArith NArith Lia Bool.
From stdpp Require Export base tactics option list numbers gmap.

#[global] Open Scope Z_scope.
#[global] Open Scope list_scope.

(** ** Results of code that may throw

    [Ret] is a normal return, [Throw] a thrown value, and [OutOfFuel] marks a
    recursion that was cut short by its fuel: a theorem about a modelled
    function always excludes it. *)
Inductive outcome (E A : Type) : Type :=
| Ret (a : A)
| Throw (e : E)
| OutOfFuel.
Arguments Ret {E A} a.
Arguments Throw {E A} e.
Arguments OutOfFuel {E A}.

(** A computation that threads a state [S], may throw an [E] and returns an [A]. *)
Definition action (S E A : Type) : Type := S -> outcome E (A * S).

Section Actions.
Context {S E : Type}.

Definition ret {A} (a : A) : action S E A := fun s => Ret (a, s).

Definition throw {A} (e : E) : action S E A := fun _ => Throw e.

Definition stuck {A} : action S E A := fun _ => OutOfFuel.

Definition bind {A B} (m : action S E A) (k : A -> action S E B) : action S E B :=
  fun s =>
    match m s with
    | Ret (a, s') => k a s'
    | Throw e => Throw e
    | OutOfFuel => OutOfFuel
    end.

Definition get : action S E S := fun s => Ret (s, s).

Definition gets {A} (f : S -> A) : action S E A := fun s => Ret (f s, s).

Definition modify (f : S -> S) : action S E unit := fun s => Ret (tt, f s).

(** A computation that does not touch the state. *)
Definition lift {A} (o : outcome E A) : action S E A :=
  fun s =>
    match o with
    | Ret a => Ret (a, s)
    | Throw e => Throw e
    | OutOfFuel => OutOfFuel
    end.

(** [mapM_ f xs]: a [for (const x of xs)] loop. *)
Section MapM.
Context {A : Type} (f : A -> action S E unit).

Fixpoint mapM_ (xs : list A) : action S E unit :=
  match xs with
  | [] => ret tt
  | x :: xs' => bind (f x) (fun _ => mapM_ xs')
  end.
End MapM.

(** [wp m s Q]: from state [s], [m] does not run out of fuel, and if it
    returns, its value and final state satisfy [Q].  Throwing is allowed. *)
Definition wp {A} (m : action S E A) (s : S) (Q : A -> S -> Prop) : Prop :=
  match m s with
  | Ret (a, s') => Q a s'
  | Throw _ => True
  | OutOfFuel => False
  end.

Lemma wp_ret {A} (a : A) s (Q : A -> S -> Prop) : Q a s -> wp (ret a) s Q.
Proof. done. Qed.

Lemma wp_throw {A} e s (Q : A -> S -> Prop) : wp (throw e) s Q.
Proof. done. Qed.

Lemma wp_get s (Q : S -> S -> Prop) : Q s s -> wp get s Q.
Proof. done. Qed.

Lemma wp_gets {A} (f : S -> A) s (Q : A -> S -> Prop) : Q (f s) s -> wp (gets f) s Q.
Proof. done. Qed.

Lemma wp_modify f s (Q : unit -> S -> Prop) : Q tt (f s) -> wp (modify f) s Q.
Proof. done. Qed.

Lemma wp_bind {A B} (m : action S E A) (k : A -> action S E B) s Q :
  wp m s (fun a s' => wp (k a) s' Q) -> wp (bind m k) s Q.
Proof. unfold wp, bind. by destruct (m s) as [[a s']|e|]. Qed.

Lemma wp_mono {A} (m : action S E A) s (Q Q' : A -> S -> Prop) :
  wp m s Q -> (forall a s', Q a s' -> Q' a s') -> wp m s Q'.
Proof. unfold wp. destruct (m s) as [[a s']|e|]; auto. Qed.

Lemma wp_Ret {A} (m : action S E A) s a s' Q :
  wp m s Q -> m s = Ret (a, s') -> Q a s'.
Proof. unfold wp. intros H Heq. by rewrite Heq in H. Qed.

Lemma wp_no_fuel {A} (m : action S E A) s Q : wp m s Q -> m s <> OutOfFuel.
Proof. unfold wp. intros H Heq. by rewrite Heq in H. Qed.

Lemma bind_Ret_inv {A B} (m : action S E A) (k : A -> action S E B) s b s'' :
  bind m k s = Ret (b, s'') -> exists a s', m s = Ret (a, s') /\ k a s' = Ret (b, s'').
Proof. unfold bind. destruct (m s) as [[a s']|e|]; naive_solver. Qed.

Lemma bind_OutOfFuel_inv {A B} (m : action S E A) (k : A -> action S E B) s :
  bind m k s = OutOfFuel ->
  m s = OutOfFuel \/ exists a s', m s = Ret (a, s') /\ k a s' = OutOfFuel.
Proof. unfold bind. destruct (m s) as [[a s']|e|]; naive_solver. Qed.

Lemma bind_assoc {A B C} (m : action S E A) (k : A -> action S E B)
    (h : B -> action S E C) s :
  bind (bind m k) h s = bind m (fun a => bind (k a) h) s.
Proof. unfold bind. by destruct (m s) as [[a s']|e|]. Qed.

Lemma bind_ext {A B} (m : action S E A) (k k' : A -> action S E B) s :
  (forall a s', k a s' = k' a s') -> bind m k s = bind m k' s.
Proof. unfold bind. intros H. destruct (m s) as [[a s']|e|]; auto. Qed.

Lemma mapM_app {A} (f : A -> action S E unit) xs ys s :
  mapM_ f (xs ++ ys) s = bind (mapM_ f xs) (fun _ => mapM_ f ys) s.
Proof.
  revert s. induction xs as [|x xs IH]; intros s; simpl; [done|].
  rewrite bind_assoc. apply bind_ext. auto.
Qed.

(** Invariant rule for loops. *)
Lemma wp_mapM_ {A} (f : A -> action S E unit) xs s (I : S -> Prop) :
  I s ->
  (forall x s', x ∈ xs -> I s' -> wp (f x) s' (fun _ => I)) ->
  wp (mapM_ f xs) s (fun _ => I).
Proof.
  revert s. induction xs as [|x xs IH]; intros s Hs Hf; simpl; [done|].
  apply wp_bind. eapply wp_mono; [apply Hf; [set_solver|done]|].
  intros [] s' Hs'. apply IH; [done|]. intros. apply Hf; set_solver.
Qed.
End Actions.

Declare Scope action_scope.
Delimit Scope action_scope with action.
Notation "'let!' x ':=' m 'in' k" := (bind m (fun x => k))
  (at level 10, x name, m at level 200, k at level 200) : action_scope.
Notation "'let!' ' p ':=' m 'in' k" := (bind m (fun x => match x with p => k end))
  (at level 10, p pattern, m at level 200, k at level 200) : action_scope.
Notation "m ;;; k" := (bind m (fun _ => k))
  (at level 199, right associativity) : action_scope.
#[global] Open Scope action_scope.

(** The same for results without a state. *)
Definition obind {E A B} (o : outcome E A) (k : A -> outcome E B) : outcome E B :=
  match o with
  | Ret a => k a
  | Throw e => Throw e
  | OutOfFuel => OutOfFuel
  end.
Notation "'let?' x ':=' o 'in' k" := (obind o (fun x => k))
  (at level 10, x name, o at level 200, k at level 200) : action_scope.

Lemma Ret_inj {E A} (a b : A) : @Ret E A a = Ret b -> a = b.
Proof. by intros [= ->]. Qed.

Lemma obind_Ret_inv {E A B} (o : outcome E A) (k : A -> outcome E B) b :
  obind o k = Ret b -> exists a, o = Ret a /\ k a = Ret b.
Proof. destruct o; naive_solver. Qed.

(** [xs.map(f)] for a function that may throw. *)
Fixpoint omapM {E A B} (f : A -> outcome E B) (xs : list A) : outcome E (list B) :=
  match xs with
  | [] => Ret []
  | x :: xs' => let? y := f x in let? ys := omapM f xs' in Ret (y :: ys)
  end.

Lemma omapM_Ret {E A B} (f : A -> outcome E B) xs ys :
  omapM f xs = Ret ys <-> Forall2 (fun x y => f x = Ret y) xs ys.
Proof.
  revert ys. induction xs as [|x xs IH]; intros ys; cbn.
  - split; [by intros [= <-]|]. intros H. by inversion H.
  - split.
    + intros (y & Hy & H)%obind_Ret_inv. apply obind_Ret_inv in H as (ys' & Hys & [= <-]).
      constructor; [done|]. by apply IH.
    + intros H. inversion H as [|? y ? ys' Hy Hys]; subst. rewrite Hy. cbn.
      apply IH in Hys. by rewrite Hys.
Qed.

(** ** A state that survives an exception *)

(** [None] is an exception. *)
Definition io (S A : Type) : Type := S -> option A * S.

Section Io.
Context {S : Type}.

Definition io_ret {A} (a : A) : io S A := fun s => (Some a, s).
Definition io_throw {A} : io S A := fun s => (None, s).
Definition io_bind {A B} (m : io S A) (k : A -> io S B) : io S B := fun s =>
  match m s with
  | (Some a, s') => k a s'
  | (None, s') => (None, s')
  end.
Definition io_gets {A} (f : S -> A) : io S A := fun s => (Some (f s), s).
Definition io_modify (f : S -> S) : io S unit := fun s => (Some tt, f s).
(** [try { m } catch { h }] *)
Definition io_catch {A} (m h : io S A) : io S A := fun s =>
  match m s with
  | (None, s') => h s'
  | r => r
  end.
Fixpoint io_each {A} (f : A -> io S unit) (xs : list A) : io S unit :=
  match xs with
  | [] => io_ret tt
  | x :: xs' => io_bind (f x) (fun _ => io_each f xs')
  end.
(** Run on the part [get s] of the state. *)
Definition io_on {C A} (get : S -> C) (put : C -> S -> S) (m : io C A) : io S A := fun s =>
  let '(a, c) := m (get s) in (a, put c s).
End Io.

Declare Scope io_scope.
Delimit Scope io_scope with io.
Notation "x <- m ;; k" := (io_bind m (fun x => k))
  (at level 100, m at next level, right associativity) : io_scope.
Notation "m ;; k" := (io_bind m (fun _ => k)) (at level 100, right associativity) : io_scope.

(** Decompose an equation [bind ... s = Ret ...] into the steps that returned. *)
Ltac act_inv :=
  repeat match goal with
  | H : bind _ _ _ = Ret (_, _) |- _ =>
      apply bind_Ret_inv in H; destruct H as (? & ? & ? & H)
  | H : obind _ _ = Ret _ |- _ =>
      apply obind_Ret_inv in H; destruct H as (? & ? & H)
  | H : ret _ _ = Ret (_, _) |- _ => unfold ret in H; simplify_eq
  | H : gets _ _ = Ret (_, _) |- _ => unfold gets in H; simplify_eq
  | H : get _ = Ret (_, _) |- _ => unfold get in H; simplify_eq
  | H : modify _ _ = Ret (_, _) |- _ => unfold modify in H; simplify_eq
  | H : throw _ _ = Ret (_, _) |- _ => discriminate H
  | H : stuck _ = Ret (_, _) |- _ => discriminate H
  end.

Definition nonempty_list {A} (xs : list A) : bool := match xs with [] => false | _ => true end.

Lemma in_filter {A} (p : A -> bool) l x : x ∈ List.filter p l <-> x ∈ l /\ p x = true.
Proof. rewrite !list_elem_of_In, filter_In. done. Qed.

Lemma filter_all {A} (q : A -> bool) xs : Forall (fun x => q x = true) xs -> List.filter q xs = xs.
Proof. induction 1 as [|x xs Hx _ IH]; cbn; [done|]. by rewrite Hx, IH. Qed.

Create HintDb pbr discriminated.
#[export] Hint Resolve wp_ret wp_throw wp_get wp_gets wp_modify : pbr.

