(* ===== verification/JsString.v ===== *)
(** * JavaScript strings

    A JavaScript string is a sequence of UTF-16 code units, here a list of [N].
    This file models the operations of [String.prototype] and of the simple
    regular expressions the console's code uses, with the lemmas its
    components share. *)

From S2P Require Import Prelude.

(** A string of UTF-16 code units. *)
Abbreviation jsstr := (list N).

(** An ASCII literal, [js "abc"], and a single ASCII code unit, [ch "a"]. *)
Fixpoint js (s : string) : jsstr :=
  match s with
  | EmptyString => []
  | String a s' => N_of_ascii a :: js s'
  end.

Definition ch (s : string) : N :=
  match s with
  | EmptyString => 0%N
  | String a _ => N_of_ascii a
  end.

#[global] Arguments js : simpl never.
#[global] Arguments ch : simpl never.

Definition DQUOTE : N := 34%N.

(** ** Equality and order: [a === b], and [a < b] by code units *)

Fixpoint str_eqb (a b : jsstr) : bool :=
  match a, b with
  | [], [] => true
  | x :: a', y :: b' => (x =? y)%N && str_eqb a' b'
  | _, _ => false
  end.

Fixpoint str_ltb (a b : jsstr) : bool :=
  match a, b with
  | _, [] => false
  | [], _ :: _ => true
  | x :: a', y :: b' => (x <? y)%N || ((x =? y)%N && str_ltb a' b')
  end.

Declare Scope js_scope.
Delimit Scope js_scope with js.
Notation "a === b" := (str_eqb a b) (at level 70, no associativity) : js_scope.
Notation "a !== b" := (negb (str_eqb a b)) (at level 70, no associativity) : js_scope.
#[global] Open Scope js_scope.

(** [xs.includes(s)] on an array of strings. *)
Fixpoint includes_str (xs : list jsstr) (s : jsstr) : bool :=
  match xs with
  | [] => false
  | x :: xs' => (x === s) || includes_str xs' s
  end.

(** Lookup in a constant table written as an association list
    ([Record<string, A>]): the first binding of the key. *)
Fixpoint assoc {A} (xs : list (jsstr * A)) (s : jsstr) : option A :=
  match xs with
  | [] => None
  | (k, a) :: xs' => if k === s then Some a else assoc xs' s
  end.

(** ** Character classes *)

(** [\s], which is also what [trim] removes: WhiteSpace and LineTerminator. *)
Definition is_space (c : N) : bool :=
  ((9 <=? c) && (c <=? 13) || (c =? 32) || (c =? 160) || (c =? 0x1680)
   || ((0x2000 <=? c) && (c <=? 0x200A)) || (c =? 0x2028) || (c =? 0x2029)
   || (c =? 0x202F) || (c =? 0x205F) || (c =? 0x3000) || (c =? 0xFEFF))%N.

(** [\d] *)
Definition is_digit (c : N) : bool := ((48 <=? c) && (c <=? 57))%N.

(** [[A-Za-z_]] and [\w] *)
Definition is_upper (c : N) : bool := ((65 <=? c) && (c <=? 90))%N.
Definition is_lower (c : N) : bool := ((97 <=? c) && (c <=? 122))%N.
Definition is_name_start (c : N) : bool := is_upper c || is_lower c || (c =? 95)%N.
Definition is_word (c : N) : bool := is_name_start c || is_digit c.

(** [[\da-f]] with the [i] flag *)
Definition is_hex (c : N) : bool :=
  (is_digit c || ((65 <=? c) && (c <=? 70)) || ((97 <=? c) && (c <=? 102)))%N.

Definition hex_value (c : N) : N :=
  (if is_digit c then c - 48 else if (c <=? 70) then c - 55 else c - 87)%N.

(** [Number.parseInt(s, 16)] on hexadecimal digits. *)
Definition parse_hex (s : jsstr) : N :=
  fold_left (fun acc c => 16 * acc + hex_value c)%N s 0%N.

(** [Number.parseInt(s, 10)] on decimal digits, as an integer. *)
Definition parse_dec (s : jsstr) : N :=
  fold_left (fun acc c => 10 * acc + (c - 48))%N s 0%N.

(** [/^\d+$/.test(s)] *)
Definition all_digits (s : jsstr) : bool :=
  match s with [] => false | _ => forallb is_digit s end.

(** ** Scanning *)

Fixpoint take_while (p : N -> bool) (s : jsstr) : jsstr :=
  match s with
  | [] => []
  | c :: s' => if p c then c :: take_while p s' else []
  end.

Fixpoint drop_while (p : N -> bool) (s : jsstr) : jsstr :=
  match s with
  | [] => []
  | c :: s' => if p c then drop_while p s' else s
  end.

(** [s.startsWith(prefix)] *)
Fixpoint starts_with (prefix s : jsstr) : bool :=
  match prefix, s with
  | [], _ => true
  | x :: prefix', c :: s' => (x =? c)%N && starts_with prefix' s'
  | _ :: _, [] => false
  end.

(** [s.endsWith(suffix)] *)
Definition ends_with (suffix s : jsstr) : bool := starts_with (rev suffix) (rev s).

(** [s.indexOf(needle)], [None] for [-1] *)
Fixpoint index_of (needle s : jsstr) : option nat :=
  if starts_with needle s then Some 0%nat
  else match s with
       | [] => None
       | _ :: s' => S <$> index_of needle s'
       end.

(** [s.includes(needle)] *)
Definition includes (needle s : jsstr) : bool :=
  match index_of needle s with Some _ => true | None => false end.

(** [s.includes(c)] for one code unit *)
Definition includes_unit (c : N) (s : jsstr) : bool := existsb (N.eqb c) s.

(** [s.slice(a, b)] for 0 <= a and 0 <= b *)
Definition slice (a b : nat) (s : jsstr) : jsstr := take (b - a) (drop a s).

(** [s.trim()] *)
Definition trim_start (s : jsstr) : jsstr := drop_while is_space s.
Definition trim_end (s : jsstr) : jsstr := rev (drop_while is_space (rev s)).
Definition trim (s : jsstr) : jsstr := trim_end (trim_start s).

(** [s.split(c)] for a separator of one code unit: never empty *)
Fixpoint split (c : N) (s : jsstr) : list jsstr :=
  match s with
  | [] => [[]]
  | x :: s' =>
      if (x =? c)%N then [] :: split c s'
      else match split c s' with
           | [] => [[x]]
           | p :: ps => (x :: p) :: ps
           end
  end.

(** [parts.join(sep)] *)
Fixpoint join (sep : jsstr) (parts : list jsstr) : jsstr :=
  match parts with
  | [] => []
  | [p] => p
  | p :: ps => p ++ sep ++ join sep ps
  end.

(** Boolean value of a string, as in [filter(Boolean)]: the empty string is false. *)
Definition nonempty (s : jsstr) : bool := match s with [] => false | _ => true end.

(** [[...new Set(xs)]]: the first occurrence of every element, in order. *)
Fixpoint dedupe_from (seen xs : list jsstr) : list jsstr :=
  match xs with
  | [] => []
  | x :: xs' =>
      if includes_str seen x then dedupe_from seen xs'
      else x :: dedupe_from (seen ++ [x]) xs'
  end.
Definition dedupe (xs : list jsstr) : list jsstr := dedupe_from [] xs.

(** [s.toLowerCase()].  The case mappings of ASCII, Latin-1, Greek, Cyrillic and
    fullwidth letters are modelled; other code units are left unchanged. *)
Definition lower_unit (c : N) : N :=
  (if is_upper c then c + 32
   else if (0xC0 <=? c) && (c <=? 0xDE) && negb (c =? 0xD7) then c + 32
   else if (0x391 <=? c) && (c <=? 0x3A9) && negb (c =? 0x3A2) then c + 32
   else if (0x410 <=? c) && (c <=? 0x42F) then c + 32
   else if (0x400 <=? c) && (c <=? 0x40F) then c + 80
   else if (0xFF21 <=? c) && (c <=? 0xFF3A) then c + 32
   else c)%N.
Definition to_lower (s : jsstr) : jsstr := map lower_unit s.

(** [String(n)] for a natural number: decimal digits. *)
Fixpoint dec_digits (fuel : nat) (n : N) (acc : jsstr) : jsstr :=
  match fuel with
  | O => acc
  | S fuel' =>
      let acc' := (48 + n mod 10)%N :: acc in
      if (n <? 10)%N then acc' else dec_digits fuel' (n / 10)%N acc'
  end.
Definition string_of_N (n : N) : jsstr := dec_digits (S (N.to_nat (N.log2 n))) n [].

Definition string_of_Z (z : Z) : jsstr :=
  if z <? 0 then ch "-" :: string_of_N (Z.to_N (- z)) else string_of_N (Z.to_N z).

(** [s.padStart(n, c)] *)
Definition pad_start (n : nat) (c : N) (s : jsstr) : jsstr :=
  repeat c (n - length s) ++ s.

(** ** Lemmas *)

Lemma str_eqb_spec (a b : jsstr) : reflect (a = b) (a === b).
Proof.
  revert b. induction a as [|x a IH]; intros [|y b]; simpl; try (constructor; congruence).
  destruct (N.eqb_spec x y) as [->|Hne]; simpl; [|constructor; congruence].
  destruct (IH b) as [->|Hne]; constructor; congruence.
Qed.

Lemma str_eqb_refl a : (a === a) = true.
Proof. by destruct (str_eqb_spec a a). Qed.

Lemma str_eqb_eq a b : (a === b) = true <-> a = b.
Proof. by destruct (str_eqb_spec a b). Qed.

Lemma str_eqb_neq a b : (a === b) = false <-> a <> b.
Proof. by destruct (str_eqb_spec a b). Qed.

Lemma str_eqb_sym a b : (a === b) = (b === a).
Proof. destruct (str_eqb_spec a b), (str_eqb_spec b a); congruence. Qed.

Lemma includes_str_spec xs s : includes_str xs s = true <-> s ∈ xs.
Proof.
  induction xs as [|x xs IH]; simpl; [set_solver|].
  rewrite orb_true_iff, IH, str_eqb_eq. set_solver.
Qed.

Lemma includes_str_false xs s : includes_str xs s = false <-> s ∉ xs.
Proof. rewrite <- includes_str_spec. by destruct (includes_str xs s). Qed.

Lemma take_drop_while p s : take_while p s ++ drop_while p s = s.
Proof. induction s as [|c s IH]; simpl; [done|]. destruct (p c); simpl; congruence. Qed.

Lemma length_take_while p s : (length (take_while p s) <= length s)%nat.
Proof. induction s as [|c s IH]; simpl; [lia|]. destruct (p c); simpl; lia. Qed.

Lemma length_drop_while p s : (length (drop_while p s) <= length s)%nat.
Proof. induction s as [|c s IH]; simpl; [lia|]. destruct (p c); simpl; lia. Qed.

Lemma drop_length_take_while p s : drop (length (take_while p s)) s = drop_while p s.
Proof.
  induction s as [|c s IH]; simpl; [done|]. destruct (p c); simpl; auto.
Qed.

Lemma drop_while_none p s : forallb (fun c => negb (p c)) s = true -> drop_while p s = s.
Proof. destruct s as [|c s]; simpl; [done|]. by destruct (p c). Qed.

Lemma forallb_rev {A} (p : A -> bool) l : forallb p (rev l) = forallb p l.
Proof.
  induction l as [|x l IH]; simpl; [done|].
  rewrite forallb_app, IH. simpl. rewrite andb_true_r. apply andb_comm.
Qed.

(** Text without spaces is not changed by trimming. *)
Lemma trim_no_space s : forallb (fun c => negb (is_space c)) s = true -> trim s = s.
Proof.
  intros Hs. unfold trim, trim_start, trim_end. rewrite (drop_while_none _ s) by done.
  rewrite drop_while_none; [apply rev_involutive|]. by rewrite forallb_rev.
Qed.

(** *** Trimming *)

Lemma length_trim s : (length (trim s) <= length s)%nat.
Proof.
  unfold trim, trim_end, trim_start. rewrite length_rev.
  pose proof (length_drop_while is_space (rev (drop_while is_space s))) as H.
  rewrite length_rev in H. pose proof (length_drop_while is_space s). lia.
Qed.

Lemma drop_while_idemp p s : drop_while p (drop_while p s) = drop_while p s.
Proof.
  induction s as [|c s IH]; cbn [drop_while]; [done|]. destruct (p c) eqn:Hp; [done|].
  cbn [drop_while]. by rewrite Hp.
Qed.

(** Text with no space at either end. *)
Lemma trim_ends s a b : s <> [] -> hd_error s = Some a -> hd_error (rev s) = Some b ->
  is_space a = false -> is_space b = false -> trim s = s.
Proof.
  intros Hne Ha Hb Hsa Hsb. unfold trim, trim_start, trim_end.
  assert (drop_while is_space s = s) as ->.
  { destruct s as [|c s]; [done|]. injection Ha as ->. cbn [drop_while]. by rewrite Hsa. }
  assert (drop_while is_space (rev s) = rev s) as ->.
  { destruct (rev s) as [|c t]; [done|]. injection Hb as ->. cbn [drop_while]. by rewrite Hsb. }
  apply rev_involutive.
Qed.

Lemma drop_while_head p s c t : drop_while p s = c :: t -> p c = false.
Proof.
  induction s as [|x s IH]; cbn [drop_while]; [done|]. destruct (p x) eqn:Hx; [done|].
  by intros [= -> ->].
Qed.

Lemma trim_end_prefix s : exists t, s = trim_end s ++ t.
Proof.
  unfold trim_end. exists (rev (take_while is_space (rev s))).
  by rewrite <- rev_app_distr, take_drop_while, rev_involutive.
Qed.

Lemma trim_head s c t : trim s = c :: t -> is_space c = false.
Proof.
  unfold trim. intros H. destruct (trim_end_prefix (trim_start s)) as [u Hu].
  rewrite H in Hu. by eapply (drop_while_head is_space s).
Qed.

Lemma trim_idemp s : trim (trim s) = trim s.
Proof.
  destruct (trim s) as [|c t] eqn:Ht; [done|]. pose proof (trim_head s c t Ht) as Hc.
  unfold trim, trim_start. cbn [drop_while]. rewrite Hc.
  rewrite <- Ht. unfold trim at 1 2, trim_end. rewrite !rev_involutive, drop_while_idemp. done.
Qed.

(** A text with a code unit that is no space is not blank. *)
Lemma trim_nonempty c s : is_space c = false -> nonempty (trim (c :: s)) = true.
Proof.
  intros Hc. unfold trim, trim_end, trim_start. cbn [drop_while]. rewrite Hc. cbn [rev].
  assert (Hkeep : forall l, drop_while is_space (l ++ [c]) <> []).
  { induction l as [|x l IH]; cbn [app drop_while]; [by rewrite Hc|]. by destruct (is_space x). }
  specialize (Hkeep (rev s)). destruct (drop_while is_space (rev s ++ [c])) as [|x l]; [done|].
  cbn [rev]. by destruct (rev l).
Qed.

Lemma trim_trim_start s : trim (trim_start s) = trim s.
Proof. unfold trim, trim_start. by rewrite drop_while_idemp. Qed.

Lemma elem_not_blank c s : c ∈ s -> is_space c = false -> nonempty (trim s) = true.
Proof.
  intros Hin Hc. rewrite <- trim_trim_start. destruct (trim_start s) as [|x t] eqn:Ht.
  - exfalso. unfold trim_start in Ht. induction s as [|y s IH]; [inversion Hin|].
    cbn [drop_while] in Ht. destruct (is_space y) eqn:Hy; [|done].
    apply elem_of_cons in Hin as [->|Hin]; [congruence|by apply IH].
  - apply trim_nonempty. by apply (drop_while_head is_space s _ t).
Qed.

Lemma trim_space s : trim (32%N :: s) = trim s.
Proof. done. Qed.

Lemma trim_snoc_space s : trim s = s -> trim (s ++ [32%N]) = s.
Proof.
  intros Hs. destruct s as [|c s]; [done|]. pose proof (trim_head _ _ _ Hs) as Hc.
  unfold trim, trim_start, trim_end in *. cbn [app drop_while] in *. rewrite Hc in *.
  rewrite app_comm_cons, rev_app_distr. cbn [rev app drop_while].
  change (is_space 32) with true. exact Hs.
Qed.

(** *** Prefixes, parts, sets, order *)

Lemma starts_with_app p s : starts_with p (p ++ s) = true.
Proof. induction p as [|x p IH]; simpl; [done|]. by rewrite N.eqb_refl. Qed.

Lemma starts_with_spec p s : starts_with p s = true <-> exists t, s = p ++ t.
Proof.
  split; [|intros [t ->]; apply starts_with_app].
  revert s. induction p as [|x p IH]; intros s; simpl; [eauto|].
  destruct s as [|c s]; [done|]. rewrite andb_true_iff, N.eqb_eq.
  intros [-> [t ->]%IH]. eauto.
Qed.

Lemma nonempty_false s : negb (nonempty s) = true <-> s = [].
Proof. destruct s; cbn; split; congruence. Qed.

(** *** Searching *)

Lemma index_of_Some n s i :
  index_of n s = Some i ->
  (exists b, s = take i s ++ n ++ b) /\ forall a b, s = a ++ n ++ b -> (i <= length a)%nat.
Proof.
  revert i. induction s as [|x s IH]; intros i.
  - cbn. destruct (starts_with n []) eqn:Hs; [|done]. intros [= <-].
    split; [|lia]. apply starts_with_spec in Hs as [t Ht]. by exists t.
  - cbn [index_of]. destruct (starts_with n (x :: s)) eqn:Hs.
    { intros [= <-]. split; [|lia]. apply starts_with_spec in Hs as [t Ht]. by exists t. }
    destruct (index_of n s) as [j|] eqn:Hj; [|done]. intros [= <-].
    destruct (IH j eq_refl) as [[b Hb] Hmin]. split.
    + exists b. cbn. by f_equal.
    + intros [|y a] b' Heq.
      * cbn [app] in Heq. rewrite Heq in Hs. by rewrite starts_with_app in Hs.
      * injection Heq as -> Heq. apply Hmin in Heq. cbn. lia.
Qed.

Lemma includes_spec n s : includes n s = true <-> exists a b, s = a ++ n ++ b.
Proof.
  unfold includes. split.
  - destruct (index_of n s) as [i|] eqn:Hi; [|done]. intros _.
    destruct (index_of_Some _ _ _ Hi) as [[b Hb] _]. by eexists _, b.
  - intros (a & b & ->). induction a as [|x a IH]; cbn [app].
    + pose proof (starts_with_app n b) as Hs. destruct (n ++ b) eqn:E; cbn [index_of]; by rewrite Hs.
    + cbn [index_of]. destruct (starts_with n _); [done|]. by destruct (index_of n (a ++ n ++ b)).
Qed.

(** A needle whose first unit does not occur again in it is found right after a
    text without it. *)
Lemma index_of_needle c n s rest :
  c ∉ n -> includes (c :: n) s = false ->
  index_of (c :: n) (s ++ (c :: n) ++ rest) = Some (length s).
Proof.
  intros Hc. induction s as [|x s IH]; intros Hs.
  - cbn [app index_of]. by rewrite (starts_with_app (c :: n) rest : starts_with (c :: n) (c :: n ++ rest) = true).
  - cbn [app index_of]. destruct (starts_with (c :: n) (x :: s ++ (c :: n) ++ rest)) eqn:Hsw.
    + exfalso. apply starts_with_spec in Hsw as [t [= -> Ht]].
      apply not_true_iff_false in Hs. apply Hs, includes_spec.
      apply app_eq_app in Ht as [l [[-> Ht]|[-> Ht]]].
      * by exists [], l.
      * destruct l as [|y l]; [exists [], []; by rewrite !app_nil_r|].
        cbn in Ht. injection Ht as -> Ht. set_solver.
    + cbn [app] in IH, Hsw. rewrite IH; [by rewrite Hsw|]. apply not_true_iff_false. intros H. apply not_true_iff_false in Hs.
      apply Hs. apply includes_spec in H as (a & b & ->). apply includes_spec. by exists (x :: a), b.
Qed.

(** The text before the first occurrence does not have the needle. *)
Lemma index_of_before n s i :
  n <> [] -> index_of n s = Some i -> includes n (take i s) = false.
Proof.
  intros Hn Hi. apply not_true_iff_false. intros (a & b & Hab)%includes_spec.
  destruct (index_of_Some _ _ _ Hi) as [[b' Hb'] Hmin].
  assert (s = a ++ n ++ (b ++ n ++ b')) as Hs
    by (rewrite Hb', Hab at 1; by rewrite <- !app_assoc).
  apply Hmin in Hs. pose proof (f_equal length Hab) as Hl.
  rewrite length_take, !length_app in Hl. destruct n; [done|]. cbn in Hl. lia.
Qed.

Lemma split_nonnil c s : split c s <> [].
Proof. induction s as [|x s IH]; simpl; [done|]. destruct (x =? c)%N, (split c s); done. Qed.

Lemma join_split c s : join [c] (split c s) = s.
Proof.
  induction s as [|x s IH]; simpl; [done|].
  pose proof (split_nonnil c s) as Hne.
  destruct (N.eqb_spec x c) as [->|Hxc].
  - destruct (split c s) as [|p ps]; [done|]. by rewrite <- IH.
  - destruct (split c s) as [|p [|q qs]]; simpl in *; congruence.
Qed.

Lemma split_no_sep c s p : p ∈ split c s -> c ∉ p.
Proof.
  revert p. induction s as [|x s IH]; simpl; intros p.
  - rewrite list_elem_of_singleton. intros ->. set_solver.
  - destruct (N.eqb_spec x c) as [->|Hxc].
    + rewrite elem_of_cons. intros [->|Hp]; [set_solver|auto].
    + pose proof (split_nonnil c s) as Hne.
      destruct (split c s) as [|q qs]; [done|]. rewrite elem_of_cons.
      intros [->|Hp]; [|apply IH; set_solver].
      rewrite elem_of_cons. intros [->|Hc]; [done|].
      apply (IH q); [set_solver|done].
Qed.

(** Splitting undoes a join of separator-free parts. *)
Lemma split_join c ps :
  ps <> [] -> Forall (fun p => c ∉ p) ps -> split c (join [c] ps) = ps.
Proof.
  assert (Hone : forall p, c ∉ p -> split c p = [p]).
  { induction p as [|x p IH]; intros Hp; simpl; [done|].
    destruct (N.eqb_spec x c) as [->|]; [set_solver|]. rewrite IH; set_solver. }
  assert (Happ : forall p s, c ∉ p -> split c (p ++ c :: s) = p :: split c s).
  { induction p as [|x p IH]; intros s Hp; simpl.
    - by rewrite N.eqb_refl.
    - destruct (N.eqb_spec x c) as [->|]; [set_solver|]. rewrite IH; set_solver. }
  induction ps as [|p [|q qs] IH]; intros Hne Hall; [done|..].
  - inversion_clear Hall. simpl. auto.
  - inversion_clear Hall.
    change (join [c] (p :: q :: qs)) with (p ++ c :: join [c] (q :: qs)).
    rewrite Happ by done. by rewrite IH.
Qed.

Lemma dedupe_from_spec seen xs x :
  x ∈ dedupe_from seen xs <-> x ∈ xs /\ x ∉ seen.
Proof.
  revert seen. induction xs as [|y xs IH]; intros seen; simpl; [set_solver|].
  destruct (includes_str seen y) eqn:Hy.
  - apply includes_str_spec in Hy. rewrite IH. set_solver.
  - apply includes_str_false in Hy. rewrite elem_of_cons, IH.
    destruct (decide (x = y)); set_solver.
Qed.

Lemma dedupe_from_NoDup seen xs : NoDup (dedupe_from seen xs).
Proof.
  revert seen. induction xs as [|y xs IH]; intros seen; simpl; [constructor|].
  destruct (includes_str seen y) eqn:Hy; [auto|].
  constructor; [|auto]. rewrite dedupe_from_spec. set_solver.
Qed.

Lemma elem_of_dedupe xs x : x ∈ dedupe xs <-> x ∈ xs.
Proof. unfold dedupe. rewrite dedupe_from_spec. set_solver. Qed.

Lemma NoDup_dedupe xs : NoDup (dedupe xs).
Proof. apply dedupe_from_NoDup. Qed.

Lemma dedupe_from_id seen xs :
  NoDup xs -> (forall x, x ∈ xs -> x ∉ seen) -> dedupe_from seen xs = xs.
Proof.
  revert seen. induction xs as [|y xs IH]; intros seen Hnd Hdis; simpl; [done|].
  inversion_clear Hnd.
  assert (includes_str seen y = false) as ->.
  { apply includes_str_false. apply Hdis. set_solver. }
  f_equal. apply IH; [done|]. set_solver.
Qed.

Lemma dedupe_idemp xs : dedupe (dedupe xs) = dedupe xs.
Proof. apply dedupe_from_id; [apply NoDup_dedupe|set_solver]. Qed.

(** [<] on strings is a strict total order. *)
Lemma str_ltb_irrefl a : str_ltb a a = false.
Proof. induction a as [|x a IH]; simpl; [done|]. by rewrite N.ltb_irrefl, N.eqb_refl. Qed.

Lemma str_ltb_trans a b c : str_ltb a b = true -> str_ltb b c = true -> str_ltb a c = true.
Proof.
  revert b c. induction a as [|x a IH]; intros [|y b] [|z c]; simpl; try done.
  rewrite !orb_true_iff, !andb_true_iff, !N.ltb_lt, !N.eqb_eq.
  intros [?|[-> Hab]] [?|[-> Hbc]]; [left; lia|left; lia|by left|right; split; eauto].
Qed.

Lemma str_ltb_total a b : str_ltb a b = false -> str_ltb b a = false -> a = b.
Proof.
  revert b. induction a as [|x a IH]; intros [|y b]; simpl; try done.
  rewrite !orb_false_iff, !N.ltb_ge. intros [? Ha] [? Hb].
  assert (x = y) as -> by lia. rewrite N.eqb_refl in Ha, Hb. f_equal. auto.
Qed.

Lemma str_ltb_asym a b : str_ltb a b = true -> str_ltb b a = false.
Proof.
  intros Hab. destruct (str_ltb b a) eqn:Hba; [|done].
  pose proof (str_ltb_trans _ _ _ Hab Hba) as H. by rewrite str_ltb_irrefl in H.
Qed.

(** The order "not greater" is transitive. *)
Lemma str_leb_trans a b c : str_ltb b a = false -> str_ltb c b = false -> str_ltb c a = false.
Proof.
  intros Hab Hbc. destruct (str_ltb c a) eqn:Hca; [|done].
  destruct (str_ltb a b) eqn:Hab'.
  - by rewrite (str_ltb_trans c a b) in Hbc.
  - rewrite (str_ltb_total a b) in Hca by done. congruence.
Qed.

Create HintDb js.
#[export] Hint Rewrite str_eqb_refl str_eqb_eq str_eqb_neq : js.
#[export] Hint Resolve str_eqb_refl starts_with_app split_nonnil NoDup_dedupe : pbr.

#[global] Arguments includes_str : simpl never.
#[global] Arguments includes_unit : simpl never.
#[global] Arguments slice : simpl never.

(** Evaluate the comparisons of two literals in a hypothesis. *)
Ltac js_literals H :=
  repeat match type of H with
  | context [str_eqb (js ?a) (js ?b)] =>
      let r := eval vm_compute in (str_eqb (js a) (js b)) in
      change (str_eqb (js a) (js b)) with r in H
  | context [includes_str ?l (js ?b)] =>
      let r := eval vm_compute in (includes_str l (js b)) in
      change (includes_str l (js b)) with r in H
  end; cbv iota in H; cbn [negb orb andb] in H.

(** ** Decimal digits *)

Lemma parse_dec_digits fuel n acc : (n < 10 ^ N.of_nat fuel)%N ->
  parse_dec (dec_digits fuel n acc) = fold_left (fun a c => 10 * a + (c - 48))%N acc n.
Proof.
  revert n acc. induction fuel as [|fuel IH]; intros n acc Hn; [cbn in Hn |- *; by replace n with 0%N by lia|].
  rewrite Nat2N.inj_succ, N.pow_succ_r' in Hn. pose proof (N.mod_lt n 10 ltac:(lia)).
  pose proof (N.div_mod n 10 ltac:(lia)). cbn [dec_digits]. destruct (N.ltb_spec n 10).
  - unfold parse_dec. cbn [fold_left]. rewrite N.mod_small by done. f_equal. clear. lia.
  - rewrite IH by (apply N.Div0.div_lt_upper_bound; lia). cbn [fold_left]. f_equal. set (q := (n mod 10)%N) in *. set (d := (n / 10)%N) in *. clearbody q d. clear -H0. lia.
Qed.

(** A number is read back from its digits. *)
Lemma parse_dec_string_of_N n : parse_dec (string_of_N n) = n.
Proof.
  unfold string_of_N. rewrite parse_dec_digits; [done|]. destruct (decide (n = 0%N)) as [->|Hn]; [done|].
  pose proof (N.log2_spec n ltac:(lia)) as [_ Hlog]. rewrite Nat2N.inj_succ, N2Nat.id.
  eapply N.lt_le_trans; [exact Hlog|]. apply N.pow_le_mono_l. lia.
Qed.

Lemma string_of_N_inj m n : string_of_N m = string_of_N n -> m = n.
Proof. intros H. by rewrite <- (parse_dec_string_of_N m), H, parse_dec_string_of_N. Qed.

Lemma dec_digits_digits fuel n acc : forallb is_digit acc = true -> forallb is_digit (dec_digits fuel n acc) = true.
Proof.
  revert n acc. induction fuel as [|fuel IH]; intros n acc Hacc; [done|]. cbn [dec_digits].
  assert (Hd : forallb is_digit ((48 + n mod 10)%N :: acc) = true).
  { cbn [forallb]. rewrite Hacc, andb_true_r. unfold is_digit. pose proof (N.mod_lt n 10 ltac:(lia)).
    apply andb_true_iff. rewrite !N.leb_le. set (q := (n mod 10)%N) in *. clearbody q. lia. }
  destruct (n <? 10)%N; [done|]. by apply IH.
Qed.

Lemma string_of_N_digits n : forallb is_digit (string_of_N n) = true.
Proof. by apply dec_digits_digits. Qed.
