(* ===== verification/JsNumber.v ===== *)
(** * JavaScript numbers

    A JavaScript number is an IEEE 754 binary64 value.  [num] is the
    specification-level float of the Standard Library ([SpecFloat]) at
    precision 53 and maximal exponent 1024, whose operations compute the
    correctly rounded results inside the kernel.  This file adds what the
    console's code uses of [Number] and [Math]: integer tests, [%], rounding,
    the conversion from decimal text and the shortest decimal output. *)

From Stdlib Require Export SpecFloat.
From S2P Require Import Prelude JsString.

Abbreviation num := spec_float.

#[global] Instance num_eq_dec : EqDecision num.
Proof. solve_decision. Defined.

Definition prec : Z := 53.
Definition emax : Z := 1024.

Definition num_of_Z (z : Z) : num := binary_normalize prec emax z 0 false.

Definition zero : num := S754_zero false.
Definition neg_zero : num := S754_zero true.

(** ** Arithmetic *)

Definition nadd : num -> num -> num := SFadd prec emax.
Definition nsub : num -> num -> num := SFsub prec emax.
Definition nmul : num -> num -> num := SFmul prec emax.
Definition ndiv : num -> num -> num := SFdiv prec emax.
Definition nneg : num -> num := SFopp.
Definition nabs : num -> num := SFabs.

(** [a === b], [a < b], [a <= b] on numbers; all false on NaN. *)
Definition num_eqb : num -> num -> bool := SFeqb.
Definition num_ltb : num -> num -> bool := SFltb.
Definition num_leb : num -> num -> bool := SFleb.

Declare Scope num_scope.
Delimit Scope num_scope with num.
Notation "a + b" := (nadd a b) : num_scope.
Notation "a - b" := (nsub a b) : num_scope.
Notation "a * b" := (nmul a b) : num_scope.
Notation "a / b" := (ndiv a b) : num_scope.
Notation "- a" := (nneg a) : num_scope.
Notation "a =? b" := (num_eqb a b) : num_scope.
Notation "a <? b" := (num_ltb a b) : num_scope.
Notation "a <=? b" := (num_leb a b) : num_scope.

(** [Number.isFinite] *)
Definition is_finite (x : num) : bool :=
  match x with
  | S754_zero _ | S754_finite _ _ _ => true
  | _ => false
  end.

Definition is_nan (x : num) : bool := match x with S754_nan => true | _ => false end.

(** A finite value is [num_mantissa x * 2 ^ num_exponent x]. *)
Definition num_mantissa (x : num) : Z :=
  match x with
  | S754_finite s m _ => if s then Zneg m else Zpos m
  | _ => 0
  end.
Definition num_exponent (x : num) : Z :=
  match x with S754_finite _ _ e => e | _ => 0 end.
Definition num_sign (x : num) : bool :=
  match x with
  | S754_zero s | S754_infinity s | S754_finite s _ _ => s
  | S754_nan => false
  end.

(** The integer below a finite value, and the one towards zero. *)
Definition Zfloor_num (x : num) : Z :=
  let e := num_exponent x in
  if 0 <=? e then num_mantissa x * 2 ^ e else num_mantissa x / 2 ^ (- e).
Definition Ztrunc_num (x : num) : Z :=
  if num_sign x then - Zfloor_num (nneg x) else Zfloor_num x.

(** [Number.isInteger], [Number.isSafeInteger] *)
Definition is_integer (x : num) : bool :=
  match x with
  | S754_zero _ => true
  | S754_finite _ m e => (0 <=? e) || (Zpos m mod 2 ^ (- e) =? 0)
  | _ => false
  end.
Definition MAX_SAFE_INTEGER : Z := 2 ^ 53 - 1.
Definition is_safe_integer (x : num) : bool :=
  is_integer x && (Z.abs (Zfloor_num x) <=? MAX_SAFE_INTEGER).

(** An integer result that keeps the sign of a zero. *)
Definition num_of_Z_sign (z : Z) (negative : bool) : num :=
  if z =? 0 then S754_zero negative else num_of_Z z.

(** [Math.floor], [Math.ceil], [Math.round] (half up), [Math.trunc] *)
Definition nfloor (x : num) : num :=
  match x with
  | S754_finite s _ _ => num_of_Z_sign (Zfloor_num x) s
  | _ => x
  end.
Definition nceil (x : num) : num := nneg (nfloor (nneg x)).

Definition Zround_num (x : num) : Z :=
  let e := num_exponent x in
  if 0 <=? e then num_mantissa x * 2 ^ e
  else (2 * num_mantissa x + 2 ^ (- e)) / 2 ^ (1 - e).
Definition nround (x : num) : num :=
  match x with
  | S754_finite s _ _ => num_of_Z_sign (Zround_num x) s
  | _ => x
  end.

(** [Math.min], [Math.max]: NaN wins, and -0 is below +0. *)
Definition nmin (a b : num) : num :=
  if is_nan a || is_nan b then S754_nan
  else match SFcompare a b with
       | Some Lt => a
       | Some Gt => b
       | _ => if num_sign a then a else b
       end.
Definition nmax (a b : num) : num :=
  if is_nan a || is_nan b then S754_nan
  else match SFcompare a b with
       | Some Gt => a
       | Some Lt => b
       | _ => if num_sign a then b else a
       end.

(** [a % b]: the exact remainder of the truncated quotient, with the sign of [a]. *)
Definition nrem (a b : num) : num :=
  match a, b with
  | S754_nan, _ | _, S754_nan | S754_infinity _, _ | _, S754_zero _ => S754_nan
  | S754_zero s, _ => S754_zero s
  | _, S754_infinity _ => a
  | S754_finite s _ e1, S754_finite _ _ e2 =>
      let e := Z.min e1 e2 in
      let r := Z.rem (num_mantissa a * 2 ^ (e1 - e)) (num_mantissa b * 2 ^ (e2 - e)) in
      if r =? 0 then S754_zero s else binary_normalize prec emax r e s
  end.

(** ** Decimal text to number

    [num_of_decimal m e] is the double nearest to [m * 10 ^ e] (ties to even). *)
Definition num_of_decimal (m : N) (e : Z) : num :=
  match m with
  | N0 => zero
  | Npos p =>
      if 0 <=? e then num_of_Z (Zpos p * 10 ^ e)
      else
        match 10 ^ (- e) with
        | Zpos d =>
            let '(q, e', l) := SFdiv_core_binary prec emax (Zpos p) 0 (Zpos d) 0 in
            binary_round_aux prec emax false q e' l
        | _ => zero
        end
  end.

(** The parts of a decimal literal: integer digits, fraction digits, exponent.
    Exponents beyond ±100000 are clamped: no literal of the lengths the code
    accepts tells them apart. *)
Record decimal := Decimal { d_int : jsstr; d_frac : jsstr; d_exp : Z }.

Definition num_of_literal (d : decimal) : num :=
  num_of_decimal (parse_dec (d_int d ++ d_frac d))
    (Z.max (-100000) (Z.min 100000 (d_exp d)) - Z.of_nat (length (d_frac d))).

(** The anchored number pattern: digits with an optional fraction, or a fraction
    alone, then an optional exponent.  The result is the literal a text starts
    with and the number of code units it takes.  The exponent is
    optional, so a malformed one is simply not part of the match. *)
Definition scan_exponent (s : jsstr) : Z * nat :=
  match s with
  | c :: s' =>
      if (c =? ch "e")%N || (c =? ch "E")%N then
        let '(sg, skip, s'') :=
          match s' with
          | c' :: s'' =>
              if (c' =? ch "+")%N then (1, 2%nat, s'')
              else if (c' =? ch "-")%N then (-1, 2%nat, s'')
              else (1, 1%nat, s')
          | [] => (1, 1%nat, s')
          end in
        match take_while is_digit s'' with
        | [] => (0, 0%nat)
        | ds => (sg * Z.of_N (parse_dec ds), (skip + length ds)%nat)
        end
      else (0, 0%nat)
  | [] => (0, 0%nat)
  end.

Arguments scan_exponent : simpl never.

Definition scan_decimal (s : jsstr) : option (decimal * nat) :=
  let ip := take_while is_digit s in
  let rest := drop_while is_digit s in
  match ip, rest with
  | _ :: _, c :: rest' =>
      if (c =? ch ".")%N then
        let fp := take_while is_digit rest' in
        let '(x, n) := scan_exponent (drop_while is_digit rest') in
        Some (Decimal ip fp x, (length ip + 1 + length fp + n)%nat)
      else
        let '(x, n) := scan_exponent rest in
        Some (Decimal ip [] x, (length ip + n)%nat)
  | _ :: _, [] => Some (Decimal ip [] 0, length ip)
  | [], c :: rest' =>
      if (c =? ch ".")%N then
        match take_while is_digit rest' with
        | [] => None
        | fp =>
            let '(x, n) := scan_exponent (drop_while is_digit rest') in
            Some (Decimal [] fp x, (1 + length fp + n)%nat)
        end
      else None
  | [], [] => None
  end.

(** [Number(s)] on decimal text with an optional sign: NaN on other text. *)
Definition number_of_string (s : jsstr) : num :=
  match trim s with
  | [] => zero
  | c :: t =>
      let '(neg, body) :=
        if (c =? ch "-")%N then (true, t)
        else if (c =? ch "+")%N then (false, t)
        else (false, c :: t) in
      match scan_decimal body with
      | Some (d, n) =>
          if (n =? length body)%nat
          then (if neg then nneg (num_of_literal d) else num_of_literal d)
          else S754_nan
      | None => S754_nan
      end
  end.

(** The other forms that [Number(s)] reads: [Infinity], and hexadecimal, octal and
    binary integers without a sign. *)
Definition radix_of (c : N) : option N :=
  if (c =? ch "x")%N || (c =? ch "X")%N then Some 16%N
  else if (c =? ch "o")%N || (c =? ch "O")%N then Some 8%N
  else if (c =? ch "b")%N || (c =? ch "B")%N then Some 2%N
  else None.

Definition radix_value (radix : N) (s : jsstr) : num :=
  if nonempty s && forallb (fun c => is_hex c && (hex_value c <? radix)%N) s
  then num_of_Z (Z.of_N (fold_left (fun n c => (radix * n + hex_value c)%N) s 0%N))
  else S754_nan.

Definition number_of_text (s : jsstr) : num :=
  let t := trim s in
  if (t === js "Infinity") || (t === js "+Infinity") then S754_infinity false
  else if t === js "-Infinity" then S754_infinity true
  else match t with
       | z :: c :: digits =>
           if (z =? ch "0")%N then
             match radix_of c with
             | Some radix => radix_value radix digits
             | None => number_of_string s
             end
           else number_of_string s
       | _ => number_of_string s
       end.

(** ** Number to decimal text

    The shortest digits that read back as the value (ECMA-262 Number::toString):
    [s * 10 ^ (n - k)] with [k] digits, [k] minimal, and the closest such [s]. *)

(** Compare a positive finite value with [10 ^ n]. *)
Definition ge_pow10 (m e n : Z) : bool :=
  let l := m * 2 ^ Z.max 0 e * 10 ^ Z.max 0 (- n) in
  let r := 10 ^ Z.max 0 n * 2 ^ Z.max 0 (- e) in
  r <=? l.

(** The [n] with [10 ^ (n - 1) <= m * 2 ^ e < 10 ^ n]: a first estimate from the
    binary logarithm, then upwards. *)
Fixpoint decimal_exponent (fuel : nat) (m e n : Z) : Z :=
  match fuel with
  | O => n
  | S fuel' => if ge_pow10 m e n then decimal_exponent fuel' m e (n + 1) else n
  end.

Definition exponent10 (m e : Z) : Z :=
  decimal_exponent 4 m e ((Z.log2 m + e) * 30103 / 100000).

(** [m * 2 ^ e / 10 ^ t] as a fraction. *)
Definition scaled (m e t : Z) : Z * Z :=
  (m * 2 ^ Z.max 0 e * 10 ^ Z.max 0 (- t), 2 ^ Z.max 0 (- e) * 10 ^ Z.max 0 t).

Fixpoint shortest (fuel : nat) (x : num) (m e n k : Z) : Z * Z * Z :=
  let '(p, q) := scaled m e (n - k) in
  let lo := p / q in
  let good s := num_eqb (num_of_decimal (Z.to_N s) (n - k)) x in
  let pick s := if s =? 10 ^ k then (1, 1, n + 1) else (s, k, n) in
  match fuel with
  | O => (lo, k, n)
  | S fuel' =>
      let near := if 2 * (p - lo * q) <? q then lo else lo + 1 in
      let far := if 2 * (p - lo * q) <? q then lo + 1 else lo in
      if good near then pick near
      else if good far then pick far
      else shortest fuel' x m e n (k + 1)
  end.

(** Digits, number of digits and decimal point of a positive finite value. *)
Definition shortest_digits (x : num) : Z * Z * Z :=
  let m := Z.abs (num_mantissa x) in
  let e := num_exponent x in
  shortest 20 (nabs x) m e (exponent10 m e) 1.

Definition zeros (n : Z) : jsstr := repeat (ch "0") (Z.to_nat n).

(** [String(x)] *)
Definition string_of_num (x : num) : jsstr :=
  match x with
  | S754_nan => js "NaN"
  | S754_zero _ => js "0"
  | S754_infinity s => if s then js "-Infinity" else js "Infinity"
  | S754_finite sg _ _ =>
      let '(s, k, n) := shortest_digits x in
      let ds := string_of_N (Z.to_N s) in
      let body :=
        if (k <=? n) && (n <=? 21) then ds ++ zeros (n - k)
        else if (0 <? n) && (n <=? 21) then
          take (Z.to_nat n) ds ++ js "." ++ drop (Z.to_nat n) ds
        else if (-6 <? n) && (n <=? 0) then js "0." ++ zeros (- n) ++ ds
        else
          let ex := (if 0 <=? n - 1 then js "e+" else js "e-")
                      ++ string_of_N (Z.to_N (Z.abs (n - 1))) in
          if k =? 1 then ds ++ ex
          else take 1 ds ++ js "." ++ drop 1 ds ++ ex in
      if sg then js "-" ++ body else body
  end.

(** [x.toExponential().split('e')] of a finite value: mantissa text and exponent. *)
Definition exponential_parts (x : num) : jsstr * Z :=
  match x with
  | S754_finite sg _ _ =>
      let '(s, k, n) := shortest_digits x in
      let ds := string_of_N (Z.to_N s) in
      let body := if k =? 1 then ds else take 1 ds ++ js "." ++ drop 1 ds in
      ((if sg then js "-" ++ body else body), n - 1)
  | _ => (js "0", 0)
  end.

(** [x.toFixed(f)] *)
Definition to_fixed (f : nat) (x : num) : jsstr :=
  match x with
  | S754_finite sg _ _ =>
      if num_leb (num_of_Z (10 ^ 21)) (nabs x) then string_of_num x
      else
        let m := Z.abs (num_mantissa x) in
        let '(p, q) := scaled m (num_exponent x) (- Z.of_nat f) in
        let n := (2 * p + q) / (2 * q) in
        let ds := string_of_N (Z.to_N n) in
        let body :=
          match f with
          | O => ds
          | _ =>
              let padded := pad_start (S f) (ch "0") ds in
              let cut := (length padded - f)%nat in
              take cut padded ++ js "." ++ drop cut padded
          end in
        if sg then js "-" ++ body else body
  | S754_zero _ =>
      match f with O => js "0" | _ => js "0." ++ zeros (Z.of_nat f) end
  | _ => string_of_num x
  end.

(** ** Lemmas *)

Lemma num_eqb_refl x : is_nan x = false -> num_eqb x x = true.
Proof.
  destruct x as [s|s| |s m e]; try done; try by destruct s.
  intros _. unfold num_eqb, SFeqb, SFcompare.
  destruct s; rewrite Z.compare_refl, Pos.compare_cont_refl; done.
Qed.

Lemma finite_not_nan x : is_finite x = true -> is_nan x = false.
Proof. by destruct x. Qed.

(** A literal the scanner accepts is not empty. *)
Lemma scan_decimal_pos s d n : scan_decimal s = Some (d, n) -> (0 < n)%nat.
Proof.
  unfold scan_decimal.
  destruct (take_while is_digit s) as [|c ip]; destruct (drop_while is_digit s) as [|c' rest];
    try done; try (destruct (c' =? ch ".")%N); simpl.
  - destruct (take_while is_digit rest); [done|].
    destruct (scan_exponent _). intros ?; simplify_eq. lia.
  - done.
  - intros ?; simplify_eq. lia.
  - destruct (scan_exponent _). intros ?; simplify_eq. lia.
  - destruct (scan_exponent _). intros ?; simplify_eq. lia.
Qed.

Lemma scan_exponent_le s x n : scan_exponent s = (x, n) -> (n <= length s)%nat.
Proof.
  unfold scan_exponent. destruct s as [|c s']; [intros; simplify_eq; simpl; lia|].
  destruct ((c =? ch "e")%N || (c =? ch "E")%N); [|intros; simplify_eq; lia].
  assert (Hgen : forall sg skip (s'' : jsstr), (skip + length s'' <= S (length s'))%nat ->
    match take_while is_digit s'' with
    | [] => (0, 0%nat)
    | ds => (sg * Z.of_N (parse_dec ds), (skip + length ds)%nat)
    end = (x, n) -> (n <= S (length s'))%nat).
  { intros sg skip s'' Hle. pose proof (length_take_while is_digit s'').
    destruct (take_while is_digit s''); intros [= <- <-]; simpl in *; lia. }
  destruct s' as [|c' s'']; [apply Hgen; simpl; lia|].
  destruct (c' =? ch "+")%N; [apply Hgen; simpl; lia|].
  destruct (c' =? ch "-")%N; apply Hgen; simpl; lia.
Qed.

Lemma scan_decimal_le s d n : scan_decimal s = Some (d, n) -> (n <= length s)%nat.
Proof.
  unfold scan_decimal. intros H.
  pose proof (f_equal length (take_drop_while is_digit s)) as Hlen. rewrite length_app in Hlen.
  assert (Hfrac : forall rest', (length (take_while is_digit rest')
            + length (drop_while is_digit rest') = length rest')%nat).
  { intros r. rewrite <- length_app. by rewrite take_drop_while. }
  destruct (take_while is_digit s) as [|c ip]; destruct (drop_while is_digit s) as [|c' rest];
    try done; try (destruct (c' =? ch ".")%N eqn:Hc); simplify_eq; simpl in *; try lia.
  - specialize (Hfrac rest). destruct (take_while is_digit rest) as [|f fp] eqn:Hf; [done|].
    destruct (scan_exponent _) as [x n'] eqn:Hx. apply scan_exponent_le in Hx.
    simplify_eq. simpl in *. lia.
  - specialize (Hfrac rest).
    destruct (scan_exponent _) as [x n'] eqn:Hx. apply scan_exponent_le in Hx.
    simplify_eq. simpl in *. lia.
  - destruct (scan_exponent _) as [x n'] eqn:Hx. apply scan_exponent_le in Hx.
    simplify_eq. simpl in *. lia.
Qed.

(** Literals are never negative: rounding keeps the sign it is given. *)
Lemma num_sign_round_aux mx ex lx :
  num_sign (binary_round_aux prec emax false mx ex lx) = false.
Proof.
  unfold binary_round_aux. destruct (shr_fexp _ _ _ _ _) as [mrs' e'].
  destruct (shr_fexp _ _ _ _ _) as [mrs'' e'']. destruct (shr_m mrs''); [done| |done].
  by destruct (Z.leb _ _).
Qed.

Lemma num_sign_of_literal d : num_sign (num_of_literal d) = false.
Proof.
  unfold num_of_literal, num_of_decimal. destruct (parse_dec _) as [|p]; [done|].
  destruct (0 <=? _) eqn:Hle.
  - unfold num_of_Z. assert (exists q, Zpos p * 10 ^ (Z.max (-100000) (Z.min 100000 (d_exp d))
      - Z.of_nat (length (d_frac d))) = Zpos q) as [q ->].
    { apply Z.leb_le in Hle. pose proof (Z.pow_pos_nonneg 10 _ ltac:(lia) Hle).
      destruct (Zpos p * _) eqn:E; [nia| by eexists |nia]. }
    simpl. unfold binary_round. destruct (shl_align _ _ _). apply num_sign_round_aux.
  - destruct (10 ^ _); try done.
    destruct (SFdiv_core_binary _ _ _ _ _ _) as [[q e'] l]. apply num_sign_round_aux.
Qed.

(** The code units of a printed number. *)
Definition number_unit (c : N) : bool := is_digit c || (c =? ch ".")%N || (c =? ch "-")%N || (c =? ch "+")%N || (c =? ch "e")%N.

Lemma number_unit_not_space c : number_unit c = true -> is_space c = false.
Proof.
  unfold number_unit. rewrite !orb_true_iff, !N.eqb_eq. intros [[[[Hd| ->]| ->]| ->]| ->]; try done.
  unfold is_digit in Hd. apply not_true_is_false. intros Hs. revert Hs. unfold is_space.
  rewrite !orb_true_iff, !andb_true_iff, !N.leb_le, !N.eqb_eq in *. lia.
Qed.

Lemma string_of_num_units x : is_finite x = true -> forallb number_unit (string_of_num x) = true.
Proof.
  assert (Hdig : forall s, forallb is_digit s = true -> forallb number_unit s = true).
  { intros s. rewrite !forallb_forall. intros Hs c Hc. unfold number_unit. by rewrite (Hs c Hc). }
  assert (Hn : forall n, forallb number_unit (string_of_N n) = true) by (intros n; apply Hdig, string_of_N_digits).
  assert (Hz : forall n, forallb number_unit (zeros n) = true).
  { intros n. unfold zeros. induction (Z.to_nat n); [done|]. cbn [repeat forallb]. by rewrite IHn0. }
  assert (Hcut : forall k s, forallb number_unit s = true ->
            forallb number_unit (take k s) = true /\ forallb number_unit (drop k s) = true).
  { intros k s. rewrite <- (take_drop k s) at 1. rewrite forallb_app, andb_true_iff. done. }
  destruct x as [s|s| |sg m e]; try done. intros _. cbn [string_of_num].
  destruct (shortest_digits _) as [[s k] n]. pose proof (Hn (Z.to_N s)) as Hs.
  set (ds := string_of_N (Z.to_N s)) in *. clearbody ds.
  pose proof (Hcut (Z.to_nat n) ds Hs) as [Ht Hd]. pose proof (Hcut 1%nat ds Hs) as [Ht1 Hd1].
  assert (He : forall b : bool, forallb number_unit (if b then js "e+" else js "e-") = true) by (by intros []).
  assert (Hdot : forallb number_unit (js ".") = true) by done.
  assert (H0dot : forallb number_unit (js "0.") = true) by done.
  repeat case_match; rewrite ?forallb_app; cbn [forallb];
    rewrite ?forallb_app, ?Hs, ?Hz, ?Ht, ?Hd, ?Ht1, ?Hd1, ?Hn, ?Hdot, ?H0dot; try done.
  all: cbn [andb]; try done.
Qed.
