(* ===== verification/JsRounding.v ===== *)
(** * Bounds on rounded numbers

    A rounded result lies between any two doubles that enclose the exact value.
    The lemmas are stated on mantissas and exponents ([m * 2 ^ e]) and give the
    bounds of products and sums of non-negative doubles, and of [Math.round]. *)

From S2P Require Import Prelude JsString JsNumber.
From Stdlib Require Import SpecFloat.

(** ** Comparing [m * 2 ^ e] and [p * 2 ^ f] *)

Definition dle (m e p f : Z) : Prop := m * 2 ^ (e - Z.min e f) <= p * 2 ^ (f - Z.min e f).

Lemma pow_split k a b : k <= a -> a <= b -> 2 ^ (b - k) = 2 ^ (b - a) * 2 ^ (a - k).
Proof. intros. rewrite <- Z.pow_add_r by lia. f_equal. lia. Qed.

Lemma dle_at k m e p f : k <= e -> k <= f -> dle m e p f <-> m * 2 ^ (e - k) <= p * 2 ^ (f - k).
Proof.
  intros He Hf. unfold dle. set (a := Z.min e f).
  rewrite (pow_split k a e), (pow_split k a f), !Z.mul_assoc by lia.
  apply Z.mul_le_mono_pos_r, Z.pow_pos_nonneg; lia.
Qed.

Lemma dle_refl m e : dle m e m e.
Proof. unfold dle. lia. Qed.

Lemma dle_trans m e p f q g : dle m e p f -> dle p f q g -> dle m e q g.
Proof.
  set (k := Z.min e (Z.min f g)).
  rewrite (dle_at k m e p f), (dle_at k p f q g), (dle_at k m e q g) by lia. lia.
Qed.

(** Multiplying both sides by a non-negative dyadic. *)
Lemma dle_mul m e p f c d : 0 <= c -> dle m e p f -> dle (c * m) (d + e) (c * p) (d + f).
Proof.
  intros Hc. rewrite (dle_at (d + Z.min e f) (c * m)) by lia. unfold dle.
  replace (d + e - (d + Z.min e f)) with (e - Z.min e f) by lia.
  replace (d + f - (d + Z.min e f)) with (f - Z.min e f) by lia. intros. nia.
Qed.

(** Comparing magnitudes. *)
Lemma dle_magnitude c x e d q g : 0 <= c -> 0 <= d -> 2 ^ c <= x -> q < 2 ^ d -> dle x e q g ->
  e + c < g + d.
Proof.
  intros Hc Hd Hx Hq H. unfold dle in H. set (k := Z.min e g) in *.
  assert (H1 : 2 ^ (c + (e - k)) <= x * 2 ^ (e - k)).
  { rewrite Z.pow_add_r by lia. apply Z.mul_le_mono_nonneg_r; [apply Z.pow_nonneg; lia|done]. }
  assert (H2 : q * 2 ^ (g - k) < 2 ^ (d + (g - k))).
  { rewrite Z.pow_add_r by lia. apply Z.mul_lt_mono_pos_r; [apply Z.pow_pos_nonneg; lia|done]. }
  assert (c + (e - k) < d + (g - k)); [|lia]. apply (Z.pow_lt_mono_r_iff 2); lia.
Qed.

(** ** Digits and shifts *)

Lemma digits2_log2 p : Z.pos (digits2_pos p) = Z.log2 (Z.pos p) + 1.
Proof.
  induction p as [p IH|p IH|]; cbn [digits2_pos]; [..|done]; rewrite Pos2Z.inj_succ, IH.
  - rewrite Pos2Z.inj_xI, Z.log2_succ_double by lia. lia.
  - rewrite Pos2Z.inj_xO, Z.log2_double by lia. lia.
Qed.

Lemma Zdigits2_bounds m : 0 < m -> 2 ^ (Zdigits2 m - 1) <= m < 2 ^ Zdigits2 m /\ 0 < Zdigits2 m.
Proof.
  destruct m as [|p|p]; [lia| |lia]. intros _. cbn [Zdigits2]. rewrite digits2_log2.
  pose proof (Z.log2_nonneg (Z.pos p)). pose proof (Z.log2_spec (Z.pos p) ltac:(lia)).
  replace (Z.log2 (Z.pos p) + 1 - 1) with (Z.log2 (Z.pos p)) by lia. rewrite Z.add_1_r. lia.
Qed.

Lemma Zdigits2_le m n : 0 <= n -> 0 <= m < 2 ^ n -> Zdigits2 m <= n.
Proof.
  intros Hn Hm. destruct (Z.eq_dec m 0) as [->|]; [done|].
  destruct (Zdigits2_bounds m ltac:(lia)) as [[Hlo _] Hpos].
  assert (Zdigits2 m - 1 < n); [|lia]. apply (Z.pow_lt_mono_r_iff 2); lia.
Qed.

(** [iter_pos] preserves a counted invariant. *)
Lemma iter_pos_inv {A} (f : A -> A) (I : Z -> A -> Prop) :
  (forall k x, 0 <= k -> I k x -> I (k + 1) (f x)) ->
  forall n k x, 0 <= k -> I k x -> I (k + Z.pos n) (iter_pos f n x).
Proof.
  intros Hf n. induction n as [n IH|n IH|]; intros k x Hk Hx; cbn [iter_pos].
  - replace (k + Z.pos n~1) with (k + 1 + Z.pos n + Z.pos n) by lia.
    apply IH; [lia|]. apply IH; [lia|]. by apply Hf.
  - replace (k + Z.pos n~0) with (k + Z.pos n + Z.pos n) by lia.
    apply IH; [lia|]. by apply IH.
  - by apply Hf.
Qed.

(** A shifted record: the quotient, and whether anything was lost. *)
Definition shifted (m k : Z) (r : shr_record) : Prop :=
  shr_m r = m / 2 ^ k /\ (shr_r r || shr_s r = false -> m mod 2 ^ k = 0)
  /\ (m mod 2 ^ k = 0 -> shr_r r || shr_s r = false).

Lemma shr_1_step m r s : 0 <= m ->
  let x := shr_1 {| shr_m := m; shr_r := r; shr_s := s |} in
  shr_m x = m / 2 /\ shr_r x || shr_s x = (r || s) || Z.odd m.
Proof.
  intros Hm. destruct m as [|[p|p|]|]; cbn [shr_1 shr_m shr_r shr_s]; [..|lia].
  - by destruct (r || s).
  - split; [|by destruct (r || s)]. rewrite Pos2Z.inj_xI, Z.mul_comm, Z.div_add_l by lia. change (1 / 2) with 0. lia.
  - split; [|by destruct (r || s)]. rewrite Pos2Z.inj_xO, Z.mul_comm, Z.div_mul by lia. done.
  - split; [done|]. by destruct (r || s).
Qed.

Lemma shifted_step m k x : 0 <= m -> 0 <= k -> shifted m k x -> shifted m (k + 1) (shr_1 x).
Proof.
  intros Hm Hk (Hq & Hl & Hr). destruct x as [q r s]. cbn [shr_m shr_r shr_s] in *.
  assert (Hp : 0 < 2 ^ k) by (apply Z.pow_pos_nonneg; lia).
  assert (Hq0 : 0 <= q) by (subst q; apply Z.div_pos; lia).
  destruct (shr_1_step q r s Hq0) as [Hq' Hl'].
  unfold shifted. rewrite Z.pow_add_r by lia. change (2 ^ 1) with 2.
  rewrite Hq', Hl', Hq, Z.div_div by lia. split; [done|].
  assert (Hmod : m mod (2 ^ k * 2) = m mod 2 ^ k + 2 ^ k * ((m / 2 ^ k) mod 2))
    by (apply Z.rem_mul_r; lia).
  rewrite Hmod, Zmod_odd. pose proof (Z.mod_pos_bound m (2 ^ k) Hp).
  destruct (Z.odd (m / 2 ^ k)), (r || s) eqn:E; cbn [orb]; rewrite ?orb_true_r, ?orb_false_r;
    split; intros; try done; try lia; try (rewrite Hl by done; lia).
Qed.

Lemma shr_spec m e n : 0 <= m ->
  let '(r, e') := shr {| shr_m := m; shr_r := false; shr_s := false |} e n in
  e' = e + Z.max 0 n /\ shifted m (Z.max 0 n) r.
Proof.
  intros Hm. assert (H0 : shifted m 0 {| shr_m := m; shr_r := false; shr_s := false |}).
  { unfold shifted. change (2 ^ 0) with 1. by rewrite Z.div_1_r, Z.mod_1_r. }
  destruct n as [|n|n]; cbn [shr]; [split; [lia|done]| |split; [lia|done]].
  split; [lia|]. apply (iter_pos_inv shr_1 (shifted m)) with (n := n) in H0; [done| |lia].
  intros k x Hk. by apply shifted_step.
Qed.

(** ** Rounding *)

(** A mantissa and an exponent in the range of the format. *)
Definition representable (p f : Z) : Prop := 0 <= p < 2 ^ prec /\ emin prec emax <= f.

(** A non-negative number, not NaN or infinite, with its bounds. *)
Definition enclosed (x : num) (p f q g : Z) : Prop :=
  match x with
  | S754_zero false => p <= 0
  | S754_finite false m e =>
      representable (Z.pos m) e /\ e <= emax - prec /\ dle p f (Z.pos m) e /\ dle (Z.pos m) e q g
  | _ => False
  end.

(** The first shift: a quotient of at most 53 digits, at an exponent of the format. *)
Lemma shr_fexp_spec m e : 0 < m ->
  let '(r, e') := shr_fexp prec emax m e loc_Exact in
  let n := Z.max 0 (fexp prec emax (Zdigits2 m + e) - e) in
  e' = e + n /\ shifted m n r /\ 0 <= shr_m r < 2 ^ prec /\ emin prec emax <= e'
  /\ (0 < n -> emin prec emax < e' -> 2 ^ (prec - 1) <= shr_m r).
Proof.
  intros Hm. unfold shr_fexp, shr_record_of_loc. cbv zeta.
  set (n := fexp prec emax (Zdigits2 m + e) - e).
  pose proof (shr_spec m e n ltac:(lia)) as Hs. destruct (shr _ e n) as [r e'].
  destruct Hs as [-> Hs]. destruct (Zdigits2_bounds m Hm) as [[Hlo Hhi] Hd].
  assert (Hn : n = Z.max (Zdigits2 m - prec) (emin prec emax - e)).
  { unfold n, fexp. lia. }
  assert (Hprec : prec = 53) by done. set (em := emin prec emax) in *.
  pose proof (Z.pow_pos_nonneg 2 (Z.max 0 n) ltac:(lia) ltac:(lia)) as Hp.
  pose proof Hs as (Hq & _). split; [done|]. split; [done|]. rewrite Hq. split_and!.
  - apply Z.div_pos; lia.
  - apply Z.div_lt_upper_bound; [done|]. rewrite <- Z.pow_add_r by lia.
    eapply Z.lt_le_trans; [exact Hhi|]. apply Z.pow_le_mono_r; lia.
  - lia.
  - intros Hpos Hem. apply Z.div_le_lower_bound; [done|]. rewrite <- Z.pow_add_r by lia.
    replace (Z.max 0 n + (prec - 1)) with (Zdigits2 m - 1) by lia. done.
Qed.

(** The second shift only corrects a carry. *)
Lemma shr_fexp_carry m e : 0 <= m <= 2 ^ prec -> emin prec emax <= e ->
  exists m' e', shr_fexp prec emax m e loc_Exact = (m', e')
    /\ 0 <= shr_m m' < 2 ^ prec /\ emin prec emax <= e'
    /\ dle m e (shr_m m') e' /\ dle (shr_m m') e' m e
    /\ (e' = e \/ m = 2 ^ prec /\ e' = e + 1).
Proof.
  intros Hm He. destruct (Z.eq_dec m (2 ^ prec)) as [->|Hne].
  - unfold shr_fexp, shr_record_of_loc. change (Zdigits2 (2 ^ prec)) with 54.
    assert (fexp prec emax (54 + e) - e = 1) as -> by (unfold fexp; assert (prec = 53) by done; lia).
    eexists _, _. split; [reflexivity|]. cbn [iter_pos]. 
    change (shr_m (shr_1 _)) with (2 ^ 52). split; [done|]. split; [lia|].
    rewrite !(dle_at e) by lia. replace (e - e) with 0 by lia. replace (e + 1 - e) with 1 by lia.
    split; [done|]. split; [done|]. by right.
  - assert (Hd : Zdigits2 m <= prec) by (apply Zdigits2_le; [done|lia]).
    unfold shr_fexp, shr_record_of_loc, shr.
    assert (Hf : fexp prec emax (Zdigits2 m + e) - e <= 0) by (unfold fexp; lia).
    destruct (fexp prec emax (Zdigits2 m + e) - e) as [|n|n]; [|lia|];
      (eexists _, _; split; [reflexivity|]; cbn [shr_m]; split_and!; try apply dle_refl; auto; lia).
Qed.

(** Rounding to nearest even chooses one of the two neighbours. *)
Lemma round_nearest_even_cases r :
  let x := round_nearest_even (shr_m r) (loc_of_shr_record r) in
  (x = shr_m r \/ x = shr_m r + 1) /\ (shr_r r || shr_s r = false -> x = shr_m r).
Proof.
  destruct r as [m [] []]; cbn [loc_of_shr_record round_nearest_even shr_m shr_r shr_s orb];
    try (split; [lia|done]). destruct (Z.even m); split; try done; lia.
Qed.

(** The chosen neighbour lies between any representable bounds. *)
Lemma rounded_between m e r n p f q g :
  let x := round_nearest_even (shr_m r) (loc_of_shr_record r) in
  0 < m -> 0 <= n -> shifted m n r ->
  (0 < n -> emin prec emax < e + n -> 2 ^ (prec - 1) <= shr_m r) ->
  representable p f -> representable q g -> dle p f m e -> dle m e q g ->
  dle p f x (e + n) /\ dle x (e + n) q g.
Proof.
  intros x Hm Hn (Hq & _ & Hzero) Hfull [Hp Hf] [Hqq Hg] Hlo Hhi.
  destruct (round_nearest_even_cases r) as [Hx Hexact]. fold x in Hx, Hexact.
  pose proof (Z.pow_pos_nonneg 2 n ltac:(lia) Hn) as H2n.
  pose proof (Z.div_mod m (2 ^ n) ltac:(lia)) as Hdm. rewrite <- Hq in Hdm.
  pose proof (Z.mod_pos_bound m (2 ^ n) H2n) as Hmod.
  assert (Hpow : 2 ^ prec = 2 * 2 ^ (prec - 1)) by done.
  assert (Hup : forall a b, a < b -> 2 <= 2 ^ (b - a)).
  { intros a b Hab. change 2 with (2 ^ 1) at 1. apply Z.pow_le_mono_r; lia. }
  assert (Hn0 : n = 0 -> x = m).
  { intros H0. rewrite Hexact, Hq, H0; [by rewrite Z.div_1_r|].
    apply Hzero. rewrite H0. apply Z.mod_1_r. }
  destruct (Z.eq_dec n 0) as [H0|H0]; [by rewrite Hn0, H0, Z.add_0_r by done|]. split.
  - destruct (Z_le_gt_dec (e + n) f) as [Hfe|Hfe].
    + apply (dle_at e) in Hlo; [|lia..]. apply (dle_at (e + n)); [lia..|].
      rewrite (pow_split e (e + n) f), Z.sub_diag, Z.mul_1_r in Hlo by lia.
      replace (e + n - e) with n in Hlo by lia. rewrite Z.sub_diag, Z.mul_1_r.
      assert (p * 2 ^ (f - (e + n)) <= m / 2 ^ n); [|lia]. apply Z.div_le_lower_bound; lia.
    + specialize (Hfull ltac:(lia) ltac:(lia)). apply (dle_at f); [lia..|].
      rewrite Z.sub_diag, Z.mul_1_r. specialize (Hup f (e + n) ltac:(lia)). nia.
  - destruct (Z_le_gt_dec (e + n) g) as [Hge|Hge].
    + apply (dle_at e) in Hhi; [|lia..]. apply (dle_at (e + n)); [lia..|].
      rewrite (pow_split e (e + n) g), Z.sub_diag, Z.mul_1_r in Hhi by lia.
      replace (e + n - e) with n in Hhi by lia. rewrite Z.sub_diag, Z.mul_1_r.
      destruct (Z.eq_dec (m mod 2 ^ n) 0) as [Hz|Hz].
      * rewrite Hexact by auto. nia.
      * enough (shr_m r < q * 2 ^ (g - (e + n))) by lia. nia.
    + exfalso. specialize (Hfull ltac:(lia) ltac:(lia)).
      assert (Hm1 : 2 ^ (prec - 1 + n) <= m).
      { rewrite Z.pow_add_r by (done || lia). nia. }
      assert (Hprec : prec = 53) by done.
      pose proof (dle_magnitude (prec - 1 + n) m e prec q g ltac:(lia) ltac:(lia) Hm1 ltac:(lia) Hhi). lia.
Qed.

(** Rounding an exact positive value keeps it between representable bounds. *)
Lemma round_enclosed m e p f q g :
  representable p f -> representable q g -> g <= emax - prec -> e <= emax - prec ->
  dle p f (Z.pos m) e -> dle (Z.pos m) e q g ->
  enclosed (binary_round_aux prec emax false (Z.pos m) e loc_Exact) p f q g.
Proof.
  intros Hp Hq Hgmax Hemax Hlo Hhi. unfold binary_round_aux.
  pose proof (shr_fexp_spec (Z.pos m) e ltac:(lia)) as Hspec.
  destruct (shr_fexp prec emax (Z.pos m) e loc_Exact) as [r e1].
  destruct Hspec as (-> & Hs & Hr & He1 & Hfull).
  set (n := Z.max 0 (fexp prec emax (Zdigits2 (Z.pos m) + e) - e)) in *.
  destruct (rounded_between (Z.pos m) e r n p f q g ltac:(lia) ltac:(lia) Hs Hfull Hp Hq Hlo Hhi)
    as [Hl Hu].
  set (x := round_nearest_even (shr_m r) (loc_of_shr_record r)) in *.
  assert (Hx : 0 <= x <= 2 ^ prec).
  { pose proof (round_nearest_even_cases r) as [[H|H] _]; fold x in H; lia. }
  destruct (shr_fexp_carry x (e + n) Hx He1) as (r2 & e2 & -> & Hr2 & He2 & Hl2 & Hu2 & Hcarry).
  assert (Hl' : dle p f (shr_m r2) e2) by (by eapply dle_trans).
  assert (Hu' : dle (shr_m r2) e2 q g) by (by eapply dle_trans).
  destruct (shr_m r2) as [|y|y] eqn:Hy; [|..].
  - cbn [enclosed]. unfold dle in Hl'. 
    pose proof (Z.pow_pos_nonneg 2 (f - Z.min f e2) ltac:(lia) ltac:(lia)). nia.
  - destruct (e2 <=? emax - prec) eqn:Hmax.
    + apply Z.leb_le in Hmax. by split_and!.
    + apply Z.leb_gt in Hmax. exfalso. assert (Hprec : prec = 53) by done.
      destruct Hq as [Hq _]. pose proof (round_nearest_even_cases r) as [Hcases _]. fold x in Hcases.
      assert (He : e + n <= emax - prec).
      { destruct (Z.eq_dec n 0) as [|Hn]; [lia|].
        destruct (Z_le_gt_dec (e + n) (emin prec emax)) as [|Hem]; [unfold emin in *; assert (emax = 1024) by done; lia|].
        specialize (Hfull ltac:(lia) ltac:(lia)).
        pose proof (dle_magnitude (prec - 1) x (e + n) prec q g ltac:(lia) ltac:(lia)
          ltac:(lia) ltac:(lia) Hu). lia. }
      destruct Hcarry as [->|[Hx2 ->]]; [lia|].
      pose proof (dle_magnitude prec x (e + n) prec q g ltac:(lia) ltac:(lia)
          ltac:(lia) ltac:(lia) Hu). lia.
  - lia.
Qed.

(** ** Operations *)

Lemma iter_xO m d : Z.pos (Pos.iter xO m d) = Z.pos m * 2 ^ Z.pos d.
Proof.
  induction d as [|d IH] using Pos.peano_ind; [cbn; lia|].
  rewrite Pos.iter_succ, Pos2Z.inj_succ, Z.pow_succ_r, Pos2Z.inj_xO, IH by lia. lia.
Qed.

Lemma shl_align_spec m e e' :
  let '(mz, ez) := shl_align m e e' in
  ez = Z.min e e' /\ Z.pos mz = Z.pos m * 2 ^ (e - ez).
Proof.
  unfold shl_align. destruct (e' - e) as [|d|d] eqn:Hd;
    [split; [lia|rewrite Z.sub_diag; lia]..|].
  split; [lia|]. rewrite iter_xO. do 2 f_equal. lia.
Qed.

Lemma binary_round_enclosed m e p f q g :
  representable p f -> representable q g -> g <= emax - prec -> e <= emax - prec ->
  dle p f (Z.pos m) e -> dle (Z.pos m) e q g ->
  enclosed (binary_round prec emax false m e) p f q g.
Proof.
  intros Hp Hq Hg He Hlo Hhi. unfold binary_round.
  pose proof (shl_align_spec m e (fexp prec emax (Z.pos (digits2_pos m) + e))) as Hs.
  destruct (shl_align _ _ _) as [mz ez]. destruct Hs as [Hez Hmz].
  assert (H1 : dle (Z.pos m) e (Z.pos mz) ez /\ dle (Z.pos mz) ez (Z.pos m) e).
  { rewrite !(dle_at ez) by lia. rewrite Hmz, Z.sub_diag. lia. }
  destruct H1 as [H1 H2]. apply round_enclosed; [done|done|done|lia|..]; by eapply dle_trans.
Qed.

Lemma enclosed_exponent m e p f q g : enclosed (S754_finite false m e) p f q g ->
  q < 2 ^ prec -> e < g + prec.
Proof.
  intros (_ & _ & _ & Hhi) Hq.
  pose proof (dle_magnitude 0 (Z.pos m) e prec q g ltac:(lia) ltac:(done) ltac:(lia) Hq Hhi). lia.
Qed.

Lemma nmul_enclosed x y p1 f1 q1 g1 p2 f2 q2 g2 p f q g :
  enclosed x p1 f1 q1 g1 -> enclosed y p2 f2 q2 g2 ->
  0 <= p1 -> 0 <= p2 -> 0 <= q1 < 2 ^ prec -> 0 <= q2 < 2 ^ prec ->
  representable p f -> representable q g ->
  g <= emax - prec -> g1 + g2 + 2 * prec <= emax - prec ->
  dle p f (p1 * p2) (f1 + f2) -> dle (q1 * q2) (g1 + g2) q g ->
  enclosed (nmul x y) p f q g.
Proof.
  intros Hx Hy Hp1 Hp2 Hq1 Hq2 Hp Hq Hg Hgs Hlo Hhi.
  assert (Hzero : forall k, dle p f 0 k -> p <= 0).
  { intros k H. unfold dle in H.
    pose proof (Z.pow_pos_nonneg 2 (f - Z.min f k) ltac:(lia) ltac:(lia)). nia. }
  destruct x as [[]| | |[] m1 e1], y as [[]| | |[] m2 e2]; try done; unfold nmul, SFmul; cbn [xorb enclosed].
  - apply (Hzero (f1 + f2)). cbn in Hx. replace (p1 * p2) with 0 in Hlo by nia. done.
  - apply (Hzero (f1 + f2)). cbn in Hx. replace (p1 * p2) with 0 in Hlo by nia. done.
  - apply (Hzero (f1 + f2)). cbn in Hy. replace (p1 * p2) with 0 in Hlo by nia. done.
  - pose proof (enclosed_exponent _ _ _ _ _ _ Hx ltac:(lia)).
    pose proof (enclosed_exponent _ _ _ _ _ _ Hy ltac:(lia)).
    destruct Hx as (_ & _ & Hl1 & Hu1), Hy as (_ & _ & Hl2 & Hu2).
    assert (Hprod : forall a b c d i j k l, 0 <= a -> 0 <= d -> dle a i b j -> dle c k d l ->
      dle (a * c) (i + k) (b * d) (j + l)).
    { intros a b c d i j k l Ha Hd' H1 H2. eapply (dle_trans _ _ (a * d) (i + l)).
      - by apply dle_mul.
      - rewrite (Z.mul_comm a d), (Z.mul_comm b d), (Z.add_comm i l), (Z.add_comm j l).
        by apply dle_mul. }
    apply round_enclosed; [done|done|done|lia|..]; rewrite Pos2Z.inj_mul.
    + eapply dle_trans; [exact Hlo|]. eapply Hprod; [| |exact Hl1|exact Hl2]; lia.
    + eapply dle_trans; [|exact Hhi]. eapply Hprod; [| |exact Hu1|exact Hu2]; lia.
Qed.

(** Adding one. *)
Lemma one_plus_enclosed x : enclosed x 0 0 1 (-2) -> enclosed (nadd (num_of_Z 1) x) 1 0 5 (-2).
Proof.
  intros Hx. change (num_of_Z 1) with (S754_finite false 4503599627370496 (-52)).
  destruct x as [[]| | |[] m e]; try done.
  pose proof (enclosed_exponent _ _ _ _ _ _ Hx ltac:(done)) as He. change prec with 53 in He.
  destruct Hx as ([_ Hemin] & _ & _ & Hhi). unfold nadd, SFadd.
  set (k := Z.min (-52) e).
  pose proof (shl_align_spec 4503599627370496 (-52) k) as H1.
  pose proof (shl_align_spec m e k) as H2.
  destruct (shl_align 4503599627370496 (-52) k) as [a ea], (shl_align m e k) as [b eb].
  cbn [fst cond_Zopp]. destruct H1 as [-> Ha], H2 as [-> Hb].
  replace (Z.min (-52) k) with k in Ha by lia. replace (Z.min e k) with k in Hb by lia.
  assert (Ha' : Z.pos a = 2 ^ (0 - k)).
  { rewrite Ha. change (Z.pos 4503599627370496) with (2 ^ 52).
    rewrite <- Z.pow_add_r by lia. f_equal. lia. }
  cbn [Z.add binary_normalize]. apply (dle_at k) in Hhi; [|lia..].
  assert (Hsum : Z.pos (a + b) = 2 ^ (0 - k) + Z.pos m * 2 ^ (e - k)) by lia.
  assert (H4 : 2 ^ (0 - k) = 4 * 2 ^ (-2 - k)).
  { change 4 with (2 ^ 2). rewrite <- Z.pow_add_r by lia. f_equal. lia. }
  apply binary_round_enclosed; [done..|change (emax - prec) with 971; lia| |];
    rewrite (dle_at k), Hsum, Z.sub_diag by lia; lia.
Qed.

(** Small integers are exact. *)
Lemma num_of_Z_exact z : 0 < z < 2 ^ prec ->
  exists m, num_of_Z z = S754_finite false m (Z.log2 z - 52)
    /\ Z.pos m = z * 2 ^ (52 - Z.log2 z).
Proof.
  destruct z as [|p|p]; [lia| |lia]. intros Hz. unfold num_of_Z, binary_normalize, binary_round.
  set (l := Z.log2 (Z.pos p)).
  assert (Hl : 0 <= l <= 52).
  { split; [apply Z.log2_nonneg|]. assert (l < 53); [|lia]. apply Z.log2_lt_pow2; [lia|].
    apply Hz. }
  pose proof (Z.log2_spec (Z.pos p) ltac:(lia)) as Hlog. fold l in Hlog.
  assert (Hfexp : forall d e, d + e = l + 1 -> fexp prec emax (d + e) = l - 52).
  { intros d e ->. unfold fexp. change prec with 53. change (emin 53 emax) with (-1074). lia. }
  rewrite Hfexp by (rewrite digits2_log2; lia).
  pose proof (shl_align_spec p 0 (l - 52)) as Hs. destruct (shl_align p 0 (l - 52)) as [m e].
  destruct Hs as [-> Hm]. replace (Z.min 0 (l - 52)) with (l - 52) in * by lia.
  replace (0 - (l - 52)) with (52 - l) in Hm by lia.
  assert (Hd : Zdigits2 (Z.pos m) = 53).
  { cbn [Zdigits2]. rewrite digits2_log2, Hm, Z.log2_mul_pow2 by lia. fold l. lia. }
  exists m. split; [|done]. unfold binary_round_aux, shr_fexp. rewrite Hd, Hfexp, Z.sub_diag by lia.
  cbn [shr shr_record_of_loc shr_m loc_of_shr_record round_nearest_even].
  rewrite Hd, Hfexp, Z.sub_diag by lia. cbn [shr shr_m].
  assert (l - 52 <=? emax - prec = true) as ->; [|done]. apply Z.leb_le. change (emax - prec) with 971. lia.
Qed.

Lemma num_of_Z_compare y z : 0 < y < 2 ^ prec -> 0 < z < 2 ^ prec ->
  SFcompare (num_of_Z y) (num_of_Z z) = Some (y ?= z).
Proof.
  intros Hy Hz. destruct (num_of_Z_exact y Hy) as (m & -> & Hm).
  destruct (num_of_Z_exact z Hz) as (n & -> & Hn). cbn [SFcompare]. f_equal.
  pose proof (Z.log2_spec y ltac:(lia)) as Hly. pose proof (Z.log2_spec z ltac:(lia)) as Hlz.
  pose proof (Z.log2_nonneg y). pose proof (Z.log2_nonneg z).
  destruct (Z.compare_spec (Z.log2 y - 52) (Z.log2 z - 52)) as [He|He|He].
  - assert (Hl : Z.log2 y = Z.log2 z) by lia. rewrite Hl in Hm.
    change (Z.pos m ?= Z.pos n = (y ?= z)). rewrite Hm, Hn.
    symmetry. apply Zmult_compare_compat_r, Z.lt_gt, Z.pow_pos_nonneg; [lia|].
    assert (Z.log2 z < 53); [|lia]. apply Z.log2_lt_pow2; [lia|].
    apply Hz.
  - symmetry. apply Z.compare_lt_iff. 
    pose proof (Z.pow_le_mono_r 2 (Z.succ (Z.log2 y)) (Z.log2 z) ltac:(lia) ltac:(lia)). lia.
  - symmetry. apply Z.compare_gt_iff.
    pose proof (Z.pow_le_mono_r 2 (Z.succ (Z.log2 z)) (Z.log2 y) ltac:(lia) ltac:(lia)). lia.
Qed.

Lemma nmin_of_Z y z : 0 < y < 2 ^ prec -> 0 < z < 2 ^ prec ->
  nmin (num_of_Z y) (num_of_Z z) = num_of_Z (Z.min y z).
Proof.
  intros Hy Hz. unfold nmin. rewrite num_of_Z_compare by done.
  destruct (num_of_Z_exact y Hy) as (m & Hm & _), (num_of_Z_exact z Hz) as (n & Hn & _).
  rewrite Hm, Hn. cbn [is_nan orb num_sign]. rewrite <- Hm, <- Hn.
  destruct (Z.compare_spec y z); f_equal; lia.
Qed.

(** [Math.round] between integer bounds. *)
Lemma nround_enclosed x lo hi q g : enclosed x lo 0 q g -> dle q g hi 0 -> 0 < lo ->
  exists z, nround x = num_of_Z z /\ lo <= z <= hi.
Proof.
  intros Hx Hg Hlo0. destruct x as [[]| | |[] m e]; try done; [cbn in Hx; lia|].
  destruct Hx as (_ & _ & Hlo & Hhi). pose proof (dle_trans _ _ _ _ _ _ Hhi Hg) as Hhi'.
  assert (Hz : lo <= Zround_num (S754_finite false m e) <= hi).
  { unfold Zround_num. cbn [num_exponent num_mantissa]. destruct (0 <=? e) eqn:He.
    - apply Z.leb_le in He. apply (dle_at 0) in Hlo, Hhi'; try lia.
      rewrite ?Z.sub_0_r, ?Z.pow_0_r, ?Z.mul_1_r in *. lia.
    - apply Z.leb_gt in He. apply (dle_at e) in Hlo, Hhi'; try lia.
      rewrite Z.sub_diag, Z.mul_1_r in *. replace (0 - e) with (- e) in * by lia.
      assert (H1 : 2 ^ (1 - e) = 2 * 2 ^ (- e)).
      { change 2 with (2 ^ 1) at 2. by rewrite <- Z.pow_add_r by lia. }
      pose proof (Z.pow_pos_nonneg 2 (- e) ltac:(lia) ltac:(lia)). rewrite H1. split.
      + apply Z.div_le_lower_bound; lia.
      + assert ((2 * Z.pos m + 2 ^ (- e)) / (2 * 2 ^ (- e)) < hi + 1); [|lia].
        apply Z.div_lt_upper_bound; lia. }
  eexists. split; [|exact Hz]. cbn [nround]. unfold num_of_Z_sign.
  by rewrite (proj2 (Z.eqb_neq _ 0)) by lia.
Qed.

(** A random number. *)
Definition in_unit_interval (x : num) : Prop :=
  valid_binary prec emax x = true /\ num_sign x = false /\ num_leb x (num_of_Z 1) = true.

Lemma num_leb_finite m e n f :
  num_leb (S754_finite false m e) (S754_finite false n f) = true ->
  e < f \/ e = f /\ Z.pos m <= Z.pos n.
Proof.
  unfold num_leb, SFleb. cbn [SFcompare]. destruct (Z.compare_spec e f); [|auto|done].
  change (Pos.compare_cont Eq m n) with (Z.pos m ?= Z.pos n).
  destruct (Z.compare_spec (Z.pos m) (Z.pos n)); try done; intros _; right; lia.
Qed.

Lemma unit_enclosed x : in_unit_interval x -> enclosed x 0 0 1 0.
Proof.
  intros (Hv & Hs & Hle). destruct x as [[]|[]| |[] m e]; try done.
  cbn [valid_binary] in Hv. unfold bounded, canonical_mantissa in Hv.
  apply andb_true_iff in Hv as [Hc He]. apply Z.eqb_eq in Hc. apply Z.leb_le in He.
  rewrite digits2_log2 in Hc. pose proof (Z.log2_spec (Z.pos m) ltac:(lia)) as Hlog.
  pose proof (Z.log2_nonneg (Z.pos m)).
  assert (Hprec : prec = 53) by done. unfold fexp in Hc.
  assert (Hm : Z.pos m < 2 ^ prec).
  { eapply Z.lt_le_trans; [apply Hlog|]. apply Z.pow_le_mono_r; lia. }
  assert (Hone : dle (Z.pos m) e 1 0).
  { change (num_of_Z 1) with (S754_finite false 4503599627370496 (-52)) in Hle.
    apply num_leb_finite in Hle as [Hlt|[-> Hle]].
    2: { rewrite (dle_at (-52)), Z.sub_diag, Z.mul_1_r, Z.mul_1_l by lia.
         change (2 ^ (0 - -52)) with 4503599627370496. done. }
    rewrite (dle_at e), Z.sub_diag by lia.
    pose proof (Z.pow_le_mono_r 2 prec (0 - e) ltac:(lia) ltac:(lia)). lia. }
  split_and!; [split; lia|done| |done].
  unfold dle. pose proof (Z.pow_nonneg 2 (e - Z.min 0 e)). lia.
Qed.
