(* ===== verification/JsValue.v ===== *)
(** * JavaScript values of unknown shape, and JSON

    The console reads request bodies, stored settings and event payloads as
    values of type [unknown].  [jsval] is the data those values can hold; an
    object is the list of its own properties in property order (array-index
    keys first, in ascending order, then the other keys in insertion order).
    [json_parse] is [JSON.parse]. *)

From S2P Require Import Prelude JsString JsNumber.

Inductive jsval : Type :=
| JUndefined
| JNull
| JBool (b : bool)
| JNum (n : num)
| JStr (s : jsstr)
| JArr (items : list jsval)
| JObj (fields : list (jsstr * jsval)).

(** Induction that reaches the values inside arrays and objects. *)
Definition jsval_ind' (P : jsval -> Prop)
    (fundef : P JUndefined) (fnull : P JNull) (fbool : forall b, P (JBool b))
    (fnum : forall n, P (JNum n)) (fstr : forall s, P (JStr s))
    (farr : forall l, Forall P l -> P (JArr l))
    (fobj : forall l, Forall (fun kv => P kv.2) l -> P (JObj l)) :
  forall v, P v :=
  fix F (v : jsval) : P v :=
    match v with
    | JUndefined => fundef
    | JNull => fnull
    | JBool b => fbool b
    | JNum n => fnum n
    | JStr s => fstr s
    | JArr l =>
        farr l ((fix G (l : list jsval) : Forall P l :=
                   match l with
                   | [] => List.Forall_nil _
                   | x :: l' => List.Forall_cons _ _ _ (F x) (G l')
                   end) l)
    | JObj l =>
        fobj l ((fix G (l : list (jsstr * jsval)) : Forall (fun kv => P kv.2) l :=
                   match l with
                   | [] => List.Forall_nil _
                   | x :: l' => List.Forall_cons _ _ _ (F x.2) (G l')
                   end) l)
    end.

(** ** Observations *)

(** [Boolean(v)] *)
Definition truthy (v : jsval) : bool :=
  match v with
  | JUndefined | JNull => false
  | JBool b => b
  | JNum n => negb (is_nan n || num_eqb n zero)
  | JStr s => nonempty s
  | JArr _ | JObj _ => true
  end.

(** [v == null] *)
Definition is_nullish (v : jsval) : bool :=
  match v with JUndefined | JNull => true | _ => false end.

(** [typeof v === 'object'] (true of [null], of arrays and of objects) *)
Definition is_typeof_object (v : jsval) : bool :=
  match v with JNull | JArr _ | JObj _ => true | _ => false end.

Definition is_string (v : jsval) : bool := match v with JStr _ => true | _ => false end.
Definition is_number (v : jsval) : bool := match v with JNum _ => true | _ => false end.
Definition is_boolean (v : jsval) : bool := match v with JBool _ => true | _ => false end.
Definition is_array (v : jsval) : bool := match v with JArr _ => true | _ => false end.

(** [a === b]; objects are compared by identity, which this value type does not
    carry, so the code that uses it never reaches two objects. *)
Definition strict_eq (a b : jsval) : bool :=
  match a, b with
  | JUndefined, JUndefined | JNull, JNull => true
  | JBool x, JBool y => Bool.eqb x y
  | JNum x, JNum y => num_eqb x y
  | JStr x, JStr y => x === y
  | _, _ => false
  end.

(** ** Properties *)

(** The own property [key] of an object. *)
Definition own (v : jsval) (key : jsstr) : option jsval :=
  match v with JObj fs => assoc fs key | _ => None end.

(** [v.key] on a value known to be an object: [undefined] when absent. *)
Definition prop (v : jsval) (key : jsstr) : jsval := default JUndefined (own v key).

(** Array-index keys: canonical decimal text of a number below [2 ^ 32 - 1]. *)
Definition index_key (k : jsstr) : option N :=
  if all_digits k then
    let n := parse_dec k in
    if (n <? 4294967295)%N && (string_of_N n === k) then Some n else None
  else None.

Definition has_key {A} (fs : list (jsstr * A)) (k : jsstr) : bool :=
  match assoc fs k with Some _ => true | None => false end.

Fixpoint replace_field {A} (fs : list (jsstr * A)) (k : jsstr) (v : A) : list (jsstr * A) :=
  match fs with
  | [] => []
  | (k', v') :: fs' => if k' === k then (k', v) :: fs' else (k', v') :: replace_field fs' k v
  end.

Fixpoint insert_index_field {A} (fs : list (jsstr * A)) (n : N) (k : jsstr) (v : A)
    : list (jsstr * A) :=
  match fs with
  | [] => [(k, v)]
  | (k', v') :: fs' =>
      match index_key k' with
      | Some n' => if (n' <? n)%N then (k', v') :: insert_index_field fs' n k v
                   else (k, v) :: fs
      | None => (k, v) :: fs
      end
  end.

(** [obj[k] = v], or the definition of a property by [JSON.parse]. *)
Definition set_field {A} (fs : list (jsstr * A)) (k : jsstr) (v : A) : list (jsstr * A) :=
  if has_key fs k then replace_field fs k v
  else match index_key k with
       | Some n => insert_index_field fs n k v
       | None => fs ++ [(k, v)]
       end.

(** [delete obj[k]] *)
Definition delete_field {A} (fs : list (jsstr * A)) (k : jsstr) : list (jsstr * A) :=
  List.filter (fun kv => negb (kv.1 === k)) fs.

(** [Object.entries], [Object.keys], [Object.values] of an object *)
Definition entries (v : jsval) : list (jsstr * jsval) :=
  match v with JObj fs => fs | _ => [] end.

(** ** [String(v)] *)
Fixpoint string_of_val (v : jsval) : jsstr :=
  match v with
  | JUndefined => js "undefined"
  | JNull => js "null"
  | JBool b => if b then js "true" else js "false"
  | JNum n => string_of_num n
  | JStr s => s
  | JArr l => join (js ",") (map (fun x => if is_nullish x then [] else string_of_val x) l)
  | JObj _ => js "[object Object]"
  end.

(** [Number(v)] *)
Definition to_number (v : jsval) : num :=
  match v with
  | JUndefined => S754_nan
  | JNull => zero
  | JBool b => if b then num_of_Z 1 else zero
  | JNum n => n
  | _ => number_of_text (string_of_val v)
  end.

(** ** [JSON.parse] *)

Definition json_space (c : N) : bool :=
  ((c =? 32) || (c =? 9) || (c =? 10) || (c =? 13))%N.
Definition skip_ws (s : jsstr) : jsstr := drop_while json_space s.

(** The text of a string after its opening quote. *)
Fixpoint json_string (fuel : nat) (s acc : jsstr) : option (jsstr * jsstr) :=
  match fuel, s with
  | O, _ | _, [] => None
  | S fuel', c :: s' =>
      if (c =? DQUOTE)%N then Some (rev acc, s')
      else if (c <? 32)%N then None
      else if (c =? ch "\")%N then
        match s' with
        | [] => None
        | e :: s'' =>
            if (e =? ch "u")%N then
              let hex := take 4 s'' in
              if (length hex =? 4)%nat && forallb is_hex hex
              then json_string fuel' (drop 4 s'') (parse_hex hex :: acc)
              else None
            else
              match assoc [([DQUOTE], DQUOTE); (js "\", ch "\"); (js "/", ch "/");
                           (js "b", 8%N); (js "f", 12%N); (js "n", 10%N);
                           (js "r", 13%N); (js "t", 9%N)] [e] with
              | Some x => json_string fuel' s'' (x :: acc)
              | None => None
              end
        end
      else json_string fuel' s' (c :: acc)
  end.

(** Numbers: no leading zeros, no bare fraction, no plus sign. *)
Definition json_number (s : jsstr) : option (num * jsstr) :=
  let '(neg, body) :=
    match s with c :: s' => if (c =? ch "-")%N then (true, s') else (false, s) | [] => (false, s) end in
  match take_while is_digit body with
  | [] => None
  | c :: ds =>
      if (c =? ch "0")%N && negb (length ds =? 0)%nat then None
      else match scan_decimal body with
           | Some (d, n) =>
               if starts_with (js ".") (drop (length (d_int d)) body)
                  && (length (d_frac d) =? 0)%nat then None
               else
                 let x := num_of_literal d in
                 Some ((if neg then nneg x else x), drop n body)
           | None => None
           end
  end.

Fixpoint json_value (fuel : nat) (s : jsstr) : option (jsval * jsstr) :=
  match fuel with
  | O => None
  | S fuel' =>
      let s := skip_ws s in
      match s with
      | [] => None
      | c :: s' =>
          if (c =? DQUOTE)%N then
            '(t, r) ← json_string (length s) s' []; Some (JStr t, r)
          else if (c =? ch "[")%N then
            match skip_ws s' with
            | c' :: r => if (c' =? ch "]")%N then Some (JArr [], r) else json_items fuel' s' []
            | [] => None
            end
          else if (c =? ch "{")%N then
            match skip_ws s' with
            | c' :: r => if (c' =? ch "}")%N then Some (JObj [], r) else json_fields fuel' s' []
            | [] => None
            end
          else if starts_with (js "true") s then Some (JBool true, drop 4 s)
          else if starts_with (js "false") s then Some (JBool false, drop 5 s)
          else if starts_with (js "null") s then Some (JNull, drop 4 s)
          else '(n, r) ← json_number s; Some (JNum n, r)
      end
  end
with json_items (fuel : nat) (s : jsstr) (acc : list jsval) : option (jsval * jsstr) :=
  match fuel with
  | O => None
  | S fuel' =>
      '(v, r) ← json_value fuel' s;
      match skip_ws r with
      | c :: r' =>
          if (c =? ch ",")%N then json_items fuel' r' (v :: acc)
          else if (c =? ch "]")%N then Some (JArr (rev (v :: acc)), r')
          else None
      | [] => None
      end
  end
with json_fields (fuel : nat) (s : jsstr) (acc : list (jsstr * jsval)) : option (jsval * jsstr) :=
  match fuel with
  | O => None
  | S fuel' =>
      match skip_ws s with
      | q :: s' =>
          if (q =? DQUOTE)%N then
            '(k, r) ← json_string (length s) s' [];
            match skip_ws r with
            | c :: r' =>
                if (c =? ch ":")%N then
                  '(v, r'') ← json_value fuel' r';
                  match skip_ws r'' with
                  | c' :: r3 =>
                      let acc := set_field acc k v in
                      if (c' =? ch ",")%N then json_fields fuel' r3 acc
                      else if (c' =? ch "}")%N then Some (JObj acc, r3)
                      else None
                  | [] => None
                  end
                else None
            | [] => None
            end
          else None
      | [] => None
      end
  end.

(** [JSON.parse(s)]; [None] is a thrown [SyntaxError].  Every recursive call
    follows at most two others that consume no input, so [2 * length s + 2]
    levels suffice. *)
Definition json_parse (s : jsstr) : option jsval :=
  match json_value (2 * length s + 2) s with
  | Some (v, r) => match skip_ws r with [] => Some v | _ => None end
  | None => None
  end.

(** ** Dynamic access *)

Inductive type_error := TypeError.

(** [v.key], [v || d], [v.trim()], [v?.trim() || ''] *)
Definition get_field (v : jsval) (key : jsstr) : outcome type_error jsval :=
  if is_nullish v then Throw TypeError else Ret (prop v key).

Definition js_or (v d : jsval) : jsval := if truthy v then v else d.

Definition str_trim (v : jsval) : outcome type_error jsstr :=
  match v with JStr s => Ret (trim s) | _ => Throw TypeError end.

Definition trim_or_empty (v : jsval) : outcome type_error jsstr :=
  if is_nullish v then Ret [] else str_trim v.

(** ** Lemmas *)

Lemma assoc_cons {A} (fs : list (jsstr * A)) k v k' :
  assoc ((k, v) :: fs) k' = if k === k' then Some v else assoc fs k'.
Proof. done. Qed.

Lemma assoc_in {A} (fs : list (jsstr * A)) k v : assoc fs k = Some v -> (k, v) ∈ fs.
Proof.
  induction fs as [|[k' v'] fs IH]; simpl; [done|].
  destruct (str_eqb_spec k' k) as [->|]; [|set_solver].
  intros ?; simplify_eq. set_solver.
Qed.

Lemma assoc_replace_field {A} (fs : list (jsstr * A)) k k' v :
  assoc (replace_field fs k v) k' =
    if k === k' then (if has_key fs k then Some v else None) else assoc fs k'.
Proof.
  unfold has_key. induction fs as [|[k1 v1] fs IH]; simpl; [by destruct (_ === _)|].
  destruct (str_eqb_spec k1 k) as [->|Hne]; simpl.
  - by destruct (str_eqb_spec k k').
  - rewrite IH. destruct (str_eqb_spec k1 k') as [->|]; [|done].
    by destruct (str_eqb_spec k k') as [->|].
Qed.

Lemma assoc_insert_index {A} (fs : list (jsstr * A)) n k k' v :
  assoc fs k = None ->
  assoc (insert_index_field fs n k v) k' = if k === k' then Some v else assoc fs k'.
Proof.
  induction fs as [|[k1 v1] fs IH]; simpl; [done|].
  destruct (str_eqb_spec k1 k) as [->|Hne]; [done|]. intros Hnone.
  destruct (index_key k1) as [n'|]; [destruct (n' <? n)%N|]; simpl; [|done..].
  rewrite IH by done. destruct (str_eqb_spec k1 k') as [->|]; [|done].
  by destruct (str_eqb_spec k k') as [->|].
Qed.

Lemma assoc_app {A} (fs gs : list (jsstr * A)) k :
  assoc (fs ++ gs) k = match assoc fs k with Some v => Some v | None => assoc gs k end.
Proof. induction fs as [|[k1 v1] fs IH]; simpl; [done|]. by destruct (_ === _). Qed.

Lemma has_key_spec {A} (fs : list (jsstr * A)) k : has_key fs k = true <-> k ∈ fs.*1.
Proof.
  unfold has_key. induction fs as [|[k' v] fs IH].
  - cbn. split; [done|]. intros H. inversion H.
  - rewrite assoc_cons. cbn. rewrite elem_of_cons.
    destruct (str_eqb_spec k' k) as [->|Hne]; [by split; [left|]|]. rewrite IH.
    split; [by right|]. intros [->|]; done.
Qed.

(** Writing a property and reading properties back. *)
Lemma assoc_set_field {A} (fs : list (jsstr * A)) k k' v :
  assoc (set_field fs k v) k' = if k === k' then Some v else assoc fs k'.
Proof.
  unfold set_field. destruct (has_key fs k) eqn:Hk.
  - rewrite assoc_replace_field, Hk. done.
  - unfold has_key in Hk. destruct (assoc fs k) eqn:Hnone; [done|].
    destruct (index_key k) as [n|].
    + by apply assoc_insert_index.
    + rewrite assoc_app. simpl. destruct (str_eqb_spec k k') as [<-|].
      * by rewrite Hnone.
      * by destruct (assoc fs k').
Qed.

Lemma assoc_delete_field {A} (fs : list (jsstr * A)) k k' :
  assoc (delete_field fs k) k' = if k === k' then None else assoc fs k'.
Proof.
  unfold delete_field. induction fs as [|[k1 v1] fs IH]; simpl; [by destruct (_ === _)|].
  destruct (str_eqb_spec k1 k) as [->|]; simpl; [by rewrite IH; destruct (_ === _)|].
  rewrite IH. destruct (str_eqb_spec k1 k') as [->|]; [|done].
  by destruct (str_eqb_spec k k') as [->|].
Qed.

Lemma strict_eq_string a b : strict_eq (JStr a) (JStr b) = true <-> a = b.
Proof. apply str_eqb_eq. Qed.

Lemma strict_eq_str v s : strict_eq v (JStr s) = true <-> v = JStr s.
Proof.
  destruct v; cbn; try (split; [discriminate|congruence]).
  rewrite str_eqb_eq. split; congruence.
Qed.

#[export] Hint Rewrite @assoc_set_field @assoc_delete_field : js.

#[global] Arguments assoc : simpl never.

Lemma js_or_idemp v d : truthy d = false -> js_or (js_or v d) d = js_or v d.
Proof. intros Hd. unfold js_or. destruct (truthy v) eqn:Hv; [by rewrite Hv|by rewrite Hd]. Qed.

Lemma js_or_truthy v d : truthy d = true -> truthy (js_or v d) = true.
Proof. intros Hd. unfold js_or. by destruct (truthy v) eqn:Hv. Qed.

Lemma js_or_self v d : truthy v = true -> js_or v d = v.
Proof. unfold js_or. by intros ->. Qed.
