(* ===== verification/JsJson.v ===== *)
(** * [JSON.stringify]

    Printing of JavaScript values as JSON text, with or without indentation, and
    the lemma that the reader of [JSON.parse] undoes the quoting of strings. *)

From S2P Require Import Prelude JsString JsNumber JsValue.

Definition is_high_surrogate (c : N) : bool := ((0xD800 <=? c) && (c <=? 0xDBFF))%N.
Definition is_low_surrogate (c : N) : bool := ((0xDC00 <=? c) && (c <=? 0xDFFF))%N.

Definition hex_digit_unit (d : N) : N := (if d <? 10 then d + 48 else d + 87)%N.

(** [\uXXXX] *)
Definition unicode_escape (c : N) : jsstr :=
  js "\u" ++ [hex_digit_unit (c / 4096); hex_digit_unit (c / 256 mod 16);
              hex_digit_unit (c / 16 mod 16); hex_digit_unit (c mod 16)]%N.

Definition escape_unit (c : N) : jsstr :=
  (if c =? DQUOTE then js "\" ++ [DQUOTE]
   else if c =? ch "\" then js "\\"
   else if c =? 8 then js "\b"
   else if c =? 9 then js "\t"
   else if c =? 10 then js "\n"
   else if c =? 12 then js "\f"
   else if c =? 13 then js "\r"
   else if c <? 32 then unicode_escape c
   else [c])%N.

(** Lone surrogates are escaped, pairs are kept. *)
Fixpoint quote_units (s : jsstr) : jsstr :=
  match s with
  | [] => []
  | c :: s' =>
      if is_high_surrogate c then
        match s' with
        | d :: s'' =>
            if is_low_surrogate d then c :: d :: quote_units s''
            else unicode_escape c ++ quote_units s'
        | [] => unicode_escape c
        end
      else if is_low_surrogate c then unicode_escape c ++ quote_units s'
      else escape_unit c ++ quote_units s'
  end.

Definition json_quote (s : jsstr) : jsstr := [DQUOTE] ++ quote_units s ++ [DQUOTE].

(** [None] is [undefined], which arrays print as [null] and objects leave out. *)
Fixpoint json_stringify (v : jsval) : option jsstr :=
  match v with
  | JUndefined => None
  | JNull => Some (js "null")
  | JBool b => Some (if b then js "true" else js "false")
  | JNum n => Some (if is_finite n then string_of_num n else js "null")
  | JStr s => Some (json_quote s)
  | JArr l =>
      Some (js "[" ++ join (js ",") (map (fun x => default (js "null") (json_stringify x)) l) ++ js "]")
  | JObj fs =>
      Some (js "{" ++ join (js ",")
              (omap (fun kv => (fun t => json_quote kv.1 ++ js ":" ++ t) <$> json_stringify kv.2) fs)
            ++ js "}")
  end.

(** [JSON.stringify(v, null, gap)]: the brackets around the parts of an array or of
    an object, one part a line, when the gap is not empty. *)
Definition bracketed (open close gap indent : jsstr) (parts : list jsstr) : jsstr :=
  match parts with
  | [] => open ++ close
  | _ =>
      if nonempty gap then
        open ++ [10%N] ++ (indent ++ gap) ++ join ([44; 10]%N ++ indent ++ gap) parts
          ++ [10%N] ++ indent ++ close
      else open ++ join (js ",") parts ++ close
  end.

Definition json_colon (gap : jsstr) : jsstr := if nonempty gap then js ": " else js ":".

Fixpoint json_stringify_gap (gap indent : jsstr) (v : jsval) : option jsstr :=
  match v with
  | JArr l =>
      Some (bracketed (js "[") (js "]") gap indent
              (map (fun x => default (js "null") (json_stringify_gap gap (indent ++ gap) x)) l))
  | JObj fs =>
      Some (bracketed (js "{") (js "}") gap indent
              (omap (fun kv => (fun t => json_quote kv.1 ++ json_colon gap ++ t)
                               <$> json_stringify_gap gap (indent ++ gap) kv.2) fs))
  | v => json_stringify v
  end.

(** Without a gap it is [json_stringify]. *)
Lemma json_stringify_no_gap v : json_stringify_gap [] [] v = json_stringify v.
Proof.
  assert (Hb : forall o c parts, bracketed o c [] [] parts = o ++ join (js ",") parts ++ c)
    by (intros o c [|p ps]; done).
  induction v as [| | | | |l IH|fs IH] using jsval_ind'; try done; cbn [json_stringify_gap json_stringify app].
  - rewrite Hb. do 4 f_equal. induction IH as [|x l Hx _ IHl]; [done|]. cbn [map]. by rewrite Hx, IHl.
  - rewrite Hb. do 4 f_equal. induction IH as [|x fs Hx _ IHfs]; [done|].
    cbn [omap list_omap]. rewrite Hx. by destruct (_ <$> _); rewrite IHfs.
Qed.

(** ** Quoting is undone by reading *)

Definition code_unit (c : N) : Prop := (c < 65536)%N.

Lemma hex_digits_small :
  forallb (fun d => is_hex (hex_digit_unit d) && (hex_value (hex_digit_unit d) =? d)%N)
    (map N.of_nat (seq 0 16)) = true.
Proof. vm_compute. reflexivity. Qed.

Lemma hex_digit_ok d : (d < 16)%N ->
  is_hex (hex_digit_unit d) = true /\ hex_value (hex_digit_unit d) = d.
Proof.
  intros Hd. pose proof (proj1 (forallb_forall _ _) hex_digits_small d) as H.
  assert (Hin : In d (map N.of_nat (seq 0 16))).
  { apply in_map_iff. exists (N.to_nat d). split; [lia|]. apply in_seq. lia. }
  specialize (H Hin). apply andb_true_iff in H as [? ?%N.eqb_eq]. done.
Qed.

(** One escaped code unit is read as itself. *)
Lemma read_unicode fuel c rest acc : code_unit c ->
  json_string (S fuel) (unicode_escape c ++ rest) acc = json_string fuel rest (c :: acc).
Proof.
  unfold code_unit. intros Hc.
  assert (H3 : (c / 4096 < 16)%N) by (apply N.Div0.div_lt_upper_bound; lia).
  destruct (hex_digit_ok _ H3) as [I3 V3].
  destruct (hex_digit_ok (c / 256 mod 16)) as [I2 V2]; [by apply N.mod_lt|].
  destruct (hex_digit_ok (c / 16 mod 16)) as [I1 V1]; [by apply N.mod_lt|].
  destruct (hex_digit_ok (c mod 16)) as [I0 V0]; [by apply N.mod_lt|].
  unfold unicode_escape. set (d3 := hex_digit_unit (c / 4096)) in *.
  set (d2 := hex_digit_unit (c / 256 mod 16)) in *.
  set (d1 := hex_digit_unit (c / 16 mod 16)) in *. set (d0 := hex_digit_unit (c mod 16)) in *.
  change ((js "\u" ++ [d3; d2; d1; d0]) ++ rest) with (ch "\" :: ch "u" :: d3 :: d2 :: d1 :: d0 :: rest).
  cbn [json_string]. change (ch "\" =? DQUOTE)%N with false. change (ch "\" <? 32)%N with false.
  change (ch "\" =? ch "\")%N with true. change (ch "u" =? ch "u")%N with true. cbv iota beta zeta.
  cbn [take firstn drop skipn length Nat.eqb forallb andb]. rewrite I3, I2, I1, I0. cbn [andb].
  f_equal. f_equal. unfold parse_hex. cbn [fold_left]. rewrite V3, V2, V1, V0.
  clear -Hc. pose proof (N.div_mod c 16 ltac:(lia)). pose proof (N.div_mod (c / 16) 16 ltac:(lia)).
  pose proof (N.div_mod (c / 256) 16 ltac:(lia)).
  rewrite !N.Div0.div_div in *. change (16 * 16)%N with 256%N in *. change (256 * 16)%N with 4096%N in *. rewrite take_0. cbn [fold_left]. lia.
Qed.

Lemma read_escape fuel c rest acc :
  json_string (S fuel) (escape_unit c ++ rest) acc = json_string fuel rest (c :: acc).
Proof.
  unfold escape_unit.
  destruct (N.eqb_spec c DQUOTE) as [->|Hq]; [reflexivity|].
  destruct (N.eqb_spec c (ch "\")) as [->|Hb]; [reflexivity|].
  destruct (N.eqb_spec c 8) as [->|]; [reflexivity|].
  destruct (N.eqb_spec c 9) as [->|]; [reflexivity|].
  destruct (N.eqb_spec c 10) as [->|]; [reflexivity|].
  destruct (N.eqb_spec c 12) as [->|]; [reflexivity|].
  destruct (N.eqb_spec c 13) as [->|]; [reflexivity|].
  destruct (N.ltb_spec c 32).
  - apply read_unicode. unfold code_unit. lia.
  - cbn [app json_string]. rewrite (proj2 (N.eqb_neq _ _) Hq), (proj2 (N.eqb_neq _ _) Hb).
    by rewrite (proj2 (N.ltb_ge _ _)).
Qed.

Lemma read_plain fuel c rest acc : (32 <= c)%N -> c <> DQUOTE -> c <> ch "\" ->
  json_string (S fuel) (c :: rest) acc = json_string fuel rest (c :: acc).
Proof.
  intros Hc Hq Hb. cbn [json_string]. rewrite (proj2 (N.eqb_neq _ _) Hq), (proj2 (N.eqb_neq _ _) Hb).
  by rewrite (proj2 (N.ltb_ge _ _)).
Qed.

Lemma high_surrogate_bounds c : is_high_surrogate c = true -> (0xD800 <= c <= 0xDBFF)%N.
Proof. unfold is_high_surrogate. rewrite andb_true_iff, !N.leb_le. done. Qed.

Lemma low_surrogate_bounds c : is_low_surrogate c = true -> (0xDC00 <= c <= 0xDFFF)%N.
Proof. unfold is_low_surrogate. rewrite andb_true_iff, !N.leb_le. done. Qed.

Lemma read_quoted n s rest acc fuel : (length s <= n)%nat -> (length s < fuel)%nat ->
  json_string fuel (quote_units s ++ DQUOTE :: rest) acc = Some (rev acc ++ s, rest).
Proof.
  revert s acc fuel. induction n as [|n IH]; intros s acc fuel Hn Hf;
    (destruct fuel as [|fuel]; [lia|]); destruct s as [|c s]; cbn [length] in *;
    try lia; try (cbn [quote_units app json_string]; by rewrite N.eqb_refl, app_nil_r).
  assert (Hnext : forall c' s' acc', (length s' < length (c :: s))%nat ->
    json_string fuel (quote_units s' ++ DQUOTE :: rest) (c' :: acc')
    = Some (rev acc' ++ c' :: s', rest)).
  { intros c' s' acc' Hs'. cbn [length] in Hs'. rewrite IH by lia. cbn [rev].
    by rewrite <- app_assoc. }
  cbn [quote_units]. destruct (is_high_surrogate c) eqn:Hh.
  - apply high_surrogate_bounds in Hh. destruct s as [|d s].
    + rewrite read_unicode by (unfold code_unit; lia). apply (Hnext c []). cbn. lia.
    + destruct (is_low_surrogate d) eqn:Hl.
      * apply low_surrogate_bounds in Hl. cbn [app length] in *.
        rewrite read_plain by (unfold DQUOTE; change (ch "\") with 92%N; lia).
        destruct fuel as [|fuel]; [lia|].
        rewrite read_plain by (unfold DQUOTE; change (ch "\") with 92%N; lia).
        rewrite IH by lia. cbn [rev]. by rewrite <- !app_assoc.
      * rewrite <- app_assoc, read_unicode by (unfold code_unit; lia). apply Hnext. cbn. lia.
  - destruct (is_low_surrogate c) eqn:Hl.
    + apply low_surrogate_bounds in Hl.
      rewrite <- app_assoc, read_unicode by (unfold code_unit; lia). apply Hnext. cbn. lia.
    + rewrite <- app_assoc, read_escape. apply Hnext. cbn. lia.
Qed.

Lemma quote_units_length s : (length s <= length (quote_units s))%nat.
Proof.
  assert (He : forall c, (1 <= length (escape_unit c))%nat).
  { intros c. unfold escape_unit. repeat case_match; apply Nat.leb_le; reflexivity. }
  assert (Hu : forall c, length (unicode_escape c) = 6%nat) by done.
  assert (H : forall n s, (length s <= n)%nat -> (length s <= length (quote_units s))%nat).
  { clear s. induction n as [|n IH]; intros [|c s] Hn; cbn [length] in *; try lia.
    cbn [quote_units]. pose proof (IH s ltac:(lia)). pose proof (He c).
    destruct (is_high_surrogate c); [destruct s as [|d s]; [rewrite Hu; cbn; lia|]|].
    - destruct (is_low_surrogate d); [cbn [length] in *|rewrite length_app, Hu; lia].
      pose proof (IH s ltac:(lia)). lia.
    - destruct (is_low_surrogate c); rewrite length_app, ?Hu; lia. }
  by apply (H (length s)).
Qed.

(** The text of a quoted string parses as the string. *)
Lemma json_parse_quote s : json_parse (json_quote s) = Some (JStr s).
Proof.
  unfold json_parse. set (n := (2 * length (json_quote s) + 1)%nat).
  replace (2 * length (json_quote s) + 2)%nat with (S n) by (unfold n; lia).
  unfold json_quote. cbn [json_value app].
  change (skip_ws (DQUOTE :: quote_units s ++ [DQUOTE])) with (DQUOTE :: quote_units s ++ [DQUOTE]).
  cbv iota. rewrite N.eqb_refl. rewrite (read_quoted (length s)).
  - done.
  - done.
  - cbn [length]. rewrite length_app. pose proof (quote_units_length s). lia.
Qed.
