(* ===== verification/JsonRoundtrip.v ===== *)
(** * [JSON.parse] after [JSON.stringify]

    What is printed, with or without indentation, is read back: for values without
    [undefined], whose objects list their properties in property order and whose
    numbers read back from their text. *)

From S2P Require Import Prelude JsString JsNumber JsValue JsJson.
From Stdlib Require Import Sorting.Sorted.

(** ** Numbers before a delimiter *)

(** What may follow a value in a text: a comma, a closing bracket or brace, a line
    feed, or the end. *)
Definition delimiter (c : N) : bool := ((c =? 44) || (c =? 93) || (c =? 125) || (c =? 10))%N.
Definition delimited (rest : jsstr) : Prop := forall c t, rest = c :: t -> delimiter c = true.

Lemma delimiter_cases c : delimiter c = true -> c = 44%N \/ c = 93%N \/ c = 125%N \/ c = 10%N.
Proof. unfold delimiter. rewrite !orb_true_iff, !N.eqb_eq. tauto. Qed.

Lemma delimited_cons c t : delimiter c = true -> delimited (c :: t).
Proof. intros Hc c' t' [= <- _]. done. Qed.

Lemma take_while_before p s rest :
  (forall c t, rest = c :: t -> p c = false) ->
  take_while p (s ++ rest) = take_while p s /\ drop_while p (s ++ rest) = drop_while p s ++ rest.
Proof.
  intros Hr. induction s as [|c s [IHt IHd]]; cbn.
  - destruct rest as [|c t]; [done|]. cbn. by rewrite (Hr c t eq_refl).
  - destruct (p c); [|done]. by rewrite IHt, IHd.
Qed.

Lemma digits_before s rest : delimited rest ->
  take_while is_digit (s ++ rest) = take_while is_digit s
  /\ drop_while is_digit (s ++ rest) = drop_while is_digit s ++ rest.
Proof.
  intros Hr. apply take_while_before. intros c t Hc.
  by destruct (delimiter_cases c (Hr c t Hc)) as [->|[->|[->| ->]]].
Qed.

Lemma scan_exponent_before s rest : delimited rest -> scan_exponent (s ++ rest) = scan_exponent s.
Proof.
  intros Hr.
  assert (Hplain : forall c t, rest = c :: t ->
            c <> ch "e" /\ c <> ch "E" /\ c <> ch "+" /\ c <> ch "-").
  { intros c t Hc. by destruct (delimiter_cases c (Hr c t Hc)) as [->|[->|[->| ->]]]. }
  unfold scan_exponent. destruct s as [|c s]; cbn [app].
  - destruct rest as [|c t]; [done|]. destruct (Hplain c t eq_refl) as (He & HE & _).
    by rewrite (proj2 (N.eqb_neq _ _) He), (proj2 (N.eqb_neq _ _) HE).
  - destruct (_ || _); [|done]. destruct s as [|c' s]; cbn [app].
    + destruct rest as [|c' t]; [done|]. destruct (Hplain c' t eq_refl) as (_ & _ & Hp & Hm).
      rewrite (proj2 (N.eqb_neq _ _) Hp), (proj2 (N.eqb_neq _ _) Hm).
      by rewrite (proj1 (digits_before [] (c' :: t) Hr) : take_while is_digit (c' :: t) = []).
    + destruct (c' =? ch "+")%N; [by rewrite (proj1 (digits_before s rest Hr))|].
      destruct (c' =? ch "-")%N; [by rewrite (proj1 (digits_before s rest Hr))|].
      change (c' :: s ++ rest) with ((c' :: s) ++ rest). by rewrite (proj1 (digits_before (c' :: s) rest Hr)).
Qed.

Lemma scan_decimal_before s rest d n : delimited rest ->
  scan_decimal s = Some (d, n) -> scan_decimal (s ++ rest) = Some (d, n).
Proof.
  intros Hr. unfold scan_decimal. destruct (digits_before s rest Hr) as [-> ->].
  assert (Hdot : forall c t, rest = c :: t -> (c =? ch ".")%N = false).
  { intros c t Hc. by destruct (delimiter_cases c (Hr c t Hc)) as [->|[->|[->| ->]]]. }
  destruct (take_while is_digit s) as [|i ip], (drop_while is_digit s) as [|c t]; cbn [app]; try done.
  - destruct (c =? ch ".")%N; [|done]. destruct (digits_before t rest Hr) as [-> ->].
    destruct (take_while is_digit t); [done|]. by rewrite scan_exponent_before.
  - destruct rest as [|c t]; [done|]. rewrite (Hdot c t eq_refl).
    rewrite (scan_exponent_before [] (c :: t) Hr : scan_exponent (c :: t) = scan_exponent []).
    intros [= <- <-]. cbn. do 2 f_equal. lia.
  - destruct (c =? ch ".")%N.
    + destruct (digits_before t rest Hr) as [-> ->]. by rewrite scan_exponent_before.
    + change (c :: t ++ rest) with ((c :: t) ++ rest). by rewrite scan_exponent_before.
Qed.

Lemma scan_decimal_int s d n : scan_decimal s = Some (d, n) -> (length (d_int d) <= length s)%nat.
Proof.
  unfold scan_decimal. pose proof (length_take_while is_digit s) as Hle.
  destruct (take_while is_digit s) as [|i ip], (drop_while is_digit s) as [|c t]; try done.
  - destruct (c =? ch ".")%N; [|done]. destruct (take_while is_digit t); [done|].
    destruct (scan_exponent _). intros [= <- _]. cbn. lia.
  - intros [= <- _]. done.
  - destruct (c =? ch ".")%N; destruct (scan_exponent _); intros [= <- _]; done.
Qed.

(** The text of a number reads the same before a delimiter. *)
Lemma json_number_before s rest n : delimited rest ->
  json_number s = Some (n, []) -> json_number (s ++ rest) = Some (n, rest).
Proof.
  intros Hr. unfold json_number.
  set (sign s := match s with c :: s' => if (c =? ch "-")%N then (true, s') else (false, s) | [] => (false, s) end).
  change (match s ++ rest with c :: s' => if (c =? ch "-")%N then (true, s') else (false, s ++ rest)
          | [] => (false, s ++ rest) end) with (sign (s ++ rest)).
  change (match s with c :: s' => if (c =? ch "-")%N then (true, s') else (false, s)
          | [] => (false, s) end) with (sign s).
  destruct s as [|c s]; [done|].
  assert (Hs : sign ((c :: s) ++ rest) = ((sign (c :: s)).1, (sign (c :: s)).2 ++ rest))
    by (cbn; by destruct (c =? ch "-")%N).
  rewrite Hs. destruct (sign (c :: s)) as [neg body]. cbn [fst snd].
  destruct (digits_before body rest Hr) as [-> _].
  destruct (take_while is_digit body) as [|i ip]; [done|]. destruct (_ && _); [done|].
  destruct (scan_decimal body) as [[d k]|] eqn:Hd; [|done].
  rewrite (scan_decimal_before body rest d k Hr Hd).
  pose proof (scan_decimal_int body d k Hd) as Hint. pose proof (scan_decimal_le body d k Hd) as Hk.
  assert (Hdot : starts_with (js ".") (drop (length (d_int d)) (body ++ rest))
                 = starts_with (js ".") (drop (length (d_int d)) body)).
  { rewrite drop_app_le by done. destruct (drop (length (d_int d)) body) as [|x xs]; [|done].
    destruct rest as [|x xs]; [done|]. cbn.
    by destruct (delimiter_cases x (Hr x xs eq_refl)) as [->|[->|[->| ->]]]. }
  rewrite Hdot. destruct (_ && _); [done|]. intros [= <- Hend].
  assert (k = length body) as -> by (apply (f_equal length) in Hend; rewrite length_drop in Hend; cbn in Hend; lia).
  by rewrite drop_app_length.
Qed.

(** ** Values that JSON can hold *)

Definition reads_back (n : num) : Prop := json_number (string_of_num n) = Some (n, []).

(** The properties are listed in property order, each once. *)
Definition key_before (a b : jsstr) : Prop :=
  a <> b /\ match index_key a, index_key b with
            | Some i, Some j => (i < j)%N
            | None, Some _ => False
            | _, None => True
            end.

Definition in_order (fs : list (jsstr * jsval)) : Prop := StronglySorted key_before (map fst fs).

Inductive storable : jsval -> Prop :=
| storable_null : storable JNull
| storable_bool b : storable (JBool b)
| storable_num n : reads_back n -> storable (JNum n)
| storable_str s : storable (JStr s)
| storable_arr l : Forall storable l -> storable (JArr l)
| storable_obj fs : in_order fs -> Forall (fun kv => storable kv.2) fs -> storable (JObj fs).

(** *** Property order *)

Lemma has_key_not_in {A} (fs : list (jsstr * A)) k : has_key fs k = false <-> k ∉ map fst fs.
Proof. change (map fst fs) with (fs.*1). rewrite <- has_key_spec. by destruct (has_key fs k). Qed.

Lemma replace_field_keys {A} (fs : list (jsstr * A)) k v : map fst (replace_field fs k v) = map fst fs.
Proof.
  induction fs as [|[k' v'] fs IH]; [done|]. cbn. destruct (str_eqb_spec k' k) as [->|]; cbn; [done|].
  by rewrite IH.
Qed.

Lemma index_key_inj a b n : index_key a = Some n -> index_key b = Some n -> a = b.
Proof.
  assert (H : forall k, index_key k = Some n -> k = string_of_N n).
  { intros k. unfold index_key. destruct (all_digits k); [|done].
    destruct (_ && _) eqn:Hk; [|done]. apply andb_prop in Hk as [_ Hk]. apply str_eqb_eq in Hk. by intros [= <-]. }
  intros Ha Hb. by rewrite (H a Ha), (H b Hb).
Qed.

(** Inserting an array index keeps the keys, in order. *)
Lemma insert_index_keys {A} (fs : list (jsstr * A)) n k v :
  index_key k = Some n -> k ∉ map fst fs -> StronglySorted key_before (map fst fs) ->
  StronglySorted key_before (map fst (insert_index_field fs n k v))
  /\ forall x, x ∈ map fst (insert_index_field fs n k v) <-> x = k \/ x ∈ map fst fs.
Proof.
  intros Hk. induction fs as [|[k' v'] fs IH]; intros Hnew Hs; cbn [insert_index_field].
  - cbn. split; [repeat constructor|set_solver].
  - cbn [map fst] in Hnew, Hs. apply not_elem_of_cons in Hnew as [Hne Hnew]. inversion Hs as [|? ? Hs' Hall]; subst.
    assert (Hfront : (forall y, y ∈ k' :: map fst fs -> key_before k y) ->
      StronglySorted key_before (map fst ((k, v) :: (k', v') :: fs))
      /\ forall x, x ∈ map fst ((k, v) :: (k', v') :: fs) <-> x = k \/ x ∈ map fst ((k', v') :: fs)).
    { intros Hbefore. cbn [map fst]. split; [|set_solver]. constructor; [done|]. by apply Forall_forall. }
    rewrite Forall_forall in Hall.
    destruct (index_key k') as [n'|] eqn:Hk'.
    + destruct (N.ltb_spec n' n) as [Hlt|Hle].
      * destruct (IH Hnew Hs') as [Hsorted Hin]. cbn [map fst]. split; [|intros x; rewrite !elem_of_cons, Hin; tauto].
        constructor; [done|]. apply Forall_forall. intros x [->|Hx]%Hin; [|by apply Hall].
        split; [done|]. by rewrite Hk', Hk.
      * apply Hfront. intros y [->|Hy]%elem_of_cons.
        { split; [done|]. rewrite Hk, Hk'. destruct (N.eq_dec n n') as [->|]; [|lia].
          by destruct (Hne (index_key_inj _ _ _ Hk Hk')). }
        specialize (Hall y Hy). destruct Hall as [_ Hy']. rewrite Hk' in Hy'. split; [by intros ->|].
        rewrite Hk. destruct (index_key y); [lia|done].
    + apply Hfront. intros y [->|Hy]%elem_of_cons; [split; [done|]; by rewrite Hk, Hk'|].
      specialize (Hall y Hy). destruct Hall as [_ Hy']. rewrite Hk' in Hy'. split; [by intros ->|].
      rewrite Hk. by destruct (index_key y).
Qed.

Lemma StronglySorted_snoc {A} (R : A -> A -> Prop) l x :
  StronglySorted R (l ++ [x]) <-> StronglySorted R l /\ Forall (fun y => R y x) l.
Proof.
  induction l as [|y l IH]; cbn.
  - split; [intros _; split; constructor|intros _; repeat constructor].
  - split.
    + inversion 1 as [|? ? Hs Hall]; subst. apply IH in Hs as [Hs Hl]. apply Forall_app in Hall as [Hall Hx].
      inversion Hx; subst. split; by constructor.
    + intros [Hs Hl]. inversion Hs; inversion Hl; subst. constructor; [by apply IH|].
      apply Forall_app. split; [done|by constructor].
Qed.

Lemma in_order_set fs k v : in_order fs -> in_order (set_field fs k v).
Proof.
  unfold in_order, set_field. intros Hs. destruct (has_key fs k) eqn:Hk; [by rewrite replace_field_keys|].
  apply has_key_not_in in Hk. destruct (index_key k) as [n|] eqn:Hi; [by apply insert_index_keys|].
  rewrite map_app. apply StronglySorted_snoc. split; [done|]. apply Forall_forall. intros y Hy.
  split; [by intros ->|]. cbn. rewrite Hi. by destruct (index_key y).
Qed.

Lemma in_order_filter (p : jsstr * jsval -> bool) fs : in_order fs -> in_order (List.filter p fs).
Proof.
  unfold in_order. induction fs as [|kv fs IH]; [done|]. cbn [map List.filter]. inversion 1 as [|? ? Hs Hall]; subst.
  destruct (p kv); [|by apply IH]. cbn [map]. constructor; [by apply IH|].
  rewrite Forall_forall in *. intros y Hy. apply Hall.
  apply list_elem_of_In, in_map_iff in Hy as (x & <- & Hx%filter_In). apply list_elem_of_In, in_map. apply Hx.
Qed.

Lemma in_order_delete fs k : in_order fs -> in_order (delete_field fs k).
Proof. apply in_order_filter. Qed.

(** Defining the properties one by one gives the list back. *)
Lemma set_field_last fs k v : in_order (fs ++ [(k, v)]) -> set_field fs k v = fs ++ [(k, v)].
Proof.
  unfold in_order. rewrite map_app. cbn [map fst]. intros [Hs Hall]%StronglySorted_snoc.
  rewrite Forall_forall in Hall. unfold set_field.
  assert (Hk : has_key fs k = false).
  { apply has_key_not_in. intros Hin. by destruct (Hall k Hin). }
  rewrite Hk. destruct (index_key k) as [n|] eqn:Hi; [|done]. clear Hs Hk.
  induction fs as [|[k' v'] fs IH]; [done|]. cbn [map fst] in Hall. cbn [insert_index_field app].
  destruct (Hall k' ltac:(by left)) as [_ Hk']. rewrite Hi in Hk'.
  destruct (index_key k') as [n'|]; [|done]. rewrite (proj2 (N.ltb_lt n' n) Hk').
  rewrite IH; [done|]. intros y Hy. apply Hall. by right.
Qed.

Lemma in_order_fold fs : in_order fs -> fold_left (fun acc kv => set_field acc kv.1 kv.2) fs [] = fs.
Proof.
  induction fs as [|[k v] fs IH] using rev_ind; [done|]. intros Ho. rewrite fold_left_app. cbn [fold_left fst snd].
  rewrite IH; [by apply set_field_last|]. unfold in_order in *. rewrite map_app in Ho.
  by apply StronglySorted_snoc in Ho as [? _].
Qed.

Lemma reads_back_finite n : reads_back n -> is_finite n = true.
Proof. unfold reads_back. destruct n as [s|[|]| |s m e]; (reflexivity || (intros H; vm_compute in H; discriminate)). Qed.

(** The first code unit of a printed value. *)
Definition value_start (c : N) : bool :=
  (c =? DQUOTE)%N || (c =? ch "[")%N || (c =? ch "{")%N || (c =? ch "t")%N || (c =? ch "f")%N
  || (c =? ch "n")%N || (c =? ch "-")%N || is_digit c.

Lemma number_start n : reads_back n ->
  exists c t, string_of_num n = c :: t /\ ((c =? ch "-")%N || is_digit c) = true.
Proof.
  unfold reads_back, json_number. destruct (string_of_num n) as [|c t]; [done|].
  destruct (c =? ch "-")%N eqn:Hc.
  - intros _. exists c, t. by rewrite Hc.
  - cbn [take_while]. destruct (is_digit c) eqn:Hd; [|done]. intros _. exists c, t. by rewrite Hc, Hd.
Qed.

Lemma printed_start v gap indent t :
  storable v -> json_stringify_gap gap indent v = Some t ->
  exists c t', t = c :: t' /\ value_start c = true.
Proof.
  assert (Hb : forall o c parts, exists t', bracketed [o] c gap indent parts = o :: t').
  { intros o c [|p ps]; unfold bracketed; [by eexists|]. destruct (nonempty gap); by eexists. }
  destruct 1 as [|b|n Hn|s|l|fs]; cbn [json_stringify_gap json_stringify]; intros [= <-].
  - by eexists _, _.
  - destruct b; by eexists _, _.
  - rewrite (reads_back_finite n Hn). destruct (number_start n Hn) as (c & t & -> & Hc).
    exists c, t. split; [done|]. unfold value_start. rewrite <- !orb_assoc, Hc. by rewrite !orb_true_r.
  - by eexists _, _.
  - destruct (Hb (ch "[") (js "]") (map (fun x => default (js "null") (json_stringify_gap gap (indent ++ gap) x)) l))
      as (t' & Ht). exists (ch "["), t'. by split.
  - match goal with |- context [bracketed (js "{") (js "}") gap indent ?ps] =>
      destruct (Hb (ch "{") (js "}") ps) as (t' & Ht) end. exists (ch "{"), t'. by split.
Qed.

Lemma value_start_not_space c : value_start c = true -> is_space c = false.
Proof.
  unfold value_start. rewrite !orb_true_iff, !N.eqb_eq.
  intros [[[[[[[->| ->]| ->]| ->]| ->]| ->]| ->]|Hd]; try (by vm_compute).
  unfold is_digit in Hd. apply not_true_is_false. intros Hs. revert Hs. unfold is_space in *.
  rewrite ?orb_true_iff, ?andb_true_iff, ?N.eqb_eq, ?N.leb_le in *. lia.
Qed.

(** A printed value is not blank. *)
Lemma printed_not_blank v gap indent t :
  storable v -> json_stringify_gap gap indent v = Some t -> nonempty (trim t) = true.
Proof.
  intros Hs Ht. destruct (printed_start v gap indent t Hs Ht) as (c & rest & -> & Hc).
  by apply trim_nonempty, value_start_not_space.
Qed.

(** A printed value has no space at its ends. *)
Lemma printed_trim v gap indent t : storable v -> json_stringify_gap gap indent v = Some t -> trim t = t.
Proof.
  intros Hv Ht. destruct (printed_start v gap indent t Hv Ht) as (c & s & Hc & Hstart%value_start_not_space).
  assert (Hb : forall o x parts, exists s', bracketed o [x] gap indent parts = s' ++ [x]).
  { intros o x [|p ps]; unfold bracketed; [by eexists|].
    destruct (nonempty gap); rewrite !app_assoc; by eexists. }
  assert (Hlast : forall x s', t = s' ++ [x] -> is_space x = false -> trim t = t).
  { intros x s' Hx Hs. apply (trim_ends t c x); try done; [by rewrite Hc|by rewrite Hc|].
    by rewrite Hx, rev_app_distr. }
  destruct Hv as [|[]|n Hn|str|l Hl|fs Ho Hf]; cbn [json_stringify_gap json_stringify] in Ht;
    try (injection Ht as <-; reflexivity).
  - rewrite (reads_back_finite n Hn) in Ht. injection Ht as <-. apply trim_no_space.
    pose proof (string_of_num_units n (reads_back_finite n Hn)) as Hu. rewrite forallb_forall in *.
    intros x Hx. by rewrite (number_unit_not_space x (Hu x Hx)).
  - injection Ht as <-. unfold json_quote in *. rewrite app_assoc in Hlast. by apply (Hlast DQUOTE _ eq_refl).
  - injection Ht as Ht. destruct (Hb (js "[") (ch "]")
      (map (fun x => default (js "null") (json_stringify_gap gap (indent ++ gap) x)) l)) as [s' Hs'].
    by apply (Hlast (ch "]") s'); [rewrite <- Ht|].
  - injection Ht as Ht. destruct (Hb (js "{") (ch "}")
      (omap (fun kv => (fun t => json_quote kv.1 ++ json_colon gap ++ t)
                       <$> json_stringify_gap gap (indent ++ gap) kv.2) fs)) as [s' Hs'].
    by apply (Hlast (ch "}") s'); [rewrite <- Ht|].
Qed.

Definition spaces (ws : jsstr) : Prop := forallb json_space ws = true.

Lemma skip_spaces ws s : spaces ws -> skip_ws (ws ++ s) = skip_ws s.
Proof.
  unfold spaces, skip_ws. induction ws as [|c ws IH]; cbn; [done|].
  rewrite andb_true_iff. intros [-> Hw]. by apply IH.
Qed.

Lemma spaces_app a b : spaces a -> spaces b -> spaces (a ++ b).
Proof. unfold spaces. rewrite forallb_app. intros -> ->. done. Qed.

Lemma start_not_space c t : value_start c = true -> skip_ws (c :: t) = c :: t.
Proof.
  intros Hc. unfold skip_ws. cbn. destruct (json_space c) eqn:Hs; [|done]. exfalso.
  unfold json_space in Hs. rewrite !orb_true_iff, !N.eqb_eq in Hs.
  by destruct Hs as [[[->| ->]| ->]| ->].
Qed.

(** ** Lists of values and of properties *)

(** The text between two parts, and around them. *)
Record layout := { line_start : jsstr; line_end : jsstr }.

Definition layout_of (gap indent : jsstr) : layout :=
  if nonempty gap then {| line_start := [10%N] ++ indent ++ gap; line_end := [10%N] ++ indent |}
  else {| line_start := []; line_end := [] |}.

Definition well_laid (y : layout) : Prop :=
  spaces (line_start y) /\ spaces (line_end y)
  /\ forall c rest, delimiter c = true -> delimited (line_end y ++ c :: rest).

Lemma layout_of_well gap indent : spaces gap -> spaces indent -> well_laid (layout_of gap indent).
Proof.
  intros Hg Hi. unfold layout_of. destruct (nonempty gap); unfold well_laid; cbn [line_start line_end].
  - split_and!; [by apply spaces_app; [|apply spaces_app]|by apply spaces_app|].
    intros c rest _. by apply delimited_cons.
  - split_and!; [done|done|]. intros c rest Hc. by apply delimited_cons.
Qed.

Lemma bracketed_parts o c gap indent p ps :
  bracketed o c gap indent (p :: ps)
  = o ++ line_start (layout_of gap indent) ++ join (44%N :: line_start (layout_of gap indent)) (p :: ps)
      ++ line_end (layout_of gap indent) ++ c.
Proof. unfold bracketed, layout_of. destruct (nonempty gap); cbn [line_start line_end]; by rewrite <- ?app_assoc. Qed.

Lemma join_cons_length sep p ps : (length p <= length (join sep (p :: ps)))%nat.
Proof. destruct ps; cbn; rewrite ?length_app; lia. Qed.

(** What a reader must do for a value of a list. *)
Definition value_read (v : jsval) (t : jsstr) : Prop :=
  (exists c t', t = c :: t' /\ value_start c = true)
  /\ forall ws rest fuel, spaces ws -> delimited rest -> (2 * length t <= fuel)%nat ->
       json_value fuel (ws ++ t ++ rest) = Some (v, rest).

Lemma read_items y l ts : well_laid y -> Forall2 value_read l ts -> l <> [] ->
  forall ws rest fuel acc, spaces ws -> (2 * length (join (44%N :: line_start y) ts) + 1 <= fuel)%nat ->
  json_items fuel (ws ++ join (44%N :: line_start y) ts ++ line_end y ++ js "]" ++ rest) acc
  = Some (JArr (rev acc ++ l), rest).
Proof.
  intros (Hstart & Hend & Hdelim). induction 1 as [|v t l ts (_ & Hv) Hrest IH]; [done|]. intros _ ws rest fuel acc Hws Hf.
  pose proof (join_cons_length (44%N :: line_start y) t ts) as Hlen.
  destruct fuel as [|fuel]; [lia|]. cbn [json_items].
  destruct Hrest as [|v' t' l ts Hv' Hrest].
  - cbn [join] in *. rewrite Hv; [|done|by apply Hdelim|lia].
    cbn [mbind option_bind]. rewrite skip_spaces by done.
    change (skip_ws (js "]" ++ rest)) with (93%N :: rest). cbv iota.
    change (93 =? ch ",")%N with false. change (93 =? ch "]")%N with true. cbv iota. done.
  - set (more := join _ (t' :: ts)) in *.
    change (join (44%N :: line_start y) (t :: t' :: ts)) with (t ++ (44%N :: line_start y) ++ more) in *.
    rewrite <- (app_assoc t), Hv; [|done|by apply delimited_cons|lia].
    cbn [mbind option_bind app]. change (skip_ws (44%N :: ?x)) with (44%N :: x). cbv iota.
    change (44 =? ch ",")%N with true. cbv iota. rewrite <- app_assoc.
    rewrite IH; [|done|done|rewrite !length_app, length_cons in Hf; lia].
    cbn [rev]. by rewrite <- app_assoc.
Qed.

(** The text of a property. *)
Definition field_text (gap : jsstr) (k t : jsstr) : jsstr := json_quote k ++ json_colon gap ++ t.

Lemma read_key fuel k rest : (length k < fuel)%nat ->
  json_string fuel (quote_units k ++ DQUOTE :: rest) [] = Some (k, rest).
Proof. intros Hk. by rewrite (read_quoted (length k)) by lia. Qed.

Lemma json_colon_spaces gap : exists ws, json_colon gap = ch ":" :: ws /\ spaces ws.
Proof. unfold json_colon. destruct (nonempty gap); [by exists (js " ")|by exists []]. Qed.

Lemma field_text_length gap k t : (length t + length k + 2 <= length (field_text gap k t))%nat.
Proof.
  unfold field_text, json_quote. rewrite !length_app. pose proof (quote_units_length k).
  cbn [length]. lia.
Qed.

(** One property up to what follows its value. *)
Lemma read_field gap fuel ws k v t rest acc : spaces ws -> value_read v t -> delimited rest ->
  (2 * length (field_text gap k t) <= fuel)%nat ->
  json_fields (S fuel) (ws ++ field_text gap k t ++ rest) acc
  = match skip_ws rest with
    | c' :: r3 =>
        if (c' =? ch ",")%N then json_fields fuel r3 (set_field acc k v)
        else if (c' =? ch "}")%N then Some (JObj (set_field acc k v), r3) else None
    | [] => None
    end.
Proof.
  intros Hws (_ & Hv) Hd Hf. pose proof (field_text_length gap k t) as Hlen.
  cbn [json_fields]. rewrite skip_spaces by done.
  destruct (json_colon_spaces gap) as (sp & Hcolon & Hsp).
  assert (Htext : field_text gap k t ++ rest
                  = DQUOTE :: quote_units k ++ DQUOTE :: ch ":" :: sp ++ t ++ rest).
  { unfold field_text, json_quote. rewrite Hcolon. rewrite <- !app_assoc. reflexivity. }
  rewrite Htext. change (skip_ws (DQUOTE :: ?x)) with (DQUOTE :: x). cbv iota. rewrite N.eqb_refl.
  rewrite read_key.
  2: { rewrite length_app. cbn. rewrite length_app. cbn. rewrite length_app. pose proof (quote_units_length k). lia. }
  cbn [mbind option_bind]. change (skip_ws (ch ":" :: ?x)) with (ch ":" :: x). cbv iota.
  change (ch ":" =? ch ":")%N with true. cbv iota. rewrite Hv; [done|done|done|lia].
Qed.

Lemma read_fields gap y fs ts : well_laid y ->
  Forall2 (fun kv t => value_read kv.2 t) fs ts -> fs <> [] ->
  forall ws rest fuel acc, spaces ws ->
  let parts := zip_with (fun kv t => field_text gap kv.1 t) fs ts in
  (2 * length (join (44%N :: line_start y) parts) + 1 <= fuel)%nat ->
  json_fields fuel (ws ++ join (44%N :: line_start y) parts ++ line_end y ++ js "}" ++ rest) acc
  = Some (JObj (fold_left (fun acc kv => set_field acc kv.1 kv.2) fs acc), rest).
Proof.
  intros (Hstart & Hend & Hdelim). induction 1 as [|[k v] t fs ts Hv Hrest IH]; [done|].
  intros _ ws rest fuel acc Hws parts Hf. subst parts. cbn [zip_with fst snd] in *.
  pose proof (join_cons_length (44%N :: line_start y) (field_text gap k t)
                (zip_with (fun kv t => field_text gap kv.1 t) fs ts)) as Hlen.
  destruct fuel as [|fuel]; [lia|]. destruct Hrest as [|kv' t' fs ts Hv' Hrest].
  - cbn [join zip_with] in *. rewrite read_field with (v := v); [|done|done|by apply Hdelim|lia].
    rewrite skip_spaces by done. change (skip_ws (js "}" ++ rest)) with (125%N :: rest). cbv iota.
    change (125 =? ch ",")%N with false. change (125 =? ch "}")%N with true. cbv iota. done.
  - cbn [zip_with] in *. set (more := join _ (_ :: zip_with _ fs ts)) in IH.
    change (join (44%N :: line_start y) (field_text gap k t :: field_text gap kv'.1 t' :: zip_with (fun kv t => field_text gap kv.1 t) fs ts))
      with (field_text gap k t ++ (44%N :: line_start y) ++ more) in *.
    rewrite <- (app_assoc (field_text gap k t)), read_field with (v := v);
      [|done|done|by apply delimited_cons|lia].
    cbn [app]. change (skip_ws (44%N :: ?x)) with (44%N :: x). cbv iota.
    change (44 =? ch ",")%N with true. cbv iota. rewrite <- app_assoc.
    rewrite IH; [done|done|done|]. rewrite !length_app, length_cons in Hf. lia.
Qed.

(** ** Values *)

Lemma storable_prints v gap indent : storable v -> exists t, json_stringify_gap gap indent v = Some t.
Proof. destruct 1; by eexists. Qed.

Lemma start_cases c : value_start c = true ->
  c = DQUOTE \/ c = ch "[" \/ c = ch "{" \/ c = ch "t" \/ c = ch "f" \/ c = ch "n"
  \/ ((c =? ch "-")%N || is_digit c) = true.
Proof. unfold value_start. rewrite !orb_true_iff, !N.eqb_eq. tauto. Qed.

Lemma read_number n ws rest fuel : reads_back n -> spaces ws -> delimited rest -> (0 < fuel)%nat ->
  json_value fuel (ws ++ string_of_num n ++ rest) = Some (JNum n, rest).
Proof.
  intros Hn Hws Hr Hf. destruct fuel as [|fuel]; [lia|]. cbn [json_value]. rewrite skip_spaces by done.
  destruct (number_start n Hn) as (c & t & Ht & Hc).
  pose proof (json_number_before _ rest n Hr Hn) as Hread. rewrite Ht in *.
  assert (Hstart : value_start c = true) by (unfold value_start; rewrite <- !orb_assoc, Hc; by rewrite !orb_true_r).
  rewrite <- app_comm_cons in *. rewrite start_not_space by done.
  assert (Hne : forall x, ((x =? ch "-")%N || is_digit x) = false -> (c =? x)%N = false).
  { intros x Hx. apply N.eqb_neq. intros ->. by rewrite Hx in Hc. }
  rewrite !Hne by reflexivity.
  assert (Hword : forall w x, ((x =? ch "-")%N || is_digit x) = false -> starts_with (x :: w) (c :: t ++ rest) = false).
  { intros w x Hx. cbn. by rewrite (N.eqb_sym x c), Hne. }
  change (js "true") with (ch "t" :: js "rue"). change (js "false") with (ch "f" :: js "alse").
  change (js "null") with (ch "n" :: js "ull"). rewrite !Hword by reflexivity.
  by rewrite Hread.
Qed.

(** A value's text, however it is laid out, is read. *)
Definition printed_reads (v : jsval) : Prop :=
  storable v -> forall gap indent t, spaces gap -> spaces indent ->
  json_stringify_gap gap indent v = Some t -> value_read v t.

Lemma value_read_items gap indent l : spaces gap -> spaces indent ->
  Forall storable l -> Forall printed_reads l ->
  Forall2 value_read l (map (fun x => default (js "null") (json_stringify_gap gap (indent ++ gap) x)) l).
Proof.
  intros Hg Hi Hs Hl. induction Hl as [|x l Hx _ IH]; [constructor|]. inversion Hs; subst.
  cbn [map]. constructor; [|by apply IH].
  destruct (storable_prints x gap (indent ++ gap)) as (t & Ht); [done|]. rewrite Ht.
  eapply Hx; [done|exact Hg| |exact Ht]. by apply spaces_app.
Qed.

Lemma value_read_fields gap indent fs : spaces gap -> spaces indent ->
  Forall (fun kv => storable kv.2) fs -> Forall (fun kv => printed_reads kv.2) fs ->
  exists ts, Forall2 (fun kv t => value_read kv.2 t) fs ts
    /\ omap (fun kv => (fun t => json_quote kv.1 ++ json_colon gap ++ t)
                       <$> json_stringify_gap gap (indent ++ gap) kv.2) fs
       = zip_with (fun kv t => field_text gap kv.1 t) fs ts.
Proof.
  intros Hg Hi Hs Hl. induction Hl as [|[k x] fs Hx _ IH]; [by exists []|]. inversion Hs; subst.
  destruct IH as (ts & Hts & Heq); [done|].
  destruct (storable_prints x gap (indent ++ gap)) as (t & Ht); [done|].
  exists (t :: ts). split.
  - constructor; [|done]. eapply Hx; [done|exact Hg| |exact Ht]. by apply spaces_app.
  - cbn [omap list_omap zip_with fst snd]. rewrite Ht. cbn [fmap option_fmap option_map]. by rewrite Heq.
Qed.

Lemma bracketed_length o c gap indent p ps :
  (2 * length (join (44%N :: line_start (layout_of gap indent)) (p :: ps)) + 4
   <= 2 * length (bracketed [o] [c] gap indent (p :: ps)))%nat.
Proof. rewrite bracketed_parts, !length_app. cbn [length]. lia. Qed.

Lemma object_text gap indent fs t : json_stringify_gap gap indent (JObj fs) = Some t ->
  t = bracketed (js "{") (js "}") gap indent
        (omap (fun kv => (fun t => json_quote kv.1 ++ json_colon gap ++ t)
                         <$> json_stringify_gap gap (indent ++ gap) kv.2) fs).
Proof. by intros [= <-]. Qed.

(** A printed value is read up to a delimiter. *)
Lemma printed_read v : printed_reads v.
Proof.
  induction v as [| |b|n|s|l IH|fs IH] using jsval_ind'; intros Hv gap indent t Hg Hi Ht;
    pose proof (printed_start _ _ _ _ Hv Ht) as Hstart; (split; [exact Hstart|]); intros ws rest fuel Hws Hd Hf;
    (destruct fuel as [|fuel]; [destruct Hstart as (c & t' & -> & _); cbn in Hf; lia|]).
  - done.
  - injection Ht as <-. cbn [json_value]. rewrite skip_spaces by done. reflexivity.
  - cbn [json_value]. rewrite skip_spaces by done. injection Ht as <-. by destruct b.
  - inversion Hv as [| |n' Hn| | |]; subst. cbn in Ht. rewrite (reads_back_finite n Hn) in Ht. injection Ht as <-.
    apply read_number; [done|done|done|lia].
  - injection Ht as <-.
    cbn [json_value]. rewrite skip_spaces by done.
    assert (Htext : json_quote s ++ rest = DQUOTE :: quote_units s ++ DQUOTE :: rest)
      by (unfold json_quote; rewrite <- !app_assoc; reflexivity).
    rewrite Htext. change (skip_ws (DQUOTE :: ?x)) with (DQUOTE :: x). cbv iota. rewrite N.eqb_refl.
    rewrite read_key; [done|]. cbn. rewrite length_app. pose proof (quote_units_length s). lia.
  - inversion Hv as [| | | |l' Hl|]; subst. clear Hstart. cbn [json_stringify_gap] in Ht. injection Ht as <-.
    pose proof (value_read_items gap indent l Hg Hi Hl IH) as Hitems.
    cbn [json_value]. rewrite skip_spaces by done. destruct Hitems as [|x t l ts Hx Hts]; [done|].
    pose proof (bracketed_length (ch "[") (ch "]") gap indent t ts) as Hlen.
    change (js "[") with [ch "["] in *. change (js "]") with [ch "]"] in *.
    pose proof (layout_of_well gap indent Hg Hi) as Hy.
    assert (Hread := read_items (layout_of gap indent) (x :: l) (t :: ts) Hy
      (List.Forall2_cons _ _ Hx Hts) ltac:(done) (line_start (layout_of gap indent)) rest fuel []
      (proj1 Hy) ltac:(lia)).
    rewrite bracketed_parts. rewrite <- !app_assoc. cbn [app].
    change (skip_ws (ch "[" :: ?x)) with (ch "[" :: x). cbv iota.
    change (ch "[" =? DQUOTE)%N with false. change (ch "[" =? ch "[")%N with true. cbv iota.
    change (js "]") with [ch "]"] in Hread. cbn [app] in Hread. rewrite Hread.
    destruct Hx as ((c & t' & -> & Hc) & _).
    assert (Hhead : exists r, skip_ws (line_start (layout_of gap indent) ++
              join (44%N :: line_start (layout_of gap indent)) ((c :: t') :: ts) ++
              line_end (layout_of gap indent) ++ ch "]" :: rest) = c :: r).
    { rewrite skip_spaces by apply Hy. destruct ts; cbn [join app]; eexists; by apply start_not_space. }
    destruct Hhead as (r & ->). destruct (N.eqb_spec c (ch "]")) as [->|_]; [discriminate Hc|]. done.
  - inversion Hv as [| | | | |fs' Ho Hfs]; subst. clear Hstart. apply object_text in Ht.
    destruct (value_read_fields gap indent fs Hg Hi Hfs IH) as (ts & Hts & Hparts). rewrite Hparts in Ht. subst t.
    cbn [json_value]. rewrite skip_spaces by done. destruct Hts as [|[k x] t fs ts Hx Hts]; [done|].
    pose proof (bracketed_length (ch "{") (ch "}") gap indent (field_text gap k t)
                  (zip_with (fun kv t => field_text gap kv.1 t) fs ts)) as Hlen.
    change (js "{") with [ch "{"] in *. change (js "}") with [ch "}"] in *.
    pose proof (layout_of_well gap indent Hg Hi) as Hy. cbn [zip_with fst] in *.
    assert (Hread := read_fields gap (layout_of gap indent) ((k, x) :: fs) (t :: ts) Hy
      ltac:(by constructor) ltac:(done) (line_start (layout_of gap indent)) rest fuel []
      (proj1 Hy)). cbn [zip_with fst] in Hread. specialize (Hread ltac:(lia)).
    rewrite bracketed_parts. rewrite <- !app_assoc. cbn [app].
    change (skip_ws (ch "{" :: ?x)) with (ch "{" :: x). cbv iota.
    change (ch "{" =? DQUOTE)%N with false. change (ch "{" =? ch "[")%N with false.
    change (ch "{" =? ch "{")%N with true. cbv iota.
    change (js "}") with [ch "}"] in Hread. cbn [app] in Hread. rewrite Hread.
    assert (Hhead : exists r, skip_ws (line_start (layout_of gap indent) ++
              join (44%N :: line_start (layout_of gap indent)) (field_text gap k t :: zip_with (fun kv t => field_text gap kv.1 t) fs ts) ++
              line_end (layout_of gap indent) ++ ch "}" :: rest) = DQUOTE :: r).
    { rewrite skip_spaces by apply Hy. destruct (zip_with _ fs ts); cbn [join]; eexists; by apply start_not_space. }
    destruct Hhead as (r & ->). change (DQUOTE =? ch "}")%N with false. cbv iota.
    by rewrite (in_order_fold _ Ho).
Qed.

(** Printing and reading back. *)
Lemma json_parse_stringify_gap v gap t :
  storable v -> spaces gap -> json_stringify_gap gap [] v = Some t -> json_parse t = Some v.
Proof.
  intros Hv Hg Ht. destruct (printed_read v Hv gap [] t Hg eq_refl Ht) as (_ & Hread).
  unfold json_parse. specialize (Hread [] [] (2 * length t + 2)%nat eq_refl). rewrite app_nil_r in Hread.
  change ([] ++ t) with t in Hread. rewrite Hread; [done|done|lia].
Qed.

Lemma json_parse_stringify v t : storable v -> json_stringify v = Some t -> json_parse t = Some v.
Proof.
  intros Hv Ht. apply (json_parse_stringify_gap v [] t Hv eq_refl). by rewrite json_stringify_no_gap.
Qed.

(** ** What is read can be printed *)

(** The same double, sign and payload of zero included. *)
Definition num_same (a b : num) : bool :=
  match a, b with
  | S754_zero s, S754_zero s' | S754_infinity s, S754_infinity s' => Bool.eqb s s'
  | S754_nan, S754_nan => true
  | S754_finite s m e, S754_finite s' m' e' => Bool.eqb s s' && (m =? m')%positive && (e =? e')
  | _, _ => false
  end.

Lemma num_same_eq a b : num_same a b = true -> a = b.
Proof.
  destruct a, b; cbn; rewrite ?andb_true_iff, ?Bool.eqb_true_iff, ?Pos.eqb_eq, ?Z.eqb_eq; try done.
  - by intros ->.
  - by intros ->.
  - by intros [[-> ->] ->].
Qed.

Lemma assoc_not_key {A} (fs : list (jsstr * A)) k : k ∉ map fst fs -> assoc fs k = None.
Proof. rewrite <- has_key_not_in. unfold has_key. by destruct (assoc fs k). Qed.

(** ** Literal objects *)

Lemma NoDup_keys (ks : list jsstr) : dedupe ks = ks -> NoDup ks.
Proof. intros <-. apply NoDup_dedupe. Qed.

(** Properties whose keys are distinct and no array indices are in order. *)
Definition plain_keys (ks : list jsstr) : bool :=
  forallb (fun k => match index_key k with None => true | Some _ => false end) ks
  && bool_decide (dedupe ks = ks).

Lemma in_order_plain fs : plain_keys (map fst fs) = true -> in_order fs.
Proof.
  unfold plain_keys, in_order. intros [Hidx Hnd%bool_decide_eq_true%NoDup_keys]%andb_prop.
  induction (map fst fs) as [|k ks IH]; [constructor|]. cbn in Hidx. apply andb_prop in Hidx as [Hk Hidx].
  apply NoDup_cons in Hnd as [Hnew Hnd]. constructor; [by apply IH|]. apply Forall_forall. intros y Hy.
  split; [by intros ->|]. destruct (index_key k); [done|]. rewrite forallb_forall in Hidx.
  specialize (Hidx y ltac:(by apply list_elem_of_In)). by destruct (index_key y).
Qed.

Lemma storable_literal fs : plain_keys (map fst fs) = true -> Forall (fun kv => storable kv.2) fs ->
  storable (JObj fs).
Proof. intros Hk Hv. constructor; [by apply in_order_plain|done]. Qed.

(** The fields of a literal object, one by one. *)
Ltac each_field :=
  repeat (apply Forall_cons_2; [cbn [snd]; try done; try (by constructor)|]); try apply Forall_nil_2.

(** All numbers read back from their text. *)
Fixpoint numbers_read_back (v : jsval) : bool :=
  match v with
  | JNum n => match json_number (string_of_num n) with Some (m, []) => num_same m n | _ => false end
  | JArr l => forallb numbers_read_back l
  | JObj fs => forallb (fun kv => numbers_read_back kv.2) fs
  | _ => true
  end.

Lemma numbers_read_back_num n : numbers_read_back (JNum n) = true -> reads_back n.
Proof.
  unfold reads_back. cbn. destruct (json_number _) as [[m [|c t]]|]; [|done..]. by intros <-%num_same_eq.
Qed.

Definition storable_if_read_back (v : jsval) : Prop := numbers_read_back v = true -> storable v.

Lemma Forall_replace_field (P : jsval -> Prop) fs k v :
  Forall (fun kv => P kv.2) fs -> P v -> Forall (fun kv => P kv.2) (replace_field fs k v).
Proof.
  intros Hfs Hv. induction Hfs as [|[k' v'] fs Hx Hfs IH]; cbn; [constructor|].
  destruct (k' === k); by constructor.
Qed.

Lemma Forall_set_field (P : jsval -> Prop) fs k v :
  Forall (fun kv => P kv.2) fs -> P v -> Forall (fun kv => P kv.2) (set_field fs k v).
Proof.
  intros Hfs Hv. unfold set_field. destruct (has_key fs k); [by apply Forall_replace_field|].
  destruct (index_key k) as [n|]; [|apply Forall_app; by repeat constructor].
  induction Hfs as [|[k' v'] fs Hx Hfs IH]; cbn; [by repeat constructor|].
  destruct (index_key k') as [n'|]; [destruct (n' <? n)%N|]; by repeat constructor.
Qed.

Lemma Forall_filter_list {A} (P : A -> Prop) (p : A -> bool) l : Forall P l -> Forall P (List.filter p l).
Proof. induction 1 as [|x l Hx _ IH]; cbn; [constructor|]. destruct (p x); by try constructor. Qed.

Lemma storable_array l : Forall storable_if_read_back l -> storable_if_read_back (JArr l).
Proof.
  intros Hl Hn. constructor. cbn in Hn. rewrite forallb_forall in Hn. rewrite Forall_forall in *.
  intros x Hx. apply Hl; [done|]. by apply Hn, list_elem_of_In.
Qed.

Lemma storable_object fs : in_order fs -> Forall (fun kv => storable_if_read_back kv.2) fs ->
  storable_if_read_back (JObj fs).
Proof.
  intros Ho Hl Hn. constructor; [done|]. cbn in Hn. rewrite forallb_forall in Hn. rewrite Forall_forall in *.
  intros x Hx. apply Hl; [done|]. by apply Hn, list_elem_of_In.
Qed.

Lemma Forall_rev_list {A} (P : A -> Prop) l : Forall P l -> Forall P (rev l).
Proof. rewrite !Forall_forall. intros H x Hx. apply H. apply list_elem_of_In, in_rev. by apply list_elem_of_In. Qed.

(** The values that the reader builds. *)
Lemma read_storable fuel :
  (forall s v r, json_value fuel s = Some (v, r) -> storable_if_read_back v)
  /\ (forall s acc v r, Forall storable_if_read_back acc -> json_items fuel s acc = Some (v, r) ->
        storable_if_read_back v)
  /\ (forall s acc v r, in_order acc -> Forall (fun kv => storable_if_read_back kv.2) acc ->
        json_fields fuel s acc = Some (v, r) -> storable_if_read_back v).
Proof.
  induction fuel as [|fuel (IHv & IHi & IHf)]; [done|]. split_and!.
  - intros s v r. cbn [json_value]. destruct (skip_ws s) as [|c s']; [done|].
    destruct (c =? DQUOTE)%N.
    { destruct (json_string _ s' []) as [[t r']|]; [|done]. cbn. intros [= <- <-] _. constructor. }
    destruct (c =? ch "[")%N.
    { destruct (skip_ws s') as [|c' r']; [done|]. destruct (c' =? ch "]")%N; [|by apply IHi].
      intros [= <- <-] _. by constructor. }
    destruct (c =? ch "{")%N.
    { destruct (skip_ws s') as [|c' r']; [done|]. destruct (c' =? ch "}")%N; [|by apply IHf; constructor].
      intros [= <- <-] _. by repeat constructor. }
    destruct (starts_with (js "true") _); [intros [= <- <-] _; constructor|].
    destruct (starts_with (js "false") _); [intros [= <- <-] _; constructor|].
    destruct (starts_with (js "null") _); [intros [= <- <-] _; constructor|].
    destruct (json_number _) as [[n r']|]; [|done]. cbn. intros [= <- <-] Hn. constructor. by apply numbers_read_back_num.
  - intros s acc v r Hacc. cbn [json_items]. destruct (json_value fuel s) as [[x r']|] eqn:Hx; [|done].
    cbn [mbind option_bind]. apply IHv in Hx. destruct (skip_ws r') as [|c r'']; [done|].
    destruct (c =? ch ",")%N; [apply IHi; by constructor|]. destruct (c =? ch "]")%N; [|done].
    intros [= <- <-]. apply storable_array. apply (Forall_rev_list _ (x :: acc)). by constructor.
  - intros s acc v r Ho Hacc. cbn [json_fields]. destruct (skip_ws s) as [|q s']; [done|].
    destruct (q =? DQUOTE)%N; [|done]. destruct (json_string _ s' []) as [[k r']|]; [|done]. cbn [mbind option_bind].
    destruct (skip_ws r') as [|c r'']; [done|]. destruct (c =? ch ":")%N; [|done].
    destruct (json_value fuel r'') as [[x r3]|] eqn:Hx; [|done]. apply IHv in Hx. cbn [mbind option_bind].
    destruct (skip_ws r3) as [|c' r4]; [done|]. cbv zeta.
    assert (Ho' : in_order (set_field acc k x)) by by apply in_order_set.
    assert (Hacc' : Forall (fun kv => storable_if_read_back kv.2) (set_field acc k x)) by by apply Forall_set_field.
    destruct (c' =? ch ",")%N; [by apply IHf|]. destruct (c' =? ch "}")%N; [|done].
    intros [= <- <-]. by apply storable_object.
Qed.

Lemma json_parse_storable t v : json_parse t = Some v -> numbers_read_back v = true -> storable v.
Proof.
  unfold json_parse. destruct (json_value _ t) as [[v' r]|] eqn:Hv; [|done].
  destruct (skip_ws r); [|done]. intros [= <-]. by apply (proj1 (read_storable _) _ _ _ Hv).
Qed.

(** ** Texts that are read *)

Lemma json_number_start c s n r : json_number (c :: s) = Some (n, r) -> ((c =? ch "-")%N || is_digit c) = true.
Proof.
  unfold json_number. destruct (c =? ch "-")%N; [done|]. cbn [orb take_while]. by destruct (is_digit c).
Qed.

Lemma value_read_start fuel s v r : json_value fuel s = Some (v, r) ->
  exists c t, skip_ws s = c :: t /\ value_start c = true.
Proof.
  destruct fuel as [|fuel]; [done|]. cbn [json_value]. destruct (skip_ws s) as [|c s']; [done|].
  intros H. exists c, s'. split; [done|]. unfold value_start.
  destruct (c =? DQUOTE)%N; [done|]. destruct (c =? ch "[")%N; [done|]. destruct (c =? ch "{")%N; [done|].
  destruct (starts_with (js "true") (c :: s')) eqn:Ht.
  { apply starts_with_spec in Ht as [t [= -> ->]]. by vm_compute. }
  destruct (starts_with (js "false") (c :: s')) eqn:Hf.
  { apply starts_with_spec in Hf as [t [= -> ->]]. by vm_compute. }
  destruct (starts_with (js "null") (c :: s')) eqn:Hn.
  { apply starts_with_spec in Hn as [t [= -> ->]]. by vm_compute. }
  destruct (json_number (c :: s')) as [[n r']|] eqn:Hnum; [|done].
  apply json_number_start in Hnum. rewrite <- !orb_assoc, Hnum. by rewrite !orb_true_r.
Qed.

(** What is read is not blank. *)
Lemma json_parse_not_blank t v : json_parse t = Some v -> nonempty (trim t) = true.
Proof.
  unfold json_parse. destruct (json_value _ t) as [[v' r]|] eqn:Hv; [|done]. intros _.
  apply value_read_start in Hv as (c & t' & Ht & Hc). apply (elem_not_blank c); [|by apply value_start_not_space].
  rewrite <- (take_drop_while json_space t). unfold skip_ws in Ht. rewrite Ht. set_solver.
Qed.

(** Nothing that is read is absent. *)
Lemma json_parse_present t v : json_parse t = Some v -> v <> JUndefined.
Proof. intros H ->. apply json_parse_storable in H; [|done]. inversion H. Qed.

Lemma json_parse_nonempty t v : json_parse t = Some v -> nonempty t = true.
Proof. intros H%json_parse_not_blank. by destruct t. Qed.
