(* ===== verification/Regex.v ===== *)
(** * Regular expressions

    The backtracking matcher of ECMAScript for the constructs the console's
    patterns use: code unit classes, sequence, ordered alternation, greedy
    repetition, capture groups and backreferences.  A match is a
    continuation-passing search, as the standard defines it. *)

From S2P Require Import Prelude JsString.

Inductive regex : Type :=
| REmpty
| RSet (p : N -> bool)
| RSeq (a b : regex)
| RAlt (a b : regex)
| RStar (a : regex)
| RGroup (i : nat) (a : regex)
| RBack (i : nat).

(** Captured texts, the latest first. *)
Abbreviation captures := (list (nat * jsstr)).

Fixpoint capture (caps : captures) (i : nat) : option jsstr :=
  match caps with
  | [] => None
  | (j, t) :: caps' => if (j =? i)%nat then Some t else capture caps' i
  end.

(** Text that is always present: the capture of a group that took part. *)
Definition group (caps : captures) (i : nat) : jsstr := default [] (capture caps i).

Section Match.
Context {A : Type}.
Abbreviation cont := (jsstr -> captures -> option A).

(** Greedy repetition of a matcher; an iteration that consumes nothing is
    refused, so the length of the text bounds the iterations. *)
Fixpoint star_loop (m : jsstr -> captures -> cont -> option A) (fuel : nat)
    (s : jsstr) (caps : captures) (k : cont) : option A :=
  match fuel with
  | O => k s caps
  | S fuel' =>
      match m s caps (fun s' caps' =>
              if (length s' <? length s)%nat then star_loop m fuel' s' caps' k else None) with
      | Some x => Some x
      | None => k s caps
      end
  end.

Fixpoint rmatch (r : regex) (s : jsstr) (caps : captures) (k : cont) : option A :=
  match r with
  | REmpty => k s caps
  | RSet p =>
      match s with
      | c :: s' => if p c then k s' caps else None
      | [] => None
      end
  | RSeq a b => rmatch a s caps (fun s' caps' => rmatch b s' caps' k)
  | RAlt a b =>
      match rmatch a s caps k with
      | Some x => Some x
      | None => rmatch b s caps k
      end
  | RStar a => star_loop (rmatch a) (length s) s caps k
  | RGroup i a =>
      rmatch a s caps (fun s' caps' => k s' ((i, take (length s - length s') s) :: caps'))
  | RBack i =>
      let t := group caps i in
      if starts_with t s then k (drop (length t) s) caps else None
  end.
End Match.

(** [^...$]: the whole text. *)
Definition full_match (r : regex) (s : jsstr) : option captures :=
  rmatch r s [] (fun s' caps => match s' with [] => Some caps | _ => None end).

(** ** Derived forms *)
Definition RPlus (a : regex) : regex := RSeq a (RStar a).
Definition ROpt (a : regex) : regex := RAlt a REmpty.
Fixpoint RText (s : jsstr) : regex :=
  match s with
  | [] => REmpty
  | c :: s' => RSeq (RSet (N.eqb c)) (RText s')
  end.
Fixpoint RAlts (rs : list regex) : regex :=
  match rs with
  | [] => RSet (fun _ => false)
  | [r] => r
  | r :: rs' => RAlt r (RAlts rs')
  end.
Fixpoint RSeqs (rs : list regex) : regex :=
  match rs with
  | [] => REmpty
  | r :: rs' => RSeq r (RSeqs rs')
  end.

(** [.] without and with the [s] flag *)
Definition is_line_terminator (c : N) : bool :=
  ((c =? 10) || (c =? 13) || (c =? 0x2028) || (c =? 0x2029))%N.
Definition RDot : regex := RSet (fun c => negb (is_line_terminator c)).
Definition RAny : regex := RSet (fun _ => true).

(** ** Deterministic matches

    The lemmas follow the match of a text whose parts are known, one construct at
    a time; backtracking never happens because the continuation succeeds. *)
Section Lemmas.
Context {A : Type}.

Lemma rmatch_text (t s : jsstr) caps (k : jsstr -> captures -> option A) :
  rmatch (RText t) (t ++ s) caps k = k s caps.
Proof.
  revert caps k. induction t as [|c t IH]; intros caps k; [done|].
  cbn [RText app rmatch]. by rewrite N.eqb_refl.
Qed.

(** The text must start with the literal. *)
Lemma rmatch_text_inv (t s : jsstr) caps (k : jsstr -> captures -> option A) x :
  rmatch (RText t) s caps k = Some x -> exists s', s = t ++ s' /\ k s' caps = Some x.
Proof.
  revert s caps k. induction t as [|c t IH]; intros s caps k; cbn [RText rmatch]; [by exists s|].
  destruct s as [|c' s]; [done|]. destruct (N.eqb_spec c c') as [<-|]; [|done].
  intros (s' & -> & Hk)%IH. by exists s'.
Qed.

Lemma star_set_loop p u c s caps (k : jsstr -> captures -> option A) x fuel :
  forallb p u = true -> p c = false -> k (c :: s) caps = Some x ->
  (length u <= fuel)%nat ->
  star_loop (rmatch (RSet p)) fuel (u ++ c :: s) caps k = Some x.
Proof.
  revert u. induction fuel as [|fuel IH]; intros u Hu Hc Hk Hl.
  - destruct u; simpl in Hl; [done|lia].
  - destruct u as [|c' u]; cbn [app star_loop rmatch].
    + by rewrite Hc.
    + cbn [forallb] in Hu. apply andb_true_iff in Hu as [-> Hu].
      assert ((length (u ++ c :: s) <? length (c' :: u ++ c :: s))%nat = true) as ->
        by (apply Nat.ltb_lt; simpl; lia).
      rewrite IH; [done|done|done|done|simpl in Hl; lia].
Qed.

(** A greedy run of one class, up to a code unit outside it. *)
Lemma rmatch_star_set p u c s caps (k : jsstr -> captures -> option A) x :
  forallb p u = true -> p c = false -> k (c :: s) caps = Some x ->
  rmatch (RStar (RSet p)) (u ++ c :: s) caps k = Some x.
Proof. intros. cbn [rmatch]. apply star_set_loop; try done. rewrite length_app. lia. Qed.

Lemma rmatch_plus_set p u c s caps (k : jsstr -> captures -> option A) x :
  u <> [] -> forallb p u = true -> p c = false -> k (c :: s) caps = Some x ->
  rmatch (RPlus (RSet p)) (u ++ c :: s) caps k = Some x.
Proof.
  intros Hne Hu Hc Hk. destruct u as [|c' u]; [done|]. cbn [forallb] in Hu.
  apply andb_true_iff in Hu as [Hc' Hu]. unfold RPlus.
  change (rmatch (RSeq (RSet p) (RStar (RSet p))) ((c' :: u) ++ c :: s) caps k)
    with (if p c' then rmatch (RStar (RSet p)) (u ++ c :: s) caps k else None).
  rewrite Hc'. by apply rmatch_star_set.
Qed.

(** The run that ends the text. *)
Lemma rmatch_star_set_end p u caps (k : jsstr -> captures -> option A) x :
  forallb p u = true -> k [] caps = Some x -> rmatch (RStar (RSet p)) u caps k = Some x.
Proof.
  intros Hu Hk. cbn [rmatch].
  assert (Hloop : forall fuel u, forallb p u = true -> (length u <= fuel)%nat ->
    star_loop (rmatch (RSet p)) fuel u caps k = Some x); [|by apply Hloop].
  clear u Hu. induction fuel as [|fuel IH]; intros u Hu Hl.
  - destruct u; simpl in Hl; [done|lia].
  - destruct u as [|c' u]; cbn [star_loop rmatch]; [done|].
    cbn [forallb] in Hu. apply andb_true_iff in Hu as [-> Hu].
    assert ((length u <? length (c' :: u))%nat = true) as -> by (apply Nat.ltb_lt; simpl; lia).
    rewrite IH; [done|done|simpl in Hl; lia].
Qed.

Lemma rmatch_plus_set_end p u caps (k : jsstr -> captures -> option A) x :
  u <> [] -> forallb p u = true -> k [] caps = Some x ->
  rmatch (RPlus (RSet p)) u caps k = Some x.
Proof.
  intros Hne Hu Hk. destruct u as [|c' u]; [done|]. cbn [forallb] in Hu.
  apply andb_true_iff in Hu as [Hc' Hu]. unfold RPlus.
  change (rmatch (RSeq (RSet p) (RStar (RSet p))) (c' :: u) caps k)
    with (if p c' then rmatch (RStar (RSet p)) u caps k else None).
  rewrite Hc'. by apply rmatch_star_set_end.
Qed.

(** A run that no continuation accepts: [k] fails on the text and on what is left
    of it after any number of units of the class. *)
Lemma star_set_none p caps (k : jsstr -> captures -> option A) fuel s :
  (forall u v, s = u ++ v -> forallb p u = true -> k v caps = None) ->
  star_loop (rmatch (RSet p)) fuel s caps k = None.
Proof.
  revert s. induction fuel as [|fuel IH]; intros s Hk; cbn [star_loop]; [by apply (Hk [] s)|].
  rewrite (Hk [] s eq_refl eq_refl). destruct s as [|c s]; [done|]. cbn [rmatch].
  destruct (p c) eqn:Hc; [|done]. destruct (_ <? _)%nat; [|done]. rewrite IH; [done|].
  intros u v -> Hu. apply (Hk (c :: u) v); [done|]. cbn [forallb]. by rewrite Hc.
Qed.

Lemma rmatch_plus_set_none p caps (k : jsstr -> captures -> option A) s :
  (forall u v, s = u ++ v -> forallb p u = true -> k v caps = None) ->
  rmatch (RPlus (RSet p)) s caps k = None.
Proof.
  intros Hk. unfold RPlus. cbn [rmatch]. destruct s as [|c s]; [done|].
  destruct (p c) eqn:Hc; [|done]. apply star_set_none.
  intros u v -> Hu. apply (Hk (c :: u) v); [done|]. cbn [forallb]. by rewrite Hc.
Qed.

(** A group around a construct that stops after [u]. *)
Lemma rmatch_group i a (u s : jsstr) caps (k : jsstr -> captures -> option A) :
  rmatch (RGroup i a) (u ++ s) caps k
  = rmatch a (u ++ s) caps (fun s' caps' =>
      k s' ((i, take (length (u ++ s) - length s') (u ++ s)) :: caps')).
Proof. done. Qed.

Lemma take_matched (u s : jsstr) : take (length (u ++ s) - length s) (u ++ s) = u.
Proof.
  rewrite length_app. replace (length u + length s - length s)%nat with (length u) by lia.
  by apply take_app_length.
Qed.

(** *** Goal-directed forms: what is left to match is the premise *)

Context (caps : captures) (k : jsstr -> captures -> option A) (x : A).

Lemma rm_seq a b s :
  rmatch a s caps (fun s' caps' => rmatch b s' caps' k) = Some x -> rmatch (RSeq a b) s caps k = Some x.
Proof. done. Qed.

Lemma rm_empty s : k s caps = Some x -> rmatch REmpty s caps k = Some x.
Proof. done. Qed.

Lemma rm_text t s : k s caps = Some x -> rmatch (RText t) (t ++ s) caps k = Some x.
Proof. by rewrite rmatch_text. Qed.

Lemma rm_set p c s : p c = true -> k s caps = Some x -> rmatch (RSet p) ([c] ++ s) caps k = Some x.
Proof. intros Hp Hk. cbn [app rmatch]. by rewrite Hp. Qed.

Lemma rm_alt_left a b s : rmatch a s caps k = Some x -> rmatch (RAlt a b) s caps k = Some x.
Proof. intros H. cbn [rmatch]. by rewrite H. Qed.

Lemma rm_alt_right a b s : rmatch a s caps k = None -> rmatch b s caps k = Some x ->
  rmatch (RAlt a b) s caps k = Some x.
Proof. intros Ha Hb. cbn [rmatch]. by rewrite Ha. Qed.

Lemma rmatch_text_mismatch t s : starts_with t s = false -> rmatch (RText t) s caps k = None.
Proof.
  intros H. destruct (rmatch (RText t) s caps k) eqn:Hm; [|done].
  apply rmatch_text_inv in Hm as (s' & -> & _). by rewrite starts_with_app in H.
Qed.

Lemma rm_back i t s : group caps i = t -> k s caps = Some x ->
  rmatch (RBack i) (t ++ s) caps k = Some x.
Proof.
  intros Hg Hk. cbn [rmatch]. cbv zeta. rewrite Hg, starts_with_app.
  by rewrite drop_app_length.
Qed.

(** A group around something that matches exactly [u]. *)
Lemma rm_group_text i t s : k s ((i, t) :: caps) = Some x ->
  rmatch (RGroup i (RText t)) (t ++ s) caps k = Some x.
Proof. intros Hk. rewrite rmatch_group, rmatch_text. by rewrite take_matched. Qed.

Definition stops (p : N -> bool) (s : jsstr) : bool :=
  match s with c :: _ => negb (p c) | [] => true end.

Lemma rm_group_plus i p u s : nonempty u = true -> forallb p u = true -> stops p s = true ->
  k s ((i, u) :: caps) = Some x ->
  rmatch (RGroup i (RPlus (RSet p))) (u ++ s) caps k = Some x.
Proof.
  intros Hne Hu Hs Hk. rewrite rmatch_group.
  assert (u <> []) by by destruct u.
  destruct s as [|c s].
  - rewrite app_nil_r in *. apply rmatch_plus_set_end; [done|done|].
    cbn [length]. rewrite Nat.sub_0_r, firstn_all. done.
  - apply rmatch_plus_set; [done|done|by apply negb_true_iff|].
    by rewrite take_matched.
Qed.
End Lemmas.
