(* ===== verification/JsDate.v ===== *)
(** * JavaScript dates

    A [Date] is a number of milliseconds since the epoch, or invalid.  This file
    models [getTime] and the UTC getters of the proleptic Gregorian calendar that
    the console's code reads, and the bounds of their results. *)

From S2P Require Import Prelude JsString.

(** [None] is an invalid date. *)
Abbreviation date := (option Z).

Definition ms_per_day : Z := 86400000.

Definition utc_day_number (ms : Z) : Z := ms / ms_per_day.
Definition utc_hours (ms : Z) : Z := ms / 3600000 mod 24.
Definition utc_minutes (ms : Z) : Z := ms / 60000 mod 60.
Definition utc_seconds (ms : Z) : Z := ms / 1000 mod 60.

(** [getUTCDay]: the epoch was a Thursday. *)
Definition utc_weekday (ms : Z) : Z := (utc_day_number ms + 4) mod 7.

(** Year, month (1 to 12) and day of a day number.  The calendar repeats every
    400 years, [146097] days, counted from a first of March. *)
Definition civil_of_era_day (doe : Z) : Z * Z * Z :=
  let yoe := (doe - doe / 1460 + doe / 36524 - doe / 146096) / 365 in
  let doy := doe - (365 * yoe + yoe / 4 - yoe / 100) in
  let mp := (5 * doy + 2) / 153 in
  let d := doy - (153 * mp + 2) / 5 + 1 in
  let m := if mp <? 10 then mp + 3 else mp - 9 in
  (yoe + (if m <=? 2 then 1 else 0), m, d).

Definition civil_of_day (day : Z) : Z * Z * Z :=
  let z := day + 719468 in
  let '(y, m, d) := civil_of_era_day (z mod 146097) in
  (y + 400 * (z / 146097), m, d).

(** [getUTCMonth() + 1], [getUTCDate()], [getUTCFullYear()] *)
Definition utc_month (ms : Z) : Z := (civil_of_day (utc_day_number ms)).1.2.
Definition utc_date (ms : Z) : Z := (civil_of_day (utc_day_number ms)).2.
Definition utc_year (ms : Z) : Z := (civil_of_day (utc_day_number ms)).1.1.

Example utc_fields_2024_02_29 :
  let ms := 1709210096000 in
  (utc_year ms, utc_month ms, utc_date ms, utc_hours ms, utc_minutes ms, utc_weekday ms)
  = (2024, 2, 29, 12, 34, 4).
Proof. vm_compute. reflexivity. Qed.

(** ** Bounds *)

Fixpoint all_from (n : nat) (z : Z) (p : Z -> bool) : bool :=
  match n with
  | O => true
  | S n' => if p z then all_from n' (z + 1) p else false
  end.

Lemma all_from_spec n p lo z : all_from n lo p = true -> lo <= z < lo + Z.of_nat n -> p z = true.
Proof.
  revert lo. induction n as [|n IH]; intros lo; cbn [all_from]; [lia|].
  destruct (p lo) eqn:Hp; [|done]. intros Hall Hz.
  destruct (Z.eq_dec z lo) as [->|]; [done|]. apply (IH (lo + 1)); [done|lia].
Qed.

Definition civil_in_range (doe : Z) : bool :=
  let '(_, m, d) := civil_of_era_day doe in
  (1 <=? m) && (m <=? 12) && (1 <=? d) && (d <=? 31).

Lemma civil_bounds day :
  let '(_, m, d) := civil_of_day day in 1 <= m <= 12 /\ 1 <= d <= 31.
Proof.
  assert (Hall : all_from (Z.to_nat 146097) 0 civil_in_range = true)
    by (vm_compute; reflexivity).
  pose proof (Z.mod_pos_bound (day + 719468) 146097 ltac:(lia)) as Hb.
  pose proof (all_from_spec _ _ _ ((day + 719468) mod 146097) Hall ltac:(lia)) as Hp.
  unfold civil_in_range in Hp. unfold civil_of_day.
  destruct (civil_of_era_day _) as [[y m] d].
  rewrite !andb_true_iff, !Z.leb_le in Hp. lia.
Qed.

Lemma utc_bounds ms :
  0 <= utc_hours ms < 24 /\ 0 <= utc_minutes ms < 60 /\ 0 <= utc_weekday ms < 7
  /\ 1 <= utc_month ms <= 12 /\ 1 <= utc_date ms <= 31.
Proof.
  pose proof (civil_bounds (utc_day_number ms)) as Hc.
  unfold utc_month, utc_date. destruct (civil_of_day _) as [[y m] d]. simpl.
  split_and!; try apply Z.mod_pos_bound; lia.
Qed.
