(* ===== verification/ExpressionTypes.v ===== *)
(** * Billing expressions: data model and traversal

    Models [web/src/features/usage-logs/lib/billing-expression/types.ts]: the
    variables and functions of the language, the syntax tree, diagnostics and
    failures, and the bounded postorder traversal [visitExpression] on an
    explicit stack.  The traversal is proved equal to a fold over the postorder
    list of nodes, with a depth limit of 256. *)

From S2P Require Import Prelude JsString JsNumber JsValue.

(** ** The vocabulary of the language *)

Definition TOKEN_VARIABLES : list jsstr :=
  [js "p"; js "c"; js "len"; js "cr"; js "cc"; js "cc1h"; js "img"; js "img_cr";
   js "img_o"; js "ai"; js "ao"].

Definition BILLING_VARIABLES : list jsstr := TOKEN_VARIABLES ++ [js "image_count"].

Definition TIME_FUNCTIONS : list jsstr :=
  [js "hour"; js "minute"; js "weekday"; js "month"; js "day"].

(** Functions and their arities. *)
Definition BILLING_FUNCTIONS : list (jsstr * nat) :=
  [(js "tier", 2%nat); (js "fixed", 1%nat); (js "param", 1%nat); (js "header", 1%nat);
   (js "has", 2%nat); (js "u", 1%nat); (js "hour", 1%nat); (js "minute", 1%nat);
   (js "weekday", 1%nat); (js "month", 1%nat); (js "day", 1%nat); (js "min", 2%nat);
   (js "max", 2%nat); (js "abs", 1%nat); (js "ceil", 1%nat); (js "floor", 1%nat)].

(** ** Syntax trees

    Every node carries its span [{start, end}] in the source. *)
Record span := Span { sp_start : nat; sp_end : nat }.

Inductive LiteralValue :=
| LString (s : jsstr)
| LNumber (n : num)
| LBoolean (b : bool)
| LNull.

Inductive ExpressionNode : Type :=
| Literal (sp : span) (value : LiteralValue) (integer : option bool)
| Variable_ (sp : span) (name : jsstr)
| Call (sp : span) (name : jsstr) (args : list ExpressionNode)
| Unary (sp : span) (operator : jsstr) (operand : ExpressionNode)
| Binary (sp : span) (operator : jsstr) (left right : ExpressionNode)
| Conditional (sp : span) (condition yes no : ExpressionNode).

Definition node_span (n : ExpressionNode) : span :=
  match n with
  | Literal sp _ _ | Variable_ sp _ | Call sp _ _ | Unary sp _ _
  | Binary sp _ _ _ | Conditional sp _ _ _ => sp
  end.
Definition node_start (n : ExpressionNode) : nat := sp_start (node_span n).
Definition node_end (n : ExpressionNode) : nat := sp_end (node_span n).

(** [{ ...node, start, end }] *)
Definition with_span (n : ExpressionNode) (sp : span) : ExpressionNode :=
  match n with
  | Literal _ v i => Literal sp v i
  | Variable_ _ x => Variable_ sp x
  | Call _ f args => Call sp f args
  | Unary _ op a => Unary sp op a
  | Binary _ op a b => Binary sp op a b
  | Conditional _ c a b => Conditional sp c a b
  end.

(** The children in the order the source pushes them. *)
Definition children (n : ExpressionNode) : list ExpressionNode :=
  match n with
  | Literal _ _ _ | Variable_ _ _ => []
  | Call _ _ args => args
  | Unary _ _ a => [a]
  | Binary _ _ a b => [a; b]
  | Conditional _ c a b => [c; a; b]
  end.

(** [a === b] on nodes.  Nodes are objects compared by identity; the nodes of
    one parsed tree have pairwise distinct spans (proved with the parser), so
    within a tree the span stands for the identity. *)
#[global] Instance span_eq_dec : EqDecision span.
Proof. solve_decision. Defined.
#[global] Program Instance span_countable : Countable span :=
  inj_countable' (fun s => (sp_start s, sp_end s)) (fun p => Span p.1 p.2) _.
Next Obligation. by intros []. Qed.

Definition same_node (a b : ExpressionNode) : bool :=
  bool_decide (node_span a = node_span b).

(** ** Diagnostics *)
Inductive DiagnosticCode := c_syntax | c_unsupported | c_missing_context | c_type | c_number | c_limit.

#[global] Instance DiagnosticCode_eq_dec : EqDecision DiagnosticCode.
Proof. solve_decision. Defined.

Record ExpressionDiagnostic := Diagnostic {
  code : DiagnosticCode;
  detail : jsstr;
  position : option nat
}.

(** A thrown [BillingExpressionError] is its diagnostic. *)
Definition throw_at {S A} (c : DiagnosticCode) (d : jsstr) (pos : nat)
    : action S ExpressionDiagnostic A := throw (Diagnostic c d (Some pos)).
Definition throw_ {S A} (c : DiagnosticCode) (d : jsstr)
    : action S ExpressionDiagnostic A := throw (Diagnostic c d None).

Inductive FailureStatus := st_unsupported | st_invalid | st_missing_context.

#[global] Instance FailureStatus_eq_dec : EqDecision FailureStatus.
Proof. solve_decision. Defined.

Record ExpressionFailure := Failure {
  status : FailureStatus;
  diagnostic : ExpressionDiagnostic
}.

(** [expressionFailure] on a [BillingExpressionError], the only exception the
    modelled code throws. *)
Definition expressionFailure (error : ExpressionDiagnostic) : ExpressionFailure :=
  let status := st_invalid in
  let status := if decide (code error = c_missing_context) then st_missing_context else status in
  let status :=
    if decide (code error = c_unsupported \/ code error = c_limit) then st_unsupported
    else status in
  Failure status error.

Record BillingRequestRule := {
  rule_cond : jsstr;
  rule_multiplier : num;
  rule_matched : bool
}.

(** An entry of [CompiledBillingExpression.requestRules]. *)
Record RequestRule := {
  rr_node : ExpressionNode;
  rr_condition : ExpressionNode;
  rr_multiplier : num;
  rr_cond : jsstr
}.

Record CompiledBillingExpression := {
  source : jsstr;
  ast : ExpressionNode;
  variables : list jsstr;
  functions : list jsstr;
  requestRules : list RequestRule
}.

Inductive CompilationResult :=
| Ready (c : CompiledBillingExpression)
| Failed (f : ExpressionFailure).

(** ** The bounded postorder traversal *)
Record stack_entry := Entry { e_node : ExpressionNode; e_visited : bool; e_depth : Z }.

Fixpoint node_size (n : ExpressionNode) : nat :=
  S match n with
    | Literal _ _ _ | Variable_ _ _ => 0
    | Call _ _ args => list_sum (map node_size args)
    | Unary _ _ a => node_size a
    | Binary _ _ a b => node_size a + node_size b
    | Conditional _ c a b => node_size c + node_size a + node_size b
    end.

Section Visit.
Context {S : Type} (visitor : ExpressionNode -> action S ExpressionDiagnostic unit).

(** The [while] loop; the head of the list is the top of the stack.
    [children.reverse()] then pushing one by one leaves the first child on top. *)
Fixpoint visit_loop (fuel : nat) (stack : list stack_entry)
    : action S ExpressionDiagnostic unit :=
  match fuel with
  | O => stuck
  | Datatypes.S fuel' =>
      match stack with
      | [] => ret tt
      | entry :: stack' =>
          if 256 <? e_depth entry then throw_ c_limit (js "expression depth")
          else if e_visited entry then visitor (e_node entry) ;;; visit_loop fuel' stack'
          else
            let push st child := Entry child false (e_depth entry + 1) :: st in
            visit_loop fuel'
              (fold_left push (rev (children (e_node entry)))
                 (Entry (e_node entry) true (e_depth entry) :: stack'))
      end
  end.

Definition visitExpression (node : ExpressionNode) : action S ExpressionDiagnostic unit :=
  visit_loop (Datatypes.S (2 * node_size node)) [Entry node false 0].
End Visit.

(** [expressionDependencies]: the variables and functions a tree mentions, as
    sets in insertion order. *)
Record dependencies := Deps { dep_variables : list jsstr; dep_functions : list jsstr }.

Definition add_to_set (x : jsstr) (xs : list jsstr) : list jsstr :=
  if includes_str xs x then xs else xs ++ [x].

Definition expressionDependencies (node : ExpressionNode)
    : outcome ExpressionDiagnostic dependencies :=
  let visitor (part : ExpressionNode) : action dependencies ExpressionDiagnostic unit :=
    match part with
    | Variable_ _ x => modify (fun d => Deps (add_to_set x (dep_variables d)) (dep_functions d))
    | Call _ f _ => modify (fun d => Deps (dep_variables d) (add_to_set f (dep_functions d)))
    | _ => ret tt
    end in
  match visitExpression visitor node (Deps [] []) with
  | Ret (_, d) => Ret d
  | Throw e => Throw e
  | OutOfFuel => OutOfFuel
  end.

(** ** Specification of the traversal *)

Fixpoint postorder (n : ExpressionNode) : list ExpressionNode :=
  match n with
  | Literal _ _ _ | Variable_ _ _ => []
  | Call _ _ args => concat (map postorder args)
  | Unary _ _ a => postorder a
  | Binary _ _ a b => postorder a ++ postorder b
  | Conditional _ c a b => postorder c ++ postorder a ++ postorder b
  end ++ [n].

(** Nesting depth: a leaf has depth 0. *)
Fixpoint node_depth (n : ExpressionNode) : Z :=
  match n with
  | Literal _ _ _ | Variable_ _ _ => 0
  | Call _ _ args => fold_right (fun a d => Z.max (1 + node_depth a) d) 0 args
  | Unary _ _ a => 1 + node_depth a
  | Binary _ _ a b => 1 + Z.max (node_depth a) (node_depth b)
  | Conditional _ c a b => 1 + Z.max (node_depth c) (Z.max (node_depth a) (node_depth b))
  end.

(** Induction over a tree that reaches the arguments of calls. *)
Definition ExpressionNode_ind' (P : ExpressionNode -> Prop)
    (flit : forall sp v i, P (Literal sp v i))
    (fvar : forall sp x, P (Variable_ sp x))
    (fcall : forall sp f args, Forall P args -> P (Call sp f args))
    (funary : forall sp op a, P a -> P (Unary sp op a))
    (fbinary : forall sp op a b, P a -> P b -> P (Binary sp op a b))
    (fcond : forall sp c a b, P c -> P a -> P b -> P (Conditional sp c a b)) :
  forall n, P n :=
  fix F (n : ExpressionNode) : P n :=
    match n with
    | Literal sp v i => flit sp v i
    | Variable_ sp x => fvar sp x
    | Call sp f args =>
        fcall sp f args ((fix G (l : list ExpressionNode) : Forall P l :=
          match l with
          | [] => List.Forall_nil _
          | x :: l' => List.Forall_cons _ _ _ (F x) (G l')
          end) args)
    | Unary sp op a => funary sp op a (F a)
    | Binary sp op a b => fbinary sp op a b (F a) (F b)
    | Conditional sp c a b => fcond sp c a b (F c) (F a) (F b)
    end.

(** The same with all children at once. *)
Lemma ExpressionNode_children_ind (P : ExpressionNode -> Prop) :
  (forall n, Forall P (children n) -> P n) -> forall n, P n.
Proof.
  intros H. apply ExpressionNode_ind'; intros; apply H; simpl; repeat constructor; auto.
Qed.

(** The recursive traversal the explicit stack implements. *)
Section VisitSpec.
Context {S : Type} (visitor : ExpressionNode -> action S ExpressionDiagnostic unit).

Fixpoint visit_rec (n : ExpressionNode) (d : Z) : action S ExpressionDiagnostic unit :=
  if 256 <? d then throw_ c_limit (js "expression depth")
  else
    match n with
    | Literal _ _ _ | Variable_ _ _ => ret tt
    | Call _ _ args => mapM_ (fun a => visit_rec a (d + 1)) args
    | Unary _ _ a => mapM_ id [visit_rec a (d + 1)]
    | Binary _ _ a b => mapM_ id [visit_rec a (d + 1); visit_rec b (d + 1)]
    | Conditional _ c a b =>
        mapM_ id [visit_rec c (d + 1); visit_rec a (d + 1); visit_rec b (d + 1)]
    end ;;; visitor n.

Lemma visit_rec_eq n d :
  visit_rec n d =
    if 256 <? d then throw_ c_limit (js "expression depth")
    else mapM_ (fun a => visit_rec a (d + 1)) (children n) ;;; visitor n.
Proof. destruct n; simpl; by destruct (256 <? d). Qed.

Lemma push_children cs d (st : list stack_entry) :
  fold_left (fun st child => Entry child false d :: st) (rev cs) st =
  map (fun c => Entry c false d) cs ++ st.
Proof.
  rewrite <- fold_left_rev_right, rev_involutive.
  induction cs as [|c cs IH]; simpl; [done|]. by rewrite IH.
Qed.

Lemma node_size_children n :
  node_size n = Datatypes.S (list_sum (map node_size (children n))).
Proof. destruct n; simpl; lia. Qed.

Lemma visit_loop_rec n d fuel st s :
  visit_loop visitor (2 * node_size n + fuel) (Entry n false d :: st) s =
  bind (visit_rec n d) (fun _ => visit_loop visitor fuel st) s.
Proof.
  revert d fuel st s.
  induction n as [n IH] using ExpressionNode_children_ind. intros d fuel st s.
  rewrite visit_rec_eq, node_size_children.
  replace (2 * Datatypes.S (list_sum (map node_size (children n))) + fuel)%nat
    with (Datatypes.S (2 * list_sum (map node_size (children n)) + Datatypes.S fuel)) by lia.
  cbn [visit_loop e_depth e_visited e_node].
  destruct (256 <? d) eqn:Hd; [done|].
  rewrite push_children, bind_assoc.
  revert s. generalize (children n) IH. clear IH.
  induction 1 as [|c cs Hc _ IHcs]; intros s.
  - simpl. by rewrite Hd.
  - change (list_sum (map node_size (c :: cs)))
      with (node_size c + list_sum (map node_size cs))%nat.
    cbn [map mapM_ app]. rewrite bind_assoc.
    replace (2 * (node_size c + list_sum (map node_size cs)) + Datatypes.S fuel)%nat
      with (2 * node_size c + (2 * list_sum (map node_size cs) + Datatypes.S fuel))%nat by lia.
    rewrite Hc. apply bind_ext. intros _ s'. apply IHcs.
Qed.

Lemma visitExpression_rec n s : visitExpression visitor n s = visit_rec n 0 s.
Proof.
  unfold visitExpression.
  replace (Datatypes.S (2 * node_size n))%nat with (2 * node_size n + 1)%nat by lia.
  rewrite visit_loop_rec. unfold bind. by destruct (visit_rec n 0 s) as [[[] s']|e|].
Qed.

End VisitSpec.

Lemma node_depth_children n c : c ∈ children n -> node_depth c + 1 <= node_depth n.
Proof.
  destruct n as [| |sp f args|sp op a|sp op a b|sp x a b]; simpl;
    rewrite ?elem_of_cons, ?elem_of_nil; try (intuition subst; lia).
  induction args as [|a args IH]; simpl; [set_solver|].
  rewrite elem_of_cons. intros [->|Hin%IH]; lia.
Qed.

Lemma node_depth_nonneg n : 0 <= node_depth n.
Proof.
  induction n as [| |sp f args IH| | |] using ExpressionNode_ind'; simpl; try lia.
  induction args as [|a args IHa]; simpl; [lia|]. inversion_clear IH. lia.
Qed.

(** A tree that is not a leaf has a child on a deepest path. *)
Lemma node_depth_deepest n :
  0 < node_depth n -> exists c, c ∈ children n /\ node_depth n = node_depth c + 1.
Proof.
  destruct n as [| |sp f args|sp op a|sp op a b|sp x a b]; simpl; try lia.
  - induction args as [|a args IH]; simpl; [lia|]. intros Hpos.
    destruct (Z.max_spec (1 + node_depth a)
      (fold_right (fun a d => Z.max (1 + node_depth a) d) 0 args)) as [[? Heq]|[? Heq]];
      rewrite Heq in *.
    + destruct IH as (c & Hc & Hd); [lia|]. exists c. set_solver.
    + exists a. split; [set_solver|lia].
  - exists a. split; [set_solver|lia].
  - destruct (Z.max_spec (node_depth a) (node_depth b)) as [[? ->]|[? ->]];
      [exists b|exists a]; (split; [set_solver|lia]).
  - intros _. assert (Z.max (node_depth x) (Z.max (node_depth a) (node_depth b)) = node_depth x
      \/ Z.max (node_depth x) (Z.max (node_depth a) (node_depth b)) = node_depth a
      \/ Z.max (node_depth x) (Z.max (node_depth a) (node_depth b)) = node_depth b)
      as [Heq|[Heq|Heq]] by lia; rewrite Heq;
      [exists x|exists a|exists b]; (split; [set_solver|lia]).
Qed.

Lemma postorder_children n : postorder n = concat (map postorder (children n)) ++ [n].
Proof. destruct n; simpl; by rewrite ?app_nil_r. Qed.

Lemma postorder_self n : n ∈ postorder n.
Proof. rewrite postorder_children. set_solver. Qed.

Lemma postorder_closed root n c : n ∈ postorder root -> c ∈ children n -> c ∈ postorder root.
Proof.
  induction root as [root IH] using ExpressionNode_children_ind.
  rewrite (postorder_children root), !elem_of_app, !list_elem_of_singleton.
  intros [Hin| ->] Hc; left; apply list_elem_of_In, in_concat.
  - apply list_elem_of_In, in_concat in Hin as (l & Hl & Hn).
    apply in_map_iff in Hl as (a & <- & Ha). exists (postorder a).
    split; [by apply in_map|]. rewrite List.Forall_forall in IH.
    apply list_elem_of_In, (IH a Ha); [by apply list_elem_of_In|done].
  - exists (postorder c). split; [by apply in_map, list_elem_of_In|].
    apply list_elem_of_In, postorder_self.
Qed.

Section VisitTheory.
Context {S : Type} (visitor : ExpressionNode -> action S ExpressionDiagnostic unit).

Lemma visit_rec_shallow n d s :
  d + node_depth n <= 256 -> visit_rec visitor n d s = mapM_ visitor (postorder n) s.
Proof.
  revert d s. induction n as [n IH] using ExpressionNode_children_ind. intros d s Hd.
  rewrite visit_rec_eq, postorder_children, mapM_app.
  destruct (Z.ltb_spec 256 d) as [Hlt|_]; [pose proof (node_depth_nonneg n); lia|].
  assert (Hc : forall c, c ∈ children n -> d + 1 + node_depth c <= 256).
  { intros c Hc%node_depth_children. lia. }
  unfold bind at 1. unfold bind at 1.
  assert (Heq : forall s, mapM_ (fun a => visit_rec visitor a (d + 1)) (children n) s =
            mapM_ visitor (concat (map postorder (children n))) s).
  { clear s. revert IH Hc. generalize (children n).
    induction 1 as [|c cs Hch _ IHcs]; intros Hdep s; cbn [map concat mapM_]; [done|].
    rewrite mapM_app. unfold bind.
    rewrite Hch by (apply Hdep; set_solver).
    destruct (mapM_ visitor (postorder c) s) as [[[] s']|e|]; [|done..].
    apply IHcs. intros. apply Hdep. set_solver. }
  rewrite Heq. destruct (mapM_ visitor _ s) as [[[] s']|e|]; [|done..].
  simpl. unfold bind. by destruct (visitor n s') as [[[] s'']|e|].
Qed.

Lemma mapM_no_Ret {A} (f : A -> action S ExpressionDiagnostic unit) xs x s r :
  x ∈ xs -> (forall s r, f x s <> Ret r) -> mapM_ f xs s <> Ret r.
Proof.
  intros Hx Hf. revert s. induction xs as [|y xs IH]; intros s; [set_solver|]. simpl.
  unfold bind. destruct (f y s) as [[[] s']|e|] eqn:Hy; [|done..].
  apply elem_of_cons in Hx as [->|Hx]; [by apply Hf in Hy|]. by apply IH.
Qed.

Lemma visit_rec_deep n d s r : 256 < d + node_depth n -> visit_rec visitor n d s <> Ret r.
Proof.
  revert d s r. induction n as [n IH] using ExpressionNode_children_ind. intros d s r Hd.
  rewrite visit_rec_eq. destruct (Z.ltb_spec 256 d) as [Hlt|Hle]; [done|].
  destruct (node_depth_deepest n) as (c & Hc & Heq); [lia|].
  unfold bind. destruct (mapM_ _ _ s) as [[[] s']|e|] eqn:Hm; [|done..]. exfalso.
  eapply (mapM_no_Ret _ _ c); [exact Hc| |exact Hm].
  intros s0 r0. rewrite List.Forall_forall in IH.
  apply IH; [by apply list_elem_of_In|lia].
Qed.
End VisitTheory.

(** ** Properties *)

(** C9. [visitExpression] is the postorder traversal with a depth bound: on a
    tree of depth at most 256 it runs the visitor on exactly the postorder list
    of nodes, and on a deeper tree it never returns normally.  Its explicit
    stack never runs out of the [2 * size + 1] iterations it is given. *)
Theorem visitExpression_postorder S (visitor : ExpressionNode -> action S ExpressionDiagnostic unit)
    (node : ExpressionNode) (s : S) :
  (node_depth node <= 256 ->
     visitExpression visitor node s = mapM_ visitor (postorder node) s)
  /\ (256 < node_depth node -> forall s', visitExpression visitor node s <> Ret (tt, s')).
Proof.
  rewrite visitExpression_rec. split.
  - intros Hd. by apply visit_rec_shallow.
  - intros Hd s'. by apply visit_rec_deep.
Qed.

(** The dependency collector, on any list of nodes. *)
Definition collect (part : ExpressionNode) : action dependencies ExpressionDiagnostic unit :=
  match part with
  | Variable_ _ x => modify (fun d => Deps (add_to_set x (dep_variables d)) (dep_functions d))
  | Call _ f _ => modify (fun d => Deps (dep_variables d) (add_to_set f (dep_functions d)))
  | _ => ret tt
  end.

Lemma elem_of_add_to_set x y xs : y ∈ add_to_set x xs <-> y = x \/ y ∈ xs.
Proof.
  unfold add_to_set. destruct (includes_str xs x) eqn:Hx.
  - apply includes_str_spec in Hx. naive_solver.
  - set_solver.
Qed.

Lemma collect_spec ns d :
  exists d', mapM_ collect ns d = Ret (tt, d') /\
    (forall x, x ∈ dep_variables d' <-> x ∈ dep_variables d \/ exists sp, Variable_ sp x ∈ ns) /\
    (forall f, f ∈ dep_functions d' <->
       f ∈ dep_functions d \/ exists sp args, Call sp f args ∈ ns).
Proof.
  revert d. induction ns as [|n ns IH]; intros d; cbn [mapM_].
  - exists d. split; [done|]. split; set_solver.
  - assert (Hstep : exists d1, collect n d = Ret (tt, d1) /\
      (forall x, x ∈ dep_variables d1 <-> x ∈ dep_variables d \/ exists sp, n = Variable_ sp x) /\
      (forall f, f ∈ dep_functions d1 <->
         f ∈ dep_functions d \/ exists sp args, n = Call sp f args)).
    { destruct n; (eexists; split; [reflexivity|]); simpl; split; intros y;
        rewrite ?elem_of_add_to_set; naive_solver. }
    destruct Hstep as (d1 & Hd1 & Hv1 & Hf1). destruct (IH d1) as (d2 & Hd2 & Hv2 & Hf2).
    exists d2. unfold bind. rewrite Hd1. split; [done|]. split.
    + intros x. rewrite Hv2, Hv1. setoid_rewrite elem_of_cons. naive_solver.
    + intros f. rewrite Hf2, Hf1. setoid_rewrite elem_of_cons. naive_solver.
Qed.

Lemma expressionDependencies_shallow node :
  node_depth node <= 256 ->
  exists d, expressionDependencies node = Ret d /\
    (forall x, x ∈ dep_variables d <-> exists sp, Variable_ sp x ∈ postorder node) /\
    (forall f, f ∈ dep_functions d <-> exists sp args, Call sp f args ∈ postorder node).
Proof.
  intros Hd. unfold expressionDependencies. fold collect.
  rewrite visitExpression_rec, visit_rec_shallow by done.
  destruct (collect_spec (postorder node) (Deps [] [])) as (d & -> & Hv & Hf).
  exists d. split; [done|]. split.
  - intros x. rewrite Hv. set_solver.
  - intros f. rewrite Hf. set_solver.
Qed.

(** [expressionDependencies] returns, for every tree within the depth bound,
    exactly the variables and the functions that occur in it; a deeper tree is
    never given a dependency set. *)
Theorem expressionDependencies_complete (node : ExpressionNode) :
  (node_depth node <= 256 ->
   exists d, expressionDependencies node = Ret d /\
    (forall x, x ∈ dep_variables d <-> exists sp, Variable_ sp x ∈ postorder node) /\
    (forall f, f ∈ dep_functions d <-> exists sp args, Call sp f args ∈ postorder node))
  /\ (256 < node_depth node -> forall d, expressionDependencies node <> Ret d).
Proof.
  split; [apply expressionDependencies_shallow|].
  intros Hd d. unfold expressionDependencies. fold collect. rewrite visitExpression_rec.
  destruct (visit_rec collect node 0 _) as [[[] d']|e|] eqn:Hv; [|done..].
  by apply visit_rec_deep in Hv.
Qed.
