(* ===== verification/ExpressionParser.v ===== *)
(** * Billing expressions: lexer and parser

    Models the class [BillingParser] of
    [web/src/features/usage-logs/lib/billing-expression/parser.ts]: the lexer
    [next], precedence climbing in [expression] and [primary], with the limits
    on source length (65536), tokens (10000) and nesting (128).  The state of
    the parser object is a record threaded through its methods.

    [take] and [is] are [take_lexeme] and [is_] here.  The mutual recursion takes
    fuel.  Every call path consumes a token at least
    once per two levels and the parser throws after 10000 tokens, so
    [parser_fuel] levels always suffice; [parse_spec] proves it together with
    the shape of the tree. *)

From S2P Require Import Prelude JsString JsNumber JsValue ExpressionTypes.

Inductive lexeme_kind := k_number | k_string | k_symbol | k_name | k_end.

#[global] Instance lexeme_kind_eq_dec : EqDecision lexeme_kind.
Proof. solve_decision. Defined.

Inductive lexeme_value := v_string (s : jsstr) | v_number (n : num).

Record Lexeme := {
  l_text : jsstr;
  l_start : nat;
  l_end : nat;
  l_value : option lexeme_value;
  l_integer : option bool;
  l_kind : lexeme_kind
}.

Definition PRECEDENCE : list (jsstr * Z) :=
  [(js "||", 1); (js "&&", 2); (js "==", 3); (js "!=", 3); (js "<", 4); (js "<=", 4);
   (js ">", 4); (js ">=", 4); (js "+", 5); (js "-", 5); (js "*", 6); (js "/", 6);
   (js "%", 6)].

(** The escapes of string literals: the escaped unit and what it stands for. *)
Definition escapes : list (jsstr * N) :=
  [(js "n", 10%N); (js "r", 13%N); (js "t", 9%N); (js "b", 8%N); (js "f", 12%N);
   (js "v", 11%N); (js "\", ch "\"); ([DQUOTE], DQUOTE); (js "'", ch "'"); (js "/", ch "/")].

(** The fields of a [BillingParser]. *)
Record parser_state := {
  cursor : nat;
  count : Z;
  depth : Z;
  current : Lexeme
}.

Definition set_cursor (c : nat) (s : parser_state) : parser_state :=
  {| cursor := c; count := count s; depth := depth s; current := current s |}.
Definition set_count (c : Z) (s : parser_state) : parser_state :=
  {| cursor := cursor s; count := c; depth := depth s; current := current s |}.
Definition set_depth (d : Z) (s : parser_state) : parser_state :=
  {| cursor := cursor s; count := count s; depth := d; current := current s |}.
Definition set_current (l : Lexeme) (s : parser_state) : parser_state :=
  {| cursor := cursor s; count := count s; depth := depth s; current := l |}.

(** [source.match] against the version prefix: optional spaces, [v], digits, a
    colon.  The digits and the whole match. *)
Definition match_version (source : jsstr) : option (jsstr * jsstr) :=
  let spaces := take_while is_space source in
  match drop_while is_space source with
  | v :: rest =>
      if (v =? ch "v")%N then
        match take_while is_digit rest, drop_while is_digit rest with
        | (_ :: _) as ds, colon :: _ =>
            if (colon =? ch ":")%N then Some (ds, spaces ++ v :: ds ++ [colon]) else None
        | _, _ => None
        end
      else None
  | [] => None
  end.

(** The operator pattern: two-unit operators before one-unit ones. *)
Definition scan_operator (rest : jsstr) : option jsstr :=
  match List.find (fun op => starts_with op rest)
    [js "&&"; js "||"; js "=="; js "!="; js "<="; js ">="] with
  | Some op => Some op
  | None =>
      match rest with
      | c :: _ => if includes_unit c (js "+-*/%<>()!?:,") then Some [c] else None
      | [] => None
      end
  end.

(** The name pattern: a letter or underscore, then word units. *)
Definition scan_name (rest : jsstr) : option jsstr :=
  match rest with
  | c :: rest' => if is_name_start c then Some (c :: take_while is_word rest') else None
  | [] => None
  end.

Section Parser.
Variable source : jsstr.

Abbreviation P := (action parser_state ExpressionDiagnostic).

(** The [while] loop of [next] over a string literal, from [cursor] on: the
    value read so far, and the value with the cursor after the closing quote.
    Leaving the loop throws [unterminated string]. *)
Fixpoint scan_string (fuel : nat) (quote : N) (start : nat) (value : jsstr) (cursor : nat)
    : outcome ExpressionDiagnostic (jsstr * nat) :=
  let unterminated := Throw (Diagnostic c_syntax (js "unterminated string") (Some start)) in
  match fuel with
  | O => OutOfFuel
  | S fuel' =>
      match source !! cursor with
      | None => unterminated
      | Some char =>
          let cursor := S cursor in
          if (char =? quote)%N then Ret (value, cursor)
          else if (char =? 10)%N || (char =? 13)%N then unterminated
          else if negb (char =? ch "\")%N then
            scan_string fuel' quote start (value ++ [char]) cursor
          else
            let escaped := match source !! cursor with Some c => [c] | None => [] end in
            let cursor := S cursor in
            match assoc escapes escaped with
            | Some e => scan_string fuel' quote start (value ++ [e]) cursor
            | None =>
                if (escaped === js "u") || (escaped === js "x") then
                  let len := if escaped === js "u" then 4%nat else 2%nat in
                  let hex := slice cursor (cursor + len) source in
                  if negb (length hex =? len)%nat || negb (forallb is_hex hex) then unterminated
                  else scan_string fuel' quote start (value ++ [parse_hex hex]) (cursor + len)
                else Throw (Diagnostic c_unsupported (js "string escape") (Some (cursor - 1)%nat))
            end
      end
  end.

Definition next_number (start : nat) (rest : jsstr) (d : decimal) (len : nat) : P Lexeme :=
  let text := take len rest in
  let value := num_of_literal d in
  let integer := negb (existsb (fun c => includes_unit c (js ".eE")) text) in
  if negb (is_finite value) then throw_at c_number text start
  else if integer && negb (is_safe_integer value) then
    throw_at c_unsupported (js "integer precision") start
  else
    modify (set_cursor (start + len)) ;;;
    ret {| l_kind := k_number; l_text := text; l_value := Some (v_number value);
           l_integer := Some integer; l_start := start; l_end := (start + len)%nat |}.

Definition next_string (start : nat) (quote : N) : P Lexeme :=
  let! vc := lift (scan_string (S (length source)) quote start [] (S start)) in
  modify (set_cursor (snd vc)) ;;;
  ret {| l_kind := k_string; l_text := slice start (snd vc) source;
         l_value := Some (v_string (fst vc)); l_integer := None;
         l_start := start; l_end := snd vc |}.

Definition next_word (start : nat) (kind : lexeme_kind) (text : jsstr) : P Lexeme :=
  modify (set_cursor (start + length text)) ;;;
  ret {| l_kind := kind; l_text := text; l_value := None; l_integer := None;
         l_start := start; l_end := (start + length text)%nat |}.

Definition next : P Lexeme :=
  let! s := get in
  let count := count s + 1 in
  modify (set_count count) ;;;
  if 10000 <? count then throw_ c_limit (js "expression tokens")
  else
    let start := (cursor s + length (take_while is_space (drop (cursor s) source)))%nat in
    modify (set_cursor start) ;;;
    let rest := drop start source in
    match rest with
    | [] =>
        ret {| l_kind := k_end; l_text := []; l_value := None; l_integer := None;
               l_start := start; l_end := start |}
    | c :: _ =>
        match scan_decimal rest with
        | Some (d, len) => next_number start rest d len
        | None =>
            if (c =? DQUOTE)%N || (c =? ch "'")%N then next_string start c
            else
              match scan_name rest with
              | Some name => next_word start k_name name
              | None =>
                  match scan_operator rest with
                  | Some op => next_word start k_symbol op
                  | None => throw_at c_unsupported [c] start
                  end
              end
        end
    end.

Definition take_lexeme : P Lexeme :=
  let! cur := gets current in
  let! l := next in
  modify (set_current l) ;;;
  ret cur.

Definition is_ (text : jsstr) : P bool := gets (fun s => l_text (current s) === text).

Definition expect (text : jsstr) : P Lexeme :=
  let! cur := gets current in
  if l_text cur !== text then
    throw_at c_syntax (js "expected " ++ text) (l_start cur)
  else take_lexeme.

(** [this.depth--] *)
Definition leave : P unit := modify (fun s => set_depth (depth s - 1) s).

(** The number and string cases of [primary]. *)
Definition literal_of_token (token : Lexeme) : option ExpressionNode :=
  let sp := Span (l_start token) (l_end token) in
  match l_kind token, l_value token with
  | k_number, Some (v_number n) => Some (Literal sp (LNumber n) (l_integer token))
  | k_string, Some (v_string s) => Some (Literal sp (LString s) None)
  | _, _ => None
  end.

(** [expression], the [while] loop of its binary operators, [primary] and the
    [while] loop of its arguments. *)
Fixpoint expression (fuel : nat) (minimum : Z) : P ExpressionNode :=
  match fuel with
  | O => stuck
  | S fuel' =>
      let! s := get in
      let depth := depth s + 1 in
      modify (set_depth depth) ;;;
      if 128 <? depth then throw_ c_limit (js "expression depth")
      else
        let! left := primary fuel' in
        let! left := operators fuel' minimum left in
        let! cur := gets current in
        let! left :=
          if (minimum =? 0) && (l_text cur === js "?") then
            take_lexeme ;;;
            let! yes := expression fuel' 0 in
            expect (js ":") ;;;
            let! no := expression fuel' 0 in
            ret (Conditional (Span (node_start left) (node_end no)) left yes no)
          else ret left in
        leave ;;;
        ret left
  end
with operators (fuel : nat) (minimum : Z) (left : ExpressionNode) : P ExpressionNode :=
  match fuel with
  | O => stuck
  | S fuel' =>
      let! cur := gets current in
      match assoc PRECEDENCE (l_text cur) with
      | Some precedence =>
          if minimum <=? precedence then
            let! op := take_lexeme in
            let! right := expression fuel' (default 0 (assoc PRECEDENCE (l_text op)) + 1) in
            operators fuel' minimum
              (Binary (Span (node_start left) (node_end right)) (l_text op) left right)
          else ret left
      | None => ret left
      end
  end
with primary (fuel : nat) : P ExpressionNode :=
  match fuel with
  | O => stuck
  | S fuel' =>
      let! token := take_lexeme in
      let sp := Span (l_start token) (l_end token) in
      match literal_of_token token with
      | Some literal => ret literal
      | None =>
          if l_text token === js "(" then
            let! expr := expression fuel' 0 in
            let! close := expect (js ")") in
            ret (with_span expr (Span (l_start token) (l_end close)))
          else if includes_str [js "!"; js "+"; js "-"] (l_text token) then
            let! operand := expression fuel' 7 in
            ret (Unary (Span (l_start token) (node_end operand)) (l_text token) operand)
          else if negb (bool_decide (l_kind token = k_name)) then
            throw_at c_syntax (l_text token) (l_start token)
          else if l_text token === js "nil" then ret (Literal sp LNull None)
          else if (l_text token === js "true") || (l_text token === js "false") then
            ret (Literal sp (LBoolean (l_text token === js "true")) None)
          else
            let! cur := gets current in
            if l_text cur !== js "(" then
              if negb (includes_str BILLING_VARIABLES (l_text token)) then
                throw_at c_unsupported (l_text token) (l_start token)
              else ret (Variable_ sp (l_text token))
            else
              match assoc BILLING_FUNCTIONS (l_text token) with
              | None => throw_at c_unsupported (l_text token) (l_start token)
              | Some arity =>
                  take_lexeme ;;;
                  let! args := arguments fuel' [] in
                  let! close := expect (js ")") in
                  if negb (length args =? arity)%nat then
                    throw_at c_type (l_text token) (l_start token)
                  else
                    ret (Call (Span (l_start token) (l_end close)) (l_text token) args)
              end
      end
  end
with arguments (fuel : nat) (args : list ExpressionNode) : P (list ExpressionNode) :=
  match fuel with
  | O => stuck
  | S fuel' =>
      let! closed := is_ (js ")") in
      if closed then ret args
      else
        let! arg := expression fuel' 0 in
        let args := args ++ [arg] in
        let! comma := is_ (js ",") in
        if negb comma then ret args
        else take_lexeme ;;; arguments fuel' args
  end.

Definition parser_fuel : nat := Z.to_nat 20010.

Definition parse_expression : P ExpressionNode :=
  let! node := expression parser_fuel 0 in
  let! cur := gets current in
  if negb (bool_decide (l_kind cur = k_end)) then
    throw_at c_unsupported (l_text cur) (l_start cur)
  else ret node.

(** The end of the constructor: the lexer starts at [c] and its first lexeme
    becomes [current]. *)
Definition start_at (c : nat) : outcome ExpressionDiagnostic parser_state :=
  let blank := {| l_kind := k_end; l_text := []; l_value := None; l_integer := None;
                  l_start := 0; l_end := 0 |} in
  match (let! l := next in modify (set_current l))
          {| cursor := c; count := 0; depth := 0; current := blank |} with
  | Ret (_, s) => Ret s
  | Throw e => Throw e
  | OutOfFuel => OutOfFuel
  end.

(** The constructor. *)
Definition new_parser : outcome ExpressionDiagnostic parser_state :=
  if (65536 <? Z.of_nat (length source)) then
    Throw (Diagnostic c_limit (js "expression length") None)
  else
    match match_version source with
    | Some (version, whole) =>
        if version !== js "1" then Throw (Diagnostic c_unsupported whole None)
        else start_at (length whole)
    | None => start_at 0
    end.

(** [new BillingParser(source).parse()] *)
Definition parse : outcome ExpressionDiagnostic ExpressionNode :=
  let? s := new_parser in
  match parse_expression s with
  | Ret (node, _) => Ret node
  | Throw e => Throw e
  | OutOfFuel => OutOfFuel
  end.
End Parser.

(** ** Well-formed trees *)

(** What the parser guarantees of one node apart from spans: literals are finite
    and not negative, and safe when integral; names and operators are known;
    calls have the arity of their function. *)
Definition head_ok (n : ExpressionNode) : Prop :=
  match n with
  | Literal _ (LNumber x) i =>
      is_finite x = true /\ num_sign x = false /\ (i = Some true -> is_safe_integer x = true)
  | Literal _ _ i => i = None
  | Variable_ _ x => x ∈ BILLING_VARIABLES
  | Call _ f args => assoc BILLING_FUNCTIONS f = Some (length args)
  | Unary _ op _ => op ∈ [js "!"; js "+"; js "-"]
  | Binary _ op _ _ => is_Some (assoc PRECEDENCE op)
  | Conditional _ _ _ _ => True
  end.

(** The spans of [ns] follow each other between [lo] and [hi]. *)
Fixpoint spans_between (lo : nat) (ns : list ExpressionNode) (hi : nat) : Prop :=
  match ns with
  | [] => (lo <= hi)%nat
  | n :: ns' => (lo <= node_start n)%nat /\ spans_between (node_end n) ns' hi
  end.

Inductive wf_node : ExpressionNode -> Prop :=
| wf_intro n :
    (node_start n < node_end n)%nat ->
    spans_between (node_start n) (children n) (node_end n) ->
    Forall (fun c => node_span c <> node_span n) (children n) ->
    head_ok n ->
    Forall wf_node (children n) ->
    wf_node n.

Lemma wf_head n : wf_node n -> head_ok n.
Proof. by destruct 1. Qed.

Lemma wf_children n : wf_node n -> Forall wf_node (children n).
Proof. by destruct 1. Qed.

Lemma wf_bounds n : wf_node n -> (node_start n < node_end n)%nat.
Proof. by destruct 1. Qed.

Lemma spans_between_weaken lo lo' ns hi hi' :
  (lo' <= lo)%nat -> (hi <= hi')%nat ->
  spans_between lo ns hi -> spans_between lo' ns hi'.
Proof.
  revert lo lo'. induction ns as [|n ns IH]; intros lo lo'; simpl; [lia|].
  intros ?? [? Hrest]. split; [lia|]. by apply (IH (node_end n)).
Qed.

Lemma spans_between_snoc lo ns n hi :
  spans_between lo ns (node_start n) -> (node_end n <= hi)%nat ->
  spans_between lo (ns ++ [n]) hi.
Proof.
  revert lo. induction ns as [|m ns IH]; intros lo; simpl; [done|].
  intros [? Hrest] Hle. split; [done|]. by apply IH.
Qed.

Lemma spans_between_bounds lo ns hi n :
  Forall wf_node ns -> spans_between lo ns hi -> n ∈ ns ->
  (lo <= node_start n)%nat /\ (node_end n <= hi)%nat.
Proof.
  intros Hwf. revert lo. induction Hwf as [|m ns Hm Hns IH]; intros lo; simpl; [set_solver|].
  intros [Hlo Hrest]. pose proof (wf_bounds m Hm). rewrite elem_of_cons. intros [->|Hin].
  - split; [done|]. clear IH Hlo.
    assert (Hgen : forall ns, Forall wf_node ns -> forall lo, spans_between lo ns hi -> (lo <= hi)%nat).
    { clear. induction 1 as [|k ks Hk _ IHk]; intros lo; simpl; [done|].
      intros [? Hr%IHk]. pose proof (wf_bounds k Hk). lia. }
    eauto.
  - apply IH in Hrest; [lia|done].
Qed.

(** Widening the span of a node, as parentheses do. *)
Lemma wf_with_span n sp :
  wf_node n -> (sp_start sp < node_start n)%nat -> (node_end n < sp_end sp)%nat ->
  wf_node (with_span n sp).
Proof.
  intros Hwf Hs He. pose proof (wf_bounds n Hwf).
  destruct Hwf as [n Hlt Hbetween Hne Hhead Hch].
  assert (Hsp : node_span (with_span n sp) = sp) by by destruct n.
  assert (Hc : children (with_span n sp) = children n) by by destruct n.
  constructor; unfold node_start, node_end; rewrite ?Hsp, ?Hc; [lia| | | |done].
  - eapply spans_between_weaken; [| |exact Hbetween]; lia.
  - rewrite Forall_forall. intros c Hin Heq.
    destruct (spans_between_bounds _ _ _ c Hch Hbetween Hin).
    unfold node_start, node_end in *. rewrite Heq in *. lia.
  - by destruct n.
Qed.

Lemma wf_binary sp op a b :
  wf_node a -> wf_node b -> is_Some (assoc PRECEDENCE op) ->
  (node_end a <= node_start b)%nat ->
  sp = Span (node_start a) (node_end b) -> wf_node (Binary sp op a b).
Proof.
  intros Ha Hb Hop Hle ->. pose proof (wf_bounds a Ha). pose proof (wf_bounds b Hb).
  unfold node_start, node_end in *.
  constructor; cbn [children spans_between]; unfold node_start, node_end; simpl; [lia|repeat split; lia| |done|by rewrite !Forall_cons, Forall_nil].
  repeat constructor; intros Heq; rewrite Heq in *; simpl in *; lia.
Qed.

Lemma wf_conditional sp c a b :
  wf_node c -> wf_node a -> wf_node b ->
  (node_end c <= node_start a)%nat -> (node_end a <= node_start b)%nat ->
  sp = Span (node_start c) (node_end b) -> wf_node (Conditional sp c a b).
Proof.
  intros Hc Ha Hb ?? ->.
  pose proof (wf_bounds a Ha). pose proof (wf_bounds b Hb). pose proof (wf_bounds c Hc).
  unfold node_start, node_end in *.
  constructor; cbn [children spans_between]; unfold node_start, node_end; simpl;
    [lia|repeat split; lia| |done|by rewrite !Forall_cons, Forall_nil].
  repeat constructor; intros Heq; rewrite Heq in *; simpl in *; lia.
Qed.

Lemma wf_unary sp op a :
  wf_node a -> op ∈ [js "!"; js "+"; js "-"] ->
  (sp_start sp < node_start a)%nat -> sp_end sp = node_end a -> wf_node (Unary sp op a).
Proof.
  intros Ha Hop ? Heq. pose proof (wf_bounds a Ha). unfold node_start, node_end in *.
  constructor; cbn [children spans_between]; unfold node_start, node_end; simpl; [lia|split; lia| |done|by rewrite !Forall_cons, Forall_nil].
  repeat constructor. intros Hsp; rewrite Hsp in *; lia.
Qed.

Lemma wf_call sp f args lo :
  Forall wf_node args -> assoc BILLING_FUNCTIONS f = Some (length args) ->
  (sp_start sp < lo)%nat -> spans_between lo args (sp_end sp) -> (lo <= sp_end sp)%nat ->
  wf_node (Call sp f args).
Proof.
  intros Hargs Hf Hlo Hbetween Hle.
  constructor; cbn [children spans_between]; unfold node_start, node_end; simpl; [lia| | |done|done].
  - eapply spans_between_weaken; [| |exact Hbetween]; lia.
  - rewrite Forall_forall. intros c Hin Heq.
    destruct (spans_between_bounds _ _ _ c Hargs Hbetween Hin).
    unfold node_start in *. rewrite Heq in *. lia.
Qed.

Lemma wf_leaf n :
  children n = [] -> (node_start n < node_end n)%nat -> head_ok n -> wf_node n.
Proof. intros Hc ??. constructor; rewrite ?Hc; simpl; auto. lia. Qed.

(** Every node of a well-formed tree lies within its root. *)
Lemma wf_postorder_bounds n m :
  wf_node n -> m ∈ postorder n ->
  wf_node m /\ (node_start n <= node_start m)%nat /\ (node_end m <= node_end n)%nat.
Proof.
  induction n as [n IH] using ExpressionNode_children_ind. intros Hwf.
  rewrite postorder_children, elem_of_app, list_elem_of_singleton.
  intros [Hin| ->]; [|done].
  apply list_elem_of_In, in_concat in Hin as (l & Hl & Hm).
  apply in_map_iff in Hl as (c & ? & Hc); subst l. apply list_elem_of_In in Hc, Hm.
  destruct Hwf as [n Hlt Hbetween Hne Hhead Hch].
  destruct (spans_between_bounds _ _ _ c Hch Hbetween Hc).
  rewrite Forall_forall in Hch, IH. destruct (IH c Hc (Hch c Hc) Hm) as (?&?&?).
  split; [done|lia].
Qed.

(** The spans of a well-formed tree tell its nodes apart. *)
Lemma wf_spans_NoDup n : wf_node n -> NoDup (map node_span (postorder n)).
Proof.
  induction n as [n IH] using ExpressionNode_children_ind. intros Hwf.
  rewrite postorder_children, map_app. apply NoDup_app. split; [|split].
  - destruct Hwf as [n Hlt Hbetween Hne Hhead Hch]. clear Hne Hlt Hhead.
    revert Hbetween. generalize (node_start n) as lo, (node_end n) as hi.
    revert IH Hch. generalize (children n) as cs. clear n.
    induction cs as [|c cs IHcs]; intros IH Hch lo hi; simpl; [constructor|].
    intros [Hlo Hrest]. inversion_clear IH as [|?? Hc Hcs]. inversion_clear Hch as [|?? Wc Wcs].
    rewrite map_app. apply NoDup_app. split; [by apply Hc|]. split; [|by eapply IHcs].
    intros sp Hsp1 Hsp2.
    apply list_elem_of_fmap in Hsp1 as (m1 & -> & Hm1).
    apply list_elem_of_fmap in Hsp2 as (m2 & Heq & Hm2).
    apply list_elem_of_In, in_concat in Hm2 as (l & Hl & Hm2).
    apply in_map_iff in Hl as (c2 & ? & Hc2); subst l. apply list_elem_of_In in Hc2, Hm2.
    destruct (wf_postorder_bounds c m1 Wc Hm1) as (W1 & ? & ?).
    destruct (spans_between_bounds _ _ _ c2 Wcs Hrest Hc2).
    assert (W2 : wf_node c2) by (rewrite Forall_forall in Wcs; auto).
    destruct (wf_postorder_bounds c2 m2 W2 Hm2) as (Wm2 & ? & ?).
    pose proof (wf_bounds m1 W1). pose proof (wf_bounds m2 Wm2).
    unfold node_start, node_end in *. rewrite Heq in *. lia.
  - intros sp Hsp1 Hsp2. simpl in Hsp2. apply list_elem_of_singleton in Hsp2 as ->.
    apply list_elem_of_fmap in Hsp1 as (m & Heq & Hm).
    apply list_elem_of_In, in_concat in Hm as (l & Hl & Hm).
    apply in_map_iff in Hl as (c & ? & Hc); subst l. apply list_elem_of_In in Hc, Hm.
    destruct Hwf as [n Hlt Hbetween Hne Hhead Hch].
    destruct (spans_between_bounds _ _ _ c Hch Hbetween Hc).
    rewrite Forall_forall in Hch, Hne.
    destruct (wf_postorder_bounds c m (Hch c Hc) Hm) as (_ & ? & ?).
    apply (Hne c Hc). unfold node_start, node_end in *. rewrite Heq in *.
    destruct (node_span c), (node_span m); simpl in *. f_equal; lia.
  - simpl. repeat constructor. set_solver.
Qed.

(** ** The lexer *)

Definition lexeme_ok (l : Lexeme) : Prop :=
  (l_kind l = k_end -> l_text l = []) /\
  (l_kind l <> k_end -> (l_start l < l_end l)%nat) /\
  (l_start l <= l_end l)%nat /\
  (forall n, l_value l = Some (v_number n) ->
     is_finite n = true /\ num_sign n = false /\
     (l_integer l = Some true -> is_safe_integer n = true)).

Definition parser_ok (s : parser_state) : Prop :=
  0 <= count s <= 10000 /\ lexeme_ok (current s) /\ (l_end (current s) <= cursor s)%nat.

Section ParserTheory.
Variable source : jsstr.

Lemma scan_string_wp fuel quote start value c :
  (c <= length source < fuel + c)%nat ->
  match scan_string source fuel quote start value c with
  | Ret (_, c') => (c < c')%nat
  | Throw _ => True
  | OutOfFuel => False
  end.
Proof.
  revert value c. induction fuel as [|fuel IH]; intros value c Hlen; [lia|]. cbn [scan_string].
  destruct (source !! c) as [char|] eqn:Hchar; [|done].
  apply lookup_lt_Some in Hchar.
  assert (Hrec : forall v c', (c < c' <= length source)%nat ->
    match scan_string source fuel quote start v c' with
    | Ret (_, c'') => (c < c'')%nat | Throw _ => True | OutOfFuel => False end).
  { intros v c' Hc. specialize (IH v c' ltac:(lia)).
    destruct (scan_string _ _ _ _ _ _) as [[? ?]|?|]; [lia|done..]. }
  destruct (_ =? _)%N; [lia|]. destruct (_ || _); [done|].
  destruct (negb _); [apply Hrec; lia|].
  destruct (source !! S c) as [e|] eqn:He; [|done]. apply lookup_lt_Some in He.
  destruct (assoc escapes [e]) as [u|]; [apply Hrec; lia|].
  destruct (_ || _); [|done].
  set (len := if [e] === js "u" then 4%nat else 2%nat).
  destruct (negb (length (slice (S (S c)) (S (S c) + len) source) =? len)%nat) eqn:Hhex;
    [done|].
  destruct (false || _); [done|]. apply Hrec.
  apply negb_false_iff, Nat.eqb_eq in Hhex. unfold slice in Hhex.
  rewrite length_take, length_drop in Hhex. lia.
Qed.

Definition next_post (s : parser_state) (l : Lexeme) (s' : parser_state) : Prop :=
  lexeme_ok l /\ (cursor s <= l_start l)%nat /\ l_end l = cursor s' /\
  count s' = count s + 1 /\ count s' <= 10000 /\ current s' = current s.

Lemma next_wp s : wp (next source) s (next_post s).
Proof.
  unfold next. apply wp_bind, wp_get, wp_bind, wp_modify.
  destruct (Z.ltb_spec 10000 (count s + 1)) as [|Hcount]; [done|].
  apply wp_bind, wp_modify. cbn [cursor set_cursor set_count count current].
  set (start := (cursor s + length _)%nat).
  assert (Hstart : (cursor s <= start)%nat) by (unfold start; lia).
  destruct (drop start source) as [|c rest'] eqn:Hrest.
  { apply wp_ret. unfold next_post, lexeme_ok.
    split_and!; simpl; done || lia. }
  rewrite <- Hrest.
  assert (Hword : forall k text, k <> k_end -> (0 < length text)%nat ->
    wp (next_word start k text) (set_cursor start (set_count (count s + 1) s)) (next_post s)).
  { intros k text Hk Ht. apply wp_bind, wp_modify, wp_ret.
    unfold next_post, lexeme_ok. split_and!; simpl; try done; lia. }
  destruct (scan_decimal (drop start source)) as [[d n]|] eqn:Hscan.
  - apply scan_decimal_pos in Hscan. unfold next_number.
    destruct (is_finite _) eqn:Hfin; simpl; [|done].
    destruct (negb (existsb _ _)) eqn:Hint; simpl.
    + destruct (is_safe_integer _) eqn:Hsafe; simpl; [|done].
      apply wp_bind, wp_modify, wp_ret. unfold next_post, lexeme_ok.
      split_and!; simpl; try done; try lia.
      intros n0 [= <-]; split_and!; auto using num_sign_of_literal.
    + apply wp_bind, wp_modify, wp_ret. unfold next_post, lexeme_ok.
      split_and!; simpl; try done; try lia.
      intros n0 [= <-]; split_and!; auto using num_sign_of_literal. done.
  - destruct (_ || _).
    + unfold next_string. apply wp_bind. unfold wp, lift.
      assert (Hlt : (start < length source)%nat).
      { apply Nat.nle_gt. intros Hge. by rewrite drop_ge in Hrest. }
      pose proof (scan_string_wp (S (length source)) c start [] (S start) ltac:(lia)) as Hs.
      destruct (scan_string _ _ _ _ _ _) as [[v c']|e|]; [|done..].
      apply wp_bind, wp_modify, wp_ret.
      unfold next_post, lexeme_ok. split_and!; simpl; try done; lia.
    + unfold scan_name. destruct (drop start source) as [|c0 r0]; [done|].
      destruct (is_name_start c0); [apply Hword; simpl; done || lia|].
      destruct (scan_operator (c0 :: r0)) as [op|] eqn:Hop; [|done].
      apply Hword; [done|]. unfold scan_operator in Hop.
      destruct (List.find _ _) as [op'|] eqn:Hfind.
      * simplify_eq. apply List.find_some in Hfind as [Hin _].
        simpl in Hin. destruct_or! Hin; subst; simpl; lia.
      * destruct (includes_unit _ _); simplify_eq; simpl; lia.
Qed.

Definition take_post (s : parser_state) (l : Lexeme) (s' : parser_state) : Prop :=
  l = current s /\ parser_ok s' /\ count s' = count s + 1 /\
  (l_end l <= l_start (current s'))%nat.

Lemma take_wp s : parser_ok s -> wp (take_lexeme source) s (take_post s).
Proof.
  intros (Hc & Hl & Hcur). apply wp_bind, wp_gets, wp_bind.
  eapply wp_mono; [apply next_wp|]. intros l s' (Hok & Hge & Hend & Hcnt & Hmax & _).
  apply wp_bind, wp_modify, wp_ret.
  split; [done|]. split; [|simpl; split; [done|lia]].
  split; simpl; [lia|]. split; [done|lia].
Qed.

Lemma expect_wp text s :
  parser_ok s ->
  wp (expect source text) s (fun l s' => take_post s l s' /\ l_text l = text).
Proof.
  intros Hok. apply wp_bind, wp_gets.
  destruct (str_eqb_spec (l_text (current s)) text) as [Heq|]; simpl; [|done].
  eapply wp_mono; [by apply take_wp|]. intros l s' Hpost. split; [done|].
  destruct Hpost as [-> _]. done.
Qed.

(** ** The parser

    [remaining s] bounds the tokens that can still be taken. *)
Definition remaining (s : parser_state) : nat := Z.to_nat (10000 - count s).

Definition node_post (s : parser_state) (start : nat) (n : ExpressionNode)
    (s' : parser_state) : Prop :=
  wf_node n /\ node_start n = start /\
  (node_end n <= l_start (current s'))%nat /\ parser_ok s' /\ count s < count s'.

Definition args_post (s : parser_state) (lo : nat) (args : list ExpressionNode)
    (s' : parser_state) : Prop :=
  Forall wf_node args /\ spans_between lo args (l_start (current s')) /\
  parser_ok s' /\ count s <= count s'.

Definition expression_ok (fuel : nat) : Prop := forall minimum s,
  parser_ok s -> (2 * remaining s + 2 <= fuel)%nat ->
  wp (expression source fuel minimum) s (node_post s (l_start (current s))).

Definition operators_ok (fuel : nat) : Prop := forall minimum left s,
  parser_ok s -> (2 * remaining s + 2 <= fuel)%nat ->
  wf_node left -> (node_end left <= l_start (current s))%nat ->
  wp (operators source fuel minimum left) s (fun n s' =>
    wf_node n /\ node_start n = node_start left /\
    (node_end n <= l_start (current s'))%nat /\ parser_ok s' /\ count s <= count s').

Definition primary_ok (fuel : nat) : Prop := forall s,
  parser_ok s -> (2 * remaining s + 1 <= fuel)%nat ->
  wp (primary source fuel) s (node_post s (l_start (current s))).

Definition arguments_ok (fuel : nat) : Prop := forall lo args s,
  parser_ok s -> (2 * remaining s + 3 <= fuel)%nat ->
  Forall wf_node args -> spans_between lo args (l_start (current s)) ->
  wp (arguments source fuel args) s (args_post s lo).

Lemma remaining_lt s s' : parser_ok s' -> count s < count s' -> (remaining s' < remaining s)%nat.
Proof. unfold remaining. intros [? _]. lia. Qed.

Lemma lexeme_bounds l : lexeme_ok l -> (l_start l <= l_end l)%nat.
Proof. by intros (_ & _ & ? & _). Qed.

Lemma lexeme_text l : lexeme_ok l -> l_text l <> [] -> (l_start l < l_end l)%nat.
Proof.
  intros (Hk1 & Hk2 & _) Hne. apply Hk2. intros Hk. apply Hne, Hk1, Hk.
Qed.

Lemma leaf_post s s' n :
  lexeme_ok (current s) -> l_kind (current s) <> k_end ->
  children n = [] -> node_span n = Span (l_start (current s)) (l_end (current s)) ->
  head_ok n -> parser_ok s' -> count s < count s' ->
  (l_end (current s) <= l_start (current s'))%nat ->
  node_post s (l_start (current s)) n s'.
Proof.
  intros (_ & Hk & _) Hne Hc Hsp Hh Hok Hcnt Hle. specialize (Hk Hne).
  unfold node_post, node_start, node_end. rewrite Hsp. simpl.
  split_and!; [|done|done|done|done].
  apply wf_leaf; [done| |done]. unfold node_start, node_end. by rewrite Hsp.
Qed.

Lemma literal_post s s' n :
  lexeme_ok (current s) -> literal_of_token (current s) = Some n ->
  parser_ok s' -> count s < count s' -> (l_end (current s) <= l_start (current s'))%nat ->
  node_post s (l_start (current s)) n s'.
Proof.
  intros Hl Hlit Hok Hcnt Hle. pose proof Hl as (_ & _ & _ & Hnum).
  unfold literal_of_token in Hlit.
  destruct (l_kind (current s)) eqn:Hk; try done;
    destruct (l_value (current s)) as [[str|x]|] eqn:Hv; simplify_eq;
    apply leaf_post; rewrite ?Hk; try done. simpl. by apply Hnum.
Qed.

Lemma expect_post text s (Q : Lexeme -> parser_state -> Prop) :
  parser_ok s ->
  (forall s', parser_ok s' -> count s < count s' ->
     (l_end (current s) <= l_start (current s'))%nat ->
     l_text (current s) = text -> Q (current s) s') ->
  wp (expect source text) s Q.
Proof.
  intros Hok HQ. eapply wp_mono; [by apply expect_wp|].
  intros l s' [(-> & Hok' & Hc & Hle) Htext]. apply HQ; [done|lia|done|done].
Qed.

Lemma take_lexeme_post s (Q : Lexeme -> parser_state -> Prop) :
  parser_ok s ->
  (forall s', parser_ok s' -> count s < count s' ->
     (l_end (current s) <= l_start (current s'))%nat -> Q (current s) s') ->
  wp (take_lexeme source) s Q.
Proof.
  intros Hok HQ. eapply wp_mono; [by apply take_wp|].
  intros l s' (-> & Hok' & Hc & Hle). apply HQ; [done|lia|done].
Qed.

Lemma primary_step fuel : expression_ok fuel -> arguments_ok fuel -> primary_ok (S fuel).
Proof.
  intros IHe IHa s Hok Hfuel. cbn [primary]. apply wp_bind, take_lexeme_post; [done|].
  intros s1 Hok1 Hc1 Hend1. pose proof Hok as (_ & Hl & _).
  pose proof (remaining_lt _ _ Hok1 Hc1) as Hr1.
  destruct (literal_of_token (current s)) as [n|] eqn:Hlit;
    [by apply wp_ret, literal_post|].
  destruct (str_eqb_spec (l_text (current s)) (js "(")) as [Hparen|_].
  { assert (Hlt : (l_start (current s) < l_end (current s))%nat)
      by (apply lexeme_text; [done|by rewrite Hparen]).
    apply wp_bind. eapply wp_mono; [apply IHe; [done|lia]|].
    intros n s2 (Hwf & Hst & He2 & Hok2 & Hc2).
    apply wp_bind, expect_post; [done|]. intros s3 Hok3 Hc3 He3 Htext.
    pose proof Hok2 as (_ & Hl2 & _).
    assert (Hlt2 : (l_start (current s2) < l_end (current s2))%nat)
      by (apply lexeme_text; [done|by rewrite Htext]).
    apply wp_ret. unfold node_post, node_start, node_end in *.
    split_and!; [|by destruct n|destruct n; simpl; lia|done|lia].
    apply wf_with_span; [done|..]; unfold node_start, node_end; simpl; lia. }
  destruct (includes_str [js "!"; js "+"; js "-"] (l_text (current s))) eqn:Hop.
  { apply includes_str_spec in Hop.
    assert (Hlt : (l_start (current s) < l_end (current s))%nat).
    { apply lexeme_text; [done|]. intros Hnil. rewrite Hnil in Hop. set_solver. }
    apply wp_bind. eapply wp_mono; [apply IHe; [done|lia]|].
    intros n s2 (Hwf & Hst & He2 & Hok2 & Hc2). apply wp_ret.
    split_and!; [|done|done|done|lia]. apply wf_unary; simpl; [done|done|lia|done]. }
  case_bool_decide as Hname; simpl; [|done].
  assert (Hne : l_kind (current s) <> k_end) by (rewrite Hname; done).
  destruct (l_text (current s) === js "nil"); [by apply wp_ret, leaf_post|].
  destruct (_ || _); [by apply wp_ret, leaf_post|].
  apply wp_bind, wp_gets.
  destruct (str_eqb_spec (l_text (current s1)) (js "(")) as [Hcall|_]; simpl.
  2: { destruct (includes_str BILLING_VARIABLES _) eqn:Hvar; simpl; [|done].
       apply includes_str_spec in Hvar. by apply wp_ret, leaf_post. }
  destruct (assoc BILLING_FUNCTIONS _) as [arity|] eqn:Hf; [|done].
  apply wp_bind, take_lexeme_post; [done|]. intros s2 Hok2 Hc2 Hend2.
  pose proof (remaining_lt _ _ Hok2 Hc2) as Hr2. pose proof Hok1 as (_ & Hl1 & _).
  assert (Hlt1 : (l_start (current s1) < l_end (current s1))%nat)
    by (apply lexeme_text; [done|by rewrite Hcall]).
  apply wp_bind. eapply wp_mono.
  { apply (IHa (l_end (current s1))); [done|lia|by constructor|done]. }
  intros args s3 (Hwf & Hbetween & Hok3 & Hc3).
  apply wp_bind, expect_post; [done|]. intros s4 Hok4 Hc4 Hend4 _.
  destruct (Nat.eqb_spec (length args) arity) as [Harity|]; simpl; [|done].
  pose proof Hok3 as (_ & Hl3 & _). pose proof (lexeme_bounds _ Hl3) as Hb3.
  pose proof (lexeme_bounds _ Hl) as Hb.
  apply wp_ret. split_and!; [|done|done|done|lia].
  eapply (wf_call _ _ _ (l_end (current s1))); simpl; [done|by rewrite Harity|lia| |].
  - eapply spans_between_weaken; [| |exact Hbetween]; lia.
  - assert (Hle : (l_end (current s1) <= l_start (current s3))%nat); [|lia].
    destruct args as [|a args']; [done|]. simpl in Hbetween. inversion_clear Hwf.
    destruct (spans_between_bounds (l_end (current s1)) (a :: args')
      (l_start (current s3)) a); [by constructor|done|set_solver|].
    pose proof (wf_bounds a). lia || naive_solver lia.
Qed.

Lemma operators_step fuel : expression_ok fuel -> operators_ok fuel -> operators_ok (S fuel).
Proof.
  intros IHe IHo minimum left s Hok Hfuel Hwf Hend. cbn [operators]. apply wp_bind, wp_gets.
  destruct (assoc PRECEDENCE (l_text (current s))) as [prec|] eqn:Hprec;
    [|apply wp_ret; split_and!; done || lia].
  destruct (_ <=? _); [|apply wp_ret; split_and!; done || lia].
  pose proof Hok as (_ & Hl & _).
  assert (Hlt : (l_start (current s) < l_end (current s))%nat).
  { apply lexeme_text; [done|]. intros Hnil. by rewrite Hnil in Hprec. }
  apply wp_bind, take_lexeme_post; [done|]. intros s1 Hok1 Hc1 Hend1.
  pose proof (remaining_lt _ _ Hok1 Hc1) as Hr1.
  apply wp_bind. eapply wp_mono; [apply IHe; [done|lia]|].
  intros right s2 (Hwf2 & Hst & He2 & Hok2 & Hc2).
  pose proof (remaining_lt _ _ Hok2 Hc2) as Hr2.
  eapply wp_mono; [apply IHo; [done|lia| |done]|].
  - apply wf_binary; [done|done|by rewrite Hprec|lia|done].
  - intros n s3 (?&?&?&?&?). split_and!; done || lia.
Qed.

Lemma arguments_step fuel : expression_ok fuel -> arguments_ok fuel -> arguments_ok (S fuel).
Proof.
  intros IHe IHa lo args s Hok Hfuel Hwf Hbetween. cbn [arguments]. apply wp_bind, wp_gets.
  destruct (_ === _); [apply wp_ret; split_and!; done || lia|].
  apply wp_bind. eapply wp_mono; [apply IHe; [done|lia]|].
  intros arg s1 (Hwf1 & Hst & He1 & Hok1 & Hc1).
  pose proof (remaining_lt _ _ Hok1 Hc1) as Hr1.
  assert (Hwf' : Forall wf_node (args ++ [arg])) by (apply Forall_app; by split; [|constructor]).
  assert (Hb' : forall hi, (l_start (current s1) <= hi)%nat -> spans_between lo (args ++ [arg]) hi).
  { intros hi Hhi. apply spans_between_snoc; [by rewrite Hst|lia]. }
  apply wp_bind, wp_gets. destruct (_ === _); simpl.
  - apply wp_bind, take_lexeme_post; [done|]. intros s2 Hok2 Hc2 Hend2.
    pose proof (remaining_lt _ _ Hok2 Hc2). pose proof Hok1 as (_ & Hl1 & _).
    pose proof (lexeme_bounds _ Hl1).
    eapply wp_mono; [apply (IHa lo); [done|lia|done|apply Hb'; lia]|].
    intros args' s3 (?&?&?&?). split_and!; done || lia.
  - apply wp_ret. split_and!; [done|by apply Hb'|done|lia].
Qed.

Lemma expression_step fuel :
  primary_ok fuel -> operators_ok fuel -> expression_ok fuel -> expression_ok (S fuel).
Proof.
  intros IHp IHo IHe minimum s Hok Hfuel. cbn [expression].
  apply wp_bind, wp_get, wp_bind, wp_modify. destruct (_ <? _); [done|].
  set (s0 := set_depth (depth s + 1) s).
  assert (Hok0 : parser_ok s0) by done. assert (Hr0 : remaining s0 = remaining s) by done.
  apply wp_bind. eapply wp_mono; [apply IHp; [done|lia]|].
  intros left s1 (Hwf & Hst & He1 & Hok1 & Hc1).
  pose proof (remaining_lt _ _ Hok1 Hc1) as Hr1. simpl in Hst, Hc1.
  apply wp_bind. eapply wp_mono; [apply IHo; [done|lia|done|done]|].
  intros left' s2 (Hwf2 & Hst2 & He2 & Hok2 & Hc2).
  assert (Hr2 : (remaining s2 <= remaining s1)%nat) by (unfold remaining; lia).
  apply wp_bind, wp_gets, wp_bind.
  assert (Hleave : forall n s', wf_node n -> node_start n = node_start left' ->
    (node_end n <= l_start (current s'))%nat -> parser_ok s' -> count s2 <= count s' ->
    wp (leave ;;; ret n) s' (node_post s (l_start (current s)))).
  { intros n s' ? Hn ???. apply wp_bind, wp_modify, wp_ret.
    split_and!; [done|by rewrite Hn, Hst2, Hst|done|done|simpl; lia]. }
  destruct (_ && _); [|by apply wp_ret, Hleave].
  apply wp_bind, take_lexeme_post; [done|]. intros s3 Hok3 Hc3 Hend3.
  pose proof (remaining_lt _ _ Hok3 Hc3) as Hr3.
  pose proof Hok2 as (_ & Hl2 & _). pose proof (lexeme_bounds _ Hl2).
  apply wp_bind. eapply wp_mono; [apply IHe; [done|lia]|].
  intros yes s4 (Hwf4 & Hst4 & He4 & Hok4 & Hc4).
  pose proof (remaining_lt _ _ Hok4 Hc4) as Hr4.
  apply wp_bind, expect_post; [done|]. intros s5 Hok5 Hc5 Hend5 _.
  pose proof (remaining_lt _ _ Hok5 Hc5) as Hr5.
  pose proof Hok4 as (_ & Hl4 & _). pose proof (lexeme_bounds _ Hl4).
  apply wp_bind. eapply wp_mono; [apply IHe; [done|lia]|].
  intros no s6 (Hwf6 & Hst6 & He6 & Hok6 & Hc6).
  apply wp_ret, Hleave; [|done|done|done|lia].
  apply wf_conditional; [done..|lia|lia|done].
Qed.

Lemma parser_steps fuel :
  expression_ok fuel /\ operators_ok fuel /\ primary_ok fuel /\ arguments_ok fuel.
Proof.
  induction fuel as [|fuel (IHe & IHo & IHp & IHa)].
  - split_and!; repeat intro; lia.
  - split_and!; auto using expression_step, operators_step, primary_step, arguments_step.
Qed.

Lemma parse_expression_wp s :
  parser_ok s -> wp (parse_expression source) s (fun n _ => wf_node n).
Proof.
  intros Hok. apply wp_bind. eapply wp_mono.
  { apply parser_steps; [done|]. unfold remaining, parser_fuel.
    destruct Hok as [? _]. lia. }
  intros n s' (Hwf & _). apply wp_bind, wp_gets. destruct (negb _); [done|]. by apply wp_ret.
Qed.

Lemma start_at_ok c :
  match start_at source c with
  | Ret s => parser_ok s
  | Throw _ => True
  | OutOfFuel => False
  end.
Proof.
  unfold start_at. set (s0 := {| cursor := c; count := 0 |}).
  assert (Hwp : wp (let! l := next source in modify (set_current l)) s0 (fun _ => parser_ok)).
  { apply wp_bind. eapply wp_mono; [apply next_wp|].
    intros l s' (Hl & _ & Hend & Hc & Hmax & _). apply wp_modify.
    split; [simpl in *; lia|]. split; [done|simpl; lia]. }
  unfold wp in Hwp. by destruct (bind _ _ s0) as [[[] s']|e|].
Qed.

Lemma new_parser_ok :
  match new_parser source with
  | Ret s => parser_ok s
  | Throw _ => True
  | OutOfFuel => False
  end.
Proof.
  unfold new_parser. destruct (_ <? _); [done|].
  destruct (match_version source) as [[v w]|]; [|apply start_at_ok].
  destruct (negb _); [done|apply start_at_ok].
Qed.

Lemma parse_outcome :
  match parse source with
  | Ret n => wf_node n
  | Throw _ => True
  | OutOfFuel => False
  end.
Proof.
  unfold parse. pose proof new_parser_ok as Hnew.
  destruct (new_parser source) as [s|e|]; [|done..]. simpl.
  pose proof (parse_expression_wp s Hnew) as Hwp. unfold wp in Hwp.
  by destruct (parse_expression source s) as [[n s']|e|].
Qed.

Lemma parse_wf n : parse source = Ret n -> wf_node n.
Proof. intros H. pose proof parse_outcome as Ho. by rewrite H in Ho. Qed.
End ParserTheory.

(** ** Properties *)

(** C3. The parser is total and produces well-formed trees: whatever the source,
    it throws a diagnostic or returns a tree in which every call has the arity of
    its function, every variable and operator is known, every numeric literal
    is finite and non-negative (and a safe integer when written as one), and the
    spans of the children lie in order inside the span of their parent.  In
    particular the fuel is never exhausted. *)
Theorem parse_total_well_formed (source : jsstr) :
  match parse source with
  | Ret node => wf_node node
  | Throw _ => True
  | OutOfFuel => False
  end.
Proof. apply parse_outcome. Qed.

(** Distinct nodes of a parsed tree have distinct spans.  This is what makes
    the comparison of spans a faithful model of the identity comparisons
    ([rule.node === node], [Map<ExpressionNode, _>]) of the source. *)
Theorem parse_spans_distinct (source : jsstr) (node : ExpressionNode) :
  parse source = Ret node ->
  NoDup (map node_span (postorder node)).
Proof. intros H. by apply wf_spans_NoDup, (parse_wf source). Qed.

Lemma parse_spans_distinct_witness :
  NoDup (map node_span (postorder
    match parse (js "v1: p * 2 + max(0, c)") with Ret n => n | _ => Literal (Span 0 0) LNull None end)).
Proof.
  apply (parse_spans_distinct (js "v1: p * 2 + max(0, c)")). vm_compute. reflexivity.
Defined.
