(* ===== verification/ExpressionCompiler.v ===== *)
(** * Billing expressions: type check, pricing check and compilation

    Models the second half of
    [web/src/features/usage-logs/lib/billing-expression/parser.ts]:
    [checkExpressionTypes] over the bounded traversal, [validateFixedPricingTree],
    and [compileBillingExpression] with its bounded cache (a [Map] in insertion
    order, threaded as state).  The visitor that stores types by node identity is
    proved to decide a declarative typing judgement, [typed]. *)

From S2P Require Import Prelude JsString JsNumber JsValue ExpressionTypes ExpressionParser.

Inductive ExpressionType := t_number | t_string | t_boolean | t_nil | t_dynamic.

#[global] Instance ExpressionType_eq_dec : EqDecision ExpressionType.
Proof. solve_decision. Defined.

Definition type_name (t : ExpressionType) : jsstr :=
  match t with
  | t_number => js "number"
  | t_string => js "string"
  | t_boolean => js "boolean"
  | t_nil => js "nil"
  | t_dynamic => js "dynamic"
  end.

(** ** [checkExpressionTypes] *)

Section NodeType.
(** [types.get] *)
Variable types : ExpressionNode -> option ExpressionType.

Definition requireType (child : ExpressionNode) (expected : ExpressionType)
    : outcome ExpressionDiagnostic unit :=
  let actual := types child in
  if negb (bool_decide (actual = Some expected)) && negb (bool_decide (actual = Some t_dynamic))
  then Throw (Diagnostic c_type (type_name expected ++ js " operand") (Some (node_start child)))
  else Ret tt.

(** [requireType(node.args[i], expected)].  Reading a missing argument would
    throw a [TypeError]; the parser's arity check excludes it. *)
Definition requireArg (args : list ExpressionNode) (i : nat) (expected : ExpressionType)
    : outcome ExpressionDiagnostic unit :=
  match args !! i with
  | Some arg => requireType arg expected
  | None => Throw (Diagnostic c_syntax (js "TypeError") None)
  end.

Fixpoint requireAll (args : list ExpressionNode) (expected : ExpressionType)
    : outcome ExpressionDiagnostic unit :=
  match args with
  | [] => Ret tt
  | arg :: args' => let? u := requireType arg expected in requireAll args' expected
  end.

Definition call_type (name : jsstr) (args : list ExpressionNode)
    : outcome ExpressionDiagnostic ExpressionType :=
  let? u :=
    if includes_str ([js "param"; js "header"; js "u"] ++ TIME_FUNCTIONS) name
    then requireArg args 0 t_string else Ret tt in
  if name === js "header" then Ret t_string
  else if name === js "has" then
    let? u := requireArg args 1 t_string in Ret t_boolean
  else if name === js "tier" then
    let? u := requireArg args 0 t_string in
    let? u := requireArg args 1 t_number in Ret t_number
  else if includes_str TIME_FUNCTIONS name then Ret t_number
  else if includes_str [js "fixed"; js "min"; js "max"; js "abs"; js "ceil"; js "floor"] name then
    let? u := requireAll args t_number in Ret t_number
  else Ret t_dynamic.

(** The visitor's computation of [result]. *)
Definition node_type (node : ExpressionNode) : outcome ExpressionDiagnostic ExpressionType :=
  match node with
  | Literal _ LNull _ => Ret t_nil
  | Literal _ (LNumber _) _ => Ret t_number
  | Literal _ (LString _) _ => Ret t_string
  | Literal _ (LBoolean _) _ => Ret t_boolean
  | Variable_ _ _ => Ret t_number
  | Unary _ operator operand =>
      let result := if operator === js "!" then t_boolean else t_number in
      let? u := requireType operand result in Ret result
  | Conditional _ condition yes no =>
      let? u := requireType condition t_boolean in
      if bool_decide (types yes = types no) then Ret (default t_dynamic (types yes))
      else Ret t_dynamic
  | Binary _ operator l r =>
      if includes_str [js "&&"; js "||"] operator then
        let? u := requireType l t_boolean in
        let? u := requireType r t_boolean in Ret t_boolean
      else if includes_str [js "=="; js "!="; js "<"; js "<="; js ">"; js ">="] operator then
        Ret t_boolean
      else if (operator === js "+") && bool_decide (types l = Some t_string)
              && bool_decide (types r = Some t_string) then Ret t_string
      else
        let? u := requireType l t_number in
        let? u := requireType r t_number in Ret t_number
  | Call _ name args => call_type name args
  end.
End NodeType.

(** The visitor; [types] is a [Map] keyed by node identity. *)
Definition type_visitor (node : ExpressionNode)
    : action (gmap span ExpressionType) ExpressionDiagnostic unit :=
  let! types := get in
  let! result := lift (node_type (fun child => types !! node_span child) node) in
  modify <[node_span node := result]>.

Definition checkExpressionTypes (ast : ExpressionNode) : outcome ExpressionDiagnostic unit :=
  match visitExpression type_visitor ast ∅ with
  | Ret _ => Ret tt
  | Throw e => Throw e
  | OutOfFuel => OutOfFuel
  end.

(** ** [validateFixedPricingTree] *)

Definition containsPricingMarker (node : ExpressionNode) : outcome ExpressionDiagnostic bool :=
  let? d := expressionDependencies node in
  let calls := dep_functions d in
  Ret (includes_str calls (js "tier") || includes_str calls (js "fixed")).

Definition is_image_count (node : ExpressionNode) : bool :=
  match node with Variable_ _ name => name === js "image_count" | _ => false end.

Definition ONE_MILLION : num := num_of_Z 1000000.

Section Pricing.
Variable rules : list RequestRule.

(** The two conditions under which the loop accepts [factor]. *)
Definition accepts_factor (factor : ExpressionNode) : outcome ExpressionDiagnostic bool :=
  if is_image_count factor then Ret true
  else
    match List.find (fun candidate => same_node (rr_node candidate) factor) rules with
    | Some rule =>
        if num_leb zero (rr_multiplier rule) then
          let? marked := containsPricingMarker (rr_condition rule) in Ret (negb marked)
        else Ret false
    | None => Ret false
    end.

Definition pricing_error (node : ExpressionNode) : outcome ExpressionDiagnostic unit :=
  Throw (Diagnostic c_type
    (js "Use tier(name, fixed(amount)) with a finite, non-negative numeric literal; combine pricing branches only with conditions and request multipliers.")
    (Some (node_start node))).

(** The [tier] case: [tier(name, price)] with a marker-free name. *)
Definition validate_tier (node : ExpressionNode) : outcome ExpressionDiagnostic unit :=
  match node with
  | Call _ name args =>
      if name === js "tier" then
        match args with
        | label :: price :: _ =>
            let? marked := containsPricingMarker label in
            if marked then pricing_error node
            else
              match price with
              | Call _ price_name price_args =>
                  if price_name === js "fixed" then
                    match price_args with
                    | Literal _ (LNumber value) _ :: _ =>
                        if num_leb zero value && is_finite (nmul value ONE_MILLION) then Ret tt
                        else pricing_error node
                    | _ => pricing_error node
                    end
                  else
                    let? marked := containsPricingMarker price in
                    if marked then pricing_error node else Ret tt
              | _ =>
                  let? marked := containsPricingMarker price in
                  if marked then pricing_error node else Ret tt
              end
        | _ => Throw (Diagnostic c_syntax (js "TypeError") None)
        end
      else pricing_error node
  | _ => pricing_error node
  end.

Fixpoint validateFixedPricingTree (node : ExpressionNode) : outcome ExpressionDiagnostic unit :=
  match node with
  | Conditional _ condition yes no =>
      let? marked := containsPricingMarker condition in
      if negb marked then
        let? u := validateFixedPricingTree yes in
        validateFixedPricingTree no
      else pricing_error node
  | Binary _ operator l r =>
      if operator === js "*" then
        let? accepted := accepts_factor r in
        if accepted then validateFixedPricingTree l
        else
          let? accepted := accepts_factor l in
          if accepted then validateFixedPricingTree r else pricing_error node
      else pricing_error node
  | _ => validate_tier node
  end.
End Pricing.

(** ** [compileBillingExpression] *)

(** The visitor that collects the request rules of [source]. *)
Definition request_rule_visitor (source : jsstr) (node : ExpressionNode)
    : action (list RequestRule) ExpressionDiagnostic unit :=
  match node with
  | Conditional _ condition (Literal _ (LNumber multiplier) _) (Literal _ (LNumber one) _) =>
      if num_eqb one (num_of_Z 1) then
        let! d := lift (expressionDependencies condition) in
        if negb (existsb (includes_str ([js "param"; js "header"] ++ TIME_FUNCTIONS))
                   (dep_functions d)) then ret tt
        else
          modify (fun rules => rules ++
            [{| rr_node := node; rr_condition := condition; rr_multiplier := multiplier;
                rr_cond := slice (node_start condition) (node_end condition) source |}])
      else ret tt
  | _ => ret tt
  end.

(** The body of the [try] block. *)
Definition compile_body (source : jsstr)
    : outcome ExpressionDiagnostic CompiledBillingExpression :=
  let? ast := parse source in
  let? u := checkExpressionTypes ast in
  let? deps := expressionDependencies ast in
  let? visited :=
    match visitExpression (request_rule_visitor source) ast [] with
    | Ret (_, rules) => Ret rules
    | Throw e => Throw e
    | OutOfFuel => OutOfFuel
    end in
  let? u :=
    if includes_str (dep_functions deps) (js "fixed") then validateFixedPricingTree visited ast
    else Ret tt in
  Ret {| source := source; ast := ast; variables := dep_variables deps;
         functions := dep_functions deps; requestRules := visited |}.

(** Code that catches every exception throws none. *)
Abbreviation no_error := Empty_set.

Definition compile_uncached (source : jsstr) : outcome no_error CompilationResult :=
  match compile_body source with
  | Ret c => Ret (Ready c)
  | Throw error => Ret (Failed (expressionFailure error))
  | OutOfFuel => OutOfFuel
  end.

(** [compiledCache]: a [Map] in insertion order. *)
Abbreviation cache := (list (jsstr * CompilationResult)).

Definition compileBillingExpression (source : jsstr)
    : action cache no_error CompilationResult :=
  let! compiledCache := get in
  match assoc compiledCache source with
  | Some cached => ret cached
  | None =>
      let! result := lift (compile_uncached source) in
      modify (fun cache => if (128 <=? Z.of_nat (length cache)) then tail cache else cache) ;;;
      modify (fun cache => cache ++ [(source, result)]) ;;;
      ret result
  end.

(** ** The typing judgement

    [typed n t]: the children of [n] have types [lk c], and with them the node
    rule gives [n] the type [t].  No map, no identity, no traversal order. *)
Inductive typed : ExpressionNode -> ExpressionType -> Prop :=
| typed_intro n (lk : ExpressionNode -> ExpressionType) t :
    (forall c, c ∈ children n -> typed c (lk c)) ->
    node_type (fun c => Some (lk c)) n = Ret t ->
    typed n t.

Section NodeTypeTheory.
Context (lk lk' : ExpressionNode -> option ExpressionType).

Lemma requireType_ext c e : lk c = lk' c -> requireType lk c e = requireType lk' c e.
Proof. unfold requireType. by intros ->. Qed.

Lemma requireArg_ext args i e :
  (forall c, c ∈ args -> lk c = lk' c) -> requireArg lk args i e = requireArg lk' args i e.
Proof.
  unfold requireArg. intros H. destruct (args !! i) as [a|] eqn:Ha; [|done].
  apply requireType_ext, H. by eapply list_elem_of_lookup_2.
Qed.

Lemma requireAll_ext args e :
  (forall c, c ∈ args -> lk c = lk' c) -> requireAll lk args e = requireAll lk' args e.
Proof.
  induction args as [|a args IH]; intros H; simpl; [done|].
  rewrite (requireType_ext a e) by (apply H; set_solver).
  rewrite IH; [done|]. intros. apply H. set_solver.
Qed.

Lemma node_type_ext n :
  (forall c, c ∈ children n -> lk c = lk' c) -> node_type lk n = node_type lk' n.
Proof.
  destruct n as [sp [] i|sp x|sp f args|sp op a|sp op a b|sp c a b]; cbn [node_type children];
    intros H; try done.
  - unfold call_type. rewrite !(requireArg_ext args) by done. by rewrite requireAll_ext.
  - rewrite requireType_ext; [done|]. apply H. set_solver.
  - rewrite !(requireType_ext a), !(requireType_ext b) by (apply H; set_solver).
    by rewrite (H a), (H b) by set_solver.
  - rewrite requireType_ext by (apply H; set_solver).
    by rewrite (H a), (H b) by set_solver.
Qed.
End NodeTypeTheory.

Lemma node_type_total lk n : node_type lk n <> OutOfFuel.
Proof.
  assert (Hreq : forall c e, requireType lk c e <> OutOfFuel)
    by (intros; unfold requireType; by destruct (_ && _)).
  assert (Harg : forall args i e, requireArg lk args i e <> OutOfFuel)
    by (intros args i e; unfold requireArg; destruct (args !! i); [apply Hreq|done]).
  assert (Hall : forall args e, requireAll lk args e <> OutOfFuel).
  { induction args as [|a args IH]; intros e; simpl; [done|].
    pose proof (Hreq a e). by destruct (requireType lk a e); simpl. }
  assert (Hbind : forall A B (o : outcome ExpressionDiagnostic A)
    (k : A -> outcome ExpressionDiagnostic B),
    o <> OutOfFuel -> (forall a, k a <> OutOfFuel) -> obind o k <> OutOfFuel)
    by (intros A B [] k ??; simpl; auto).
  destruct n as [sp [] i|sp x|sp f args|sp op a|sp op a b|sp c a b]; cbn [node_type]; try done;
    unfold call_type;
    repeat (case_match || apply Hbind || apply Hreq || apply Harg || apply Hall || intros ? || done).
Qed.

Lemma typed_functional n t t' : typed n t -> typed n t' -> t = t'.
Proof.
  intros H. revert t'. induction H as [n lk t Hc IH Hn]. intros t' H'.
  inversion_clear H' as [? lk' ? Hc' Hn'].
  enough (@Ret ExpressionDiagnostic _ t = Ret t') by by simplify_eq.
  rewrite <- Hn, <- Hn'. apply node_type_ext. intros c Hin. f_equal. auto.
Qed.

Definition stores_type (m : gmap span ExpressionType) (n : ExpressionNode) : Prop :=
  exists t, typed n t /\ m !! node_span n = Some t.

Definition visitor_result (ns roots : list ExpressionNode) (m : gmap span ExpressionType) : Prop :=
  match mapM_ type_visitor ns m with
  | Ret (_, m') =>
      (forall c, c ∈ roots -> stores_type m' c) /\
      (forall sp, sp ∉ map node_span ns -> m' !! sp = m !! sp)
  | Throw _ => exists c, c ∈ roots /\ ~ exists t, typed c t
  | OutOfFuel => False
  end.

Lemma visitor_children cs m :
  NoDup (map node_span (concat (map postorder cs))) ->
  Forall (fun c => forall m, visitor_result (postorder c) [c] m) cs ->
  visitor_result (concat (map postorder cs)) cs m.
Proof.
  intros Hnd Hcs. revert m Hnd. unfold visitor_result.
  induction Hcs as [|c cs Hc Hcs IH]; intros m Hnd; cbn [map concat]; simpl in Hnd.
  - simpl. split; [set_solver|done].
  - rewrite mapM_app. unfold bind. specialize (Hc m). revert Hc.
    unfold visitor_result at 1.
    destruct (mapM_ type_visitor (postorder c) m) as [[[] m1]|e|];
      [|intros (c' & ->%list_elem_of_singleton & ?); exists c; split; [set_solver|done]|done].
    intros [Hst Hframe]. rewrite map_app in Hnd. apply NoDup_app in Hnd as (_ & Hdis & Hnd).
    specialize (IH m1 Hnd). revert IH.
    destruct (mapM_ type_visitor (concat (map postorder cs)) m1) as [[[] m2]|e|];
      [|intros (c' & ? & ?); exists c'; split; [set_solver|done]|done].
    intros [Hst2 Hframe2]. split.
    + intros c'. rewrite elem_of_cons. intros [->|Hin]; [|by apply Hst2].
      destruct (Hst c ltac:(set_solver)) as (t & Ht & Hm). exists t. split; [done|].
      rewrite Hframe2; [done|]. apply Hdis. rewrite postorder_children, map_app. set_solver.
    + intros sp. rewrite map_app, not_elem_of_app. intros [? ?]. by rewrite Hframe2, Hframe.
Qed.

Lemma visitor_tree n m : wf_node n -> visitor_result (postorder n) [n] m.
Proof.
  revert m. induction n as [n IH] using ExpressionNode_children_ind. intros m Hwf.
  pose proof (wf_spans_NoDup n Hwf) as Hnd. rewrite postorder_children, map_app in Hnd.
  apply NoDup_app in Hnd as (Hnd & Hdis & _).
  assert (Hcs : Forall (fun c => forall m, visitor_result (postorder c) [c] m) (children n)).
  { destruct Hwf as [n _ _ _ _ Hch]. rewrite Forall_forall in *. auto. }
  pose proof (visitor_children (children n) m Hnd Hcs) as Hres. unfold visitor_result in *.
  rewrite postorder_children, mapM_app. unfold bind at 1.
  destruct (mapM_ type_visitor (concat _) m) as [[[] m1]|e|]; [| |done].
  - destruct Hres as [Hst Hframe]. cbn [mapM_]. unfold type_visitor, bind, get, lift, modify, ret.
    set (lk c := default t_dynamic (m1 !! node_span c)).
    assert (Hlk : forall c, c ∈ children n -> typed c (lk c) /\ m1 !! node_span c = Some (lk c)).
    { intros c Hin. destruct (Hst c Hin) as (t & Ht & Hm). unfold lk. by rewrite Hm. }
    rewrite (node_type_ext _ (fun c => Some (lk c))) by (intros c Hin; by apply Hlk).
    pose proof (node_type_total (fun c => Some (lk c)) n) as Htotal.
    destruct (node_type _ n) as [t|e|] eqn:Hn; [| |done].
    + split.
      * intros c. rewrite list_elem_of_singleton. intros ->. exists t. split.
        -- apply (typed_intro n lk); [|done]. intros c Hin. by apply Hlk.
        -- apply lookup_insert_eq.
      * intros sp. rewrite map_app, not_elem_of_app. intros [Hsp Hne].
        rewrite lookup_insert_ne; [by apply Hframe|]. set_solver.
    + exists n. split; [set_solver|]. intros [t Ht]. inversion_clear Ht as [? lk' ? Hc' Hn'].
      rewrite (node_type_ext _ (fun c => Some (lk' c))) in Hn; [congruence|].
      intros c Hin. f_equal. eapply typed_functional; [by apply Hlk|auto].
  - destruct Hres as (c & Hin & Hno). exists n. split; [set_solver|]. intros [t Ht].
    inversion_clear Ht. eauto.
Qed.

Lemma check_iff_typed ast :
  wf_node ast -> node_depth ast <= 256 ->
  (checkExpressionTypes ast = Ret tt <-> exists t, typed ast t).
Proof.
  intros Hwf Hd. unfold checkExpressionTypes.
  rewrite visitExpression_rec, visit_rec_shallow by done.
  pose proof (visitor_tree ast ∅ Hwf) as Hres. unfold visitor_result in Hres.
  destruct (mapM_ type_visitor _ ∅) as [[[] m]|e|];
    [|destruct Hres as (c & ->%list_elem_of_singleton & ?); by split|done].
  destruct Hres as [Hst _]. destruct (Hst ast ltac:(set_solver)) as (t & Ht & _).
  split; eauto.
Qed.

(** A tree that passed the check is within the depth bound. *)
Lemma check_depth ast : checkExpressionTypes ast = Ret tt -> node_depth ast <= 256.
Proof.
  unfold checkExpressionTypes. intros H. apply Z.le_ngt. intros Hlt.
  rewrite visitExpression_rec in H.
  destruct (visit_rec type_visitor ast 0 ∅) as [r|e|] eqn:Hv; try done.
  by apply visit_rec_deep in Hv.
Qed.

(** ** Totality *)

Lemma obind_total {E A B} (o : outcome E A) (k : A -> outcome E B) :
  o <> OutOfFuel -> (forall a, o = Ret a -> k a <> OutOfFuel) -> obind o k <> OutOfFuel.
Proof. destruct o; simpl; auto. Qed.

Lemma visit_rec_total {S} (visitor : ExpressionNode -> action S ExpressionDiagnostic unit) n d s :
  (forall m s, m ∈ postorder n -> visitor m s <> OutOfFuel) ->
  visit_rec visitor n d s <> OutOfFuel.
Proof.
  revert d s. induction n as [n IH] using ExpressionNode_children_ind. intros d s Hv.
  rewrite visit_rec_eq. destruct (256 <? d); [done|]. unfold bind.
  assert (Hcs : forall s, mapM_ (fun a => visit_rec visitor a (d + 1)) (children n) s <> OutOfFuel).
  { assert (Hv' : forall m s, m ∈ concat (map postorder (children n)) -> visitor m s <> OutOfFuel).
    { intros m s' Hm. apply Hv. rewrite postorder_children. set_solver. }
    clear Hv. revert IH Hv'. generalize (children n).
    induction 1 as [|c cs Hc _ IHcs]; intros Hv' s'; simpl; [done|]. unfold bind.
    simpl in Hv'.
    destruct (visit_rec visitor c (d + 1) s') as [[[] s1]|e|] eqn:He; [|done|].
    - apply IHcs. intros. apply Hv'. set_solver.
    - exfalso. apply (Hc (d + 1) s'); [|done]. intros. apply Hv'. set_solver. }
  specialize (Hcs s). destruct (mapM_ _ _ s) as [[[] s1]|e|]; [|done..].
  apply Hv. rewrite postorder_children. set_solver.
Qed.

Lemma expressionDependencies_total n : expressionDependencies n <> OutOfFuel.
Proof.
  unfold expressionDependencies. fold collect. rewrite visitExpression_rec.
  pose proof (visit_rec_total collect n 0 (Deps [] [])) as Ht.
  destruct (visit_rec collect n 0 _) as [[? ?]|e|]; [done..|].
  exfalso. apply Ht; [|done]. by intros [] ??.
Qed.

Lemma containsPricingMarker_total n : containsPricingMarker n <> OutOfFuel.
Proof. apply obind_total; [apply expressionDependencies_total|done]. Qed.

Lemma accepts_factor_total rules n : accepts_factor rules n <> OutOfFuel.
Proof.
  unfold accepts_factor. destruct (is_image_count n); [done|].
  destruct (List.find _ _); [|done]. destruct (num_leb _ _); [|done].
  apply obind_total; [apply containsPricingMarker_total|done].
Qed.

Create HintDb total discriminated.
#[export] Hint Resolve containsPricingMarker_total accepts_factor_total
  expressionDependencies_total node_type_total : total.

Ltac total :=
  repeat first
    [ discriminate
    | solve [eauto with total]
    | apply obind_total; [|intros ? _]
    | case_match ].

Lemma validate_total rules n : validateFixedPricingTree rules n <> OutOfFuel.
Proof.
  induction n as [sp v i|sp x|sp f args _|sp op a _|sp op a b IHa IHb|sp c a b _ IHa IHb]
    using ExpressionNode_ind'; cbn [validateFixedPricingTree]; unfold validate_tier, pricing_error; total.
Qed.

Lemma checkExpressionTypes_total n : checkExpressionTypes n <> OutOfFuel.
Proof.
  unfold checkExpressionTypes. rewrite visitExpression_rec.
  pose proof (visit_rec_total type_visitor n 0 ∅) as Ht.
  destruct (visit_rec type_visitor n 0 ∅) as [[? ?]|e|]; [done..|].
  exfalso. apply Ht; [|done]. intros m s _. unfold type_visitor, bind, get, lift, modify.
  pose proof (node_type_total (fun child => s !! node_span child) m).
  by destruct (node_type _ m).
Qed.

(** ** What [compile_body] returns *)

(** The rule a node contributes, if any. *)
Definition calls_request_function (condition : ExpressionNode) : bool :=
  match expressionDependencies condition with
  | Ret d => existsb (includes_str ([js "param"; js "header"] ++ TIME_FUNCTIONS)) (dep_functions d)
  | _ => false
  end.

Definition rule_of (source : jsstr) (node : ExpressionNode) : list RequestRule :=
  match node with
  | Conditional _ condition (Literal _ (LNumber multiplier) _) (Literal _ (LNumber one) _) =>
      if num_eqb one (num_of_Z 1) && calls_request_function condition then
        [{| rr_node := node; rr_condition := condition; rr_multiplier := multiplier;
            rr_cond := slice (node_start condition) (node_end condition) source |}]
      else []
  | _ => []
  end.

Lemma postorder_depth n m : m ∈ postorder n -> node_depth m <= node_depth n.
Proof.
  induction n as [n IH] using ExpressionNode_children_ind.
  rewrite postorder_children, elem_of_app, list_elem_of_singleton. intros [Hin| ->]; [|lia].
  apply list_elem_of_In, in_concat in Hin as (l & Hl & Hm).
  apply in_map_iff in Hl as (c & ? & Hc). subst l. apply list_elem_of_In in Hc, Hm.
  rewrite Forall_forall in IH. pose proof (node_depth_children n c Hc).
  specialize (IH c Hc Hm). lia.
Qed.

Lemma rule_visitor_spec source n rules :
  node_depth n <= 256 ->
  request_rule_visitor source n rules = Ret (tt, rules ++ rule_of source n).
Proof.
  intros Hd. destruct n as [| | | | |sp c a b]; simpl; try by rewrite app_nil_r.
  destruct a as [? [|m| |] ?| | | | |]; try by rewrite app_nil_r.
  destruct b as [? [|one| |] ?| | | | |]; try by rewrite app_nil_r.
  destruct (num_eqb _ _); simpl; [|by rewrite app_nil_r].
  assert (Hdc : node_depth c <= 256) by (simpl in Hd; lia).
  destruct (expressionDependencies_shallow c Hdc) as (d & Heq & _).
  unfold calls_request_function, bind, lift. rewrite Heq.
  destruct (existsb _ _); simpl; [done|]. by rewrite app_nil_r.
Qed.

Lemma rules_spec source ns rules :
  (forall n, n ∈ ns -> node_depth n <= 256) ->
  mapM_ (request_rule_visitor source) ns rules = Ret (tt, rules ++ flat_map (rule_of source) ns).
Proof.
  revert rules. induction ns as [|n ns IH]; intros rules Hd; simpl; [by rewrite app_nil_r|].
  unfold bind. rewrite rule_visitor_spec by (apply Hd; set_solver).
  rewrite IH by (intros; apply Hd; set_solver). by rewrite app_assoc.
Qed.

Record compiled_ok (src : jsstr) (c : CompiledBillingExpression) : Prop := {
  co_source : source c = src;
  co_parsed : parse src = Ret (ast c);
  co_wf : wf_node (ast c);
  co_depth : node_depth (ast c) <= 256;
  co_typed : exists t, typed (ast c) t;
  co_variables : forall x, x ∈ variables c <-> exists sp, Variable_ sp x ∈ postorder (ast c);
  co_functions : forall f, f ∈ functions c <-> exists sp args, Call sp f args ∈ postorder (ast c);
  co_rules : requestRules c = flat_map (rule_of src) (postorder (ast c));
  co_pricing : js "fixed" ∈ functions c ->
    validateFixedPricingTree (requestRules c) (ast c) = Ret tt
}.

Lemma compile_body_ok src c : compile_body src = Ret c -> compiled_ok src c.
Proof.
  unfold compile_body. intros H. apply obind_Ret_inv in H as (tree & Hparse & H).
  pose proof (parse_wf src tree Hparse) as Hwf.
  apply obind_Ret_inv in H as ([] & Hcheck & H). pose proof (check_depth tree Hcheck) as Hd.
  destruct (expressionDependencies_shallow tree Hd) as (d & Hdeps & Hv & Hf).
  rewrite Hdeps, visitExpression_rec, visit_rec_shallow in H by done. simpl in H.
  rewrite rules_spec in H; [|intros n Hn%postorder_depth; lia]. simpl in H.
  apply obind_Ret_inv in H as ([] & Hprice & H). simplify_eq. constructor; simpl; try done.
  - by apply check_iff_typed.
  - intros Hfix%includes_str_spec. by rewrite Hfix in Hprice.
Qed.

Lemma compile_body_total src : compile_body src <> OutOfFuel.
Proof.
  unfold compile_body. apply obind_total.
  { pose proof (parse_outcome src) as Ho. by destruct (parse src). }
  intros tree _. apply obind_total; [apply checkExpressionTypes_total|]. intros [] Hcheck.
  pose proof (check_depth tree Hcheck) as Hd.
  apply obind_total; [apply expressionDependencies_total|]. intros d _.
  rewrite visitExpression_rec, visit_rec_shallow by done.
  rewrite rules_spec by (intros n Hn%postorder_depth; lia). simpl.
  apply obind_total; [|done]. destruct (includes_str _ _); [apply validate_total|done].
Qed.

Lemma compile_uncached_total src : exists r, compile_uncached src = Ret r.
Proof.
  unfold compile_uncached. pose proof (compile_body_total src).
  destruct (compile_body src); eauto; done.
Qed.

(** ** The cache *)

(** Every cached result is what compiling its source gives; keys are distinct
    and there are at most 128 of them. *)
Record cache_ok (c : cache) : Prop := {
  cache_results : forall src r, (src, r) ∈ c -> compile_uncached src = Ret r;
  cache_keys : NoDup (map fst c);
  cache_bound : Z.of_nat (length c) <= 128
}.

Lemma assoc_none {A} (fs : list (jsstr * A)) k : assoc fs k = None <-> k ∉ map fst fs.
Proof.
  induction fs as [|[k0 v] fs IH]; simpl; [set_solver|].
  rewrite assoc_cons, not_elem_of_cons. destruct (str_eqb_spec k0 k) as [->|]; naive_solver.
Qed.

Lemma cache_insert c src r :
  cache_ok c -> compile_uncached src = Ret r -> assoc c src = None ->
  cache_ok ((if (128 <=? Z.of_nat (length c)) then tail c else c) ++ [(src, r)]).
Proof.
  intros [Hres Hkeys Hbound] Hr Hnone%assoc_none.
  set (c' := if (128 <=? Z.of_nat (length c)) then tail c else c).
  assert (Hc' : c' ⊆ c /\ NoDup (map fst c') /\ Z.of_nat (length c') < 128
                /\ (forall k, k ∈ map fst c' -> k ∈ map fst c)).
  { unfold c'. destruct (Z.leb_spec 128 (Z.of_nat (length c))).
    - destruct c as [|[k v] c]; simpl in *; [lia|]. inversion_clear Hkeys.
      split_and!; [set_solver|done|lia|set_solver].
    - split_and!; [set_solver|done|lia|done]. }
  destruct Hc' as (Hsub & Hnd & Hlen & Hdom). constructor.
  - intros src' r'. rewrite elem_of_app, list_elem_of_singleton. intros [Hin|[= -> ->]]; auto.
  - rewrite map_app. apply NoDup_app. split_and!; [done| |simpl; constructor; [set_solver|constructor]].
    simpl. intros k Hk Hk'%list_elem_of_singleton. subst. auto.
  - rewrite length_app. simpl. lia.
Qed.

Lemma compile_transparent (src : jsstr) (c : cache) :
  cache_ok c ->
  exists r c', compileBillingExpression src c = Ret (r, c')
    /\ compile_uncached src = Ret r /\ cache_ok c' /\ assoc c' src = Some r.
Proof.
  intros Hok. destruct (compile_uncached_total src) as [r Hr].
  unfold compileBillingExpression, bind, get, lift, modify, ret.
  destruct (assoc c src) as [r'|] eqn:Hc.
  - exists r', c. split_and!; [done| |done|done]. apply (cache_results c Hok). by apply assoc_in.
  - rewrite Hr. eexists _, _. split_and!; [reflexivity|done|by apply cache_insert|].
    rewrite assoc_app. assert (Hnone : assoc (if 128 <=? Z.of_nat (length c) then tail c else c) src = None).
    { apply assoc_none in Hc. apply assoc_none. destruct (_ <=? _); [|done].
      destruct c as [|[k v] c]; [done|]. simpl in *. set_solver. }
    by rewrite Hnone, assoc_cons, str_eqb_refl.
Qed.

(** ** Properties *)


Definition sample_tree : ExpressionNode :=
  match parse (js "p > 10 ? p * 2 : c") with Ret n => n | _ => Literal (Span 0 0) LNull None end.

Lemma sample_tree_wf : wf_node sample_tree.
Proof. apply (parse_wf (js "p > 10 ? p * 2 : c")). vm_compute. reflexivity. Qed.


(** C6. The cache is transparent.  From any consistent cache, compiling a source
    returns what compiling it without a cache returns, never throws, and leaves
    a consistent cache of at most 128 entries. *)
Theorem compileBillingExpression_cache_transparent (src : jsstr) (c : cache) :
  cache_ok c ->
  exists r c', compileBillingExpression src c = Ret (r, c')
    /\ compile_uncached src = Ret r /\ cache_ok c' /\ assoc c' src = Some r.
Proof. apply compile_transparent. Qed.

Lemma compileBillingExpression_cache_transparent_witness :
  exists r c', compileBillingExpression (js "p * 2") [] = Ret (r, c')
    /\ compile_uncached (js "p * 2") = Ret r /\ cache_ok c' /\ assoc c' (js "p * 2") = Some r.
Proof.
  apply (compileBillingExpression_cache_transparent (js "p * 2") []).
  split; simpl; [intros ?? Hin; inversion Hin|constructor|discriminate].
Defined.

(** C4. What a compiled expression is: the parsed tree of its source,
    well-formed, typable and within the depth bound; exactly its variables and
    functions; one request rule for each conditional [cond ? n : 1] whose
    condition reads the request or the time, in postorder; and, when it uses
    [fixed], a tree the pricing check accepts. *)
Theorem compiled_expression_correct (src : jsstr) (c : CompiledBillingExpression) :
  compile_uncached src = Ret (Ready c) -> compiled_ok src c.
Proof.
  unfold compile_uncached. intros H.
  destruct (compile_body src) as [c'|e|] eqn:Hbody; simplify_eq. by apply compile_body_ok.
Qed.

Definition sample_compiled : CompiledBillingExpression :=
  match compile_uncached (js "tier('a', p * 2) * (hour('UTC') < 6 ? 0.5 : 1)") with
  | Ret (Ready c) => c
  | _ => {| source := []; ast := sample_tree; variables := []; functions := []; requestRules := [] |}
  end.

Lemma compiled_expression_correct_witness :
  compiled_ok (js "tier('a', p * 2) * (hour('UTC') < 6 ? 0.5 : 1)") sample_compiled.
Proof.
  apply (compiled_expression_correct (js "tier('a', p * 2) * (hour('UTC') < 6 ? 0.5 : 1)")).
  vm_compute. reflexivity.
Defined.
