(* ===== verification/ExpressionRuntime.v ===== *)
(** * Billing expressions: the runtime

    Models [web/src/features/usage-logs/lib/billing-expression/runtime.ts]: the
    GJSON-path subset [readRequestPath], the [fmt.Sprint] rendering
    [billingString], the time zone resolution [timeInBillingZone], the
    [BillingRuntime] evaluator with its mutable fields as a threaded state, and
    the two entry points.  The formatter of [Intl.DateTimeFormat] depends on the
    browser's time zone data and is a parameter.

    The evaluator is proved to implement a stateless semantics ([value_of]) on
    every tree within its depth bound, to preserve the static types of the
    checker, and to report a billing result that agrees with that semantics. *)

From stdpp Require Import sorting.
From S2P Require Import Prelude JsString JsNumber JsValue JsDate.
From S2P Require Import ExpressionTypes ExpressionParser ExpressionCompiler.

(** [{ value: unknown; integer?: boolean }]; an absent flag reads as false. *)
Record RuntimeValue := { value : jsval; integer : bool }.

Definition plain (v : jsval) : RuntimeValue := {| value := v; integer := false |}.

(** ** [readRequestPath] *)

Fixpoint path_parts (path s part : jsstr) : outcome ExpressionDiagnostic (list jsstr) :=
  match s with
  | [] => Ret [part]
  | char :: s' =>
      if (char =? ch "\")%N then
        match s' with
        | [] => Throw (Diagnostic c_unsupported path None)
        | next :: s'' => path_parts path s'' (part ++ [next])
        end
      else if (char =? ch ".")%N then
        let? parts := path_parts path s' [] in Ret (part :: parts)
      else if includes_unit char (js "*?[]()|@!") then
        Throw (Diagnostic c_unsupported path None)
      else path_parts path s' (part ++ [char])
  end.

(** [value[index]] of an array: [undefined] beyond the end. *)
Definition array_get (items : list jsval) (index : N) : jsval :=
  default JUndefined (items !! N.to_nat index).

(** The loop over [parts]; an early [return null] is [JNull]. *)
Fixpoint read_parts (path : jsstr) (value : jsval) (parts : list jsstr)
    : outcome ExpressionDiagnostic jsval :=
  match parts with
  | [] => Ret (if is_nullish value then JNull else value)
  | key :: parts' =>
      match value with
      | JArr items =>
          if (key === js "#") && (length parts' =? 0)%nat then
            Ret (JNum (num_of_Z (Z.of_nat (length items))))
          else if key === js "#" then Throw (Diagnostic c_unsupported path None)
          else if negb (all_digits key) then Ret JNull
          else
            let index := parse_dec key in
            read_parts path
              (if Z.of_N index <=? MAX_SAFE_INTEGER then array_get items index else JUndefined)
              parts'
      | JObj _ =>
          match own value key with
          | Some value' => read_parts path value' parts'
          | None => Ret JNull
          end
      | _ => Ret JNull
      end
  end.

Definition readRequestPath (body : jsval) (rawPath : jsstr) : outcome ExpressionDiagnostic jsval :=
  let path := trim rawPath in
  if negb (nonempty path) then Ret JNull
  else
    let? parts := path_parts path path [] in
    read_parts path body parts.

(** ** [billingString] *)

(** Run the results in order; the first thrown one wins. *)
Fixpoint sequence {E A} (os : list (outcome E A)) : outcome E (list A) :=
  match os with
  | [] => Ret []
  | o :: os' => let? a := o in let? xs := sequence os' in Ret (a :: xs)
  end.

(** [entries.sort(([a], [b]) => (a < b ? -1 : Number(a > b)))] *)
Fixpoint insert_entry {A} (kv : jsstr * A) (sorted : list (jsstr * A)) : list (jsstr * A) :=
  match sorted with
  | [] => [kv]
  | kv' :: sorted' =>
      if str_ltb kv'.1 kv.1 then kv' :: insert_entry kv sorted' else kv :: sorted
  end.
Definition sort_entries {A} (fields : list (jsstr * A)) : list (jsstr * A) :=
  fold_right insert_entry [] fields.

(** The [e+dd] / [e-dd] suffix of [fmt.Sprint] outside the decimal range. *)
Definition billing_number (n : num) : outcome ExpressionDiagnostic jsstr :=
  if negb (is_finite n) then Throw (Diagnostic c_number (js "request number") None)
  else
    match n with
    | S754_zero true => Ret (js "-0")
    | _ =>
        let '(mantissa, exponent) := exponential_parts n in
        if (6 <=? exponent) || (exponent <? -4) then
          Ret (mantissa ++ js "e" ++ (if exponent <? 0 then js "-" else js "+")
                ++ pad_start 2 (ch "0") (string_of_Z (Z.abs exponent)))
        else Ret (string_of_num n)
    end.

Fixpoint billingString (v : jsval) (depth : Z) : outcome ExpressionDiagnostic jsstr :=
  if 128 <? depth then Throw (Diagnostic c_limit (js "request value depth") None)
  else
    match v with
    | JUndefined | JNull => Ret (js "<nil>")
    | JArr items =>
        let? texts := sequence (map (fun item => billingString item (depth + 1)) items) in
        Ret (js "[" ++ join (js " ") texts ++ js "]")
    | JObj fields =>
        let texts := map (fun kv => (kv.1, billingString kv.2 (depth + 1))) fields in
        let? texts := sequence (map (fun kt : jsstr * outcome ExpressionDiagnostic jsstr =>
                                       let? text := kt.2 in Ret (kt.1 ++ js ":" ++ text))
                                 (sort_entries texts)) in
        Ret (js "map[" ++ join (js " ") texts ++ js "]")
    | JNum n => billing_number n
    | JBool _ | JStr _ => Ret (string_of_val v)
    end.

Example billingString_sample :
  billingString (JObj [(js "b", JArr [JNum (num_of_Z 1); JBool true; JNull]);
                       (js "a", JNum (num_of_Z (10 ^ 21)))]) 0
  = Ret (js "map[a:1e+21 b:[1 true <nil>]]").
Proof. vm_compute. reflexivity. Qed.

(** ** [timeInBillingZone] *)

(** [Record<TimeFunction, number>] *)
Record BillingTime := {
  bt_hour : num; bt_minute : num; bt_weekday : num; bt_month : num; bt_day : num
}.

(** [values[name]] for a name of [TIME_FUNCTIONS] *)
Definition time_value (t : BillingTime) (name : jsstr) : num :=
  if name === js "hour" then bt_hour t
  else if name === js "minute" then bt_minute t
  else if name === js "weekday" then bt_weekday t
  else if name === js "month" then bt_month t
  else bt_day t.

(** The zone name pattern: parts separated by [/], each a capital followed by
    letters, digits, [_], [+] or [-]. *)
Definition zone_part (part : jsstr) : bool :=
  match part with
  | c :: part' =>
      is_upper c && forallb (fun c => is_word c || (c =? ch "+")%N || (c =? ch "-")%N) part'
  | [] => false
  end.
Definition zone_pattern (timezone : jsstr) : bool := forallb zone_part (split (ch "/") timezone).

Definition utc_time (ms : Z) : BillingTime :=
  {| bt_hour := num_of_Z (utc_hours ms);
     bt_minute := num_of_Z (utc_minutes ms);
     bt_weekday := num_of_Z (utc_weekday ms);
     bt_month := num_of_Z (utc_month ms);
     bt_day := num_of_Z (utc_date ms) |}.

(** The entries of [Object.fromEntries(entries)]: the last one of a key wins. *)
Definition from_entries (parts : list (jsstr * jsstr)) : list (jsstr * jsstr) := rev parts.

(** [Number(parts.x)], which is NaN when the part is absent. *)
Definition part_number (parts : list (jsstr * jsstr)) (name : jsstr) : num :=
  match assoc parts name with Some text => number_of_string text | None => S754_nan end.

Definition WEEKDAYS : list jsstr :=
  [js "Sun"; js "Mon"; js "Tue"; js "Wed"; js "Thu"; js "Fri"; js "Sat"].

Fixpoint index_in (xs : list jsstr) (x : jsstr) (i : Z) : Z :=
  match xs with
  | [] => -1
  | y :: xs' => if y === x then i else index_in xs' x (i + 1)
  end.

Definition parts_time (parts : list (jsstr * jsstr)) : BillingTime :=
  {| bt_hour := part_number parts (js "hour");
     bt_minute := part_number parts (js "minute");
     bt_weekday := num_of_Z
       (match assoc parts (js "weekday") with Some d => index_in WEEKDAYS d 0 | None => -1 end);
     bt_month := part_number parts (js "month");
     bt_day := part_number parts (js "day") |}.

(** ** The evaluation context *)

(** [context.request] *)
Record BillingRequest := { body : jsval; headers : option (list (jsstr * jsval)) }.

Record BillingSimulationContext := {
  imageCount : option num;
  tokens : option (list (jsstr * jsval));
  request : option BillingRequest;
  usage : option (list (jsstr * jsval));
  now : option date
}.

Inductive BillingUnit := unit_token | unit_request.

#[global] Instance BillingUnit_eq_dec : EqDecision BillingUnit.
Proof. solve_decision. Defined.

(** The fields of a [BillingRuntime] that change while it evaluates. *)
Record runtime := {
  rt_requestRules : list BillingRequestRule;
  matchedTier : jsstr;
  billingUnit : BillingUnit;
  fixedPrice : option num;
  timeValues : list (jsstr * BillingTime);
  depth : Z
}.

Definition set_rules rules (s : runtime) : runtime :=
  {| rt_requestRules := rules; matchedTier := matchedTier s; billingUnit := billingUnit s;
     fixedPrice := fixedPrice s; timeValues := timeValues s; depth := depth s |}.
Definition set_tier name (s : runtime) : runtime :=
  {| rt_requestRules := rt_requestRules s; matchedTier := name; billingUnit := billingUnit s;
     fixedPrice := fixedPrice s; timeValues := timeValues s; depth := depth s |}.
Definition set_fixed amount (s : runtime) : runtime :=
  {| rt_requestRules := rt_requestRules s; matchedTier := matchedTier s;
     billingUnit := unit_request; fixedPrice := Some amount;
     timeValues := timeValues s; depth := depth s |}.
Definition set_times times (s : runtime) : runtime :=
  {| rt_requestRules := rt_requestRules s; matchedTier := matchedTier s;
     billingUnit := billingUnit s; fixedPrice := fixedPrice s;
     timeValues := times; depth := depth s |}.
Definition set_eval_depth d (s : runtime) : runtime :=
  {| rt_requestRules := rt_requestRules s; matchedTier := matchedTier s;
     billingUnit := billingUnit s; fixedPrice := fixedPrice s;
     timeValues := timeValues s; depth := d |}.

Definition set_matched (rule : BillingRequestRule) : BillingRequestRule :=
  {| rule_cond := rule_cond rule; rule_multiplier := rule_multiplier rule; rule_matched := true |}.

(** [rules.findIndex((rule) => rule.node === node)] *)
Fixpoint find_rule (rules : list RequestRule) (node : ExpressionNode) : option nat :=
  match rules with
  | [] => None
  | rule :: rules' =>
      if same_node (rr_node rule) node then Some 0%nat else S <$> find_rule rules' node
  end.

(** The constructor's header [Map]: later entries of a key replace earlier ones. *)
Fixpoint read_headers (fields : list (jsstr * jsval)) (m : list (jsstr * jsstr))
    : outcome ExpressionDiagnostic (list (jsstr * jsstr)) :=
  match fields with
  | [] => Ret m
  | (name, rawValue) :: fields' =>
      match rawValue with
      | JStr raw =>
          let key := to_lower (trim name) in
          let value := trim raw in
          read_headers fields'
            (if nonempty key && nonempty value then (key, value) :: m else m)
      | _ => Throw (Diagnostic c_type (js "request header") None)
      end
  end.

(** A call argument the parser's arity check guarantees: reading a missing one
    would be a [TypeError]. *)
Definition type_error {A} : outcome ExpressionDiagnostic A :=
  Throw (Diagnostic c_syntax (js "TypeError") None).

(** ** Operators on values *)

Definition is_null (v : jsval) : bool := match v with JNull => true | _ => false end.

(** The relational operators on two strings or two numbers. *)
Definition relation {A} (lt le : A -> A -> bool) (operator : jsstr) (a b : A) : option bool :=
  if operator === js "<" then Some (lt a b)
  else if operator === js "<=" then Some (le a b)
  else if operator === js ">" then Some (lt b a)
  else if operator === js ">=" then Some (le b a)
  else None.

Definition compare_values (operator : jsstr) (a b : jsval) : option bool :=
  match a, b with
  | JNum x, JNum y => relation num_ltb num_leb operator x y
  | JStr x, JStr y => relation str_ltb (fun s t => negb (str_ltb t s)) operator x y
  | _, _ => None
  end.

Definition arithmetic_values (operator : jsstr) (pos : nat) (l r : RuntimeValue)
    : outcome ExpressionDiagnostic RuntimeValue :=
  match value l, value r with
  | JNum a, JNum b =>
      let integer := integer l && integer r in
      if operator === js "+" then Ret {| value := JNum (nadd a b); integer := integer |}
      else if operator === js "-" then Ret {| value := JNum (nsub a b); integer := integer |}
      else if operator === js "*" then Ret {| value := JNum (nmul a b); integer := integer |}
      else if operator === js "/" then Ret (plain (JNum (ndiv a b)))
      else if operator === js "%" then
        if negb integer then Throw (Diagnostic c_type (js "integer modulo") (Some pos))
        else Ret {| value := JNum (nrem a b); integer := true |}
      else Throw (Diagnostic c_unsupported operator (Some pos))
  | _, _ => Throw (Diagnostic c_type operator (Some pos))
  end.

Definition concat_values (operator : jsstr) (a b : jsval) : option jsstr :=
  match a, b with
  | JStr x, JStr y => if operator === js "+" then Some (x ++ y) else None
  | _, _ => None
  end.

(** The part of [binary] after both operands are evaluated. *)
Definition binary_values (operator : jsstr) (pos : nat) (l r : RuntimeValue)
    : outcome ExpressionDiagnostic RuntimeValue :=
  let a := value l in
  let b := value r in
  if (operator === js "==") || (operator === js "!=") then
    if negb (is_null a) && negb (is_null b) && (is_typeof_object a || is_typeof_object b) then
      Throw (Diagnostic c_unsupported (js "object comparison") (Some pos))
    else
      let equal := strict_eq a b in
      Ret (plain (JBool (if operator === js "==" then equal else negb equal)))
  else
    match concat_values operator a b with
    | Some s => Ret (plain (JStr s))
    | None =>
        match compare_values operator a b with
        | Some v => Ret (plain (JBool v))
        | None => arithmetic_values operator pos l r
        end
    end.

(** The check [evaluate] makes on every numeric result. *)
Definition check_number (node : ExpressionNode) (result : RuntimeValue)
    : outcome ExpressionDiagnostic RuntimeValue :=
  match value result with
  | JNum n =>
      if negb (is_finite n) then
        Throw (Diagnostic c_number (js "non-finite result") (Some (node_start node)))
      else if integer result && negb (is_safe_integer n) then
        Throw (Diagnostic c_unsupported (js "integer precision") (Some (node_start node)))
      else Ret result
  | _ => Ret result
  end.

(** [substring !== '' && billingString(source).includes(substring)] *)
Definition has_value (source : jsval) (substring : jsstr)
    : outcome ExpressionDiagnostic RuntimeValue :=
  if is_nullish source || negb (nonempty substring) then Ret (plain (JBool false))
  else let? text := billingString source 0 in Ret (plain (JBool (includes substring text))).

Definition literal_value (v : LiteralValue) : jsval :=
  match v with
  | LString s => JStr s
  | LNumber n => JNum n
  | LBoolean b => JBool b
  | LNull => JNull
  end.

(** Type tests of [boolean], [numeric] and [string] on an evaluated node. *)
Definition as_boolean (node : ExpressionNode) (r : RuntimeValue) : outcome ExpressionDiagnostic bool :=
  match value r with
  | JBool b => Ret b
  | _ => Throw (Diagnostic c_type (js "boolean condition") (Some (node_start node)))
  end.
Definition as_numeric (node : ExpressionNode) (r : RuntimeValue)
    : outcome ExpressionDiagnostic (num * bool) :=
  match value r with
  | JNum n => Ret (n, integer r)
  | _ => Throw (Diagnostic c_type (js "numeric operand") (Some (node_start node)))
  end.
Definition as_string (node : ExpressionNode) (r : RuntimeValue) : outcome ExpressionDiagnostic jsstr :=
  match value r with
  | JStr s => Ret s
  | _ => Throw (Diagnostic c_type (js "string argument") (Some (node_start node)))
  end.

(** [new Intl.DateTimeFormat('en-US', { timeZone, ... })]: the zone name it
    resolved to and its [formatToParts]. *)
Record DateTimeFormat := {
  resolved_zone : jsstr;
  formatToParts : Z -> list (jsstr * jsstr)
}.

Section Runtime.
(** The constructor for a zone name; [None] is a [RangeError]. *)
Variable new_formatter : jsstr -> option DateTimeFormat.
(** [new Date()] *)
Variable current_time : date.

Definition timeInBillingZone (now : date) (zone : jsstr)
    : outcome ExpressionDiagnostic BillingTime :=
  match now with
  | None => Throw (Diagnostic c_type (js "simulation time") None)
  | Some ms =>
      let timezone := if nonempty (trim zone) then trim zone else js "UTC" in
      if timezone === js "Local" then
        Throw (Diagnostic c_unsupported (js "server Local timezone") None)
      else if negb (zone_pattern timezone) then Ret (utc_time ms)
      else
        match new_formatter timezone with
        | None => Ret (utc_time ms)
        | Some formatter =>
            let resolved := resolved_zone formatter in
            if (to_lower resolved === to_lower timezone) && (resolved !== timezone)
            then Ret (utc_time ms)
            else Ret (parts_time (from_entries (formatToParts formatter ms)))
        end
  end.

Variable compiled : CompiledBillingExpression.
Variable context : BillingSimulationContext.
(** The header [Map] built by the constructor. *)
Variable header_map : list (jsstr * jsstr).

(** [this.now] *)
Definition runtime_now : date := match now context with Some d => d | None => current_time end.

Definition image_count_value (pos : nat) : outcome ExpressionDiagnostic RuntimeValue :=
  let v := default (num_of_Z 1) (imageCount context) in
  if negb (is_integer v) || num_ltb v (num_of_Z 1) || num_ltb (num_of_Z 128) v then
    Throw (Diagnostic c_number (js "image_count must be between 1 and 128") (Some pos))
  else Ret (plain (JNum v)).

Definition variable_value (name : jsstr) (pos : nat) : outcome ExpressionDiagnostic RuntimeValue :=
  if name === js "image_count" then image_count_value pos
  else
    match default JUndefined (ts ← tokens context; assoc ts name) with
    | JUndefined => Throw (Diagnostic c_missing_context name (Some pos))
    | JNum n =>
        if num_ltb n zero then Throw (Diagnostic c_number name (Some pos))
        else Ret (plain (JNum n))
    | _ => Throw (Diagnostic c_number name (Some pos))
    end.

Definition param_value (path : jsstr) (pos : nat) : outcome ExpressionDiagnostic RuntimeValue :=
  match request context with
  | None => Throw (Diagnostic c_missing_context (js "request body") (Some pos))
  | Some r => let? v := readRequestPath (body r) path in Ret (plain v)
  end.

Definition header_value (rawName : jsstr) (pos : nat) : outcome ExpressionDiagnostic RuntimeValue :=
  let name := to_lower (trim rawName) in
  match request context with
  | None => Throw (Diagnostic c_missing_context (js "request headers") (Some pos))
  | Some _ => Ret (plain (JStr (default [] (assoc header_map name))))
  end.

Definition usage_value (name : jsstr) (pos : nat) : outcome ExpressionDiagnostic RuntimeValue :=
  match usage context with
  | None => Throw (Diagnostic c_missing_context (js "task usage") (Some pos))
  | Some fields => Ret (plain (default JNull (assoc fields name)))
  end.

Section Node.
Variable evaluate : ExpressionNode -> action runtime ExpressionDiagnostic RuntimeValue.

Definition boolean (node : ExpressionNode) : action runtime ExpressionDiagnostic bool :=
  let! result := evaluate node in lift (as_boolean node result).
Definition numeric (node : ExpressionNode)
    : action runtime ExpressionDiagnostic (num * bool) :=
  let! result := evaluate node in lift (as_numeric node result).
Definition string_ (node : ExpressionNode) : action runtime ExpressionDiagnostic jsstr :=
  let! result := evaluate node in lift (as_string node result).

Definition binary (pos : nat) (operator : jsstr) (l r : ExpressionNode)
    : action runtime ExpressionDiagnostic RuntimeValue :=
  if operator === js "&&" then
    let! a := boolean l in
    if a then let! b := boolean r in ret (plain (JBool b)) else ret (plain (JBool false))
  else if operator === js "||" then
    let! a := boolean l in
    if a then ret (plain (JBool true)) else let! b := boolean r in ret (plain (JBool b))
  else
    let! a := evaluate l in
    let! b := evaluate r in
    lift (binary_values operator pos a b).

(** [timeValues.get(zone)], computed and stored on a miss. *)
Definition zone_values (zone : jsstr) : action runtime ExpressionDiagnostic BillingTime :=
  let! s := get in
  match assoc (timeValues s) zone with
  | Some values => ret values
  | None =>
      let! values := lift (timeInBillingZone runtime_now zone) in
      modify (fun s => set_times ((zone, values) :: timeValues s) s) ;;;
      ret values
  end.

Definition call (pos : nat) (name : jsstr) (args : list ExpressionNode)
    : action runtime ExpressionDiagnostic RuntimeValue :=
  match args with
  | [] => lift type_error
  | a :: rest =>
      if name === js "fixed" then
        let! ' (amount, _) := numeric a in
        modify (set_fixed amount) ;;;
        ret (plain (JNum (nmul amount ONE_MILLION)))
      else if name === js "param" then
        let! path := string_ a in lift (param_value path pos)
      else if name === js "header" then
        let! name := string_ a in lift (header_value name pos)
      else if name === js "u" then
        let! name := string_ a in lift (usage_value name pos)
      else if name === js "abs" then
        let! ' (x, _) := numeric a in ret (plain (JNum (nabs x)))
      else if name === js "floor" then
        let! ' (x, _) := numeric a in ret (plain (JNum (nfloor x)))
      else if name === js "ceil" then
        let! ' (x, _) := numeric a in ret (plain (JNum (nceil x)))
      else if includes_str [js "tier"; js "has"; js "min"; js "max"] name then
        match rest with
        | [] => lift type_error
        | b :: _ =>
            if name === js "tier" then
              let! label := string_ a in
              let! ' (v, _) := numeric b in
              modify (set_tier label) ;;;
              ret (plain (JNum v))
            else if name === js "has" then
              let! source := evaluate a in
              let! substring := string_ b in
              lift (has_value (value source) substring)
            else
              let! ' (x, _) := numeric a in
              let! ' (y, _) := numeric b in
              ret (plain (JNum (if name === js "min" then nmin x y else nmax x y)))
        end
      else if negb (includes_str TIME_FUNCTIONS name) then throw_ c_unsupported name
      else
        let! zone := string_ a in
        let! values := zone_values (trim zone) in
        ret {| value := JNum (time_value values name); integer := true |}
  end.

Definition evaluateNode (node : ExpressionNode)
    : action runtime ExpressionDiagnostic RuntimeValue :=
  match node with
  | Literal _ v i => ret {| value := literal_value v; integer := default false i |}
  | Variable_ _ name => lift (variable_value name (node_start node))
  | Conditional _ condition yes no =>
      let! b := boolean condition in
      match find_rule (requestRules compiled) node with
      | Some i =>
          modify (fun s => if b then set_rules (alter set_matched i (rt_requestRules s)) s else s)
      | None => ret tt
      end ;;;
      if b then evaluate yes else evaluate no
  | Unary _ operator operand =>
      if operator === js "!" then
        let! b := boolean operand in ret (plain (JBool (negb b)))
      else
        let! ' (x, i) := numeric operand in
        ret {| value := JNum (if operator === js "-" then nneg x else x); integer := i |}
  | Binary _ operator l r => binary (node_start node) operator l r
  | Call _ name args => call (node_start node) name args
  end.
End Node.

(** The depth is restored in the [finally] block; when the block runs because
    of an exception, the whole evaluation is abandoned with its state. *)
Fixpoint evaluate (node : ExpressionNode) : action runtime ExpressionDiagnostic RuntimeValue :=
  modify (fun s => set_eval_depth (depth s + 1) s) ;;;
  let! d := gets depth in
  if 256 <? d then throw_ c_limit (js "evaluation depth")
  else
    let! result := evaluateNode evaluate node in
    let! result := lift (check_number node result) in
    modify (fun s => set_eval_depth (depth s - 1) s) ;;;
    ret result.
End Runtime.

(** ** Entry points *)

Record BillingSuccess := {
  cost : num;
  res_billingUnit : BillingUnit;
  res_imageCount : option num;
  res_fixedPrice : option num;
  res_matchedTier : jsstr;
  res_requestRules : list BillingRequestRule
}.

Inductive BillingEvaluationResult :=
| Success (r : BillingSuccess)
| Failed_ (f : ExpressionFailure).

(** The constructor's initial fields. *)
Definition initial_rules (rules : list RequestRule) : list BillingRequestRule :=
  map (fun rule => {| rule_cond := rr_cond rule; rule_multiplier := rr_multiplier rule;
                      rule_matched := false |}) rules.

Definition initial_runtime (compiled : CompiledBillingExpression) : runtime :=
  {| rt_requestRules := initial_rules (requestRules compiled);
     matchedTier := []; billingUnit := unit_token; fixedPrice := None;
     timeValues := []; depth := 0 |}.

(** The validation of [context.tokens]. *)
Fixpoint check_tokens (fields : list (jsstr * jsval)) : outcome ExpressionDiagnostic unit :=
  match fields with
  | [] => Ret tt
  | (name, JNum n) :: fields' =>
      if negb (is_finite n) || num_ltb n zero then Throw (Diagnostic c_number name None)
      else check_tokens fields'
  | (name, _) :: _ => Throw (Diagnostic c_number name None)
  end.

Definition empty_context (at_time : date) : BillingSimulationContext :=
  {| imageCount := None; tokens := None; request := None; usage := None; now := Some at_time |}.

Section Entry.
Variable new_formatter : jsstr -> option DateTimeFormat.
Variable current_time : date.

(** [new BillingRuntime(compiled, context).evaluate(node)] with the final state. *)
Definition run (compiled : CompiledBillingExpression) (context : BillingSimulationContext)
    (node : ExpressionNode) : outcome ExpressionDiagnostic (RuntimeValue * runtime) :=
  let? header_map :=
    read_headers (default [] (r ← request context; headers r)) [] in
  evaluate new_formatter current_time compiled context header_map node
    (initial_runtime compiled).

Definition evaluateBillingCondition (compiled : CompiledBillingExpression)
    (node : ExpressionNode) (now : date) : option bool :=
  match run compiled (empty_context now) node with
  | Ret (result, _) => match value result with JBool b => Some b | _ => None end
  | _ => None
  end.

(** The [try] block of [evaluateBillingExpression]. *)
Definition evaluate_body (compiled : CompiledBillingExpression)
    (context : BillingSimulationContext) : outcome ExpressionDiagnostic BillingSuccess :=
  let? u := check_tokens (default [] (tokens context)) in
  let? final := run compiled context (ast compiled) in
  let '(result, rt) := final in
  match value result with
  | JNum n =>
      if negb (is_finite n) || num_ltb n zero then
        Throw (Diagnostic c_number (js "billing result") None)
      else
        Ret {| cost := n;
               res_billingUnit := billingUnit rt;
               res_imageCount :=
                 if includes_str (variables compiled) (js "image_count")
                 then Some (default (num_of_Z 1) (imageCount context)) else None;
               res_fixedPrice := fixedPrice rt;
               res_matchedTier := matchedTier rt;
               res_requestRules := rt_requestRules rt |}
  | _ => Throw (Diagnostic c_number (js "billing result") None)
  end.

(** On an already compiled expression. *)
Definition evaluate_compiled (compiled : CompiledBillingExpression)
    (context : BillingSimulationContext) : outcome no_error BillingEvaluationResult :=
  match evaluate_body compiled context with
  | Ret r => Ret (Success r)
  | Throw error => Ret (Failed_ (expressionFailure error))
  | OutOfFuel => OutOfFuel
  end.

(** On a source text; the compilation cache is the state. *)
Definition evaluateBillingExpression (expression : jsstr)
    (context : BillingSimulationContext) : action cache no_error BillingEvaluationResult :=
  let! compiled := compileBillingExpression expression in
  match compiled with
  | Failed f => ret (Failed_ f)
  | Ready c => lift (evaluate_compiled c context)
  end.
End Entry.

Definition sample_context : BillingSimulationContext :=
  {| imageCount := None;
     tokens := Some [(js "p", JNum (num_of_Z 1000)); (js "c", JNum (num_of_Z 500))];
     request := Some {| body := JObj [(js "model", JStr (js "x")); (js "n", JNum (num_of_Z 2))];
                        headers := None |};
     usage := None; now := Some (Some 1709210096000) |}.

Definition sample_run (src : jsstr) : outcome no_error (BillingEvaluationResult * cache) :=
  evaluateBillingExpression (fun _ => None) None src sample_context [].

Example run_tiers :
  match sample_run (js "tier('base', p * 2 + c * 4) * (param('n') == 2 ? 0.5 : 1)") with
  | Ret (Success r, _) => (cost r, res_matchedTier r, map rule_matched (res_requestRules r))
  | _ => (S754_nan, [], [])
  end = (num_of_Z 2000, js "base", [true]).
Proof. vm_compute. reflexivity. Qed.

(** ** Totality of the helpers *)

Lemma path_parts_total path n s part : (length s <= n)%nat -> path_parts path s part <> OutOfFuel.
Proof.
  revert s part. induction n as [|n IH]; intros s part Hn.
  { by destruct s; simpl in *; [|lia]. }
  destruct s as [|c s]; [done|]. cbn [path_parts]. simpl in Hn.
  destruct (c =? _)%N.
  { destruct s as [|c' s]; [done|]. apply IH. simpl in Hn. lia. }
  destruct (c =? _)%N; [apply obind_total; [apply IH; lia|done]|].
  destruct (includes_unit _ _); [done|]. apply IH. lia.
Qed.

Lemma read_parts_total path v parts : read_parts path v parts <> OutOfFuel.
Proof.
  revert v. induction parts as [|key parts IH]; intros v; cbn [read_parts]; [done|].
  destruct v; try done.
  - destruct ((key === js "#") && _); [done|]. destruct (key === js "#"); [done|].
    destruct (negb _); [done|]. apply IH.
  - destruct (own _ _); [apply IH|done].
Qed.

Lemma readRequestPath_total b path : readRequestPath b path <> OutOfFuel.
Proof.
  unfold readRequestPath. destruct (negb _); [done|].
  apply obind_total; [by eapply path_parts_total|]. intros. apply read_parts_total.
Qed.

Lemma sequence_total {E A} (os : list (outcome E A)) :
  Forall (fun o => o <> OutOfFuel) os -> sequence os <> OutOfFuel.
Proof.
  induction 1 as [|o os Ho _ IH]; cbn [sequence]; [done|].
  apply obind_total; [done|]. intros a _. by apply obind_total.
Qed.

Lemma insert_entry_perm {A} (kv : jsstr * A) l : insert_entry kv l ≡ₚ kv :: l.
Proof.
  induction l as [|kv' l IH]; cbn [insert_entry]; [done|].
  destruct (str_ltb _ _); [|done]. rewrite IH. apply Permutation_swap.
Qed.

Lemma sort_entries_perm {A} (l : list (jsstr * A)) : sort_entries l ≡ₚ l.
Proof.
  unfold sort_entries. induction l as [|kv l IH]; cbn [fold_right]; [done|].
  by rewrite insert_entry_perm, IH.
Qed.

Lemma billing_number_total n : billing_number n <> OutOfFuel.
Proof.
  unfold billing_number. destruct (negb _); [done|].
  destruct n as [[]| | |]; try destruct (exponential_parts _); try (by destruct (_ || _)); done.
Qed.

Lemma billingString_total v d : billingString v d <> OutOfFuel.
Proof.
  revert d. induction v as [| | | | |items IH|fields IH] using jsval_ind'; intros d;
    cbn [billingString]; (destruct (128 <? d); [done|]); try done.
  - apply billing_number_total.
  - apply obind_total; [|done]. apply sequence_total. apply Forall_map.
    eapply Forall_impl; [exact IH|]. intros x Hx. apply Hx.
  - apply obind_total; [|done]. apply sequence_total. apply Forall_map.
    rewrite sort_entries_perm. apply Forall_map.
    eapply Forall_impl; [exact IH|]. intros x Hx. simpl. by apply obind_total.
Qed.

Lemma timeInBillingZone_total fmt t zone : timeInBillingZone fmt t zone <> OutOfFuel.
Proof. unfold timeInBillingZone. total. Qed.

Lemma variable_value_total ctx x pos : variable_value ctx x pos <> OutOfFuel.
Proof. unfold variable_value, image_count_value. total. Qed.

Lemma param_value_total ctx path pos : param_value ctx path pos <> OutOfFuel.
Proof. unfold param_value. pose proof readRequestPath_total. total. Qed.

Lemma header_value_total ctx hs path pos : header_value ctx hs path pos <> OutOfFuel.
Proof. unfold header_value. total. Qed.

Lemma usage_value_total ctx path pos : usage_value ctx path pos <> OutOfFuel.
Proof. unfold usage_value. total. Qed.

Lemma has_value_total v t : has_value v t <> OutOfFuel.
Proof. unfold has_value. pose proof billingString_total. total. Qed.

Lemma binary_values_total op pos l r : binary_values op pos l r <> OutOfFuel.
Proof. unfold binary_values, arithmetic_values. total. Qed.

Lemma as_boolean_total n r : as_boolean n r <> OutOfFuel.
Proof. unfold as_boolean. total. Qed.
Lemma as_numeric_total n r : as_numeric n r <> OutOfFuel.
Proof. unfold as_numeric. total. Qed.
Lemma as_string_total n r : as_string n r <> OutOfFuel.
Proof. unfold as_string. total. Qed.
Lemma check_number_total n r : check_number n r <> OutOfFuel.
Proof. unfold check_number. total. Qed.

#[export] Hint Resolve timeInBillingZone_total variable_value_total param_value_total
  header_value_total usage_value_total has_value_total binary_values_total
  as_boolean_total as_numeric_total as_string_total check_number_total : total.

(** ** Reference semantics

    The value of a node without any state: no depth, no memo table, no effects.
    The operations on values are those of the evaluator. *)
Section Semantics.
Variable new_formatter : jsstr -> option DateTimeFormat.
Variable current_time : date.
Variable context : BillingSimulationContext.
Variable header_map : list (jsstr * jsstr).

Definition number_result (n : num) : RuntimeValue := plain (JNum n).

Definition call_value (value_of : ExpressionNode -> outcome ExpressionDiagnostic RuntimeValue)
    (pos : nat) (name : jsstr) (args : list ExpressionNode)
    : outcome ExpressionDiagnostic RuntimeValue :=
  let numeric a := let? r := value_of a in as_numeric a r in
  let text a := let? r := value_of a in as_string a r in
  match args with
  | [] => type_error
  | a :: rest =>
      if name === js "fixed" then
        let? x := numeric a in Ret (number_result (nmul x.1 ONE_MILLION))
      else if name === js "param" then let? path := text a in param_value context path pos
      else if name === js "header" then
        let? name := text a in header_value context header_map name pos
      else if name === js "u" then let? name := text a in usage_value context name pos
      else if name === js "abs" then let? x := numeric a in Ret (number_result (nabs x.1))
      else if name === js "floor" then let? x := numeric a in Ret (number_result (nfloor x.1))
      else if name === js "ceil" then let? x := numeric a in Ret (number_result (nceil x.1))
      else if includes_str [js "tier"; js "has"; js "min"; js "max"] name then
        match rest with
        | [] => type_error
        | b :: _ =>
            if name === js "tier" then
              let? label := text a in let? x := numeric b in Ret (number_result x.1)
            else if name === js "has" then
              let? r := value_of a in let? sub := text b in has_value (value r) sub
            else
              let? x := numeric a in
              let? y := numeric b in
              Ret (number_result (if name === js "min" then nmin x.1 y.1 else nmax x.1 y.1))
        end
      else if negb (includes_str TIME_FUNCTIONS name) then
        Throw (Diagnostic c_unsupported name None)
      else
        let? zone := text a in
        let? times := timeInBillingZone new_formatter (runtime_now current_time context)
                        (trim zone) in
        Ret {| value := JNum (time_value times name); integer := true |}
  end.

Definition node_value (value_of : ExpressionNode -> outcome ExpressionDiagnostic RuntimeValue)
    (node : ExpressionNode) : outcome ExpressionDiagnostic RuntimeValue :=
  let truth a := let? r := value_of a in as_boolean a r in
  let numeric a := let? r := value_of a in as_numeric a r in
  match node with
  | Literal _ v i => Ret {| value := literal_value v; integer := default false i |}
  | Variable_ _ x => variable_value context x (node_start node)
  | Conditional _ c yes no =>
      let? b := truth c in if b then value_of yes else value_of no
  | Unary _ op a =>
      if op === js "!" then let? b := truth a in Ret (plain (JBool (negb b)))
      else
        let? x := numeric a in
        Ret {| value := JNum (if op === js "-" then nneg x.1 else x.1); integer := x.2 |}
  | Binary _ op l r =>
      if op === js "&&" then
        let? a := truth l in
        if a then let? b := truth r in Ret (plain (JBool b)) else Ret (plain (JBool false))
      else if op === js "||" then
        let? a := truth l in
        if a then Ret (plain (JBool true)) else let? b := truth r in Ret (plain (JBool b))
      else
        let? a := value_of l in
        let? b := value_of r in
        binary_values op (node_start node) a b
  | Call _ f args => call_value value_of (node_start node) f args
  end.

Fixpoint value_of (node : ExpressionNode) : outcome ExpressionDiagnostic RuntimeValue :=
  let? r := node_value value_of node in check_number node r.

Lemma value_of_eq node :
  value_of node = (let? r := node_value value_of node in check_number node r).
Proof. by destruct node. Qed.
End Semantics.

(** ** The evaluator refines the reference semantics *)

Definition depth_diagnostic : ExpressionDiagnostic :=
  Diagnostic c_limit (js "evaluation depth") None.

Section Refinement.
Variable new_formatter : jsstr -> option DateTimeFormat.
Variable current_time : date.
Variable compiled : CompiledBillingExpression.
Variable context : BillingSimulationContext.
Variable header_map : list (jsstr * jsstr).

Local Abbreviation eval := (evaluate new_formatter current_time compiled context header_map).
Local Abbreviation val := (value_of new_formatter current_time context header_map).
Local Abbreviation tree := (postorder (ast compiled)).

(** A request rule's condition evaluates to true. *)
Definition rule_holds (i : nat) : Prop :=
  exists rule r, requestRules compiled !! i = Some rule
    /\ val (rr_condition rule) = Ret r /\ value r = JBool true.

(** A tier name, or a fixed price, that a call of the tree gives. *)
Definition names_tier (name : jsstr) : Prop :=
  exists sp label price r, Call sp (js "tier") (label :: price) ∈ tree
    /\ val label = Ret r /\ value r = JStr name.
Definition gives_price (amount : num) : Prop :=
  exists sp arg rest r, Call sp (js "fixed") (arg :: rest) ∈ tree
    /\ val arg = Ret r /\ value r = JNum amount.

Definition same_rule (a b : BillingRequestRule) : Prop :=
  rule_cond a = rule_cond b /\ rule_multiplier a = rule_multiplier b.

(** What holds of the fields throughout an evaluation. *)
Record inv (s : runtime) : Prop := {
  inv_times : forall zone t, assoc (timeValues s) zone = Some t ->
    timeInBillingZone new_formatter (runtime_now current_time context) zone = Ret t;
  inv_rules : Forall2 same_rule (rt_requestRules s) (initial_rules (requestRules compiled));
  inv_matched : forall i rule, rt_requestRules s !! i = Some rule ->
    rule_matched rule = true -> rule_holds i;
  inv_tier : matchedTier s = [] \/ names_tier (matchedTier s);
  inv_price : (billingUnit s = unit_token /\ fixedPrice s = None)
    \/ exists a, billingUnit s = unit_request /\ fixedPrice s = Some a /\ gives_price a
}.

(** [sim L d m o]: started in a good state at depth [d], [m] has the outcome of
    [o] and restores the depth; only when [L] it may hit the depth limit. *)
Definition sim {A} (L : Prop) (d : Z) (m : action runtime ExpressionDiagnostic A)
    (o : outcome ExpressionDiagnostic A) : Prop :=
  forall s, inv s -> depth s = d ->
    match m s with
    | Ret (a, s') => o = Ret a /\ inv s' /\ depth s' = d
    | Throw e => o = Throw e \/ (L /\ e = depth_diagnostic)
    | OutOfFuel => False
    end.

Lemma sim_ret {A} L d (a : A) : sim L d (ret a) (Ret a).
Proof. by intros s Hs Hd. Qed.

Lemma sim_lift {A} L d (o : outcome ExpressionDiagnostic A) :
  o <> OutOfFuel -> sim L d (lift o) o.
Proof. intros Ho s Hs Hd. unfold lift. destruct o; auto. Qed.

Lemma sim_throw {A} L d e : sim L d (@throw _ _ A e) (Throw e).
Proof. intros s Hs Hd. by left. Qed.

Lemma sim_bind {A B} L d m o (k : A -> action runtime ExpressionDiagnostic B) k' :
  sim L d m o -> (forall a, o = Ret a -> sim L d (k a) (k' a)) ->
  sim L d (bind m k) (obind o k').
Proof.
  intros Hm Hk s Hs Hd. specialize (Hm s Hs Hd). unfold bind.
  destruct (m s) as [[a s']|e|]; [|destruct Hm as [-> | [? ->]]; auto|done].
  destruct Hm as (-> & Hs' & Hd'). by apply (Hk a eq_refl).
Qed.

(** A state update in front changes nothing of the outcome. *)
Lemma sim_modify {A} L d f (k : action runtime ExpressionDiagnostic A) o :
  (forall s, inv s -> inv (f s) /\ depth (f s) = depth s) ->
  sim L d k o -> sim L d (modify f ;;; k) o.
Proof.
  intros Hf Hk s Hs Hd. destruct (Hf s Hs) as [Hs' Hd']. apply Hk; [done|congruence].
Qed.

Lemma inv_depth s d : inv s -> inv (set_eval_depth d s).
Proof. intros [????]. by constructor. Qed.

Lemma inv_set_tier s name : inv s -> names_tier name -> inv (set_tier name s).
Proof. intros [????] ?. constructor; simpl; eauto. Qed.

Lemma inv_set_fixed s a : inv s -> gives_price a -> inv (set_fixed a s).
Proof. intros [????] ?. constructor; simpl; eauto 6. Qed.

Lemma inv_set_times s zone t :
  inv s -> timeInBillingZone new_formatter (runtime_now current_time context) zone = Ret t ->
  inv (set_times ((zone, t) :: timeValues s) s).
Proof.
  intros [Ht ????] Hz. constructor; simpl; try done.
  intros zone' t'. rewrite assoc_cons.
  destruct (str_eqb_spec zone zone') as [->|]; [by intros [= ->]|apply Ht].
Qed.

Lemma inv_set_matched s i : inv s -> rule_holds i ->
  inv (set_rules (alter set_matched i (rt_requestRules s)) s).
Proof.
  intros [Ht Hr Hm ??] Hi. constructor; simpl; try done.
  - rewrite <- (list_alter_id id (initial_rules (requestRules compiled)) i) by done.
    apply Forall2_alter; [done|]. by intros x y ?? [].
  - intros j rule Hj Hmt. destruct (decide (i = j)) as [<-|Hne]; [done|].
    rewrite list_lookup_alter_ne in Hj by done. eauto.
Qed.

(** *** Nodes *)

Section SimNode.
Context (L : Prop) (d : Z) (node : ExpressionNode).
Hypothesis in_tree : node ∈ tree.
Hypothesis sim_child : forall c, c ∈ children node -> sim L d (eval c) (val c).
(** The compiler's rules: a rule that is found for a node is that node's. *)
Hypothesis rules_ok : forall i sp c yes no, node = Conditional sp c yes no ->
  find_rule (requestRules compiled) node = Some i ->
  exists rule, requestRules compiled !! i = Some rule /\ rr_condition rule = c.

Lemma sim_as {A} (f : ExpressionNode -> RuntimeValue -> outcome ExpressionDiagnostic A) c :
  (forall r, f c r <> OutOfFuel) -> c ∈ children node ->
  sim L d (let! r := eval c in lift (f c r)) (let? r := val c in f c r).
Proof.
  intros Hf Hc. apply sim_bind; [by apply sim_child|]. intros r _. by apply sim_lift.
Qed.

Lemma sim_boolean c : c ∈ children node ->
  sim L d (boolean eval c) (let? r := val c in as_boolean c r).
Proof. apply sim_as. eauto with total. Qed.
Lemma sim_numeric c : c ∈ children node ->
  sim L d (numeric eval c) (let? r := val c in as_numeric c r).
Proof. apply sim_as. eauto with total. Qed.
Lemma sim_string c : c ∈ children node ->
  sim L d (string_ eval c) (let? r := val c in as_string c r).
Proof. apply sim_as. eauto with total. Qed.

Lemma sim_zone_values zone :
  sim L d (zone_values new_formatter current_time context zone)
    (timeInBillingZone new_formatter (runtime_now current_time context) zone).
Proof.
  intros s Hs Hd. unfold zone_values, bind, get, lift, modify.
  destruct (assoc (timeValues s) zone) as [t|] eqn:Ht; simpl.
  - split_and!; [by eapply inv_times|done|done].
  - pose proof (timeInBillingZone_total new_formatter (runtime_now current_time context) zone).
    destruct (timeInBillingZone _ _ zone) as [t|e|] eqn:Hz; simpl; [|by left|done].
    split_and!; [done| |done]. by apply inv_set_times.
Qed.

(** Follow the structure of the two programs. *)
Ltac sim :=
  repeat first
    [ apply sim_ret
    | apply sim_throw
    | apply sim_lift; solve [eauto with total | discriminate]
    | solve [eauto 3]
    | apply sim_bind; [|intros ? ?]
    | progress case_match ].

Lemma sim_binary sp op l r : node = Binary sp op l r ->
  sim L d (evaluateNode new_formatter current_time compiled context header_map eval node)
    (node_value new_formatter current_time context header_map val node).
Proof.
  intros Hn. assert (Hl : l ∈ children node) by (rewrite Hn; set_solver).
  assert (Hr : r ∈ children node) by (rewrite Hn; set_solver).
  pose proof (sim_boolean l Hl). pose proof (sim_boolean r Hr).
  pose proof (sim_child l Hl). pose proof (sim_child r Hr).
  rewrite Hn. cbn [evaluateNode node_value]. unfold binary. sim.
Qed.

Lemma names_tier_of sp a rest r name : node = Call sp (js "tier") (a :: rest) ->
  val a = Ret r -> as_string a r = Ret name -> names_tier name.
Proof.
  intros Hn Ha Hs. exists sp, a, rest, r. split_and!; [by rewrite <- Hn|done|].
  unfold as_string in Hs. destruct (value r); congruence.
Qed.

Lemma gives_price_of sp a rest r x : node = Call sp (js "fixed") (a :: rest) ->
  val a = Ret r -> as_numeric a r = Ret x -> gives_price x.1.
Proof.
  intros Hn Ha Hs. exists sp, a, rest, r. split_and!; [by rewrite <- Hn|done|].
  unfold as_numeric in Hs. destruct (value r); simplify_eq; done.
Qed.

Lemma sim_call sp f args : node = Call sp f args ->
  sim L d (call new_formatter current_time context header_map eval (node_start node) f args)
    (call_value new_formatter current_time context header_map val (node_start node) f args).
Proof.
  intros Hn. assert (Hc : forall a, a ∈ args -> a ∈ children node) by by rewrite Hn.
  unfold call, call_value. destruct args as [|a rest]; [apply sim_lift; done|].
  pose proof (sim_string a ltac:(set_solver)) as Hsa.
  pose proof (sim_numeric a ltac:(set_solver)) as Hna.
  pose proof (sim_child a ltac:(set_solver)) as Hea.
  destruct (str_eqb_spec f (js "fixed")) as [->|_].
  { apply sim_bind; [done|]. intros [x i] Hx. act_inv. simpl.
    apply sim_modify; [|apply sim_ret]. intros s Hs. split; [|done].
    apply inv_set_fixed; [done|]. by eapply (gives_price_of _ _ _ _ (x, i)). }
  do 6 (case_match; [sim|]). clear Hea.
  destruct (includes_str [js "tier"; _; _; _] f); [|].
  - destruct rest as [|b rest]; [by apply sim_lift|].
    pose proof (sim_string b ltac:(set_solver)) as Hsb.
    pose proof (sim_numeric b ltac:(set_solver)) as Hnb.
    pose proof (sim_child a ltac:(set_solver)) as Hea.
    destruct (str_eqb_spec f (js "tier")) as [->|_]; [|sim].
    apply sim_bind; [done|]. intros label Hlabel. apply sim_bind; [done|]. intros [x i] Hx.
    simpl. act_inv. apply sim_modify; [|apply sim_ret]. intros s Hs. split; [|done].
    apply inv_set_tier; [done|]. by eapply names_tier_of.
  - destruct (negb _); [apply sim_throw|]. apply sim_bind; [done|]. intros zone _.
    apply sim_bind; [apply sim_zone_values|]. intros t _. apply sim_ret.
Qed.

Lemma sim_conditional sp c yes no : node = Conditional sp c yes no ->
  sim L d (evaluateNode new_formatter current_time compiled context header_map eval node)
    (node_value new_formatter current_time context header_map val node).
Proof.
  intros Hn. assert (Hc : forall a, a ∈ [c; yes; no] -> a ∈ children node) by by rewrite Hn.
  pose proof (sim_boolean c ltac:(set_solver)).
  pose proof (sim_child yes ltac:(set_solver)). pose proof (sim_child no ltac:(set_solver)).
  pose proof (rules_ok) as Hrules. rewrite Hn. cbn [evaluateNode node_value].
  apply sim_bind; [done|]. intros b Hb. act_inv. rewrite <- Hn.
  destruct (find_rule _ node) as [i|] eqn:Hi.
  - apply sim_modify; [|by destruct b]. intros s Hs. destruct b; [|done].
    split; [|done]. apply inv_set_matched; [done|].
    destruct (Hrules i _ _ _ _ Hn eq_refl) as (rule & Hrule & <-).
    eexists rule, _. split_and!; [done..|].
    match goal with H : as_boolean _ ?r = _ |- _ =>
      unfold as_boolean in H; destruct (value r); congruence end.
  - by destruct b.
Qed.

Lemma sim_node :
  sim L d (evaluateNode new_formatter current_time compiled context header_map eval node)
    (node_value new_formatter current_time context header_map val node).
Proof.
  case_eq node; [intros sp v i Hn|intros sp x Hn|intros sp f args Hn|intros sp op a Hn
    |intros sp op l r Hn|intros sp c yes no Hn]; rewrite <- Hn.
  - rewrite Hn. apply sim_ret.
  - rewrite Hn. apply sim_lift. eauto with total.
  - rewrite Hn. cbn [evaluateNode node_value]. rewrite <- Hn. by eapply sim_call.
  - pose proof (sim_boolean a ltac:(rewrite Hn; set_solver)).
    pose proof (sim_numeric a ltac:(rewrite Hn; set_solver)).
    rewrite Hn. cbn [evaluateNode node_value]. destruct (op === js "!"); [sim|].
    apply sim_bind; [done|]. intros [x i] _. apply sim_ret.
  - by eapply sim_binary.
  - by eapply sim_conditional.
Qed.
End SimNode.

(** *** The whole evaluator *)

Lemma evaluate_eq node s :
  eval node s =
    (modify (fun s => set_eval_depth (depth s + 1) s) ;;;
     let! d := gets depth in
     if 256 <? d then throw_ c_limit (js "evaluation depth")
     else
       let! result := evaluateNode new_formatter current_time compiled context header_map eval node in
       let! result := lift (check_number node result) in
       modify (fun s => set_eval_depth (depth s - 1) s) ;;;
       ret result) s.
Proof. by destruct node. Qed.

(** The rule a conditional of the tree finds is its own. *)
Definition rules_aligned : Prop := forall i sp c yes no,
  Conditional sp c yes no ∈ tree ->
  find_rule (requestRules compiled) (Conditional sp c yes no) = Some i ->
  exists rule, requestRules compiled !! i = Some rule /\ rr_condition rule = c.

Lemma tree_children n c : n ∈ tree -> c ∈ children n -> c ∈ tree.
Proof. apply postorder_closed. Qed.

Lemma evaluate_sim node d : rules_aligned -> node ∈ tree ->
  sim (256 < d + 1 + node_depth node) d (eval node) (val node).
Proof.
  intros Hrules. revert d. induction node as [node IH] using ExpressionNode_children_ind.
  intros d Hin s Hs Hd. rewrite evaluate_eq, value_of_eq. unfold bind, modify, gets. simpl.
  rewrite Hd. destruct (Z.ltb_spec 256 (d + 1)) as [Hlt|Hle].
  { right. split; [|done]. pose proof (node_depth_nonneg node). lia. }
  assert (Hnode : sim (256 < d + 1 + node_depth node) (d + 1)
    (evaluateNode new_formatter current_time compiled context header_map eval node)
    (node_value new_formatter current_time context header_map val node)).
  { apply sim_node; [done| |].
    - intros c Hc s' Hs' Hd'. rewrite Forall_forall in IH.
      specialize (IH c Hc (d + 1) (tree_children _ _ Hin Hc) s' Hs' Hd').
      pose proof (node_depth_children node c Hc).
      destruct (eval c s') as [[? ?]|?|]; try done. destruct IH as [|[? ?]]; [by left|].
      right. split; [lia|done].
    - intros i sp c yes no -> Hi. by eapply Hrules. }
  specialize (Hnode (set_eval_depth (d + 1) s) (inv_depth _ _ Hs) eq_refl).
  destruct (evaluateNode _ _ _ _ _ eval node _) as [[r s']|e|]; [|destruct Hnode as [->|]; auto|done].
  destruct Hnode as (-> & Hs' & Hd'). simpl. unfold lift.
  pose proof (check_number_total node r). destruct (check_number node r); [|by left|done].
  unfold ret. split_and!; [done|by apply inv_depth|simpl; lia].
Qed.
End Refinement.

(** ** From compiled expressions to results *)

Lemma find_rule_spec rules node i : find_rule rules node = Some i ->
  exists rule, rules !! i = Some rule /\ node_span (rr_node rule) = node_span node.
Proof.
  revert i. induction rules as [|rule rules IH]; intros i; cbn [find_rule]; [done|].
  unfold same_node. case_bool_decide; [intros [= <-]; by exists rule|].
  destruct (find_rule rules node) as [j|]; [|done]. intros [= <-]. by apply IH.
Qed.

Lemma rule_of_spec src n rule : rule ∈ rule_of src n ->
  rr_node rule = n /\ exists sp yes no, n = Conditional sp (rr_condition rule) yes no.
Proof.
  unfold rule_of. destruct n as [| | | | |sp c a b]; try (by intros ?%elem_of_nil).
  destruct a as [? [|m| |] ?| | | | |]; try (by intros ?%elem_of_nil).
  destruct b as [? [|one| |] ?| | | | |]; try (by intros ?%elem_of_nil).
  destruct (_ && _); [|by intros ?%elem_of_nil].
  intros ->%list_elem_of_singleton. simpl. eauto.
Qed.

Lemma NoDup_map_inj {A B} (f : A -> B) l x y :
  NoDup (map f l) -> x ∈ l -> y ∈ l -> f x = f y -> x = y.
Proof.
  induction l as [|a l IH]; simpl; intros Hnd Hx Hy Hf; [set_solver|].
  inversion_clear Hnd as [|? ? Hna Hnd'].
  assert (Hin : forall z, z ∈ l -> f z ∈ map f l)
    by (intros z Hz; apply list_elem_of_In, in_map, list_elem_of_In, Hz).
  apply elem_of_cons in Hx as [->|Hx], Hy as [->|Hy]; auto.
  - destruct Hna. rewrite Hf. auto.
  - destruct Hna. rewrite <- Hf. auto.
Qed.

Lemma compiled_rules_aligned src c : compiled_ok src c -> rules_aligned c.
Proof.
  intros Hok i sp cond yes no Hin Hfind.
  apply find_rule_spec in Hfind as (rule & Hrule & Hspan). exists rule. split; [done|].
  assert (Hmem : rule ∈ requestRules c) by by eapply list_elem_of_lookup_2.
  rewrite (co_rules _ _ Hok) in Hmem.
  apply list_elem_of_In, in_flat_map in Hmem as (n & Hn & Hr).
  apply list_elem_of_In in Hn, Hr. apply rule_of_spec in Hr as [Hnode (sp' & y & z & Heq)].
  pose proof (NoDup_map_inj node_span _ _ _ (wf_spans_NoDup _ (co_wf _ _ Hok)) Hn Hin) as Hinj.
  rewrite Hnode in Hspan. specialize (Hinj Hspan). congruence.
Qed.

Section Results.
Variable new_formatter : jsstr -> option DateTimeFormat.
Variable current_time : date.

(** The value of a node in a context, headers included. *)
Definition context_value (context : BillingSimulationContext) (node : ExpressionNode)
    : outcome ExpressionDiagnostic RuntimeValue :=
  let? header_map := read_headers (default [] (r ← request context; headers r)) [] in
  value_of new_formatter current_time context header_map node.

(** What a successful result promises. *)
Record success_ok (compiled : CompiledBillingExpression) (context : BillingSimulationContext)
    (header_map : list (jsstr * jsstr)) (r : BillingSuccess) : Prop := {
  so_cost : exists v, value_of new_formatter current_time context header_map (ast compiled) = Ret v
    /\ value v = JNum (cost r);
  so_finite : is_finite (cost r) = true /\ num_ltb (cost r) zero = false;
  so_rules : Forall2 same_rule (res_requestRules r) (initial_rules (requestRules compiled));
  so_matched : forall i rule, res_requestRules r !! i = Some rule -> rule_matched rule = true ->
    rule_holds new_formatter current_time compiled context header_map i;
  so_tier : res_matchedTier r = []
    \/ names_tier new_formatter current_time compiled context header_map (res_matchedTier r);
  so_price : (res_billingUnit r = unit_token /\ res_fixedPrice r = None)
    \/ exists a, res_billingUnit r = unit_request /\ res_fixedPrice r = Some a
         /\ gives_price new_formatter current_time compiled context header_map a;
  so_images : res_imageCount r <> None <-> exists sp, Variable_ sp (js "image_count") ∈ postorder (ast compiled)
}.

Lemma read_headers_total fields m : read_headers fields m <> OutOfFuel.
Proof.
  revert m. induction fields as [|[name v] fields IH]; intros m; cbn [read_headers]; [done|].
  destruct v; done || apply IH.
Qed.

Lemma check_tokens_total fields : check_tokens fields <> OutOfFuel.
Proof.
  induction fields as [|[name v] fields IH]; cbn [check_tokens]; [done|].
  destruct v; try done. by destruct (_ || _).
Qed.

Lemma initial_inv compiled context hm :
  inv new_formatter current_time compiled context hm (initial_runtime compiled).
Proof.
  constructor; simpl.
  - done.
  - induction (requestRules compiled); simpl; constructor; done.
  - intros i rule Hi Hm. exfalso. revert i Hi.
    induction (requestRules compiled) as [|r rs IH]; intros [|i] Hi; simpl in Hi; try done.
    + by injection Hi as <-.
    + by apply (IH i).
  - by left.
  - by left.
Qed.

Lemma run_sim src compiled context node :
  compiled_ok src compiled -> node ∈ postorder (ast compiled) ->
  match run new_formatter current_time compiled context node with
  | Ret (r, rt) => exists hm,
      read_headers (default [] (r ← request context; headers r)) [] = Ret hm
      /\ value_of new_formatter current_time context hm node = Ret r
      /\ inv new_formatter current_time compiled context hm rt /\ depth rt = 0
  | Throw e => context_value context node = Throw e
      \/ (255 < node_depth node /\ e = depth_diagnostic)
  | OutOfFuel => False
  end.
Proof.
  intros Hok Hin. unfold run, context_value.
  pose proof (read_headers_total (default [] (r ← request context; headers r)) []) as Ht.
  destruct (read_headers _ _) as [hm|e|]; simpl; [|by left|done].
  pose proof (evaluate_sim new_formatter current_time compiled context hm node 0
    (compiled_rules_aligned _ _ Hok) Hin (initial_runtime compiled)
    (initial_inv compiled context hm) eq_refl) as Hs.
  destruct (evaluate _ _ _ _ _ node _) as [[r rt]|e|]; [|destruct Hs as [Hs|[? ?]]|done].
  - destruct Hs as (? & ? & ?). by exists hm.
  - by left.
  - right. split; [lia|done].
Qed.
End Results.

(** ** Static types and values *)

(** What a value of a static type can be.  A tree whose parts all have a known
    type ([strict]) computes numbers where the checker says so. *)
Definition has_type (strict : bool) (v : jsval) (t : ExpressionType) : Prop :=
  match t with
  | t_number => (exists n, v = JNum n /\ is_finite n = true) \/ (strict = false /\ exists s, v = JStr s)
  | t_string => exists s, v = JStr s
  | t_boolean => exists b, v = JBool b
  | t_nil => v = JNull
  | t_dynamic => True
  end.

Lemma check_number_Ret node r r' : check_number node r = Ret r' ->
  r' = r /\ forall n, value r = JNum n ->
    is_finite n = true /\ (integer r = true -> is_safe_integer n = true).
Proof.
  unfold check_number. intros H. destruct (value r) as [| | |n| | |] eqn:Hv;
    try (injection H as <-; split; [done|]; congruence).
  destruct (is_finite n) eqn:Hf; cbn [negb] in H; [|done].
  destruct (integer r && negb (is_safe_integer n)) eqn:Hs; [done|]. simplify_eq.
  split; [done|]. intros m Hm. replace m with n by congruence. split; [done|]. intros Hi.
  rewrite Hi in Hs. by destruct (is_safe_integer n).
Qed.

Section Soundness.
Variable new_formatter : jsstr -> option DateTimeFormat.
Variable current_time : date.
Variable context : BillingSimulationContext.
Variable header_map : list (jsstr * jsstr).

Local Abbreviation val := (value_of new_formatter current_time context header_map).

(** The shape a node's own rule gives its value, before the finiteness check. *)
Definition shape (strict : bool) (v : jsval) (t : ExpressionType) : Prop :=
  match t with
  | t_number => (exists n, v = JNum n) \/ (strict = false /\ exists s, v = JStr s)
  | _ => has_type strict v t
  end.

Lemma shape_checked strict node r r' t :
  shape strict (value r) t -> check_number node r = Ret r' -> has_type strict (value r') t.
Proof.
  intros Hs Hc. apply check_number_Ret in Hc as [-> Hfin].
  destruct t; try done. destruct Hs as [[n Hn]|Hs]; [left|by right].
  exists n. split; [done|]. by apply Hfin.
Qed.

Lemma call_shape strict pos f args r t (lk : ExpressionNode -> option ExpressionType) :
  call_value new_formatter current_time context header_map val pos f args = Ret r ->
  call_type lk f args = Ret t -> shape strict (value r) t.
Proof.
  unfold call_value, call_type. intros Hv Ht. destruct args as [|a rest]; [done|].
  act_inv. clear H.
  destruct (str_eqb_spec f (js "header")) as [->|Hheader].
  { simplify_eq. js_literals Hv. act_inv. unfold header_value in Hv.
    destruct (request context); simplify_eq. simpl. eauto. }
  destruct (str_eqb_spec f (js "has")) as [->|Hhas].
  { act_inv. simplify_eq. js_literals Hv. act_inv. unfold has_value in Hv.
    destruct rest; [done|]. act_inv.
    case_match; act_inv; simplify_eq; simpl; eauto. }
  destruct (str_eqb_spec f (js "tier")) as [->|Htier].
  { act_inv. simplify_eq. js_literals Hv. destruct rest; [done|]. act_inv. simplify_eq. left. eexists. done. }
  destruct (includes_str TIME_FUNCTIONS f) eqn:Htime.
  { apply includes_str_spec in Htime. simplify_eq.
    repeat (apply elem_of_cons in Htime as [->|Htime]; [js_literals Hv; act_inv; simplify_eq; left; eexists; done|]).
    by apply elem_of_nil in Htime. }
  destruct (includes_str [js "fixed"; _; _; _; _; _] f) eqn:Hnum; [|by simplify_eq].
  act_inv. simplify_eq. apply includes_str_spec in Hnum.
  repeat (apply elem_of_cons in Hnum as [->|Hnum];
    [js_literals Hv; try (destruct rest; [done|]); act_inv; simplify_eq; left; eexists; done|]).
  by apply elem_of_nil in Hnum.
Qed.

Lemma arithmetic_number op pos l r v : arithmetic_values op pos l r = Ret v -> exists n, value v = JNum n.
Proof.
  unfold arithmetic_values. intros H. repeat (case_match; try done); simplify_eq; simpl; eauto.
Qed.

Definition RELATIONS : list jsstr := [js "=="; js "!="; js "<"; js "<="; js ">"; js ">="].

Lemma relation_none {A} (lt le : A -> A -> bool) op a b :
  includes_str RELATIONS op = false -> relation lt le op a b = None.
Proof.
  intros Hop%includes_str_false.
  assert (Hne : forall x, x ∈ RELATIONS -> (op === x) = false)
    by (intros x Hx; apply str_eqb_neq; by intros ->).
  unfold relation. by rewrite !Hne by (unfold RELATIONS; set_solver).
Qed.

Lemma compare_none op a b : includes_str RELATIONS op = false -> compare_values op a b = None.
Proof. intros Hop. destruct a, b; try done; by apply relation_none. Qed.

Lemma arithmetic_no_relation op pos l r v :
  includes_str RELATIONS op = true -> arithmetic_values op pos l r <> Ret v.
Proof.
  intros Hop%includes_str_spec Hv. unfold arithmetic_values in Hv.
  destruct (value l), (value r); try done.
  repeat (apply elem_of_cons in Hop as [->|Hop]; [by js_literals Hv|]).
  by apply elem_of_nil in Hop.
Qed.

Lemma concat_values_plus op a b s : concat_values op a b = Some s -> op = js "+".
Proof.
  unfold concat_values. destruct a, b; try done. by destruct (str_eqb_spec op (js "+")).
Qed.

Lemma binary_relation_shape op pos l r v :
  includes_str RELATIONS op = true -> binary_values op pos l r = Ret v ->
  exists b, value v = JBool b.
Proof.
  intros Hop Hv. unfold binary_values in Hv.
  destruct (_ || _); [case_match; simplify_eq; simpl; eauto|].
  destruct (concat_values op _ _) eqn:Hc.
  { apply concat_values_plus in Hc as ->. discriminate Hop. }
  destruct (compare_values op _ _); [simplify_eq; simpl; eauto|].
  by apply arithmetic_no_relation in Hv.
Qed.

(** The two remaining cases of a binary operator: text, or arithmetic. *)
Lemma binary_other_value op pos l r v :
  includes_str RELATIONS op = false -> binary_values op pos l r = Ret v ->
  (exists a b, value l = JStr a /\ value r = JStr b /\ op = js "+" /\ value v = JStr (a ++ b))
  \/ (exists a b n, value l = JNum a /\ value r = JNum b /\ value v = JNum n).
Proof.
  intros Hop Hv. unfold binary_values in Hv.
  assert (Hne : forall x, x ∈ RELATIONS -> (op === x) = false)
    by (intros x Hx; apply str_eqb_neq; intros ->; by apply includes_str_false in Hop).
  rewrite !Hne in Hv by (unfold RELATIONS; set_solver). cbn [orb] in Hv.
  rewrite compare_none in Hv by done.
  destruct (concat_values op _ _) as [s|] eqn:Hc.
  - left. unfold concat_values in Hc. destruct (value l), (value r); try done.
    destruct (str_eqb_spec op (js "+")); simplify_eq. eauto 10.
  - right. destruct (arithmetic_number _ _ _ _ _ Hv) as [n Hn].
    unfold arithmetic_values in Hv. destruct (value l), (value r); try done. eauto 10.
Qed.

Lemma has_type_shape strict v t : has_type strict v t -> shape strict v t.
Proof. destruct t; simpl; try done. intros [(n & -> & _)|H]; [left; eauto|by right]. Qed.

(** In a strict tree no part has an unknown type. *)
Definition all_known (n : ExpressionNode) : Prop :=
  forall m t, m ∈ postorder n -> typed m t -> t <> t_dynamic.

Lemma all_known_child n c : all_known n -> c ∈ children n -> all_known c.
Proof.
  intros H Hc m t Hm. apply H. rewrite postorder_children, elem_of_app. left.
  apply list_elem_of_In, in_concat. exists (postorder c).
  split; [by apply in_map, list_elem_of_In|by apply list_elem_of_In].
Qed.

Lemma requireType_Ret lk c e u : requireType (fun c => Some (lk c)) c e = Ret u ->
  lk c = e \/ lk c = t_dynamic.
Proof. unfold requireType. repeat case_bool_decide; simplify_eq; auto; done. Qed.

Lemma number_operand strict c t v : (strict = true -> all_known c) -> typed c t ->
  t = t_number \/ t = t_dynamic -> has_type strict v t -> forall s, v = JStr s -> strict = false.
Proof.
  intros Hk Ht Htt Hv s ->. destruct strict; [|done]. exfalso.
  assert (t <> t_dynamic) by (eapply (Hk eq_refl); [apply postorder_self|done]).
  destruct Htt as [->| ->]; [|done]. destruct Hv as [(n & ? & ?)|[? ?]]; done.
Qed.

Lemma value_typed strict n t r :
  typed n t -> (strict = true -> all_known n) -> val n = Ret r -> has_type strict (value r) t.
Proof.
  intros Ht. revert r. induction Ht as [n lk t Hc IH Hn]. intros r Hk Hv.
  rewrite value_of_eq in Hv. apply obind_Ret_inv in Hv as (v & Hv & Hcheck).
  apply (shape_checked strict n v); [|done]. clear Hcheck r.
  assert (IH' : forall c r, c ∈ children n -> val c = Ret r -> has_type strict (value r) (lk c)).
  { intros c r Hin. apply IH; [done|]. intros Hs. eapply all_known_child; [by apply Hk|done]. }
  clear IH. destruct n as [sp l i|sp x|sp f args|sp op a|sp op a b|sp c a b];
    cbn [node_value node_type children] in *.
  - destruct l; simplify_eq; simpl; eauto.
  - simplify_eq. left. unfold variable_value, image_count_value in Hv.
    repeat (case_match; try done); simplify_eq; simpl; eauto.
  - by eapply call_shape.
  - destruct (op === js "!"); act_inv; simplify_eq; simpl; eauto.
  - destruct (str_eqb_spec op (js "&&")) as [->|Hand];
      [|destruct (str_eqb_spec op (js "||")) as [->|Hor]].
    + js_literals Hn. act_inv. simplify_eq. case_match; act_inv; simplify_eq; simpl; eauto.
    + js_literals Hn. act_inv. simplify_eq. case_match; act_inv; simplify_eq; simpl; eauto.
    + assert (includes_str [js "&&"; js "||"] op = false) as Hao
        by (apply includes_str_false; set_solver).
      rewrite Hao in Hn. fold RELATIONS in Hn. act_inv.
      destruct (includes_str RELATIONS op) eqn:Hrel.
      { simplify_eq. by eapply binary_relation_shape. }
      match goal with H : val a = Ret ?ra, H' : val b = Ret ?rb |- _ =>
        pose proof (IH' a ra ltac:(set_solver) H) as Ha;
        pose proof (IH' b rb ltac:(set_solver) H') as Hb end.
      destruct (binary_other_value _ _ _ _ _ Hrel Hv)
        as [(s1 & s2 & Hs1 & Hs2 & -> & Hs)|(m1 & m2 & m & Hm1 & Hm2 & Hm)].
      * destruct (bool_decide_reflect (Some (lk a) = Some t_string)) as [[= Hla]|Hla];
          [destruct (bool_decide_reflect (Some (lk b) = Some t_string)) as [[= Hlb]|Hlb]|];
          rewrite ?str_eqb_refl in Hn; cbn [andb] in Hn.
        -- simplify_eq. simpl. eauto.
        -- act_inv. simplify_eq. right.
           split; [|eauto]. eapply (number_operand strict b (lk b)); [|apply Hc; set_solver| |done|done].
           ++ intros Hs'. eapply all_known_child; [by apply Hk|]. simpl. set_solver.
           ++ by eapply requireType_Ret.
        -- act_inv. simplify_eq. right.
           split; [|eauto]. eapply (number_operand strict a (lk a)); [|apply Hc; set_solver| |done|done].
           ++ intros Hs'. eapply all_known_child; [by apply Hk|]. simpl. set_solver.
           ++ by eapply requireType_Ret.
      * destruct (_ && _ && _) eqn:Hcat; [|act_inv; simplify_eq; left; eauto].
        apply andb_true_iff in Hcat as [[_ Hla%bool_decide_eq_true]%andb_true_iff _].
        injection Hla as Hla. rewrite Hla in Ha. destruct Ha as [? Ha]. congruence.
  - act_inv. destruct (bool_decide_reflect (Some (lk a) = Some (lk b))) as [[= Hab]|].
    + simplify_eq. simpl. case_match.
      * apply has_type_shape, IH'; [set_solver|done].
      * rewrite Hab. apply has_type_shape, IH'; [set_solver|done].
    + simplify_eq. done.
Qed.
End Soundness.

(** ** Sorting the entries of an object *)

Definition entry_le {A} (x y : jsstr * A) : Prop := str_ltb y.1 x.1 = false.

Lemma sort_entries_sorted {A} (l : list (jsstr * A)) : StronglySorted entry_le (sort_entries l).
Proof.
  induction l as [|kv l IH]; [constructor|]. cbn [sort_entries fold_right].
  fold (sort_entries l). revert IH. generalize (sort_entries l) as sorted. clear l.
  induction 1 as [|kv' sorted Hsort IH Hall]; cbn [insert_entry]; [by repeat constructor|].
  destruct (str_ltb kv'.1 kv.1) eqn:Hlt.
  - constructor; [done|]. rewrite insert_entry_perm. constructor; [|done].
    by apply str_ltb_asym.
  - constructor; [by constructor|]. constructor; [done|].
    eapply Forall_impl; [exact Hall|]. intros x. by apply str_leb_trans.
Qed.

Lemma sort_entries_unique {A} (l l' : list (jsstr * A)) :
  l ≡ₚ l' -> NoDup (map fst l) -> sort_entries l = sort_entries l'.
Proof.
  intros Hp Hnd. eapply StronglySorted_unique_strong.
  - intros x y Hx Hy Hxy Hyx. rewrite sort_entries_perm in Hx, Hy. rewrite <- Hp in Hy.
    eapply (NoDup_map_inj fst); [exact Hnd|done|done|]. apply str_ltb_total; [exact Hyx|exact Hxy].
  - apply sort_entries_sorted.
  - apply sort_entries_sorted.
  - by rewrite !sort_entries_perm.
Qed.

(** ** Paths *)

Definition path_special (c : N) : bool :=
  (c =? ch "\")%N || (c =? ch ".")%N || includes_unit c (js "*?[]()|@!").

(** The text of a path component: every special character behind a backslash. *)
Definition escape_key (key : jsstr) : jsstr :=
  flat_map (fun c => if path_special c then [ch "\"; c] else [c]) key.

Lemma path_parts_key path key rest part :
  path_parts path (escape_key key ++ rest) part = path_parts path rest (part ++ key).
Proof.
  revert part. induction key as [|c key IH]; intros part; [by rewrite app_nil_r|].
  unfold escape_key. cbn [flat_map]. fold (escape_key key).
  destruct (path_special c) eqn:Hs; cbn [app path_parts].
  - rewrite N.eqb_refl, IH. by rewrite <- app_assoc.
  - unfold path_special in Hs. rewrite !orb_false_iff in Hs. destruct Hs as [[-> ->] ->].
    rewrite IH. by rewrite <- app_assoc.
Qed.

Lemma path_parts_escaped path keys part key :
  path_parts path (join (js ".") (map escape_key (key :: keys))) part = Ret ((part ++ key) :: keys).
Proof.
  revert part key. induction keys as [|key' keys IH]; intros part key.
  - cbn [map join]. rewrite <- (app_nil_r (escape_key key)), path_parts_key. done.
  - cbn [map join]. rewrite path_parts_key.
    change (js "." ++ ?x) with (ch "." :: x). cbn [app path_parts].
    change (ch "." =? ch "\")%N with false. rewrite N.eqb_refl. cbv iota.
    specialize (IH [] key'). cbn [map join] in IH. by rewrite IH.
Qed.

(** A chain of one-field objects. *)
Definition nested (keys : list jsstr) (v : jsval) : jsval :=
  fold_right (fun k v => JObj [(k, v)]) v keys.

Lemma read_parts_nested path keys v : is_nullish v = false ->
  read_parts path (nested keys v) keys = Ret v.
Proof.
  intros Hv. induction keys as [|k keys IH]; cbn [nested fold_right read_parts]; [by rewrite Hv|].
  unfold own. rewrite assoc_cons, str_eqb_refl. apply IH.
Qed.

(** ** Time values *)

(** The fields of a billing time are the numbers a calendar has. *)
Definition time_in_range (t : BillingTime) : Prop :=
  exists h m w mo d, bt_hour t = num_of_Z h /\ 0 <= h < 24
    /\ bt_minute t = num_of_Z m /\ 0 <= m < 60
    /\ bt_weekday t = num_of_Z w /\ 0 <= w < 7
    /\ bt_month t = num_of_Z mo /\ 1 <= mo <= 12
    /\ bt_day t = num_of_Z d /\ 1 <= d <= 31.

(** What [Intl.DateTimeFormat] documents of the requested options: decimal
    numerals for hour (h23), minute, month and day, a short English weekday. *)
Definition formatter_documented (new_formatter : jsstr -> option DateTimeFormat) : Prop :=
  forall zone f ms, new_formatter zone = Some f ->
  let parts := from_entries (formatToParts f ms) in
  exists h m w mo d text,
    assoc parts (js "hour") = Some (string_of_Z h) /\ 0 <= h < 24
    /\ assoc parts (js "minute") = Some (string_of_Z m) /\ 0 <= m < 60
    /\ assoc parts (js "weekday") = Some text /\ WEEKDAYS !! Z.to_nat w = Some text /\ 0 <= w < 7
    /\ assoc parts (js "month") = Some (string_of_Z mo) /\ 1 <= mo <= 12
    /\ assoc parts (js "day") = Some (string_of_Z d) /\ 1 <= d <= 31.

Lemma number_of_small_string z : 0 <= z < 60 -> number_of_string (string_of_Z z) = num_of_Z z.
Proof.
  intros Hz.
  assert (Hall : all_from 60 0
    (fun z => bool_decide (number_of_string (string_of_Z z) = num_of_Z z)) = true)
    by (vm_compute; reflexivity).
  apply (all_from_spec _ _ _ z) in Hall; [|lia]. by apply bool_decide_eq_true in Hall.
Qed.

Lemma weekday_index w text : WEEKDAYS !! Z.to_nat w = Some text -> 0 <= w < 7 ->
  index_in WEEKDAYS text 0 = w.
Proof.
  intros Ht Hw. assert (Hcase : w = 0 \/ w = 1 \/ w = 2 \/ w = 3 \/ w = 4 \/ w = 5 \/ w = 6) by lia.
  destruct Hcase as [->|[->|[->|[->|[->|[->| ->]]]]]]; injection Ht as <-; reflexivity.
Qed.

Lemma utc_time_in_range ms : time_in_range (utc_time ms).
Proof. pose proof (utc_bounds ms). eexists _, _, _, _, _. unfold utc_time; simpl. intuition eauto. Qed.

Lemma parts_time_in_range new_formatter zone f ms :
  formatter_documented new_formatter -> new_formatter zone = Some f ->
  time_in_range (parts_time (from_entries (formatToParts f ms))).
Proof.
  intros Hdoc Hf. destruct (Hdoc zone f ms Hf)
    as (h & m & w & mo & d & text & Hh & ? & Hm & ? & Hw & Hwi & ? & Hmo & ? & Hd & ?).
  pose proof (weekday_index w text Hwi ltac:(done)) as Hi.
  exists h, m, w, mo, d. unfold parts_time, part_number.
  cbn [bt_hour bt_minute bt_weekday bt_month bt_day].
  rewrite Hh, Hm, Hw, Hmo, Hd, Hi, !number_of_small_string by lia. tauto.
Qed.

(** The zones that are evaluated in UTC: malformed, unknown, or a known zone
    written with the wrong case. *)
Definition falls_back (new_formatter : jsstr -> option DateTimeFormat) (timezone : jsstr) : Prop :=
  zone_pattern timezone = false \/ new_formatter timezone = None
  \/ exists f, new_formatter timezone = Some f
       /\ to_lower (resolved_zone f) = to_lower timezone /\ resolved_zone f <> timezone.

(** ** Properties *)


Definition sample_billing : jsstr :=
  js "v1: tier('base', p * 2 + c * 4) * (param('n') == 2 ? 0.5 : 1)".

Definition sample_ready : CompiledBillingExpression :=
  match compile_uncached sample_billing with Ret (Ready c) => c | _ => sample_compiled end.




(** The condition probe used by the display adapters agrees with the
    stateless semantics: on any node of a compiled expression shallower than the
    depth bound, it returns a boolean exactly when that node's value in the
    context of the given time alone is that boolean, and null otherwise. *)
Theorem evaluateBillingCondition_correct new_formatter current_time
    (src : jsstr) (c : CompiledBillingExpression) (node : ExpressionNode) (at_time : date) (b : bool) :
  compile_uncached src = Ret (Ready c) -> node ∈ postorder (ast c) -> node_depth node <= 255 ->
  (evaluateBillingCondition new_formatter current_time c node at_time = Some b <->
   exists v, value_of new_formatter current_time (empty_context at_time) [] node = Ret v
     /\ value v = JBool b).
Proof.
  intros Hc Hin Hd. unfold compile_uncached in Hc. destruct (compile_body src) eqn:Hb; simplify_eq.
  apply compile_body_ok in Hb.
  pose proof (run_sim new_formatter current_time src c (empty_context at_time) node Hb Hin) as Hrun.
  unfold evaluateBillingCondition. destruct (run _ _ c _ node) as [[v rt]|e|]; [| |done].
  - destruct Hrun as (hm & [= <-] & Hv & _). rewrite Hv. split.
    + intros H. exists v. split; [done|]. by destruct (value v); simplify_eq.
    + intros (v' & [= <-] & ->). done.
  - destruct Hrun as [Hv|[? _]]; [|lia]. unfold context_value in Hv. simpl in Hv. rewrite Hv.
    split; [done|]. by intros (? & ? & _).
Qed.

Definition sample_condition : ExpressionNode :=
  match parse (js "hour('UTC') < 6 ? p * 0.5 : p") with
  | Ret (Conditional _ c _ _) => c
  | _ => sample_tree
  end.
Definition sample_condition_compiled : CompiledBillingExpression :=
  match compile_uncached (js "hour('UTC') < 6 ? p * 0.5 : p") with
  | Ret (Ready c) => c
  | _ => sample_compiled
  end.

Lemma evaluateBillingCondition_correct_witness :
  evaluateBillingCondition (fun _ => None) None sample_condition_compiled sample_condition
    (Some 1709210096000) = Some false <->
  exists v, value_of (fun _ => None) None (empty_context (Some 1709210096000)) [] sample_condition
    = Ret v /\ value v = JBool false.
Proof.
  apply (evaluateBillingCondition_correct (fun _ => None) None (js "hour('UTC') < 6 ? p * 0.5 : p")).
  - vm_compute. reflexivity.
  - apply (postorder_closed _ (ast sample_condition_compiled)); [apply postorder_self|].
    apply (list_elem_of_lookup_2 _ 0%nat). vm_compute. reflexivity.
  - vm_compute. discriminate.
Defined.

(** Request paths.  Escaping the special characters of each key and joining
    with dots gives a path whose parts are the keys, so reading such a path in
    the object nested along the keys finds the value there; this needs only that
    the path text survives trimming. *)
Theorem readRequestPath_escaped (key : jsstr) (keys : list jsstr) (v : jsval) :
  let path := join (js ".") (map escape_key (key :: keys)) in
  path <> [] -> trim path = path -> is_nullish v = false ->
  path_parts path path [] = Ret (key :: keys)
  /\ readRequestPath (nested (key :: keys) v) path = Ret v.
Proof.
  intros path Hne Htrim Hv. assert (Hparts : path_parts path path [] = Ret (key :: keys)).
  { unfold path at 2. apply path_parts_escaped. }
  split; [done|]. unfold readRequestPath. rewrite Htrim.
  assert (nonempty path = true) as -> by by destruct path. cbn [negb].
  rewrite Hparts. cbn [obind]. by apply read_parts_nested.
Qed.

Lemma readRequestPath_escaped_witness :
  path_parts (js "a\.b.c") (js "a\.b.c") [] = Ret [js "a.b"; js "c"]
  /\ readRequestPath (nested [js "a.b"; js "c"] (JBool true)) (js "a\.b.c") = Ret (JBool true).
Proof.
  apply (readRequestPath_escaped (js "a.b") [js "c"] (JBool true));
    [vm_compute; discriminate|vm_compute; reflexivity|reflexivity].
Defined.

(** The text of an object does not depend on the order of its fields, at any
    depth, so [has()] is insensitive to key order. *)
Theorem billingString_field_order (fields fields' : list (jsstr * jsval)) (d : Z) :
  fields ≡ₚ fields' -> NoDup (map fst fields) ->
  billingString (JObj fields) d = billingString (JObj fields') d.
Proof.
  intros Hp Hnd. cbn [billingString]. destruct (128 <? d); [done|].
  set (f := fun kv : jsstr * jsval => (kv.1, billingString kv.2 (d + 1))).
  rewrite (sort_entries_unique (map f fields) (map f fields')); [done|by rewrite Hp|].
  by rewrite map_map.
Qed.

Lemma billingString_field_order_witness :
  billingString (JObj [(js "b", JNull); (js "a", JBool true)]) 0
  = billingString (JObj [(js "a", JBool true); (js "b", JNull)]) 0.
Proof.
  apply (billingString_field_order [(js "b", JNull); (js "a", JBool true)]
           [(js "a", JBool true); (js "b", JNull)]).
  - apply Permutation_swap.
  - apply (bool_decide_unpack _). vm_compute. exact I.
Defined.

(** Time zones.  [Local] is refused; every other zone gives calendar values
    in range, and a malformed, unknown or wrongly cased zone gives the UTC values. *)
Theorem timeInBillingZone_spec new_formatter (ms : Z) (zone : jsstr) :
  formatter_documented new_formatter ->
  let timezone := if nonempty (trim zone) then trim zone else js "UTC" in
  if timezone === js "Local" then
    timeInBillingZone new_formatter (Some ms) zone
    = Throw (Diagnostic c_unsupported (js "server Local timezone") None)
  else exists t, timeInBillingZone new_formatter (Some ms) zone = Ret t /\ time_in_range t
    /\ (falls_back new_formatter timezone -> t = utc_time ms).
Proof.
  intros Hdoc timezone. unfold timeInBillingZone. fold timezone.
  destruct (timezone === js "Local"); [done|].
  destruct (zone_pattern timezone) eqn:Hz; cbn [negb]; [|eauto using utc_time_in_range].
  destruct (new_formatter timezone) as [f|] eqn:Hf; [|eauto using utc_time_in_range].
  destruct ((to_lower (resolved_zone f) === to_lower timezone)
            && (resolved_zone f !== timezone)) eqn:Hr; [eauto using utc_time_in_range|].
  eexists. split; [done|]. split; [by eapply parts_time_in_range|].
  intros [?|[?|(f' & Hf' & Hl & Hne)]]; [congruence..|]. simplify_eq.
  apply str_eqb_eq in Hl. apply str_eqb_neq in Hne. by rewrite Hl, Hne in Hr.
Qed.

(** A formatter for one zone name, in UTC. *)
Definition utc_formatter (zone : jsstr) : option DateTimeFormat :=
  if zone === js "UTC" then
    Some {| resolved_zone := js "UTC";
            formatToParts := fun ms =>
              [(js "weekday", default [] (WEEKDAYS !! Z.to_nat (utc_weekday ms)));
               (js "month", string_of_Z (utc_month ms)); (js "literal", js "/");
               (js "day", string_of_Z (utc_date ms)); (js "literal", js ", ");
               (js "hour", string_of_Z (utc_hours ms)); (js "literal", js ":");
               (js "minute", string_of_Z (utc_minutes ms))] |}
  else None.

Lemma utc_formatter_documented : formatter_documented utc_formatter.
Proof.
  intros zone f ms Hf parts. unfold utc_formatter in Hf. destruct (zone === js "UTC"); [|done].
  injection Hf as <-. pose proof (utc_bounds ms) as (? & ? & ? & ? & ?).
  assert (Hw : exists text, WEEKDAYS !! Z.to_nat (utc_weekday ms) = Some text).
  { apply lookup_lt_is_Some. simpl. lia. }
  destruct Hw as [text Htext].
  exists (utc_hours ms), (utc_minutes ms), (utc_weekday ms), (utc_month ms), (utc_date ms), text.
  unfold parts. cbn [formatToParts]. rewrite Htext. split_and!; try done; lia.
Qed.

Lemma timeInBillingZone_spec_witness :
  exists t, timeInBillingZone utc_formatter (Some 1709210096000) (js " utc ") = Ret t
    /\ time_in_range t
    /\ (falls_back utc_formatter (js "utc") -> t = utc_time 1709210096000).
Proof. apply (timeInBillingZone_spec utc_formatter 1709210096000 (js " utc ") utc_formatter_documented). Defined.

(** The checker takes [param + param] for a number; the runtime concatenates. *)
Example number_typed_text :
  let src := js "param('a') + param('b')" in
  match compile_uncached src with
  | Ret (Ready c) =>
      checkExpressionTypes (ast c) = Ret tt
      /\ context_value (fun _ => None) None
           {| imageCount := None; tokens := None;
              request := Some {| body := JObj [(js "a", JStr (js "x")); (js "b", JStr (js "y"))];
                                 headers := None |};
              usage := None; now := None |} (ast c)
         = Ret (plain (JStr (js "xy")))
  | _ => False
  end.
Proof. vm_compute. split; reflexivity. Qed.
