(* ===== verification/ExpressionStructure.v ===== *)
(** * Billing expressions: structural text helpers

    Models [web/src/features/usage-logs/lib/billing-expression/structure.ts]:
    splitting a source at the top-level occurrences of an operator and removing
    redundant outer parentheses, without parsing.  The loops scan the text once;
    the round trips are stated for texts that are closed on their own
    ([closed_part], [balanced]). *)

From S2P Require Import Prelude JsString.

Definition is_quote (c : N) : bool := (c =? DQUOTE)%N || (c =? ch "'")%N.
Definition is_open (c : N) : bool := (c =? ch "(")%N || (c =? ch "[")%N || (c =? ch "{")%N.
Definition is_close (c : N) : bool := (c =? ch ")")%N || (c =? ch "]")%N || (c =? ch "}")%N.

(** The loop of [splitExpressionAtTopLevel].  [cur] is [source.slice(start, i)],
    [skip] the code units of a matched operator still to pass over; the result
    [None] is the early return at a top-level [?]. *)
Fixpoint split_loop (operator s cur : jsstr) (skip : nat) (depth : Z) (quote : option N)
    (parts : list jsstr) : option (list jsstr) :=
  match s with
  | [] => Some (parts ++ [trim cur])
  | char :: s' =>
      match skip with
      | S skip' => split_loop operator s' cur skip' depth quote parts
      | O =>
          match quote with
          | Some q =>
              if (char =? ch "\")%N then
                match s' with
                | [] => Some (parts ++ [trim (cur ++ [char])])
                | next :: s'' =>
                    split_loop operator s'' (cur ++ [char; next]) 0 depth quote parts
                end
              else
                split_loop operator s' (cur ++ [char]) 0 depth
                  (if (char =? q)%N then None else quote) parts
          | None =>
              if is_quote char then
                split_loop operator s' (cur ++ [char]) 0 depth (Some char) parts
              else
                let depth := if is_open char then depth + 1 else depth in
                let depth := if is_close char then depth - 1 else depth in
                if negb (depth =? 0) then
                  split_loop operator s' (cur ++ [char]) 0 depth None parts
                else if (char =? ch "?")%N then None
                else if starts_with operator s then
                  split_loop operator s' [] (length operator - 1) depth None
                    (parts ++ [trim cur])
                else split_loop operator s' (cur ++ [char]) 0 depth None parts
          end
      end
  end.

Definition splitExpressionAtTopLevel (source operator : jsstr) : list jsstr :=
  match split_loop operator source [] 0 0 None [] with
  | Some parts => List.filter nonempty parts
  | None => [trim source]
  end.

(** The inner loop of [unwrapExpressionParens]: whether the parenthesis that opens
    the text closes at its last code unit. *)
Fixpoint closes_at_end (s : jsstr) (depth : Z) (quote : option N) : bool :=
  match s with
  | [] => false
  | char :: s' =>
      match quote with
      | Some q =>
          if (char =? ch "\")%N then
            match s' with [] => false | _ :: s'' => closes_at_end s'' depth quote end
          else closes_at_end s' depth (if (char =? q)%N then None else quote)
      | None =>
          if is_quote char then closes_at_end s' depth (Some char)
          else
            let depth := if (char =? ch "(")%N then depth + 1 else depth in
            let depth := if (char =? ch ")")%N then depth - 1 else depth in
            if depth =? 0 then match s' with [] => true | _ => false end
            else closes_at_end s' depth None
      end
  end.

(** One turn of the outer loop, [None] when the loop stops. *)
Definition unwrap_once (expression : jsstr) : option jsstr :=
  if starts_with (js "(") expression && ends_with (js ")") expression
     && closes_at_end expression 0 None
  then Some (trim (slice 1 (length expression - 1) expression))
  else None.

Fixpoint unwrap_loop (fuel : nat) (expression : jsstr) : jsstr :=
  match fuel with
  | O => expression
  | S fuel' =>
      match unwrap_once expression with
      | Some expression' => unwrap_loop fuel' expression'
      | None => expression
      end
  end.

(** Every turn removes at least one code unit, so the length bounds the turns. *)
Definition unwrapExpressionParens (source : jsstr) : jsstr :=
  unwrap_loop (length source) (trim source).

Example split_sample :
  splitExpressionAtTopLevel (js "tier('a*b', (p * 2)) * (x ? 2 : 1)*c") (js "*")
  = [js "tier('a*b', (p * 2))"; js "(x ? 2 : 1)"; js "c"].
Proof. vm_compute. reflexivity. Qed.

Example unwrap_sample :
  (unwrapExpressionParens (js " ((a) + (b)) "), unwrapExpressionParens (js "(((c)) )"))
  = (js "(a) + (b)", js "c").
Proof. vm_compute. reflexivity. Qed.

(** ** Unwrapping *)

Lemma slice_spec a b (s : jsstr) : slice a b s = take (b - a) (drop a s).
Proof. done. Qed.

Lemma closes_at_end_long s : closes_at_end s 0 None = true -> starts_with (js "(") s = true ->
  (2 <= length s)%nat.
Proof.
  destruct s as [|c [|c' s]]; [done| |cbn [length]; lia].
  intros H [t Ht]%starts_with_spec. change (js "(") with [ch "("] in Ht.
  injection Ht as -> _. discriminate H.
Qed.

Lemma unwrap_once_shorter e e' : unwrap_once e = Some e' -> (length e' + 2 <= length e)%nat.
Proof.
  unfold unwrap_once. destruct (_ && _) eqn:H; [|done].
  apply andb_true_iff in H as [[Hs He]%andb_true_iff Hc]. intros [= <-].
  pose proof (closes_at_end_long e Hc Hs). pose proof (length_trim (slice 1 (length e - 1) e)) as Hl.
  assert (length (slice 1 (length e - 1) e) = length e - 2)%nat
    by (rewrite slice_spec, length_take, length_drop; lia).
  lia.
Qed.

Lemma unwrap_loop_done fuel e : (length e <= fuel)%nat -> unwrap_once (unwrap_loop fuel e) = None.
Proof.
  revert e. induction fuel as [|fuel IH]; intros e He; cbn [unwrap_loop].
  - by destruct e; simpl in *; [|lia].
  - destruct (unwrap_once e) as [e'|] eqn:Hu; [|done].
    apply IH. apply unwrap_once_shorter in Hu. lia.
Qed.

Lemma unwrap_loop_fuel f f' e : (length e <= f)%nat -> (length e <= f')%nat ->
  unwrap_loop f e = unwrap_loop f' e.
Proof.
  revert f' e. induction f as [|f IH]; intros f' e Hf Hf'.
  - destruct e; simpl in *; [|lia]. by destruct f'.
  - destruct f' as [|f']; [by destruct e; simpl in *; [|lia]|].
    cbn [unwrap_loop]. destruct (unwrap_once e) as [e'|] eqn:Hu; [|done].
    apply unwrap_once_shorter in Hu. apply IH; lia.
Qed.

Lemma unwrap_loop_trimmed fuel e : trim e = e -> trim (unwrap_loop fuel e) = unwrap_loop fuel e.
Proof.
  revert e. induction fuel as [|fuel IH]; intros e He; cbn [unwrap_loop]; [done|].
  destruct (unwrap_once e) as [e'|] eqn:Hu; [|done]. apply IH.
  unfold unwrap_once in Hu. destruct (_ && _); simplify_eq. apply trim_idemp.
Qed.

(** The text, read from inside one open parenthesis, stays inside it. *)
Fixpoint balanced (s : jsstr) (depth : Z) (quote : option N) : bool :=
  match s with
  | [] => (depth =? 1) && match quote with None => true | Some _ => false end
  | char :: s' =>
      match quote with
      | Some q =>
          if (char =? ch "\")%N then
            match s' with [] => false | _ :: s'' => balanced s'' depth quote end
          else balanced s' depth (if (char =? q)%N then None else quote)
      | None =>
          if is_quote char then balanced s' depth (Some char)
          else
            let depth := if (char =? ch "(")%N then depth + 1 else depth in
            let depth := if (char =? ch ")")%N then depth - 1 else depth in
            negb (depth =? 0) && balanced s' depth None
      end
  end.

Lemma balanced_closes n s d q : (length s <= n)%nat ->
  balanced s d q = true -> closes_at_end (s ++ js ")") d q = true.
Proof.
  revert s d q. induction n as [|n IH]; intros s d q Hn.
  { destruct s; simpl in Hn; [|lia]. destruct q; [cbn [balanced]; by rewrite andb_false_r|].
    cbn [balanced]. rewrite andb_true_r, Z.eqb_eq. intros ->. done. }
  destruct s as [|c s]; [apply (IH []); simpl; lia|]. simpl in Hn. cbn [balanced app closes_at_end].
  destruct q as [q|].
  - destruct (c =? ch "\")%N; [|apply IH; lia].
    destruct s as [|c' s]; [done|]. cbn [app]. simpl in Hn. apply IH. lia.
  - destruct (is_quote c); [apply IH; lia|]. rewrite andb_true_iff, negb_true_iff.
    intros [-> Hb]. apply IH; [lia|done].
Qed.

Definition parenthesize (e : jsstr) : jsstr := js "(" ++ e ++ js ")".

Lemma unwrap_once_parens e : balanced e 1 None = true -> unwrap_once (parenthesize e) = Some (trim e).
Proof.
  intros Hb. unfold unwrap_once, parenthesize.
  assert (ends_with (js ")") (js "(" ++ e ++ js ")") = true) as ->.
  { unfold ends_with. rewrite app_assoc, rev_app_distr. done. }
  assert (closes_at_end (js "(" ++ e ++ js ")") 0 None = true) as ->
    by by apply (balanced_closes (length e)).
  cbn [andb]. rewrite slice_spec. do 2 f_equal.
  change (js "(" ++ e ++ js ")") with (ch "(" :: e ++ js ")"). cbn [drop length].
  rewrite length_app, drop_0. change (length (js ")")) with 1%nat.
  rewrite take_app_le by lia. apply take_ge. lia.
Qed.

Lemma trim_parenthesize e : trim (parenthesize e) = parenthesize e.
Proof.
  apply (trim_ends _ (ch "(") (ch ")")); try done.
  unfold parenthesize. rewrite app_assoc, rev_app_distr. done.
Qed.

Lemma unwrap_parenthesize e : balanced e 1 None = true ->
  unwrapExpressionParens (parenthesize e) = unwrapExpressionParens e.
Proof.
  intros Hb. unfold unwrapExpressionParens. rewrite trim_parenthesize.
  assert (length (parenthesize e) = S (S (length e))) as ->
    by (unfold parenthesize; rewrite !length_app; simpl; lia).
  transitivity (unwrap_loop (S (length e)) (trim e)).
  { cbn [unwrap_loop]. by rewrite unwrap_once_parens. }
  pose proof (length_trim e). apply unwrap_loop_fuel; lia.
Qed.

Lemma unwrap_idemp s : unwrapExpressionParens (unwrapExpressionParens s) = unwrapExpressionParens s.
Proof.
  unfold unwrapExpressionParens at 1. set (r := unwrapExpressionParens s).
  assert (Ht : trim r = r) by apply unwrap_loop_trimmed, trim_idemp. rewrite Ht.
  assert (Hu : unwrap_once r = None).
  { apply unwrap_loop_done, length_trim. }
  destruct (length r); cbn [unwrap_loop]; [done|]. by rewrite Hu.
Qed.

(** ** Splitting *)

(** The scan of one operand: the depth and quote it ends in, [None] when it holds a
    top-level [?] or operator, or ends inside an escape. *)
Fixpoint scan_part (operator s : jsstr) (depth : Z) (quote : option N) : option (Z * option N) :=
  match s with
  | [] => Some (depth, quote)
  | char :: s' =>
      match quote with
      | Some q =>
          if (char =? ch "\")%N then
            match s' with [] => None | _ :: s'' => scan_part operator s'' depth quote end
          else scan_part operator s' depth (if (char =? q)%N then None else quote)
      | None =>
          if is_quote char then scan_part operator s' depth (Some char)
          else
            let depth := if is_open char then depth + 1 else depth in
            let depth := if is_close char then depth - 1 else depth in
            if negb (depth =? 0) then scan_part operator s' depth None
            else if (char =? ch "?")%N then None
            else if starts_with operator s then None
            else scan_part operator s' depth None
      end
  end.

(** An operand that can stand next to the operator. *)
Definition closed_part (operator p : jsstr) : Prop :=
  scan_part operator p 0 None = Some (0, None) /\ trim p = p /\ p <> [].

(** An operator whose first code unit the scan does not treat specially. *)
Definition plain_operator (operator : jsstr) : bool :=
  match operator with
  | c :: _ => negb (is_quote c || is_open c || is_close c || (c =? ch "?")%N)
              && negb (includes_unit 32 operator)
  | [] => false
  end.

Lemma starts_with_boundary op s t : includes_unit 32 op = false ->
  starts_with op (s ++ 32%N :: t) = starts_with op s.
Proof.
  revert op. induction s as [|c s IH]; intros [|x op] Hop; try done;
    unfold includes_unit in Hop; cbn [existsb] in Hop; apply orb_false_iff in Hop as [Hx Hop].
  - cbn [app starts_with]. rewrite (N.eqb_sym x), Hx. done.
  - cbn [app starts_with]. by rewrite IH.
Qed.

Section Split.
Variable op : jsstr.
Hypothesis plain : plain_operator op = true.

Lemma op_no_space : includes_unit 32 op = false.
Proof.
  unfold plain_operator in plain. destruct op; [done|].
  apply andb_true_iff in plain as [_ H]. by apply negb_true_iff in H.
Qed.

Lemma split_scan n p t cur d q parts d' q' : (length p <= n)%nat ->
  scan_part op p d q = Some (d', q') ->
  split_loop op (p ++ 32%N :: t) cur 0 d q parts
  = split_loop op (32%N :: t) (cur ++ p) 0 d' q' parts.
Proof.
  revert p cur d q. induction n as [|n IH]; intros p cur d q Hn.
  { destruct p; simpl in Hn; [|lia]. cbn [scan_part app]. intros [= -> ->]. by rewrite app_nil_r. }
  destruct p as [|c p]; [apply (IH []); simpl; lia|]. simpl in Hn.
  assert (Hcons : forall x, cur ++ c :: x = (cur ++ [c]) ++ x) by (intros; by rewrite <- app_assoc).
  pose proof (starts_with_boundary op (c :: p) t op_no_space) as Hsw.
  rewrite Hcons. set (rhs := split_loop op (32%N :: t) _ 0 d' q' parts).
  cbn [scan_part]. cbn [app] in *. cbn [split_loop]. rewrite Hsw. unfold rhs. clear rhs.
  destruct q as [q|].
  - destruct (c =? ch "\")%N; [|apply IH; lia].
    destruct p as [|c' p]; [done|]. simpl in Hn. cbn [app].
    intros Hs. rewrite IH by (done || lia). by rewrite <- !app_assoc.
  - destruct (is_quote c); [apply IH; lia|]. cbv zeta.
    destruct (negb _); [apply IH; lia|]. destruct (c =? ch "?")%N; [done|].
    destruct (starts_with op (c :: p)); [done|]. apply IH. lia.
Qed.

Lemma split_scan_end n p cur d q parts d' q' : (length p <= n)%nat ->
  scan_part op p d q = Some (d', q') ->
  split_loop op p cur 0 d q parts = Some (parts ++ [trim (cur ++ p)]).
Proof.
  revert p cur d q. induction n as [|n IH]; intros p cur d q Hn.
  { destruct p; simpl in Hn; [|lia]. cbn [split_loop]. by rewrite app_nil_r. }
  destruct p as [|c p]; [apply (IH []); simpl; lia|]. simpl in Hn.
  assert (Hcons : forall x, cur ++ c :: x = (cur ++ [c]) ++ x) by (intros; by rewrite <- app_assoc).
  rewrite Hcons. cbn [scan_part split_loop].
  destruct q as [q|].
  - destruct (c =? ch "\")%N; [|apply IH; lia].
    destruct p as [|c' p]; [done|]. simpl in Hn.
    intros Hs. erewrite IH by (done || lia). by rewrite <- !app_assoc.
  - destruct (is_quote c); [apply IH; lia|]. cbv zeta.
    destruct (negb _); [apply IH; lia|]. destruct (c =? ch "?")%N; [done|].
    destruct (starts_with op (c :: p)); [done|]. apply IH. lia.
Qed.

Lemma split_skip u t cur d q parts :
  split_loop op (u ++ t) cur (length u) d q parts = split_loop op t cur 0 d q parts.
Proof. induction u as [|c u IH]; [done|]. exact IH. Qed.

Lemma split_space r cur parts :
  split_loop op (32%N :: r) cur 0 0 None parts = split_loop op r (cur ++ [32%N]) 0 0 None parts.
Proof.
  pose proof op_no_space as Hns. unfold plain_operator in plain.
  set (rhs := split_loop op r _ 0 0 None parts). cbn [split_loop].
  assert (starts_with op (32%N :: r) = false) as ->; [|done].
  destruct op as [|c o]; [done|]. unfold includes_unit in Hns. cbn [existsb] in Hns.
  apply orb_false_iff in Hns as [H _]. cbn [starts_with]. by rewrite N.eqb_sym, H.
Qed.

Lemma split_match r cur parts :
  split_loop op (op ++ r) cur 0 0 None parts
  = split_loop op r [] 0 0 None (parts ++ [trim cur]).
Proof.
  assert (Hstart : starts_with op (op ++ r) = true) by apply starts_with_app.
  assert (exists c o, op = c :: o /\ is_quote c = false /\ is_open c = false
    /\ is_close c = false /\ (c =? ch "?")%N = false) as (c & o & Hop & Hq & Ho & Hcl & Hqm).
  { unfold plain_operator in plain. destruct op as [|c o]; [done|]. exists c, o.
    rewrite andb_true_iff, negb_true_iff, !orb_false_iff in plain. tauto. }
  rewrite <- (split_skip o r [] 0 None (parts ++ [trim cur])). replace (op ++ r) with (c :: o ++ r) in * by by rewrite Hop.
  set (rhs := split_loop op (o ++ r) [] (length o) 0 None (parts ++ [trim cur])).
  cbn [split_loop].
  rewrite Hq, Ho, Hcl, Hqm, Hstart. cbn [Z.eqb negb]. cbv zeta iota.
  replace (length op - 1)%nat with (length o) by (rewrite Hop; simpl; lia). done.
Qed.

(** Operands joined by the operator between spaces are split where they were joined. *)
Lemma split_parts p ps cur parts :
  Forall (closed_part op) (p :: ps) -> trim (cur ++ p) = p -> trim (cur ++ p ++ [32%N]) = p ->
  split_loop op (join ([32%N] ++ op ++ [32%N]) (p :: ps)) cur 0 0 None parts
  = Some (parts ++ p :: ps).
Proof.
  revert p cur parts. induction ps as [|p' ps IH]; intros p cur parts Hall Ht Ht'.
  - apply Forall_cons_1 in Hall as [(Hs & _ & _) _]. cbn [join].
    rewrite (split_scan_end (length p) p _ _ _ _ _ _ ltac:(lia) Hs). by rewrite Ht.
  - apply Forall_cons_1 in Hall as [(Hs & _ & _) Hall].
    change (join ([32%N] ++ op ++ [32%N]) (p :: p' :: ps))
      with (p ++ [32%N] ++ (op ++ [32%N]) ++ join ([32%N] ++ op ++ [32%N]) (p' :: ps)).
    cbn [app]. rewrite (split_scan (length p) p _ _ _ _ _ _ _ ltac:(lia) Hs).
    rewrite split_space, <- app_assoc, split_match. cbn [app]. rewrite split_space. cbn [app].
    rewrite <- app_assoc, Ht'.
    pose proof Hall as [(_ & Hp' & _) _]%Forall_cons_1.
    rewrite IH; [by rewrite <- app_assoc|done|exact Hp'|].
    cbn [app]. rewrite trim_space. by apply trim_snoc_space.
Qed.
End Split.

Lemma filter_nonempty_id (ps : list jsstr) : Forall (fun p => p <> []) ps -> List.filter nonempty ps = ps.
Proof.
  induction 1 as [|p ps Hp _ IH]; cbn [List.filter]; [done|]. destruct p; [done|]. simpl. by rewrite IH.
Qed.

(** ** Properties *)

(** Splitting inverts joining.  Operands that are closed on their own (every
    bracket and quote closed, no top-level operator or [?] outside them), joined by
    the operator between spaces, are split back into exactly those operands. *)
Theorem splitExpressionAtTopLevel_join (op p : jsstr) (ps : list jsstr) :
  plain_operator op = true -> Forall (closed_part op) (p :: ps) ->
  splitExpressionAtTopLevel (join (js " " ++ op ++ js " ") (p :: ps)) op = p :: ps.
Proof.
  intros Hop Hall. pose proof Hall as [(_ & Ht & _) _]%Forall_cons_1.
  unfold splitExpressionAtTopLevel. change (js " ") with [32%N].
  rewrite split_parts by (done || by apply trim_snoc_space). cbn [app].
  apply filter_nonempty_id. eapply Forall_impl; [exact Hall|]. by intros x (_ & _ & ?).
Qed.

Lemma splitExpressionAtTopLevel_join_witness :
  splitExpressionAtTopLevel (js "tier('a*b', p * 2)" ++ (js " " ++ js "*" ++ js " ") ++ js "(c ? 2 : 1)")
    (js "*") = [js "tier('a*b', p * 2)"; js "(c ? 2 : 1)"].
Proof.
  apply (splitExpressionAtTopLevel_join (js "*") (js "tier('a*b', p * 2)") [js "(c ? 2 : 1)"]).
  - reflexivity.
  - repeat constructor; try (vm_compute; reflexivity); discriminate.
Defined.

(** Unwrapping parentheses terminates in a text that has no outer pair left,
    is idempotent, and removes a pair put around a balanced text. *)
Theorem unwrapExpressionParens_normal_form (source : jsstr) :
  unwrap_once (unwrapExpressionParens source) = None
  /\ unwrapExpressionParens (unwrapExpressionParens source) = unwrapExpressionParens source
  /\ (balanced source 1 None = true ->
      unwrapExpressionParens (js "(" ++ source ++ js ")") = unwrapExpressionParens source).
Proof.
  split_and!.
  - apply unwrap_loop_done, length_trim.
  - apply unwrap_idemp.
  - apply unwrap_parenthesize.
Qed.
