(* ===== verification/ExpressionDisplay.v ===== *)
(** * Billing expressions: display adapters

    Models [web/src/features/usage-logs/lib/billing-expression/display.ts]: reading
    an ordered chain of priced tiers, and time-dependent tiers, off a compiled
    tree.  The chain that is displayed is proved to be the chain the evaluator
    follows. *)

From S2P Require Import Prelude JsString JsNumber JsValue JsDate.
From S2P Require Import ExpressionTypes ExpressionParser ExpressionCompiler ExpressionRuntime.

Record TokenTierCondition := { tc_var : jsstr; tc_op : jsstr; tc_value : num }.

(** [TokenTier]; [tier_prices] is an object in property order. *)
Record TokenTier := {
  tier_label : jsstr;
  tier_conditions : list TokenTierCondition;
  tier_prices : list (jsstr * num);
  tier_billingUnit : option BillingUnit;
  tier_fixedPrice : option num;
  tier_conditionText : option jsstr;
  tier_imageCount : bool
}.

Record TimeTokenTier := {
  time_tier : TokenTier;
  timeConditions : list (ExpressionNode * bool)
}.

Definition with_text (text : jsstr) (t : TokenTier) : TokenTier :=
  {| tier_label := tier_label t; tier_conditions := tier_conditions t;
     tier_prices := tier_prices t; tier_billingUnit := tier_billingUnit t;
     tier_fixedPrice := tier_fixedPrice t; tier_conditionText := Some text;
     tier_imageCount := tier_imageCount t |}.
Definition with_image_count (t : TokenTier) : TokenTier :=
  {| tier_label := tier_label t; tier_conditions := tier_conditions t;
     tier_prices := tier_prices t; tier_billingUnit := tier_billingUnit t;
     tier_fixedPrice := tier_fixedPrice t; tier_conditionText := tier_conditionText t;
     tier_imageCount := true |}.

Fixpoint flattenBinary (node : ExpressionNode) (operator : jsstr) : list ExpressionNode :=
  match node with
  | Binary _ op l r =>
      if op === operator then flattenBinary l operator ++ flattenBinary r operator else [node]
  | _ => [node]
  end.

(** One iteration of [tokenConditions]. *)
Definition token_condition (part : ExpressionNode) : option TokenTierCondition :=
  match part with
  | Binary _ op (Variable_ _ name) (Literal _ (LNumber v) _) =>
      if includes_str [js "<"; js "<="; js ">"; js ">="] op
         && includes_str [js "p"; js "c"; js "len"] name && negb (num_ltb v zero)
      then Some {| tc_var := name; tc_op := op; tc_value := v |}
      else None
  | _ => None
  end.

Definition tokenConditions (node : ExpressionNode) : option (list TokenTierCondition) :=
  mapM token_condition (flattenBinary node (js "&&")).

Definition nonnegativePriceLiteral (node : ExpressionNode) : option num :=
  match node with
  | Literal _ (LNumber v) _ => if num_leb zero v then Some v else None
  | Unary _ op (Literal _ (LNumber v) _) =>
      if (op === js "-") && num_eqb v zero then Some neg_zero else None
  | _ => None
  end.

(** [node.kind === 'literal' && node.value === 0] *)
Definition is_zero_literal (node : ExpressionNode) : bool :=
  match node with Literal _ (LNumber v) _ => num_eqb v zero | _ => false end.

(** [max(0, len - ai)] in either argument order. *)
Definition is_text_remainder (input : ExpressionNode) : bool :=
  match input with
  | Call _ name [a; b] =>
      (name === js "max") &&
      match (if is_zero_literal a then Some b else if is_zero_literal b then Some a else None) with
      | Some (Binary _ op (Variable_ _ x) (Variable_ _ y)) =>
          (op === js "-") && (x === js "len") && (y === js "ai")
      | _ => false
      end
  | _ => false
  end.

(** The variable whose price a factor carries. *)
Definition priced_variable (input : ExpressionNode) : option jsstr :=
  match input with
  | Variable_ _ name =>
      if (name !== js "len") && (name !== js "image_count") then Some name else None
  | _ => if is_text_remainder input then Some (js "p") else None
  end.

(** One iteration over the terms of a price sum: the variable and its price. *)
Definition price_term (term : ExpressionNode) : option (jsstr * num) :=
  match term with
  | Binary _ op l r =>
      if op === js "*" then
        '(input, price) ←
          match nonnegativePriceLiteral r with
          | Some price => Some (l, price)
          | None => price ← nonnegativePriceLiteral l; Some (r, price)
          end;
        variable ← priced_variable input;
        Some (variable, price)
      else None
  | _ => None
  end.

Fixpoint read_prices (terms : list ExpressionNode) (prices : list (jsstr * num))
    : option (list (jsstr * num)) :=
  match terms with
  | [] => Some prices
  | term :: terms' =>
      '(variable, price) ← price_term term;
      if has_key prices variable then None
      else read_prices terms' (set_field prices variable price)
  end.

(** [fixed(amount)] with a literal amount. *)
Definition fixed_literal (body : ExpressionNode) : option num :=
  match body with
  | Call _ name (Literal _ (LNumber amount) _ :: _) => if name === js "fixed" then Some amount else None
  | _ => None
  end.

(** The parser's arity check guarantees the second argument. *)
Definition tokenTier (node : ExpressionNode) (conditions : list TokenTierCondition)
    : option TokenTier :=
  match node with
  | Call _ name (Literal _ (LString label) _ :: body :: _) =>
      if name === js "tier" then
        match fixed_literal body with
        | Some amount =>
            Some {| tier_label := label; tier_conditions := conditions; tier_prices := [];
                    tier_billingUnit := Some unit_request; tier_fixedPrice := Some amount;
                    tier_conditionText := None; tier_imageCount := false |}
        | None =>
            prices ← read_prices (flattenBinary body (js "+")) [];
            if (length prices =? 0)%nat then None
            else Some {| tier_label := label; tier_conditions := conditions; tier_prices := prices;
                         tier_billingUnit := None; tier_fixedPrice := None;
                         tier_conditionText := None; tier_imageCount := false |}
        end
      else None
  | _ => None
  end.

(** ** [readTokenTierChain] *)

(** [ai > 0] or [ao > 0]: the name that is present. *)
Definition audio_presence (part : ExpressionNode) : list jsstr :=
  match part with
  | Binary _ op (Variable_ _ name) r =>
      if (op === js ">") && ((name === js "ai") || (name === js "ao")) && is_zero_literal r
      then [name] else []
  | _ => []
  end.

(** The audio shape [ai > 0 || ao > 0 ? tier(...) : tier(...)]. *)
Definition read_audio_pair (node : ExpressionNode) : option (list TokenTier) :=
  match node with
  | Conditional _ (Binary _ op l r) yes no =>
      if (op === js "||")
         && (length (dedupe (audio_presence l ++ audio_presence r)) =? 2)%nat then
        audio ← tokenTier yes [];
        text ← tokenTier no [];
        Some [with_text (js "Audio requests") audio; with_text (js "Text-only requests") text]
      else None
  | _ => None
  end.

(** The loop over the chain of conditionals. *)
Fixpoint read_chain (remaining : ExpressionNode) : option (list TokenTier) :=
  match remaining with
  | Conditional _ condition yes no =>
      conditions ← tokenConditions condition;
      tier ← tokenTier yes conditions;
      tiers ← read_chain no;
      Some (tier :: tiers)
  | _ => fallback ← tokenTier remaining []; Some [fallback]
  end.

Fixpoint readTokenTierChain (node : ExpressionNode) : option (list TokenTier) :=
  match read_audio_pair node with
  | Some tiers => Some tiers
  | None =>
      match node with
      | Binary _ op l r =>
          if (op === js "*") && is_image_count l then map with_image_count <$> readTokenTierChain r
          else if (op === js "*") && is_image_count r then
            map with_image_count <$> readTokenTierChain l
          else read_chain node
      | _ => read_chain node
      end
  end.

(** ** Time-dependent tiers *)

Definition PURE_FUNCTIONS : list jsstr :=
  TIME_FUNCTIONS ++ [js "min"; js "max"; js "abs"; js "ceil"; js "floor"].

Definition isTimeCondition (node : ExpressionNode) : outcome ExpressionDiagnostic bool :=
  let? dependencies := expressionDependencies node in
  Ret ((length (dep_variables dependencies) =? 0)%nat
       && existsb (includes_str TIME_FUNCTIONS) (dep_functions dependencies)
       && forallb (includes_str PURE_FUNCTIONS) (dep_functions dependencies)).

Definition condition_text (c : TokenTierCondition) : jsstr :=
  tc_var c ++ js " " ++ tc_op c ++ js " " ++ string_of_num (tc_value c).

(** The description of a path of time conditions. *)
Definition path_text (source : jsstr) (path : list (ExpressionNode * bool)) : jsstr :=
  join (js " && ")
    (map (fun step : ExpressionNode * bool =>
            let text := slice (node_start step.1) (node_end step.1) source in
            (if step.2 then js "(" else js "!(") ++ text ++ js ")") path).

(** The tiers of a leaf, under a path of time conditions. *)
Definition leaf_tiers (source : jsstr) (path : list (ExpressionNode * bool)) (tiers : list TokenTier)
    : list TimeTokenTier :=
  map (fun tier =>
         {| time_tier := with_text (join (js " && ")
              (path_text source path :: map condition_text (tier_conditions tier))) tier;
            timeConditions := path |}) tiers.

Definition time_leaf (source : jsstr) (path : list (ExpressionNode * bool)) (node : ExpressionNode)
    : option (list TimeTokenTier) :=
  tiers ← readTokenTierChain node;
  if (length path =? 0)%nat then None else Some (leaf_tiers source path tiers).

Fixpoint timeTierBranches (source : jsstr) (node : ExpressionNode)
    (path : list (ExpressionNode * bool))
    : outcome ExpressionDiagnostic (option (list TimeTokenTier)) :=
  match node with
  | Conditional _ condition yes no =>
      let? is_time := isTimeCondition condition in
      if is_time then
        let? y := timeTierBranches source yes (path ++ [(condition, true)]) in
        let? n := timeTierBranches source no (path ++ [(condition, false)]) in
        Ret (ys ← y; ns ← n; Some (ys ++ ns))
      else Ret (time_leaf source path node)
  | _ => Ret (time_leaf source path node)
  end.

Section TimePricing.
Variable new_formatter : jsstr -> option DateTimeFormat.
Variable current_time : date.

Definition tier_matches (compiled : CompiledBillingExpression) (now : date)
    (tier : TimeTokenTier) : bool :=
  forallb (fun step : ExpressionNode * bool =>
             match evaluateBillingCondition new_formatter current_time compiled step.1 now with
             | Some b => Bool.eqb b step.2
             | None => false
             end) (timeConditions tier).

Record TimePricing := { tp_tiers : list TimeTokenTier; tp_currentTiers : list TimeTokenTier }.

(** After compilation. *)
Definition time_pricing (compiled : CompiledBillingExpression) (now : option date)
    : outcome ExpressionDiagnostic (option TimePricing) :=
  let? tiers := timeTierBranches (source compiled) (ast compiled) [] in
  Ret (ts ← tiers;
       Some {| tp_tiers := ts;
               tp_currentTiers :=
                 match now with
                 | Some now => List.filter (tier_matches compiled now) ts
                 | None => []
                 end |}).


Definition readTimeTokenPricing (src : jsstr) (now : option date)
    : action cache ExpressionDiagnostic (option TimePricing) :=
  fun compiledCache =>
    match compileBillingExpression src compiledCache with
    | Ret (Ready c, compiledCache') =>
        let? r := time_pricing c now in Ret (r, compiledCache')
    | Ret (Failed _, compiledCache') => Ret (None, compiledCache')
    | Throw e => match e with end
    | OutOfFuel => OutOfFuel
    end.
End TimePricing.

Definition sample_chain_source : jsstr :=
  js "len <= 200 && p > 5 ? tier('small', p * 3 + c * 15) : tier('large', p * 6 + 22.5 * c)".

Definition parsed (src : jsstr) : ExpressionNode :=
  match parse src with Ret n => n | _ => Literal (Span 0 0) LNull None end.

Example chain_sample :
  option_map (map (fun t => (tier_label t, length (tier_conditions t), map fst (tier_prices t))))
    (readTokenTierChain (parsed sample_chain_source))
  = Some [(js "small", 2%nat, [js "p"; js "c"]); (js "large", 0%nat, [js "p"; js "c"])].
Proof. vm_compute. reflexivity. Qed.

(** ** The displayed chain and the evaluator *)

Section Chain.
Variable new_formatter : jsstr -> option DateTimeFormat.
Variable current_time : date.
Variable context : BillingSimulationContext.
Variable header_map : list (jsstr * jsstr).

Local Abbreviation val := (value_of new_formatter current_time context header_map).

(** The token counts that tier conditions read, as the context gives them. *)
Variable count : jsstr -> num.

Definition CONDITION_VARIABLES : list jsstr := [js "p"; js "c"; js "len"].

Definition counts_known : Prop := forall x, x ∈ CONDITION_VARIABLES ->
  (exists ts, tokens context = Some ts /\ assoc ts x = Some (JNum (count x)))
  /\ is_finite (count x) = true /\ num_ltb (count x) zero = false.

Definition condition_holds (c : TokenTierCondition) : bool :=
  default false (relation num_ltb num_leb (tc_op c) (count (tc_var c)) (tc_value c)).

Definition tier_applies (t : TokenTier) : bool := forallb condition_holds (tier_conditions t).

Hypothesis known : counts_known.

Lemma count_value sp x : x ∈ CONDITION_VARIABLES ->
  val (Variable_ sp x) = Ret (plain (JNum (count x))).
Proof.
  intros Hx. destruct (known x Hx) as ((ts & Hts & Hx') & Hfin & Hneg).
  rewrite value_of_eq. cbn [node_value]. unfold variable_value.
  assert (x === js "image_count" = false) as ->.
  { apply str_eqb_neq. intros ->. apply includes_str_spec in Hx. discriminate Hx. }
  rewrite Hts. cbn [mbind option_bind default]. rewrite Hx'. cbn. rewrite Hneg. cbn.
  unfold check_number. cbn. by rewrite Hfin.
Qed.

Lemma literal_value_of sp v i : wf_node (Literal sp (LNumber v) i) ->
  val (Literal sp (LNumber v) i) = Ret {| value := JNum v; integer := default false i |}.
Proof.
  intros (Hfin & _ & Hsafe)%wf_head. rewrite value_of_eq. cbn [node_value obind]. unfold check_number. cbn.
  rewrite Hfin. cbn. destruct i as [[]|]; cbn; try done. by rewrite Hsafe.
Qed.

Lemma wf_child n c : wf_node n -> c ∈ children n -> wf_node c.
Proof. intros Hwf. apply wf_children in Hwf. rewrite Forall_forall in Hwf. auto. Qed.

Lemma condition_value part c : wf_node part -> token_condition part = Some c ->
  val part = Ret (plain (JBool (condition_holds c))).
Proof.
  intros Hwf Hc. destruct part as [| | | |sp op l r|]; try done. cbn [token_condition] in Hc.
  destruct l as [|spl name| | | |]; try done. destruct r as [spr [|v| |] i| | | | |]; try done.
  destruct (_ && _) eqn:Hg; [|done]. simplify_eq.
  apply andb_true_iff in Hg as [[Hop Hname]%andb_true_iff _].
  apply includes_str_spec in Hname. rewrite value_of_eq. cbn [node_value].
  rewrite (count_value spl name Hname), (literal_value_of spr v i)
    by (eapply wf_child; [exact Hwf|]; cbn [children]; set_solver).
  apply includes_str_spec in Hop.
  repeat (apply elem_of_cons in Hop as [->|Hop]; [reflexivity|]). by apply elem_of_nil in Hop.
Qed.

Lemma conjunction_value node cs : wf_node node ->
  mapM token_condition (flattenBinary node (js "&&")) = Some cs ->
  val node = Ret (plain (JBool (forallb condition_holds cs))).
Proof.
  assert (Hone : forall n cs, wf_node n -> mapM token_condition [n] = Some cs ->
    val n = Ret (plain (JBool (forallb condition_holds cs)))).
  { intros n cs' Hwf Hm. cbn in Hm. destruct (token_condition n) as [c|] eqn:Hc; [|done].
    injection Hm as <-. rewrite (condition_value n c) by done. cbn. by rewrite andb_true_r. }
  revert cs. induction node as [| | | |sp op l r IHl IHr|] using ExpressionNode_ind';
    intros cs Hwf Hm; try by apply Hone.
  cbn [flattenBinary] in Hm. destruct (str_eqb_spec op (js "&&")) as [->|_]; [|by apply Hone].
  apply mapM_Some, Forall2_app_inv_l in Hm as (csl & csr & Hl & Hr & ->).
  apply mapM_Some in Hl, Hr.
  assert (Hwl : wf_node l) by (eapply wf_child; [exact Hwf|]; cbn [children]; set_solver).
  assert (Hwr : wf_node r) by (eapply wf_child; [exact Hwf|]; cbn [children]; set_solver).
  rewrite value_of_eq. cbn [node_value]. rewrite str_eqb_refl.
  rewrite (IHl csl), (IHr csr) by done. cbn. rewrite forallb_app.
  by destruct (forallb _ csl).
Qed.

(** A conditional of numbers adds nothing to the value of the branch it takes. *)
Lemma conditional_value sp c yes no b : val c = Ret (plain (JBool b)) ->
  val (Conditional sp c yes no) = val (if b then yes else no).
Proof.
  intros Hc. rewrite value_of_eq. cbn [node_value]. rewrite Hc. cbn [obind as_boolean plain value].
  replace (if b then val yes else val no) with (val (if b then yes else no)) by by destruct b.
  destruct (val (if b then yes else no)) as [r|e|] eqn:Hr; try done. cbn [obind].
  rewrite value_of_eq in Hr. apply obind_Ret_inv in Hr as (r' & _ & Hcheck).
  pose proof (check_number_Ret _ _ _ Hcheck) as [-> Hok]. unfold check_number.
  destruct (value r') as [| | |n| | |] eqn:Hv; try done. destruct (Hok n eq_refl) as [-> Hs].
  destruct (integer r'); [rewrite Hs by done|]; done.
Qed.

(** [branches] are the tier calls of the chain; the first applicable one decides. *)
Definition follows (node : ExpressionNode) (branches : list ExpressionNode)
    (tiers : list TokenTier) : Prop :=
  Forall2 (fun b t => tokenTier b (tier_conditions t) = Some t) branches tiers
  /\ exists i b t, branches !! i = Some b /\ tiers !! i = Some t /\ tier_applies t = true
    /\ (forall j t', (j < i)%nat -> tiers !! j = Some t' -> tier_applies t' = false)
    /\ val node = val b.

Lemma tokenTier_conditions node cs t : tokenTier node cs = Some t -> tier_conditions t = cs.
Proof.
  unfold tokenTier. destruct node as [| |sp f args| | |]; try done.
  destruct args as [|[? [label| | |] ?| | | | |] [|body rest]]; try done.
  destruct (f === js "tier"); [|done].
  destruct (fixed_literal body); [by intros [= <-]|].
  destruct (read_prices _ _) as [prices|]; [|done]. cbn. destruct (_ =? _)%nat; by intros [= <-].
Qed.

Lemma chain_follows node tiers : wf_node node -> read_chain node = Some tiers ->
  exists branches, follows node branches tiers.
Proof.
  assert (Hlast : forall n ts, (t ← tokenTier n []; Some [t]) = Some ts ->
    exists branches, follows n branches ts).
  { intros n ts H. destruct (tokenTier n []) as [t|] eqn:Ht; [|done]. injection H as <-.
    pose proof (tokenTier_conditions _ _ _ Ht) as Hcs. exists [n]. split.
    - constructor; [by rewrite Hcs|constructor].
    - exists 0%nat, n, t. split_and!; try done; [|intros j t' Hj; lia].
      unfold tier_applies. by rewrite Hcs. }
  revert tiers. induction node as [| | | | |sp c yes no _ _ IH] using ExpressionNode_ind';
    intros tiers Hwf Hchain; try by apply Hlast.
  cbn [read_chain] in Hchain. destruct (tokenConditions c) as [cs|] eqn:Hcs; [|done]. cbn in Hchain.
  destruct (tokenTier yes cs) as [t|] eqn:Ht; [|done]. cbn in Hchain.
  destruct (read_chain no) as [ts|] eqn:Hno; [|done]. injection Hchain as <-.
  pose proof (tokenTier_conditions _ _ _ Ht) as Htc.
  assert (Hwc : wf_node c) by (eapply wf_child; [exact Hwf|]; cbn [children]; set_solver).
  assert (Hwn : wf_node no) by (eapply wf_child; [exact Hwf|]; cbn [children]; set_solver).
  destruct (IH ts Hwn eq_refl) as (bs & Hbs & i & b & t0 & Hb & Ht0 & Happ & Hfirst & Hval).
  pose proof (conjunction_value c cs Hwc Hcs) as Hc.
  pose proof (conditional_value sp c yes no _ Hc) as Hcond.
  exists (yes :: bs). split; [constructor; [by rewrite Htc|done]|].
  destruct (forallb condition_holds cs) eqn:Hall.
  - exists 0%nat, yes, t. split_and!; try done; [|intros j t' Hj; lia].
    unfold tier_applies. by rewrite Htc.
  - exists (S i), b, t0. split_and!; try done; [|by rewrite Hcond].
    intros [|j] t' Hj; cbn; [|apply Hfirst; lia].
    intros [= <-]. unfold tier_applies. by rewrite Htc.
Qed.
End Chain.

(** ** Time-dependent tiers *)

Lemma isTimeCondition_shallow node : node_depth node <= 256 ->
  exists b, isTimeCondition node = Ret b.
Proof.
  intros Hd. unfold isTimeCondition.
  destruct (expressionDependencies_shallow node Hd) as (d & -> & _). by eexists.
Qed.

Lemma timeTierBranches_shallow source node path : node_depth node <= 256 ->
  exists r, timeTierBranches source node path = Ret r.
Proof.
  revert path. induction node as [| | | | |sp c yes no _ IHy IHn] using ExpressionNode_ind';
    intros path Hd; try by eexists.
  cbn [timeTierBranches]. pose proof (node_depth_children (Conditional sp c yes no)) as Hch.
  assert (Hle : forall x, x ∈ [c; yes; no] -> node_depth x <= 256)
    by (intros x Hx; specialize (Hch x Hx); lia).
  destruct (isTimeCondition_shallow c ltac:(apply Hle; set_solver)) as ([|] & ->); cbn [obind];
    [|by eexists].
  destruct (IHy (path ++ [(c, true)]) ltac:(apply Hle; set_solver)) as (y & ->).
  destruct (IHn (path ++ [(c, false)]) ltac:(apply Hle; set_solver)) as (n & ->). by eexists.
Qed.

Section TimeTheory.
(** The truth of a time condition now, [None] when it cannot be decided. *)
Variable probe : ExpressionNode -> option bool.

Definition step_matches (step : ExpressionNode * bool) : bool :=
  match probe step.1 with Some b => Bool.eqb b step.2 | None => false end.

(** The leaf that the time conditions select, with the path to it. *)
Fixpoint time_path (node : ExpressionNode) : option (list (ExpressionNode * bool) * ExpressionNode) :=
  match node with
  | Conditional _ condition yes no =>
      match isTimeCondition condition with
      | Ret true =>
          match probe condition with
          | Some b =>
              match (if b then time_path yes else time_path no) with
              | Some (path, leaf) => Some ((condition, b) :: path, leaf)
              | None => None
              end
          | None => None
          end
      | _ => Some ([], node)
      end
  | _ => Some ([], node)
  end.

Definition matching (ts : list TimeTokenTier) : list TimeTokenTier :=
  List.filter (fun t => forallb step_matches (timeConditions t)) ts.

Lemma leaf_paths source path n ts t : time_leaf source path n = Some ts -> t ∈ ts ->
  timeConditions t = path.
Proof.
  intros H Hin. unfold time_leaf in H. destruct (readTokenTierChain n); [|done].
  cbn in H. destruct (_ =? _)%nat; [done|]. injection H as <-.
  by apply list_elem_of_In, in_map_iff in Hin as (x & <- & _).
Qed.

(** What a node that is not a leaf returned. *)
Lemma branches_inv source sp c yes no path ts :
  timeTierBranches source (Conditional sp c yes no) path = Ret (Some ts) ->
  isTimeCondition c = Ret true ->
  exists ys ns, timeTierBranches source yes (path ++ [(c, true)]) = Ret (Some ys)
    /\ timeTierBranches source no (path ++ [(c, false)]) = Ret (Some ns) /\ ts = ys ++ ns.
Proof.
  intros H Hc. cbn [timeTierBranches] in H. rewrite Hc in H. cbn [obind] in H.
  apply obind_Ret_inv in H as ([ys|] & Hy & H);
    apply obind_Ret_inv in H as ([ns|] & Hn & H); injection H as H; cbn in H; simplify_eq.
  by exists ys, ns.
Qed.

Lemma branch_paths source node path ts t :
  timeTierBranches source node path = Ret (Some ts) -> t ∈ ts ->
  exists suffix, timeConditions t = path ++ suffix.
Proof.
  revert path ts. induction node as [| | | | |sp c yes no _ IHy IHn] using ExpressionNode_ind';
    intros path ts Hb Hin;
    try (injection Hb as Hb; exists []; rewrite app_nil_r; by eapply leaf_paths).
  destruct (isTimeCondition c) as [[|]|e|] eqn:Hc.
  2-4: cbn [timeTierBranches] in Hb; rewrite Hc in Hb; try done;
    injection Hb as Hb; exists []; rewrite app_nil_r; by eapply leaf_paths.
  destruct (branches_inv _ _ _ _ _ _ _ Hb Hc) as (ys & ns & Hy & Hn & ->).
  apply elem_of_app in Hin as [Hin|Hin].
  - destruct (IHy _ _ Hy Hin) as [u ->]. rewrite <- app_assoc. by eexists.
  - destruct (IHn _ _ Hn Hin) as [u ->]. rewrite <- app_assoc. by eexists.
Qed.

Lemma filter_none {A} (p : A -> bool) l : (forall x, x ∈ l -> p x = false) -> List.filter p l = [].
Proof.
  induction l as [|x l IH]; intros H; cbn [List.filter]; [done|].
  rewrite (H x) by set_solver. apply IH. intros y Hy. apply H. set_solver.
Qed.

(** No tier below a step that does not match is current. *)
Lemma mismatched_branch source node path step ts : step_matches step = false ->
  timeTierBranches source node (path ++ [step]) = Ret (Some ts) -> matching ts = [].
Proof.
  intros Hstep Hb. unfold matching. apply filter_none. intros t Hin.
  destruct (branch_paths _ _ _ _ _ Hb Hin) as [u ->].
  rewrite <- app_assoc, forallb_app. cbn [app forallb]. rewrite Hstep. apply andb_false_r.
Qed.

Lemma current_branch source node path ts p leaf :
  timeTierBranches source node path = Ret (Some ts) -> forallb step_matches path = true ->
  time_path node = Some (p, leaf) ->
  exists tiers, readTokenTierChain leaf = Some tiers
    /\ matching ts = leaf_tiers source (path ++ p) tiers.
Proof.
  assert (Hleaf : forall n path ts, time_leaf source path n = Some ts ->
    forallb step_matches path = true ->
    exists tiers, readTokenTierChain n = Some tiers /\ matching ts = leaf_tiers source (path ++ []) tiers).
  { intros n path' ts' H Hp. unfold matching. rewrite filter_all.
    - unfold time_leaf in H. destruct (readTokenTierChain n) as [tiers|]; [|done].
      cbn in H. destruct (_ =? _)%nat; [done|]. injection H as <-.
      exists tiers. by rewrite app_nil_r.
    - apply Forall_forall. intros t Hin. by rewrite (leaf_paths _ _ _ _ _ H Hin). }
  revert path ts p leaf. induction node as [| | | | |sp c yes no _ IHy IHn] using ExpressionNode_ind';
    intros path ts p leaf Hb Hp Hpath;
    try (injection Hb as Hb; injection Hpath as <- <-; by eapply Hleaf).
  cbn [time_path] in Hpath. destruct (isTimeCondition c) as [[|]|e|] eqn:Hc.
  2-4: injection Hpath as <- <-; cbn [timeTierBranches] in Hb; rewrite Hc in Hb; try done;
    injection Hb as Hb; by eapply Hleaf.
  destruct (branches_inv _ _ _ _ _ _ _ Hb Hc) as (ys & ns & Hy & Hn & ->).
  destruct (probe c) as [b|] eqn:Hprobe; [|done].
  destruct (if b then time_path yes else time_path no) as [[p' l]|] eqn:Hsub; [|done].
  injection Hpath as <- <-.
  assert (Hstep : forall b', step_matches (c, b') = Bool.eqb b b')
    by (intros b'; unfold step_matches; cbn [fst snd]; by rewrite Hprobe).
  assert (Hcur : forallb step_matches (path ++ [(c, b)]) = true).
  { rewrite forallb_app, Hp. cbn [forallb]. rewrite Hstep. by destruct b. }
  unfold matching. rewrite List.filter_app. fold (matching ys) (matching ns). destruct b.
  - rewrite (mismatched_branch source no path (c, false) ns) by (done || apply Hstep).
    rewrite app_nil_r. destruct (IHy _ _ _ _ Hy Hcur Hsub) as (tiers & Ht & ->).
    exists tiers. by rewrite <- app_assoc.
  - rewrite (mismatched_branch source yes path (c, true) ys) by (done || apply Hstep).
    destruct (IHn _ _ _ _ Hn Hcur Hsub) as (tiers & Ht & ->).
    exists tiers. by rewrite <- app_assoc.
Qed.
End TimeTheory.

(** ** Properties *)



(** Time pricing of a compiled expression never throws, and when every time
    condition on the way can be decided now, the current tiers are exactly the
    tiers of the leaf those conditions select. *)
Theorem time_pricing_current new_formatter current_time
    (src : jsstr) (c : CompiledBillingExpression) (now : date) :
  compile_uncached src = Ret (Ready c) ->
  exists r, time_pricing new_formatter current_time c (Some now) = Ret r /\
    forall tp path leaf, r = Some tp ->
      time_path (fun n => evaluateBillingCondition new_formatter current_time c n now) (ast c)
        = Some (path, leaf) ->
      exists tiers, readTokenTierChain leaf = Some tiers
        /\ tp_currentTiers tp = leaf_tiers (source c) path tiers.
Proof.
  intros Hc. unfold compile_uncached in Hc. destruct (compile_body src) eqn:Hb; simplify_eq.
  apply compile_body_ok in Hb. unfold time_pricing.
  destruct (timeTierBranches_shallow (source c) (ast c) [] (co_depth _ _ Hb)) as [r Hr].
  rewrite Hr. cbn [obind]. eexists. split; [done|]. intros tp path leaf Htp Hpath.
  destruct r as [ts|]; [|done]. cbn in Htp. injection Htp as <-. cbn [tp_currentTiers].
  exact (current_branch _ (source c) (ast c) [] ts path leaf Hr eq_refl Hpath).
Qed.

Definition sample_time_source : jsstr :=
  js "hour('UTC') < 6 ? tier('night', p * 1 + c * 2) : tier('day', p * 2 + c * 4)".
Definition sample_time_compiled : CompiledBillingExpression :=
  match compile_uncached sample_time_source with Ret (Ready c) => c | _ => sample_compiled end.

Lemma time_pricing_current_witness :
  exists r, time_pricing (fun _ => None) None sample_time_compiled (Some (Some 1709210096000)) = Ret r /\
    forall tp path leaf, r = Some tp ->
      time_path (fun n => evaluateBillingCondition (fun _ => None) None sample_time_compiled n
        (Some 1709210096000)) (ast sample_time_compiled) = Some (path, leaf) ->
      exists tiers, readTokenTierChain leaf = Some tiers
        /\ tp_currentTiers tp = leaf_tiers (source sample_time_compiled) path tiers.
Proof.
  apply (time_pricing_current _ _ sample_time_source). vm_compute. reflexivity.
Defined.

Example time_pricing_sample :
  match time_pricing (fun _ => None) None sample_time_compiled (Some (Some 1709210096000)) with
  | Ret (Some tp) => map (fun t => tier_label (time_tier t)) (tp_currentTiers tp)
  | _ => []
  end = [js "day"].
Proof. vm_compute. reflexivity. Qed.
