(* ===== verification/BillingExpr.v ===== *)
(** * Billing expressions: tier and request rule parsing for display

    Models [web/src/features/usage-logs/lib/billing-expr.ts]: the registry of
    priced variables, the tiers that a log row displays, the request rule parser
    (its regular expressions are values of [Regex.regex], matched with the
    backtracking semantics), and the split of an expression into its price and
    its request rules.  [JSON.parse] may throw a [SyntaxError], so the request
    rule parser returns an [outcome]. *)

From S2P Require Import Prelude JsString JsNumber JsValue JsDate Regex.
From S2P Require Import ExpressionTypes ExpressionParser ExpressionCompiler ExpressionRuntime.
From S2P Require Import ExpressionStructure ExpressionDisplay.

(** ** The variable registry *)

Inductive BillingSide := side_input | side_output | side_condition.

Record BillingVar := {
  bv_key : jsstr;
  bv_field : option jsstr;
  bv_tierField : option jsstr;
  bv_label : jsstr;
  bv_shortLabel : jsstr;
  bv_side : BillingSide;
  bv_isBase : bool;
  bv_isConditionOnly : bool;
  bv_group : option jsstr
}.

Definition priced (key field tierField label shortLabel : string) (side : BillingSide)
    (isBase : bool) (group : option jsstr) : BillingVar :=
  {| bv_key := js key; bv_field := Some (js field); bv_tierField := Some (js tierField);
     bv_label := js label; bv_shortLabel := js shortLabel; bv_side := side;
     bv_isBase := isBase; bv_isConditionOnly := false; bv_group := group |}.

Definition BILLING_VARS : list BillingVar :=
  let cache := Some (js "cache") in
  let media := Some (js "media") in
  [ priced "p" "inputPrice" "input_unit_cost" "Input price" "Input" side_input true None;
    priced "c" "outputPrice" "output_unit_cost" "Completion price" "Output" side_output true None;
    {| bv_key := js "len"; bv_field := None; bv_tierField := None; bv_label := js "Input length";
       bv_shortLabel := js "Length"; bv_side := side_condition; bv_isBase := false;
       bv_isConditionOnly := true; bv_group := None |};
    priced "cr" "cacheReadPrice" "cache_read_unit_cost" "Cache read price" "Cache Read"
      side_input false cache;
    priced "cc" "cacheCreatePrice" "cache_create_unit_cost" "Cache create price" "Cache Write"
      side_input false cache;
    priced "img_cr" "imageCachePrice" "image_cache_unit_cost" "Image cache input price" "Image Cache"
      side_input false cache;
    priced "cc1h" "cacheCreate1hPrice" "cache_create_1h_unit_cost" "Cache create (1h) price"
      "Cache Write (1h)" side_input false cache;
    priced "img" "imagePrice" "image_unit_cost" "Image input price" "Image In" side_input false media;
    priced "img_o" "imageOutputPrice" "image_output_unit_cost" "Image output price" "Image Out"
      side_output false media;
    priced "ai" "audioInputPrice" "audio_input_unit_cost" "Audio input price" "Audio In"
      side_input false media;
    priced "ao" "audioOutputPrice" "audio_output_unit_cost" "Audio output price" "Audio Out"
      side_output false media ].

Definition BILLING_PRICING_VARS : list BillingVar :=
  List.filter (fun v => negb (bv_isConditionOnly v)) BILLING_VARS.

(** [v.field as string] of a variable that has a price field *)
Definition BILLING_VAR_KEY_TO_FIELD : list (jsstr * jsstr) :=
  map (fun v => (bv_key v, default (js "null") (bv_field v))) BILLING_PRICING_VARS.

(** ** Tiers *)

(** [ParsedTier]: the named properties, then the price fields in order. *)
Record ParsedTier := {
  pt_label : jsstr;
  pt_imageCount : bool;
  pt_conditions : list TokenTierCondition;
  pt_fixed : option (option num);
  pt_conditionText : option jsstr;
  pt_prices : list (jsstr * num)
}.

Definition mapTokenTier (tier : TokenTier) : ParsedTier :=
  {| pt_label := tier_label tier;
     pt_imageCount := tier_imageCount tier;
     pt_conditions := tier_conditions tier;
     pt_fixed :=
       match tier_billingUnit tier with
       | Some unit_request => Some (tier_fixedPrice tier)
       | _ => None
       end;
     pt_conditionText :=
       match tier_conditionText tier with
       | Some text => if nonempty text then Some text else None
       | None => None
       end;
     pt_prices :=
       fold_left (fun fields kp =>
           set_field fields (default (js "undefined") (assoc BILLING_VAR_KEY_TO_FIELD kp.1)) kp.2)
         (tier_prices tier) [] |}.

Section Tiers.
Variable new_formatter : jsstr -> option DateTimeFormat.
Variable current_time : date.

Definition parseTiersFromExpr (exprStr : jsstr)
    : action cache ExpressionDiagnostic (list ParsedTier) :=
  if negb (nonempty exprStr) then ret []
  else fun compiledCache =>
    match compileBillingExpression exprStr compiledCache with
    | Ret (Ready compiled, compiledCache) =>
        match readTokenTierChain (ast compiled) with
        | Some canonical => Ret (map mapTokenTier canonical, compiledCache)
        | None =>
            (let! pricing := readTimeTokenPricing new_formatter current_time exprStr None in
             ret (match pricing with
                  | Some p => map (fun t => mapTokenTier (time_tier t)) (tp_tiers p)
                  | None => []
                  end)) compiledCache
        end
    | Ret (Failed _, compiledCache) => Ret ([], compiledCache)
    | Throw e => match e with end
    | OutOfFuel => OutOfFuel
    end.
End Tiers.

(** [s.replaceAll(r, t)] for the comparison signs: an ASCII or fullwidth sign with
    an optional equals sign, or the single-character form. *)
Fixpoint fold_sign (ascii fullwidth single : N) (s : jsstr) : jsstr :=
  match s with
  | [] => []
  | c :: s' =>
      if (c =? ascii)%N || (c =? fullwidth)%N then
        ascii :: match s' with
                 | c' :: s'' =>
                     if (c' =? ch "=")%N || (c' =? 0xFF1D)%N then fold_sign ascii fullwidth single s''
                     else fold_sign ascii fullwidth single s'
                 | [] => []
                 end
      else if (c =? single)%N then ascii :: fold_sign ascii fullwidth single s'
      else c :: fold_sign ascii fullwidth single s'
  end.

Definition normalizeTierLabel (label : option jsstr) : jsstr :=
  match label with
  | None => []
  | Some label =>
      let s := fold_sign (ch "<") 0xFF1C 0x2264 label in
      let s := fold_sign (ch ">") 0xFF1E 0x2265 s in
      to_lower (List.filter (fun c => negb (is_space c)) s)
  end.

(** ** Request rule conditions *)

Definition TIME_FUNCS : list jsstr := TIME_FUNCTIONS.

Inductive RequestCondition :=
| TimeCondition (timeFunc timezone mode value rangeStart rangeEnd : jsstr)
| ParamHeaderCondition (source path mode value : jsstr).

Record RequestRuleGroup := { rg_conditions : list RequestCondition; rg_multiplier : jsstr }.

Definition MATCH_EQ := js "eq".
Definition MATCH_CONTAINS := js "contains".
Definition MATCH_GT := js "gt".
Definition MATCH_GTE := js "gte".
Definition MATCH_LT := js "lt".
Definition MATCH_LTE := js "lte".
Definition MATCH_EXISTS := js "exists".
Definition MATCH_RANGE := js "range".

(** What the modelled code throws: the [SyntaxError] of [JSON.parse]. *)
Inductive SyntaxError := syntax_error.

Definition splitTopLevelMultiply (expr : jsstr) : list jsstr := splitExpressionAtTopLevel expr (js "*").
Definition splitTopLevelAnd (expr : jsstr) : list jsstr := splitExpressionAtTopLevel expr (js "&&").

(** *** Patterns *)

Definition rtext (s : string) : regex := RText (js s).
Definition rquote : regex := RSet (N.eqb DQUOTE).
Definition rdigits : regex := RSet is_digit.
Definition not_quote : N -> bool := fun c => negb (c =? DQUOTE)%N.

(** [[\d.eE+-]] *)
Definition number_unit (c : N) : bool :=
  is_digit c || (c =? ch ".")%N || (c =? ch "e")%N || (c =? ch "E")%N
  || (c =? ch "+")%N || (c =? ch "-")%N.
Definition rnumber : regex := RPlus (RSet number_unit).

Definition rexponent : regex :=
  ROpt (RSeqs [RSet (fun c => (c =? ch "e")%N || (c =? ch "E")%N);
               ROpt (RSet (fun c => (c =? ch "+")%N || (c =? ch "-")%N)); RPlus rdigits]).

Definition NUMERIC_LITERAL_REGEX : regex :=
  RSeqs [ROpt (rtext "-");
         RAlt (RSeqs [RPlus rdigits; ROpt (rtext "."); RStar rdigits]) (RSeq (rtext ".") (RPlus rdigits));
         rexponent].

Definition is_numeric_literal (text : jsstr) : bool :=
  match full_match NUMERIC_LITERAL_REGEX text with Some _ => true | None => false end.

Definition rfunc : regex := RAlts (map RText TIME_FUNCS).

(** The two calls of a range, [fn("tz") >= a && fn("tz") < b] (or [||]). *)
Definition time_range_body : regex :=
  RSeqs [RGroup 1 rfunc; rtext "("; rquote; RGroup 2 (RPlus (RSet not_quote)); rquote;
         rtext ") >= "; RGroup 3 rnumber; rtext " "; RAlt (rtext "&&") (rtext "||"); rtext " ";
         RBack 1; rtext "("; rquote; RBack 2; rquote; rtext ") < "; RGroup 4 rnumber].

Definition time_scalar : regex :=
  RSeqs [RGroup 1 rfunc; rtext "("; rquote; RGroup 2 (RPlus (RSet not_quote)); rquote;
         rtext ") "; RGroup 3 (RAlts [rtext "=="; rtext ">="; rtext "<"]); rtext " ";
         RGroup 4 rnumber].

(** [name("...")] with the name and the path captured *)
Definition rcall (name : regex) (i : nat) : regex :=
  RSeqs [name; rtext "("; rquote; RGroup i (RPlus (RSet not_quote)); rquote; rtext ")"].

(** A JSON-like quoted string. *)
Definition rjson : regex :=
  RSeqs [rquote;
         RStar (RAlt (RSet (fun c => not_quote c && negb (c =? ch "\")%N)) (RSeq (rtext "\") RDot));
         rquote].

Definition header_exists : regex := RSeqs [rcall (rtext "header") 1; rtext " != "; rquote; rquote].
Definition param_exists : regex := RSeqs [rcall (rtext "param") 1; rtext " != nil"].
Definition header_contains : regex :=
  RSeqs [rtext "has("; rcall (rtext "header") 1; rtext ", "; RGroup 2 rjson; rtext ")"].
Definition param_contains : regex :=
  RSeqs [rcall (rtext "param") 1; rtext " != nil && has("; rcall (rtext "param") 2; rtext ", ";
         RGroup 3 rjson; rtext ")"].
Definition param_compare : regex :=
  RSeqs [rcall (rtext "param") 1; rtext " != nil && "; rcall (rtext "param") 2; rtext " ";
         RGroup 3 (RAlts [rtext ">"; rtext ">="; rtext "<"; rtext "<="]); rtext " ";
         RGroup 4 rnumber].
Definition equality : regex :=
  RSeqs [rcall (RGroup 1 (RAlt (rtext "param") (rtext "header"))) 2; rtext " == ";
         RGroup 3 (RPlus RDot)].
Definition rule_group : regex :=
  RSeqs [rtext "("; RGroup 1 (RPlus RAny); rtext " ? "; RGroup 2 rnumber; rtext " : 1)"].

(** *** Parsers *)

Definition parseExprLiteral (raw : jsstr) : option jsval :=
  let text := trim raw in
  if (text === js "true") || (text === js "false") then Some (JStr text)
  else if is_numeric_literal text then Some (JStr text)
  else
    match json_parse text with
    | Some JNull => None
    | v => v
    end.

Definition TIME_FUNC_RANGES : list (jsstr * (Z * Z)) :=
  [(js "hour", (0, 23)); (js "minute", (0, 59)); (js "weekday", (0, 6)); (js "month", (1, 12));
   (js "day", (1, 31))].

Definition isTimeValueInRange (timeFunc text : jsstr) : bool :=
  if negb (is_numeric_literal text) then false
  else
    let value := number_of_string text in
    if negb (is_integer value) then false
    else
      match assoc TIME_FUNC_RANGES timeFunc with
      | Some (min, max) => num_leb (num_of_Z min) value && num_leb value (num_of_Z max)
      | None => false
      end.

(** The range pattern, bare or in parentheses. *)
Definition match_time_range (expr : jsstr) : option captures :=
  match full_match time_range_body expr with
  | Some m => Some m
  | None => full_match (RSeqs [rtext "("; time_range_body; rtext ")"]) expr
  end.

Definition time_mode (op : jsstr) : jsstr :=
  default MATCH_EQ (assoc [(js "==", MATCH_EQ); (js ">=", MATCH_GTE); (js "<", MATCH_LT)] op).

Definition tryParseTimeCondition (expr : jsstr) : option RequestCondition :=
  match match_time_range expr with
  | Some m =>
      if negb (isTimeValueInRange (group m 1) (group m 3))
         || negb (isTimeValueInRange (group m 1) (group m 4)) then None
      else Some (TimeCondition (group m 1) (group m 2) MATCH_RANGE [] (group m 3) (group m 4))
  | None =>
      match full_match time_scalar expr with
      | Some m =>
          if negb (isTimeValueInRange (group m 1) (group m 4)) then None
          else Some (TimeCondition (group m 1) (group m 2) (time_mode (group m 3)) (group m 4) [] [])
      | None => None
      end
  end.

(** [JSON.parse(text) as string] *)
Definition json_parse_string (text : jsstr) : outcome SyntaxError jsstr :=
  match json_parse text with Some v => Ret (string_of_val v) | None => Throw syntax_error end.

Definition compare_mode (op : jsstr) : jsstr :=
  default (js "undefined")
    (assoc [(js ">", MATCH_GT); (js ">=", MATCH_GTE); (js "<", MATCH_LT); (js "<=", MATCH_LTE)] op).

(** The last pattern, [param("...") == literal]. *)
Definition parse_equality (expr : jsstr) : option RequestCondition :=
  m ← full_match equality expr;
  parsedValue ← parseExprLiteral (group m 3);
  Some (ParamHeaderCondition (group m 1) (group m 2) MATCH_EQ (string_of_val parsedValue)).

Definition parse_compare (expr : jsstr) : option RequestCondition :=
  m ← full_match param_compare expr;
  if group m 1 === group m 2 then
    Some (ParamHeaderCondition (js "param") (group m 1) (compare_mode (group m 3)) (group m 4))
  else None.

(** [has(param(...), "...")] guarded by an existence test on the same path. *)
Definition match_param_contains (expr : jsstr) : option captures :=
  m ← full_match param_contains expr; if group m 1 === group m 2 then Some m else None.

Definition tryParseRequestCondition (expr : jsstr)
    : outcome SyntaxError (option RequestCondition) :=
  match tryParseTimeCondition expr with
  | Some tc => Ret (Some tc)
  | None =>
      match full_match header_exists expr with
      | Some m => Ret (Some (ParamHeaderCondition (js "header") (group m 1) MATCH_EXISTS []))
      | None =>
          match full_match param_exists expr with
          | Some m => Ret (Some (ParamHeaderCondition (js "param") (group m 1) MATCH_EXISTS []))
          | None =>
              match full_match header_contains expr with
              | Some m =>
                  let? value := json_parse_string (group m 2) in
                  Ret (Some (ParamHeaderCondition (js "header") (group m 1) MATCH_CONTAINS value))
              | None =>
                  match match_param_contains expr with
                  | Some m =>
                      let? value := json_parse_string (group m 3) in
                      Ret (Some (ParamHeaderCondition (js "param") (group m 1) MATCH_CONTAINS value))
                  | None =>
                      match parse_compare expr with
                      | Some c => Ret (Some c)
                      | None => Ret (parse_equality expr)
                      end
                  end
              end
          end
      end
  end.

Definition tryParseTimeRangePair (lower upper : jsstr) : option RequestCondition :=
  match tryParseTimeCondition lower, tryParseTimeCondition upper with
  | Some (TimeCondition fa za ma va _ _), Some (TimeCondition fb zb mb vb _ _) =>
      if (fa !== fb) || (za !== zb) then None
      else if (ma !== MATCH_GTE) || (mb !== MATCH_LT) then None
      else Some (TimeCondition fa za MATCH_RANGE [] va vb)
  | _, _ => None
  end.

(** The loop over the conjuncts; a merged pair takes two of them. *)
Fixpoint parse_conjuncts (andParts : list jsstr)
    : outcome SyntaxError (option (list RequestCondition)) :=
  match andParts with
  | [] => Ret (Some [])
  | raw :: rest =>
      let part := trim raw in
      let single :=
        let? condition := tryParseRequestCondition part in
        match condition with
        | Some c => let? cs := parse_conjuncts rest in Ret (cons c <$> cs)
        | None => Ret None
        end in
      match rest with
      | raw' :: rest' =>
          let next := trim raw' in
          match (if nonempty next then tryParseTimeRangePair part next else None) with
          | Some merged => let? cs := parse_conjuncts rest' in Ret (cons merged <$> cs)
          | None => single
          end
      | [] => single
      end
  end.

Definition tryParseRequestConditions (conditionStr : jsstr)
    : outcome SyntaxError (option (list RequestCondition)) :=
  match tryParseTimeCondition (trim conditionStr) with
  | Some wholeTimeCond => Ret (Some [wholeTimeCond])
  | None =>
      let? conditions := parse_conjuncts (splitTopLevelAnd conditionStr) in
      Ret (match conditions with Some [] => None | c => c end)
  end.

Definition tryParseRuleGroupFactor (part : jsstr) : outcome SyntaxError (option RequestRuleGroup) :=
  match full_match rule_group part with
  | None => Ret None
  | Some m =>
      let? conditions := tryParseRequestConditions (group m 1) in
      Ret ((fun cs => {| rg_conditions := cs; rg_multiplier := group m 2 |}) <$> conditions)
  end.

Fixpoint parse_factors (parts : list jsstr) : outcome SyntaxError (option (list RequestRuleGroup)) :=
  match parts with
  | [] => Ret (Some [])
  | part :: parts' =>
      let? g := tryParseRuleGroupFactor part in
      match g with
      | Some g => let? gs := parse_factors parts' in Ret (cons g <$> gs)
      | None => Ret None
      end
  end.

Definition tryParseRequestRuleExpr (expr : jsstr) : outcome SyntaxError (option (list RequestRuleGroup)) :=
  let trimmed := trim expr in
  if negb (nonempty trimmed) then Ret (Some []) else parse_factors (splitTopLevelMultiply trimmed).

(** ** Splitting an expression *)

Definition unwrapOuterParens (expr : jsstr) : jsstr := unwrapExpressionParens expr.

Record SplitExpression := { billingExpr : jsstr; requestRuleExpr : jsstr }.

(** [traced]: the compiled part is itself a request rule. *)
Definition is_traced (compiled : CompilationResult) : bool :=
  match compiled with
  | Ready c => existsb (fun rule => same_node (rr_node rule) (ast c)) (requestRules c)
  | Failed _ => false
  end.

(** The classification of one factor. *)
Definition is_rule_part (part : jsstr) : action cache SyntaxError bool :=
  let! parsed := lift (tryParseRequestRuleExpr part) in
  let! compiled := fun c =>
    match compileBillingExpression part c with
    | Ret r => Ret r
    | Throw e => match e with end
    | OutOfFuel => OutOfFuel
    end in
  ret (match parsed with Some (_ :: _) => true | _ => is_traced compiled end).

(** The [forEach] over the factors: the rule factors and the base factors. *)
Fixpoint classify (parts : list jsstr) : action cache SyntaxError (list jsstr * list jsstr) :=
  match parts with
  | [] => ret ([], [])
  | part :: parts' =>
      let! is_rule := is_rule_part part in
      let! ' (ruleParts, baseParts) := classify parts' in
      ret (if is_rule then (part :: ruleParts, baseParts) else (ruleParts, part :: baseParts))
  end.

Definition is_quantity (part : jsstr) : bool := unwrapOuterParens part === js "image_count".

Definition splitBillingExprAndRequestRules (expr : jsstr) : action cache SyntaxError SplitExpression :=
  let trimmed := trim expr in
  if negb (nonempty trimmed) then ret {| billingExpr := []; requestRuleExpr := [] |}
  else
    let parts := splitTopLevelMultiply trimmed in
    if (length parts <=? 1)%nat then ret {| billingExpr := trimmed; requestRuleExpr := [] |}
    else
      let! ' (ruleParts, baseParts) := classify parts in
      let quantityParts := List.filter is_quantity baseParts in
      if (length ruleParts =? 0)%nat
         || negb (length baseParts - length quantityParts =? 1)%nat
      then ret {| billingExpr := trimmed; requestRuleExpr := [] |}
      else ret {| billingExpr := join (js " * ") (map unwrapOuterParens baseParts);
                  requestRuleExpr := join (js " * ") ruleParts |}.

Definition Q (s : string) : jsstr := [DQUOTE] ++ js s ++ [DQUOTE].

Example parse_range_sample :
  tryParseTimeCondition (js "hour(" ++ Q "Asia/Tokyo" ++ js ") >= 9 && hour(" ++ Q "Asia/Tokyo" ++ js ") < 18")
  = Some (TimeCondition (js "hour") (js "Asia/Tokyo") MATCH_RANGE [] (js "9") (js "18")).
Proof. vm_compute. reflexivity. Qed.

(** A guarded [has(param(...))] is split at its [&&] before the pattern that
    recognises it is tried, so a rule of that shape is not parsed. *)
Example guarded_contains_not_parsed :
  let guarded := js "param(" ++ Q "a.b" ++ js ") != nil && has(param(" ++ Q "a.b" ++ js "), "
                   ++ Q "x" ++ js ")" in
  tryParseRequestCondition guarded
    = Ret (Some (ParamHeaderCondition (js "param") (js "a.b") MATCH_CONTAINS (js "x")))
  /\ tryParseRequestConditions guarded = Ret None.
Proof. vm_compute. split; reflexivity. Qed.

Example split_rules_sample :
  match splitBillingExprAndRequestRules
    (js "(tier('a', p * 2)) * image_count * (header(" ++ Q "x" ++ js ") != " ++ Q "" ++ js " ? 1.5 : 1)") [] with
  | Ret (r, _) => (billingExpr r, requestRuleExpr r)
  | _ => ([], [])
  end = (js "tier('a', p * 2) * image_count", js "(header(" ++ Q "x" ++ js ") != " ++ Q "" ++ js " ? 1.5 : 1)").
Proof. vm_compute. reflexivity. Qed.

(** A string the pattern accepts and [JSON.parse] does not: the exception escapes. *)
Example split_throws :
  splitBillingExprAndRequestRules
    (js "tier('a', p * 2) * (has(header(" ++ Q "x" ++ js "), " ++ Q "\q" ++ js ") ? 2 : 1)") []
  = Throw syntax_error.
Proof. vm_compute. reflexivity. Qed.

(** ** Time conditions *)

(** The text of a range, as the rule editor writes it; [conj] is [&&] or [||]. *)
Definition range_text (fn tz conj a b s : jsstr) : jsstr :=
  fn ++ js "(" ++ [DQUOTE] ++ tz ++ [DQUOTE] ++ js ") >= " ++ a ++ js " " ++ conj ++ js " "
  ++ fn ++ js "(" ++ [DQUOTE] ++ tz ++ [DQUOTE] ++ js ") < " ++ b ++ s.

Lemma match_func {A} i fn s caps (k : jsstr -> captures -> option A) x :
  includes_str TIME_FUNCS fn = true -> k s ((i, fn) :: caps) = Some x ->
  rmatch (RGroup i rfunc) (fn ++ s) caps k = Some x.
Proof.
  intros Hfn%includes_str_spec Hk. rewrite rmatch_group.
  assert (Hk' : (fun s' caps' => k s' ((i, take (length (fn ++ s) - length s') (fn ++ s)) :: caps'))
    s caps = Some x) by (cbv beta; by rewrite take_matched).
  revert Hk'. generalize (fun (s' : jsstr) caps' =>
    k s' ((i, take (length (fn ++ s) - length s') (fn ++ s)) :: caps')) as k'. clear Hk.
  intros k' Hk'. unfold rfunc, TIME_FUNCS, TIME_FUNCTIONS. cbn [map RAlts].
  repeat (apply elem_of_cons in Hfn as [->|Hfn];
    [repeat first [apply rm_alt_left, rm_text; exact Hk' | apply rm_text; exact Hk'
                  |apply rm_alt_right; [by apply rmatch_text_mismatch|]]|]).
  by apply elem_of_nil in Hfn.
Qed.

Definition range_captures (fn tz a b : jsstr) : captures := [(4, b); (3, a); (2, tz); (1, fn)]%nat.

Section Range.
Context (fn tz conj a b : jsstr).
Hypothesis fn_known : includes_str TIME_FUNCS fn = true.
Hypothesis tz_text : nonempty tz = true /\ forallb not_quote tz = true.
Hypothesis conj_known : conj = js "&&" \/ conj = js "||".
Hypothesis a_text : nonempty a = true /\ forallb number_unit a = true.
Hypothesis b_text : nonempty b = true /\ forallb number_unit b = true.

Lemma match_range_body {A} s (k : jsstr -> captures -> option A) x :
  stops number_unit s = true -> k s (range_captures fn tz a b) = Some x ->
  rmatch time_range_body (range_text fn tz conj a b s) [] k = Some x.
Proof.
  intros Hs Hk. destruct tz_text, a_text, b_text.
  unfold time_range_body, range_text, RSeqs, rtext, rquote, rnumber.
  apply rm_seq, match_func; [done|]. apply rm_seq, rm_text.
  apply rm_seq, rm_set; [done|]. apply rm_seq, rm_group_plus; [done..|].
  apply rm_seq, rm_set; [done|]. apply rm_seq, rm_text.
  apply rm_seq, rm_group_plus; [done..|]. apply rm_seq, rm_text.
  apply rm_seq.
  assert (Halt : forall t (k' : jsstr -> captures -> option A) caps, k' t caps = Some x ->
    rmatch (RAlt (RText (js "&&")) (RText (js "||"))) (conj ++ t) caps k' = Some x).
  { intros t k' caps Hk'. destruct conj_known as [-> | ->].
    - by apply rm_alt_left, rm_text.
    - apply rm_alt_right; [by apply rmatch_text_mismatch|by apply rm_text]. }
  apply Halt. apply rm_seq, rm_text.
  apply rm_seq, rm_back; [done|]. apply rm_seq, rm_text.
  apply rm_seq, rm_set; [done|]. apply rm_seq, rm_back; [done|].
  apply rm_seq, rm_set; [done|]. apply rm_seq, rm_text.
  apply rm_seq, rm_group_plus; [done..|]. by apply rm_empty.
Qed.

Lemma match_bare_range : match_time_range (range_text fn tz conj a b [])
  = Some (range_captures fn tz a b).
Proof. unfold match_time_range, full_match. by rewrite (match_range_body [] _ (range_captures fn tz a b)). Qed.

Lemma match_paren_range : match_time_range (js "(" ++ range_text fn tz conj a b (js ")"))
  = Some (range_captures fn tz a b).
Proof.
  unfold match_time_range, full_match.
  assert (rmatch time_range_body (js "(" ++ range_text fn tz conj a b (js ")")) []
    (fun s' caps => match s' with [] => Some caps | _ => None end) = None) as -> by reflexivity.
  unfold RSeqs. apply rm_seq, rm_text, rm_seq, match_range_body; [done|].
  apply rm_seq. change (js ")") with (js ")" ++ []). unfold rtext. apply rm_text. by apply rm_empty.
Qed.
End Range.

(** What a displayed time condition promises: a time function, and bounds that are
    integers in the function's range. *)
Definition value_in_range (fn text : jsstr) : Prop :=
  exists lo hi, assoc TIME_FUNC_RANGES fn = Some (lo, hi)
    /\ is_integer (number_of_string text) = true
    /\ num_leb (num_of_Z lo) (number_of_string text) = true
    /\ num_leb (number_of_string text) (num_of_Z hi) = true.

Definition time_condition_ok (c : RequestCondition) : Prop :=
  match c with
  | TimeCondition fn _ mode v a b =>
      (mode = MATCH_RANGE /\ value_in_range fn a /\ value_in_range fn b)
      \/ (mode ∈ [MATCH_EQ; MATCH_GTE; MATCH_LT] /\ value_in_range fn v)
  | ParamHeaderCondition _ _ _ _ => False
  end.

Lemma isTimeValueInRange_spec fn text : isTimeValueInRange fn text = true -> value_in_range fn text.
Proof.
  unfold isTimeValueInRange, value_in_range. destruct (is_numeric_literal text); [|done]. cbn [negb].
  destruct (is_integer _) eqn:Hi; [|done]. cbn [negb].
  destruct (assoc TIME_FUNC_RANGES fn) as [[lo hi]|]; [|done].
  rewrite andb_true_iff. intros [? ?]. eauto 10.
Qed.

Lemma time_mode_spec op : time_mode op ∈ [MATCH_EQ; MATCH_GTE; MATCH_LT].
Proof.
  unfold time_mode. rewrite !assoc_cons.
  destruct (_ === _); [cbn [default]; set_solver|]. destruct (_ === _); [cbn [default]; set_solver|].
  destruct (_ === _); cbn [default]; set_solver.
Qed.

Lemma tryParseTimeCondition_ok expr c : tryParseTimeCondition expr = Some c -> time_condition_ok c.
Proof.
  unfold tryParseTimeCondition. destruct (match_time_range expr) as [m|].
  - destruct (_ || _) eqn:Hr; [done|]. rewrite orb_false_iff, !negb_false_iff in Hr.
    destruct Hr as [Ha Hb]. intros [= <-]. left.
    split_and!; [done|by apply isTimeValueInRange_spec..].
  - destruct (full_match time_scalar expr) as [m|]; [|done].
    destruct (isTimeValueInRange _ _) eqn:Hr; [|done]. intros [= <-]. right.
    split; [apply time_mode_spec|by apply isTimeValueInRange_spec].
Qed.

Lemma tryParseTimeRangePair_ok lower upper c :
  tryParseTimeRangePair lower upper = Some c -> time_condition_ok c.
Proof.
  unfold tryParseTimeRangePair.
  destruct (tryParseTimeCondition lower) as [[fa za ma va ra sa|]|] eqn:Ha; try done.
  destruct (tryParseTimeCondition upper) as [[fb zb mb vb rb sb|]|] eqn:Hb; try done.
  destruct (str_eqb_spec fa fb) as [<-|]; [|done].
  destruct (str_eqb_spec za zb) as [<-|]; [|done]. cbn [negb orb].
  destruct (str_eqb_spec ma MATCH_GTE) as [->|]; [|done].
  destruct (str_eqb_spec mb MATCH_LT) as [->|]; [|done]. intros [= <-]. left.
  apply tryParseTimeCondition_ok in Ha as [[Hm _]|[_ Ha]]; [discriminate Hm|].
  apply tryParseTimeCondition_ok in Hb as [[Hm _]|[_ Hb]]; [discriminate Hm|]. done.
Qed.

(** ** The split *)

(** Whether a factor is a request rule; no cache involved. *)
Definition rule_part (part : jsstr) : Prop :=
  (exists g gs, tryParseRequestRuleExpr part = Ret (Some (g :: gs)))
  \/ exists r, compile_uncached part = Ret r /\ is_traced r = true.

Lemma is_rule_part_spec part c : cache_ok c ->
  match is_rule_part part c with
  | Ret (b, c') => cache_ok c' /\ (b = true <-> rule_part part)
  | Throw e => tryParseRequestRuleExpr part = Throw e
  | OutOfFuel => tryParseRequestRuleExpr part = OutOfFuel
  end.
Proof.
  intros Hok. unfold is_rule_part, bind, lift, ret.
  destruct (tryParseRequestRuleExpr part) as [parsed|e|] eqn:Hp; [|done..].
  destruct (compile_transparent part c Hok) as (r & c' & -> & Hr & Hok' & _).
  split; [done|]. unfold rule_part. rewrite Hp.
  destruct parsed as [[|g gs]|].
  - split; [by eauto|]. intros [(?&?&?)|(r' & Hr' & Ht)]; [done|]. congruence.
  - split; [intros _; left; eauto|done].
  - split; [by eauto|]. intros [(?&?&?)|(r' & Hr' & Ht)]; [done|]. congruence.
Qed.

Lemma classify_spec parts c : cache_ok c ->
  match classify parts c with
  | Ret ((rules, bases), c') => cache_ok c' /\ rules ++ bases ≡ₚ parts
      /\ sublist rules parts /\ sublist bases parts
      /\ Forall rule_part rules /\ Forall (fun p => ~ rule_part p) bases
  | Throw e => exists part, part ∈ parts /\ tryParseRequestRuleExpr part = Throw e
  | OutOfFuel => exists part, part ∈ parts /\ tryParseRequestRuleExpr part = OutOfFuel
  end.
Proof.
  revert c. induction parts as [|part parts IH]; intros c Hok; cbn [classify].
  { unfold ret. split_and!; done || constructor. }
  unfold bind at 1. pose proof (is_rule_part_spec part c Hok) as Hpart.
  destruct (is_rule_part part c) as [[b c1]|e|]; [|exists part; split; [set_solver|done]..].
  destruct Hpart as [Hok1 Hb]. specialize (IH c1 Hok1). unfold bind, ret.
  destruct (classify parts c1) as [[[rules bases] c2]|e|];
    [|destruct IH as (p & ? & ?); exists p; split; [set_solver|done]..].
  destruct IH as (Hok2 & Hperm & Hsr & Hsb & Hr & Hbase). destruct b.
  - split_and!; [done|by rewrite <- Hperm|by constructor|by constructor| |done].
    constructor; [by apply Hb|done].
  - split_and!; [done| |by constructor|by constructor|done|].
    + rewrite <- Hperm. by rewrite Permutation_middle.
    + constructor; [|done]. intros Hp%Hb. done.
Qed.

Lemma json_parse_string_total text : json_parse_string text <> OutOfFuel.
Proof. unfold json_parse_string. by destruct (json_parse text). Qed.

Lemma tryParseRequestCondition_total expr : tryParseRequestCondition expr <> OutOfFuel.
Proof.
  unfold tryParseRequestCondition. pose proof json_parse_string_total.
  repeat (case_match; try done); apply obind_total; done.
Qed.

Lemma parse_conjuncts_total n parts : (length parts <= n)%nat -> parse_conjuncts parts <> OutOfFuel.
Proof.
  revert parts. induction n as [|n IH]; intros [|raw rest] Hn; simpl in Hn; try done; [lia|].
  cbn [parse_conjuncts]. cbv zeta.
  assert (Hsingle : (let? condition := tryParseRequestCondition (trim raw) in
    match condition with
    | Some c => let? cs := parse_conjuncts rest in Ret (cons c <$> cs)
    | None => Ret None
    end) <> OutOfFuel).
  { apply obind_total; [apply tryParseRequestCondition_total|]. intros [c|] _; [|done].
    apply obind_total; [apply IH; lia|done]. }
  destruct rest as [|raw' rest]; [done|].
  destruct (if nonempty _ then _ else _); [|done].
  apply obind_total; [apply IH; simpl in Hn; lia|done].
Qed.

Lemma tryParseRequestRuleExpr_total expr : tryParseRequestRuleExpr expr <> OutOfFuel.
Proof.
  unfold tryParseRequestRuleExpr. destruct (negb _); [done|].
  induction (splitTopLevelMultiply (trim expr)) as [|p ps IH]; cbn [parse_factors]; [done|].
  apply obind_total; [|intros [g|] _; [by apply obind_total|done]].
  unfold tryParseRuleGroupFactor. destruct (full_match _ _); [|done].
  apply obind_total; [|done]. unfold tryParseRequestConditions.
  destruct (tryParseTimeCondition _); [done|].
  apply obind_total; [by eapply parse_conjuncts_total|done].
Qed.

(** ** Prices *)

Definition PRICED_KEYS : list jsstr := map fst BILLING_VAR_KEY_TO_FIELD.

Lemma priced_variable_known n x : wf_node n -> priced_variable n = Some x -> x ∈ PRICED_KEYS.
Proof.
  intros Hwf Hx. unfold priced_variable in Hx.
  destruct n as [| sp name | | | |]; try (destruct (is_text_remainder _); [|done]; injection Hx as <-;
    apply includes_str_spec; reflexivity).
  destruct (_ && _) eqn:Hne; [|done]. injection Hx as <-.
  apply wf_head in Hwf. cbn [head_ok] in Hwf.
  apply andb_true_iff in Hne as [Hlen%negb_true_iff%str_eqb_neq Hic%negb_true_iff%str_eqb_neq].
  apply includes_str_spec in Hwf. apply includes_str_spec.
  assert (Hall : forallb (fun v => (v === js "len") || (v === js "image_count")
    || includes_str PRICED_KEYS v) BILLING_VARIABLES = true) by (vm_compute; reflexivity).
  apply includes_str_spec in Hwf. rewrite forallb_forall in Hall.
  specialize (Hall name ltac:(by apply list_elem_of_In)).
  apply str_eqb_neq in Hlen, Hic. by rewrite Hlen, Hic in Hall.
Qed.

Lemma price_term_known n x price : wf_node n -> price_term n = Some (x, price) -> x ∈ PRICED_KEYS.
Proof.
  intros Hwf H. unfold price_term in H. destruct n as [| | | |sp op l r|]; try done.
  destruct (op === js "*"); [|done].
  assert (Hl : wf_node l) by (eapply wf_child; [exact Hwf|]; cbn [children]; set_solver).
  assert (Hr : wf_node r) by (eapply wf_child; [exact Hwf|]; cbn [children]; set_solver).
  destruct (nonnegativePriceLiteral r); cbn in H.
  - destruct (priced_variable l) eqn:Hp; [|done]. simplify_option_eq. by eapply (priced_variable_known l).
  - destruct (nonnegativePriceLiteral l); [|done]. cbn in H.
    destruct (priced_variable r) eqn:Hp; [|done]. simplify_option_eq. by eapply (priced_variable_known r).
Qed.

Lemma flatten_wf n op m : wf_node n -> m ∈ flattenBinary n op -> wf_node m.
Proof.
  intros Hwf. induction n as [| | | |sp o l r IHl IHr|] using ExpressionNode_ind';
    cbn [flattenBinary]; try (intros ->%list_elem_of_singleton; done).
  destruct (o === op); [|intros ->%list_elem_of_singleton; done].
  intros [Hm|Hm]%elem_of_app; [apply IHl|apply IHr]; try done;
    (eapply wf_child; [exact Hwf|]; cbn [children]; set_solver).
Qed.

(** Keys that are not array indices keep their insertion order. *)
Lemma set_field_fresh {A} (fs : list (jsstr * A)) key (v : A) :
  index_key key = None -> key ∉ map fst fs -> set_field fs key v = fs ++ [(key, v)].
Proof.
  intros Hi Hk%assoc_none. unfold set_field, has_key. by rewrite Hk, Hi.
Qed.

Lemma priced_key_plain x : x ∈ PRICED_KEYS ->
  index_key x = None /\ exists f, assoc BILLING_VAR_KEY_TO_FIELD x = Some f /\ index_key f = None.
Proof.
  intros Hx%includes_str_spec. apply includes_str_spec in Hx.
  assert (Hall : forallb (fun x => match index_key x, assoc BILLING_VAR_KEY_TO_FIELD x with
      | None, Some f => match index_key f with None => true | Some _ => false end
      | _, _ => false end) PRICED_KEYS = true) by (vm_compute; reflexivity).
  rewrite forallb_forall in Hall. specialize (Hall x ltac:(by apply list_elem_of_In)).
  destruct (index_key x); [done|]. destruct (assoc _ x) as [f|]; [|done].
  destruct (index_key f) eqn:Hf; [done|]. eauto.
Qed.

Definition prices_ok (prices : list (jsstr * num)) : Prop :=
  NoDup (map fst prices) /\ Forall (fun kp => kp.1 ∈ PRICED_KEYS) prices.

Lemma read_prices_ok terms prices result :
  Forall wf_node terms -> prices_ok prices -> read_prices terms prices = Some result ->
  prices_ok result.
Proof.
  revert prices. induction terms as [|t ts IH]; intros prices Hwf Hok H; cbn [read_prices] in H;
    [by simplify_eq|].
  inversion_clear Hwf as [|? ? Ht Hts]. destruct (price_term t) as [[x price]|] eqn:Hp; [|done].
  cbn in H. destruct (has_key prices x) eqn:Hk; [done|].
  pose proof (price_term_known t x price Ht Hp) as Hx.
  apply (IH _ Hts) in H; [done|]. unfold has_key in Hk.
  destruct (assoc prices x) eqn:Ha; [done|]. apply assoc_none in Ha.
  rewrite set_field_fresh by (done || by apply priced_key_plain). destruct Hok as [Hnd Hall]. split.
  - rewrite map_app. apply NoDup_app. split_and!; [done| |simpl; constructor; [set_solver|constructor]].
    intros y Hy Hy'%list_elem_of_singleton. by subst.
  - apply Forall_app. split; [done|]. constructor; [exact Hx|constructor].
Qed.

Lemma tokenTier_prices n cs t : wf_node n -> tokenTier n cs = Some t -> prices_ok (tier_prices t).
Proof.
  assert (Hnil : prices_ok []) by (split; constructor).
  intros Hwf H. unfold tokenTier in H. destruct n as [| |sp f args| | |]; try done.
  destruct args as [|[? [label| | |] ?| | | | |] [|body rest]]; try done.
  destruct (f === js "tier"); [|done].
  destruct (fixed_literal body); [by injection H as <-|].
  destruct (read_prices _ _) as [prices|] eqn:Hp; [|done]. cbn in H.
  destruct (_ =? _)%nat; [done|]. injection H as <-. cbn [tier_prices].
  eapply read_prices_ok; [|exact Hnil|exact Hp]. apply Forall_forall. intros m.
  apply flatten_wf. eapply wf_child; [exact Hwf|]. cbn [children]. set_solver.
Qed.

Lemma read_chain_prices n tiers : wf_node n -> read_chain n = Some tiers ->
  Forall (fun t => prices_ok (tier_prices t)) tiers.
Proof.
  assert (Hlast : forall n ts, wf_node n -> (t ← tokenTier n []; Some [t]) = Some ts ->
    Forall (fun t => prices_ok (tier_prices t)) ts).
  { intros m ts Hwf H. destruct (tokenTier m []) eqn:Ht; [|done]. injection H as <-.
    constructor; [by eapply tokenTier_prices|constructor]. }
  revert tiers. induction n as [| | | | |sp c yes no _ _ IH] using ExpressionNode_ind';
    intros tiers Hwf Hc; try by eapply Hlast.
  cbn [read_chain] in Hc. destruct (tokenConditions c) as [cs|]; [|done]. cbn in Hc.
  destruct (tokenTier yes cs) as [t|] eqn:Ht; [|done]. cbn in Hc.
  destruct (read_chain no) as [ts|]; [|done]. injection Hc as <-. constructor.
  - eapply tokenTier_prices; [|exact Ht]. eapply wf_child; [exact Hwf|]. cbn [children]. set_solver.
  - apply IH; [|done]. eapply wf_child; [exact Hwf|]. cbn [children]. set_solver.
Qed.

Lemma readTokenTierChain_prices n tiers : wf_node n -> readTokenTierChain n = Some tiers ->
  Forall (fun t => prices_ok (tier_prices t)) tiers.
Proof.
  assert (Haudio : forall n ts, wf_node n -> read_audio_pair n = Some ts ->
    Forall (fun t => prices_ok (tier_prices t)) ts).
  { intros m ts Hwf H. unfold read_audio_pair in H. destruct m as [| | | | |sp c yes no]; try done.
    destruct c as [| | | |spc op l r|]; try done. destruct (_ && _); [|done].
    destruct (tokenTier yes []) as [a|] eqn:Ha; [|done]. cbn in H.
    destruct (tokenTier no []) as [b|] eqn:Hb; [|done]. cbn in H. injection H as <-.
    assert (Hch : forall x, x ∈ [yes; no] -> wf_node x)
      by (intros x Hx; eapply wf_child; [exact Hwf|]; cbn [children]; set_solver).
    constructor; [|constructor; [|constructor]].
    - exact (tokenTier_prices yes [] a (Hch yes ltac:(set_solver)) Ha).
    - exact (tokenTier_prices no [] b (Hch no ltac:(set_solver)) Hb). }
  revert tiers. induction n as [| | | |sp op l r IHl IHr|] using ExpressionNode_ind';
    intros tiers Hwf Hr; cbn [readTokenTierChain] in Hr;
    (destruct (read_audio_pair _) eqn:Hap; [injection Hr as <-; by eapply Haudio|]);
    try by eapply read_chain_prices.
  assert (Hmap : forall o, (forall ts, o = Some ts -> Forall (fun t => prices_ok (tier_prices t)) ts) ->
    map with_image_count <$> o = Some tiers -> Forall (fun t => prices_ok (tier_prices t)) tiers).
  { intros [ts|] Ho Hm; [|done]. injection Hm as <-. apply Forall_map. by apply Ho. }
  destruct (_ && is_image_count l).
  { eapply Hmap; [|exact Hr]. intros ts. apply IHr. eapply wf_child; [exact Hwf|]. cbn [children]. set_solver. }
  destruct (_ && is_image_count r).
  { eapply Hmap; [|exact Hr]. intros ts. apply IHl. eapply wf_child; [exact Hwf|]. cbn [children]. set_solver. }
  by eapply read_chain_prices.
Qed.

Definition field_of (key : jsstr) : jsstr := default [] (assoc BILLING_VAR_KEY_TO_FIELD key).

Lemma field_of_inj x y : x ∈ PRICED_KEYS -> y ∈ PRICED_KEYS -> field_of x = field_of y -> x = y.
Proof.
  intros Hx Hy Hf.
  assert (Hall : forallb (fun x => forallb (fun y => (x === y) || (field_of x !== field_of y))
    PRICED_KEYS) PRICED_KEYS = true) by (vm_compute; reflexivity).
  rewrite forallb_forall in Hall. specialize (Hall x ltac:(by apply list_elem_of_In)).
  rewrite forallb_forall in Hall. specialize (Hall y ltac:(by apply list_elem_of_In)).
  rewrite Hf, str_eqb_refl in Hall. cbn [negb] in Hall. rewrite orb_false_r in Hall.
  by apply str_eqb_eq.
Qed.

Lemma NoDup_map_on {A B} (f : A -> B) l :
  (forall x y, x ∈ l -> y ∈ l -> f x = f y -> x = y) -> NoDup l -> NoDup (map f l).
Proof.
  intros Hf Hnd. induction Hnd as [|x l Hx Hnd IH]; simpl; [constructor|]. constructor.
  - intros (y & Hy & Hin)%list_elem_of_In%in_map_iff. apply list_elem_of_In in Hin.
    apply Hx. rewrite <- (Hf y x) by (done || set_solver). done.
  - apply IH. intros. apply Hf; set_solver.
Qed.

Lemma mapTokenTier_prices t : prices_ok (tier_prices t) ->
  pt_prices (mapTokenTier t) = map (fun kp => (field_of kp.1, kp.2)) (tier_prices t).
Proof.
  intros [Hnd Hall]. unfold mapTokenTier. cbn [pt_prices].
  assert (Hgen : forall prices acc, NoDup (map fst acc ++ map field_of (map fst prices)) ->
    Forall (fun kp => kp.1 ∈ PRICED_KEYS) prices ->
    fold_left (fun fields kp =>
        set_field fields (default (js "undefined") (assoc BILLING_VAR_KEY_TO_FIELD kp.1)) kp.2)
      prices acc = acc ++ map (fun kp : jsstr * num => (field_of kp.1, kp.2)) prices).
  { clear. induction prices as [|[x v] prices IH]; intros acc Hnd Hall; cbn [fold_left map];
      [by rewrite app_nil_r|].
    inversion_clear Hall as [|? ? Hx Hall']. cbn [fst snd] in *.
    destruct (priced_key_plain x Hx) as (_ & f & Hf & Hif).
    assert (Hfo : field_of x = f) by (unfold field_of; by rewrite Hf).
    cbn [default map fst snd] in *. rewrite Hf, Hfo. cbn [default]. rewrite Hfo in Hnd.
    rewrite set_field_fresh; [|done|].
    - rewrite IH; [by rewrite <- app_assoc| |done]. rewrite map_app, <- app_assoc. exact Hnd.
    - apply NoDup_app in Hnd as (_ & Hdis & _). intros Hin. apply (Hdis f); [done|]. set_solver. }
  rewrite Hgen; [done| |done]. cbn [map app].
  apply NoDup_map_on; [|done]. intros x y Hx Hy. rewrite Forall_forall in Hall.
  apply list_elem_of_In, in_map_iff in Hx as ([x' vx] & <- & Hx).
  apply list_elem_of_In, in_map_iff in Hy as ([y' vy] & <- & Hy).
  apply list_elem_of_In in Hx, Hy. apply field_of_inj; [by apply (Hall (x', vx))|by apply (Hall (y', vy))].
Qed.

(** ** Properties *)

(** The tiers of a log row.  For an expression whose canonical chain can be
    read, [parseTiersFromExpr] gives one display tier per chain tier, and the
    price fields of each are exactly its prices under the registry's field names,
    in order and without collisions. *)
Theorem parseTiersFromExpr_prices new_formatter current_time
    (src : jsstr) (c : CompiledBillingExpression) (tiers : list TokenTier) :
  src <> [] -> compile_uncached src = Ret (Ready c) -> readTokenTierChain (ast c) = Some tiers ->
  exists cache', parseTiersFromExpr new_formatter current_time src []
      = Ret (map mapTokenTier tiers, cache')
    /\ Forall (fun t => NoDup (map fst (pt_prices (mapTokenTier t)))
         /\ pt_prices (mapTokenTier t) = map (fun kp => (field_of kp.1, kp.2)) (tier_prices t)) tiers.
Proof.
  intros Hne Hc Htiers. unfold parseTiersFromExpr.
  assert (nonempty src = true) as -> by by destruct src. cbn [negb].
  assert (Hok : cache_ok []) by (split; simpl; [intros ?? Hin; inversion Hin|constructor|discriminate]).
  destruct (compile_transparent src [] Hok) as (r & c' & -> & Hr & _).
  rewrite Hc in Hr. injection Hr as <-. rewrite Htiers. exists c'. split; [done|].
  unfold compile_uncached in Hc. destruct (compile_body src) eqn:Hb; simplify_eq.
  apply compile_body_ok in Hb.
  pose proof (readTokenTierChain_prices _ _ (co_wf _ _ Hb) Htiers) as Hp.
  eapply Forall_impl; [exact Hp|]. intros t Ht. split; [|by apply mapTokenTier_prices].
  rewrite mapTokenTier_prices, map_map by done. cbn [fst]. destruct Ht as [Hnd Hall].
  rewrite <- (map_map fst field_of). apply NoDup_map_on; [|done].
  intros x y Hx Hy. rewrite Forall_forall in Hall.
  apply list_elem_of_In, in_map_iff in Hx as ([x' vx] & <- & Hx).
  apply list_elem_of_In, in_map_iff in Hy as ([y' vy] & <- & Hy).
  apply list_elem_of_In in Hx, Hy. apply field_of_inj; [by apply (Hall (x', vx))|by apply (Hall (y', vy))].
Qed.

Definition sample_chain_compiled : CompiledBillingExpression :=
  match compile_uncached sample_chain_source with Ret (Ready c) => c | _ => sample_compiled end.

Lemma parseTiersFromExpr_prices_witness :
  let tiers := default [] (readTokenTierChain (ast sample_chain_compiled)) in
  exists cache', parseTiersFromExpr (fun _ => None) None sample_chain_source []
      = Ret (map mapTokenTier tiers, cache')
    /\ Forall (fun t => NoDup (map fst (pt_prices (mapTokenTier t)))
         /\ pt_prices (mapTokenTier t) = map (fun kp => (field_of kp.1, kp.2)) (tier_prices t)) tiers.
Proof.
  intros tiers. apply (parseTiersFromExpr_prices _ _ sample_chain_source sample_chain_compiled).
  - discriminate.
  - vm_compute. reflexivity.
  - vm_compute. reflexivity.
Defined.

(** Time conditions round trip.  A time range written as the rule editor writes
    it, bare or in parentheses, with [&&] or [||], is read back as that range
    whenever its bounds are numbers in the function's range; and every time
    condition the parser or the pair merging ever returns has a known function
    and integer bounds in that function's range. *)
Theorem tryParseTimeCondition_range (fn tz conj a b : jsstr) :
  nonempty tz = true -> forallb not_quote tz = true -> conj = js "&&" \/ conj = js "||" ->
  nonempty a = true -> forallb number_unit a = true -> isTimeValueInRange fn a = true ->
  nonempty b = true -> forallb number_unit b = true -> isTimeValueInRange fn b = true ->
  let range := TimeCondition fn tz MATCH_RANGE [] a b in
  tryParseTimeCondition (range_text fn tz conj a b []) = Some range
  /\ tryParseTimeCondition (js "(" ++ range_text fn tz conj a b (js ")")) = Some range
  /\ (forall expr c, tryParseTimeCondition expr = Some c -> time_condition_ok c)
  /\ (forall l u c, tryParseTimeRangePair l u = Some c -> time_condition_ok c).
Proof.
  intros Htz Htz' Hconj Ha Ha' Hra Hb Hb' Hrb range.
  assert (Hfn : includes_str TIME_FUNCS fn = true).
  { destruct (isTimeValueInRange_spec _ _ Hra) as (lo & hi & Hassoc & _).
    apply assoc_in in Hassoc. apply includes_str_spec. unfold TIME_FUNCS, TIME_FUNCTIONS.
    unfold TIME_FUNC_RANGES in Hassoc. rewrite !elem_of_cons in *.
    destruct Hassoc as [[= -> _]|[[= -> _]|[[= -> _]|[[= -> _]|[[= -> _]|Hn]]]]]; try tauto.
    by apply elem_of_nil in Hn. }
  split_and!.
  - unfold tryParseTimeCondition. rewrite match_bare_range by done. cbn [group range_captures capture].
    change (group _ 1) with fn. change (group _ 2) with tz. change (group _ 3) with a.
    change (group _ 4) with b. by rewrite Hra, Hrb.
  - unfold tryParseTimeCondition. rewrite match_paren_range by done.
    change (group _ 1) with fn. change (group _ 2) with tz. change (group _ 3) with a.
    change (group _ 4) with b. by rewrite Hra, Hrb.
  - apply tryParseTimeCondition_ok.
  - apply tryParseTimeRangePair_ok.
Qed.

Lemma tryParseTimeCondition_range_witness :
  let range := TimeCondition (js "hour") (js "UTC") MATCH_RANGE [] (js "9") (js "18") in
  tryParseTimeCondition (range_text (js "hour") (js "UTC") (js "&&") (js "9") (js "18") []) = Some range
  /\ tryParseTimeCondition (js "(" ++ range_text (js "hour") (js "UTC") (js "&&") (js "9") (js "18") (js ")"))
     = Some range
  /\ (forall expr c, tryParseTimeCondition expr = Some c -> time_condition_ok c)
  /\ (forall l u c, tryParseTimeRangePair l u = Some c -> time_condition_ok c).
Proof.
  apply (tryParseTimeCondition_range (js "hour") (js "UTC") (js "&&") (js "9") (js "18"));
    first [reflexivity | left; reflexivity | vm_compute; reflexivity].
Defined.

(** C8. Splitting an expression into price and request rules loses nothing.  From a
    consistent cache it returns a consistent cache; either the whole trimmed
    expression stays the price, or its factors are partitioned, in order, into at
    least one request rule and base factors none of which is a rule, exactly one
    base factor being more than the image count, and the two texts are those
    factors joined again.  It throws only what parsing one of the factors throws. *)
Theorem splitBillingExprAndRequestRules_partition (expr : jsstr) (c : cache) :
  cache_ok c ->
  match splitBillingExprAndRequestRules expr c with
  | Ret (r, c') => cache_ok c' /\
      ((billingExpr r = trim expr /\ requestRuleExpr r = [])
       \/ exists rules bases,
            rules ++ bases ≡ₚ splitTopLevelMultiply (trim expr)
            /\ sublist rules (splitTopLevelMultiply (trim expr))
            /\ sublist bases (splitTopLevelMultiply (trim expr))
            /\ rules <> [] /\ Forall rule_part rules /\ Forall (fun p => ~ rule_part p) bases
            /\ (length (List.filter is_quantity bases) + 1 = length bases)%nat
            /\ billingExpr r = join (js " * ") (map unwrapOuterParens bases)
            /\ requestRuleExpr r = join (js " * ") rules)
  | Throw e => exists part, part ∈ splitTopLevelMultiply (trim expr)
      /\ tryParseRequestRuleExpr part = Throw e
  | OutOfFuel => False
  end.
Proof.
  intros Hok. unfold splitBillingExprAndRequestRules.
  destruct (nonempty (trim expr)) eqn:Hne; cbn [negb].
  2: { unfold ret. split; [done|]. left. split; [|done]. by destruct (trim expr). }
  destruct (_ <=? 1)%nat; [by unfold ret; auto|].
  unfold bind. pose proof (classify_spec (splitTopLevelMultiply (trim expr)) c Hok) as Hcl.
  destruct (classify _ c) as [[[rules bases] c']|e|]; [|done|].
  2: { destruct Hcl as (p & _ & Hp). by apply tryParseRequestRuleExpr_total in Hp. }
  destruct Hcl as (Hok' & Hperm & Hsr & Hsb & Hr & Hb). unfold ret.
  destruct (_ || _) eqn:Hcond; [by auto|]. split; [done|]. right. exists rules, bases.
  rewrite orb_false_iff, negb_false_iff in Hcond. destruct Hcond as [Hrules Hcount].
  apply Nat.eqb_neq in Hrules. apply Nat.eqb_eq in Hcount.
  split_and!; try done; [by destruct rules|lia].
Qed.

Lemma splitBillingExprAndRequestRules_partition_witness :
  match splitBillingExprAndRequestRules (js "tier('a', p) * (param('x') == 1 ? 2 : 1)") [] with
  | Ret (r, c') => cache_ok c' /\
      ((billingExpr r = trim (js "tier('a', p) * (param('x') == 1 ? 2 : 1)") /\ requestRuleExpr r = [])
       \/ exists rules bases,
            rules ++ bases ≡ₚ splitTopLevelMultiply (trim (js "tier('a', p) * (param('x') == 1 ? 2 : 1)"))
            /\ sublist rules (splitTopLevelMultiply (trim (js "tier('a', p) * (param('x') == 1 ? 2 : 1)")))
            /\ sublist bases (splitTopLevelMultiply (trim (js "tier('a', p) * (param('x') == 1 ? 2 : 1)")))
            /\ rules <> [] /\ Forall rule_part rules /\ Forall (fun p => ~ rule_part p) bases
            /\ (length (List.filter is_quantity bases) + 1 = length bases)%nat
            /\ billingExpr r = join (js " * ") (map unwrapOuterParens bases)
            /\ requestRuleExpr r = join (js " * ") rules)
  | Throw e => exists part,
      part ∈ splitTopLevelMultiply (trim (js "tier('a', p) * (param('x') == 1 ? 2 : 1)"))
      /\ tryParseRequestRuleExpr part = Throw e
  | OutOfFuel => False
  end.
Proof.
  apply (splitBillingExprAndRequestRules_partition (js "tier('a', p) * (param('x') == 1 ? 2 : 1)") []).
  split; simpl; [intros ?? Hin; inversion Hin|constructor|discriminate].
Defined.
