(* ===== verification/Sha256.v ===== *)
(** * SHA-256

    Models [web/src/lib/sha256.ts], the fallback hash used where Web Crypto is not
    available.  The code computes on JavaScript numbers: bitwise operators convert
    to signed 32-bit integers, [>>>] to unsigned ones, sums are exact, and typed
    arrays reduce what is stored.  [sha256Bytes] follows it with the arrays as
    lists updated by index; [fips_sha256] is the FIPS 180-4 definition on words
    modulo [2 ^ 32], and the two are proved equal. *)

From S2P Require Import Prelude JsString.

(** A row of hexadecimal words, as the code's tables write them. *)
Definition hex_row (row : string) : list Z :=
  map (fun digits => Z.of_N (parse_hex digits)) (split (ch " ") (js row)).

Definition K : list Z := Eval vm_compute in
  hex_row "428a2f98 71374491 b5c0fbcf e9b5dba5 3956c25b 59f111f1"
  ++ hex_row "923f82a4 ab1c5ed5 d807aa98 12835b01 243185be 550c7dc3"
  ++ hex_row "72be5d74 80deb1fe 9bdc06a7 c19bf174 e49b69c1 efbe4786"
  ++ hex_row "0fc19dc6 240ca1cc 2de92c6f 4a7484aa 5cb0a9dc 76f988da"
  ++ hex_row "983e5152 a831c66d b00327c8 bf597fc7 c6e00bf3 d5a79147"
  ++ hex_row "06ca6351 14292967 27b70a85 2e1b2138 4d2c6dfc 53380d13"
  ++ hex_row "650a7354 766a0abb 81c2c92e 92722c85 a2bfe8a1 a81a664b"
  ++ hex_row "c24b8b70 c76c51a3 d192e819 d6990624 f40e3585 106aa070"
  ++ hex_row "19a4c116 1e376c08 2748774c 34b0bcb5 391c0cb3 4ed8aa4a"
  ++ hex_row "5b9cca4f 682e6ff3 748f82ee 78a5636f 84c87814 8cc70208"
  ++ hex_row "90befffa a4506ceb bef9a3f7 c67178f2".

Definition H0 : list Z := Eval vm_compute in
  hex_row "6a09e667 bb67ae85 3c6ef372 a54ff53a 510e527f 9b05688c 1f83d9ab 5be0cd19".

(** ** 32-bit operators of JavaScript *)

Definition W32 : Z := 2 ^ 32.

(** [ToUint32], which is also [z >>> 0], and [ToInt32] *)
Definition u32 (z : Z) : Z := z mod W32.
Definition i32 (z : Z) : Z := (z + 2 ^ 31) mod W32 - 2 ^ 31.

Definition js_shr (v n : Z) : Z := Z.shiftr (u32 v) n.
Definition js_shl (v n : Z) : Z := i32 (Z.shiftl (i32 v) n).
Definition js_or (a b : Z) : Z := i32 (Z.lor (i32 a) (i32 b)).
Definition js_xor (a b : Z) : Z := i32 (Z.lxor (i32 a) (i32 b)).
Definition js_and (a b : Z) : Z := i32 (Z.land (i32 a) (i32 b)).
Definition js_not (a : Z) : Z := i32 (Z.lnot (i32 a)).

Definition rotr (value bits : Z) : Z := js_or (js_shr value bits) (js_shl value (32 - bits)).

(** ** Typed arrays *)

(** An element read, [0] standing for the [undefined] the code never reads. *)
Definition at_ (xs : list Z) (i : nat) : Z := default 0 (xs !! i).

(** [view.getUint32(offset)] and [view.setUint32(offset, value)], big-endian *)
Definition getUint32 (bytes : list Z) (offset : nat) : Z :=
  at_ bytes offset * 2 ^ 24 + at_ bytes (offset + 1) * 2 ^ 16
  + at_ bytes (offset + 2) * 2 ^ 8 + at_ bytes (offset + 3).

Definition be_bytes (value : Z) : list Z :=
  [u32 value / 2 ^ 24; u32 value / 2 ^ 16 mod 256; u32 value / 2 ^ 8 mod 256; u32 value mod 256].

Definition write_at (xs : list Z) (offset : nat) (ys : list Z) : list Z :=
  take offset xs ++ ys ++ drop (offset + length ys) xs.

Definition setUint32 (bytes : list Z) (offset : nat) (value : Z) : list Z :=
  write_at bytes offset (be_bytes value).

(** ** [sha256Bytes] *)

Definition totalLen (message : list Z) : nat := ((length message + 8) / 64 + 1) * 64.

Definition pad_message (message : list Z) : list Z :=
  let len := Z.of_nat (length message) in
  let total := totalLen message in
  let bitLenHi := len / 0x20000000 in
  let bitLenLo := u32 (js_shl len 3) in
  let padded := replicate total 0 in
  let padded := write_at padded 0 message in
  let padded := <[length message := 0x80]> padded in
  let padded := setUint32 padded (total - 8) bitLenHi in
  setUint32 padded (total - 4) bitLenLo.

(** The two loops that fill [w]. *)
Definition load_words (padded : list Z) (offset : nat) (w : list Z) : list Z :=
  fold_left (fun w t => <[t := u32 (getUint32 padded (offset + t * 4))]> w) (seq 0 16) w.

Definition extend_word (w : list Z) (t : nat) : list Z :=
  let x := at_ w (t - 15) in
  let y := at_ w (t - 2) in
  let s0 := js_xor (js_xor (rotr x 7) (rotr x 18)) (js_shr x 3) in
  let s1 := js_xor (js_xor (rotr y 17) (rotr y 19)) (js_shr y 10) in
  <[t := u32 (at_ w (t - 16) + s0 + at_ w (t - 7) + s1)]> w.

Definition fill_schedule (padded : list Z) (offset : nat) (w : list Z) : list Z :=
  fold_left extend_word (seq 16 48) (load_words padded offset w).

Record registers := Regs { ra : Z; rb : Z; rc : Z; rd : Z; re : Z; rf : Z; rg : Z; rh : Z }.

(** The body of the round loop. *)
Definition round (w : list Z) (r : registers) (t : nat) : registers :=
  let '(Regs a b c d e f g hh) := r in
  let S1 := js_xor (js_xor (rotr e 6) (rotr e 11)) (rotr e 25) in
  let ch := js_xor (js_and e f) (js_and (js_not e) g) in
  let temp1 := u32 (hh + S1 + ch + at_ K t + at_ w t) in
  let S0 := js_xor (js_xor (rotr a 2) (rotr a 13)) (rotr a 22) in
  let maj := js_xor (js_xor (js_and a b) (js_and a c)) (js_and b c) in
  let temp2 := u32 (S0 + maj) in
  Regs (u32 (temp1 + temp2)) a b c (u32 (d + temp1)) e f g.

Definition regs_of (h : list Z) : registers :=
  Regs (at_ h 0) (at_ h 1) (at_ h 2) (at_ h 3) (at_ h 4) (at_ h 5) (at_ h 6) (at_ h 7).

Definition add_regs (h : list Z) (r : registers) : list Z :=
  [u32 (at_ h 0 + ra r); u32 (at_ h 1 + rb r); u32 (at_ h 2 + rc r); u32 (at_ h 3 + rd r);
   u32 (at_ h 4 + re r); u32 (at_ h 5 + rf r); u32 (at_ h 6 + rg r); u32 (at_ h 7 + rh r)].

(** One iteration of the block loop on the hash and the schedule array, which is
    shared by all blocks. *)
Definition process_block (padded : list Z) (state : list Z * list Z) (block : nat)
    : list Z * list Z :=
  let '(h, w) := state in
  let w := fill_schedule padded (block * 64) w in
  let r := fold_left (round w) (seq 0 64) (regs_of h) in
  (add_regs h r, w).

Definition sha256Bytes (message : list Z) : list Z :=
  let padded := pad_message message in
  let '(h, _) := fold_left (process_block padded) (seq 0 (totalLen message / 64))
                   (H0, replicate 64 0) in
  fold_left (fun out i => setUint32 out (i * 4) (at_ h i)) (seq 0 8) (replicate 32 0).

(** [byte.toString(16).padStart(2, '0')] *)
Definition hex_digit (d : Z) : N := Z.to_N (if d <? 10 then d + 48 else d + 87).
Definition hex_byte (byte : Z) : jsstr :=
  pad_start 2 (ch "0") (if byte <? 16 then [hex_digit byte]
                        else [hex_digit (byte / 16); hex_digit (byte mod 16)]).

Definition sha256Hex (message : list Z) : jsstr := concat (map hex_byte (sha256Bytes message)).

Definition ascii_bytes (s : string) : list Z := map Z.of_N (js s).

Example sha256_abc :
  sha256Hex (ascii_bytes "abc")
  = js "ba7816bf8f01cfea414140de5dae2223b00361a396177a9cb410ff61f20015ad".
Proof. vm_compute. reflexivity. Qed.

Example sha256_two_blocks :
  sha256Hex (ascii_bytes "abcdbcdecdefdefgefghfghighijhijkijkljklmklmnlmnomnopnopq")
  = js "248d6a61d20638b8e5c026930c3e6039a33ce45964ff2167f6ecedd419db06c1".
Proof. vm_compute. reflexivity. Qed.

(** ** FIPS 180-4 *)

Definition ROTR (n x : Z) : Z := Z.lor (Z.shiftr x n) (Z.shiftl x (32 - n) mod W32).
Definition SHR (n x : Z) : Z := Z.shiftr x n.
Definition Ch (x y z : Z) : Z := Z.lxor (Z.land x y) (Z.land (W32 - 1 - x) z).
Definition Maj (x y z : Z) : Z := Z.lxor (Z.lxor (Z.land x y) (Z.land x z)) (Z.land y z).
Definition Sigma0 (x : Z) : Z := Z.lxor (Z.lxor (ROTR 2 x) (ROTR 13 x)) (ROTR 22 x).
Definition Sigma1 (x : Z) : Z := Z.lxor (Z.lxor (ROTR 6 x) (ROTR 11 x)) (ROTR 25 x).
Definition sigma0 (x : Z) : Z := Z.lxor (Z.lxor (ROTR 7 x) (ROTR 18 x)) (SHR 3 x).
Definition sigma1 (x : Z) : Z := Z.lxor (Z.lxor (ROTR 17 x) (ROTR 19 x)) (SHR 10 x).

(** The constants are the first 32 bits of the fractional parts of the cube roots
    of the first 64 primes, the initial hash those of the square roots of the
    first 8. *)
Definition is_prime (n : nat) : bool := forallb (fun d => negb (n mod d =? 0)%nat) (seq 2 (n - 2)).
Definition primes : list Z := map Z.of_nat (List.filter is_prime (seq 2 310)).

Fixpoint cube_root (bits : nat) (root n : Z) : Z :=
  match bits with
  | O => root
  | S k => cube_root k (let r := root + 2 ^ Z.of_nat k in if r ^ 3 <=? n then r else root) n
  end.

Definition fips_K : list Z := map (fun p => cube_root 40 0 (p * 2 ^ 96) mod W32) primes.
Definition fips_H : list Z := map (fun p => Z.sqrt (p * 2 ^ 64) mod W32) (take 8 primes).

(** Padding: a one bit, the fewest zeros, the length in 64 bits. *)
Definition fips_pad (message : list Z) : list Z :=
  let len := Z.of_nat (length message) in
  message ++ [0x80] ++ replicate (Z.to_nat ((55 - len) mod 64)) 0
  ++ be_bytes (8 * len / W32) ++ be_bytes (8 * len).

(** The sixteen words of a block, then the rest of the schedule. *)
Definition block_words (bytes : list Z) : list Z :=
  map (fun t => getUint32 bytes (4 * t)) (seq 0 16).

Fixpoint fips_schedule (n : nat) (ws : list Z) : list Z :=
  match n with
  | O => ws
  | S n' =>
      let t := length ws in
      fips_schedule n'
        (ws ++ [(sigma1 (at_ ws (t - 2)) + at_ ws (t - 7) + sigma0 (at_ ws (t - 15))
                 + at_ ws (t - 16)) mod W32])
  end.

Definition fips_round (r : registers) (kw : Z * Z) : registers :=
  let '(Regs a b c d e f g h) := r in
  let T1 := (h + Sigma1 e + Ch e f g + kw.1 + kw.2) mod W32 in
  let T2 := (Sigma0 a + Maj a b c) mod W32 in
  Regs ((T1 + T2) mod W32) a b c ((d + T1) mod W32) e f g.

Definition fips_block (h : list Z) (block : list Z) : list Z :=
  let ws := fips_schedule 48 (block_words block) in
  add_regs h (fold_left fips_round (zip fips_K ws) (regs_of h)).

Fixpoint blocks (n : nat) (bytes : list Z) : list (list Z) :=
  match n with
  | O => []
  | S n' => take 64 bytes :: blocks n' (drop 64 bytes)
  end.

Definition fips_sha256 (message : list Z) : list Z :=
  let padded := fips_pad message in
  concat (map be_bytes (fold_left fips_block (blocks (length padded / 64) padded) fips_H)).

(** ** The tables *)

Lemma K_fips : K = fips_K.
Proof. vm_compute. reflexivity. Qed.

Lemma H0_fips : H0 = fips_H.
Proof. vm_compute. reflexivity. Qed.

(** ** Words modulo [2 ^ 32] *)

(** Two integers are the same word. *)
Definition eq32 (x y : Z) : Prop := u32 x = u32 y.
Infix "≡32" := eq32 (at level 70, no associativity).

#[global] Instance eq32_equiv : Equivalence eq32.
Proof. split; [intros x|intros x y H|intros x y z H1 H2]; unfold eq32 in *; congruence. Qed.

Lemma W32_pos : 0 < W32.
Proof. done. Qed.

Lemma u32_range x : 0 <= u32 x < W32.
Proof. apply Z.mod_pos_bound, W32_pos. Qed.

Lemma u32_small x : 0 <= x < W32 -> u32 x = x.
Proof. apply Z.mod_small. Qed.

Lemma u32_eq x : u32 x ≡32 x.
Proof. unfold eq32, u32. by rewrite Z.mod_mod. Qed.

Lemma i32_eq x : i32 x ≡32 x.
Proof.
  unfold eq32, u32, i32. rewrite Zminus_mod_idemp_l. f_equal. lia.
Qed.

Lemma eq32_small x y : x ≡32 y -> 0 <= x < W32 -> 0 <= y < W32 -> x = y.
Proof. unfold eq32. intros H Hx Hy. by rewrite !u32_small in H. Qed.

#[global] Instance add_eq32 : Proper (eq32 ==> eq32 ==> eq32) Z.add.
Proof.
  intros x x' Hx y y' Hy. unfold eq32, u32 in *. by rewrite Z.add_mod, Hx, Hy, <- Z.add_mod.
Qed.

Lemma testbit_u32 x i : Z.testbit (u32 x) i = (i <? 32) && Z.testbit x i.
Proof.
  unfold u32, W32. destruct (Z.ltb_spec i 32).
  - by rewrite Z.mod_pow2_bits_low.
  - destruct (Z.neg_nonneg_cases i); [lia|]. by rewrite Z.mod_pow2_bits_high by lia.
Qed.

(** A bitwise operator on words is determined by the bits below 32. *)
Lemma bitwise_eq32 (op : Z -> Z -> Z) (f : bool -> bool -> bool) :
  (forall x y i, 0 <= i -> Z.testbit (op x y) i = f (Z.testbit x i) (Z.testbit y i)) ->
  Proper (eq32 ==> eq32 ==> eq32) op.
Proof.
  intros Hop x x' Hx y y' Hy. unfold eq32 in *. apply Z.bits_inj'. intros i Hi.
  rewrite !testbit_u32, !Hop by done. destruct (i <? 32) eqn:Hlt; [|done]. cbn [andb].
  apply (f_equal (fun z => Z.testbit z i)) in Hx, Hy. rewrite !testbit_u32, Hlt in Hx, Hy.
  cbn [andb] in *. by rewrite Hx, Hy.
Qed.

#[global] Instance lxor_eq32 : Proper (eq32 ==> eq32 ==> eq32) Z.lxor.
Proof. apply (bitwise_eq32 _ xorb). intros. apply Z.lxor_spec. Qed.
#[global] Instance land_eq32 : Proper (eq32 ==> eq32 ==> eq32) Z.land.
Proof. apply (bitwise_eq32 _ andb). intros. apply Z.land_spec. Qed.
#[global] Instance lor_eq32 : Proper (eq32 ==> eq32 ==> eq32) Z.lor.
Proof. apply (bitwise_eq32 _ orb). intros. apply Z.lor_spec. Qed.
#[global] Instance lnot_eq32 : Proper (eq32 ==> eq32) Z.lnot.
Proof.
  intros x x' Hx.
  assert (Hp : Proper (eq32 ==> eq32 ==> eq32) (fun x _ => Z.lnot x)).
  { apply (bitwise_eq32 _ (fun b _ => negb b)). intros. by apply Z.lnot_spec. }
  by apply (Hp x x' Hx 0 0).
Qed.

Lemma shiftl_eq32 x y n : 0 <= n -> x ≡32 y -> Z.shiftl x n ≡32 Z.shiftl y n.
Proof.
  unfold eq32, u32. intros Hn H. rewrite !Z.shiftl_mul_pow2 by done.
  by rewrite Z.mul_mod, H, <- Z.mul_mod.
Qed.

(** The operators of the code, as operators on words. *)
Lemma js_xor_eq a b : js_xor a b ≡32 Z.lxor a b.
Proof. unfold js_xor. by rewrite !i32_eq. Qed.
Lemma js_and_eq a b : js_and a b ≡32 Z.land a b.
Proof. unfold js_and. by rewrite !i32_eq. Qed.
Lemma js_or_eq a b : js_or a b ≡32 Z.lor a b.
Proof. unfold js_or. by rewrite !i32_eq. Qed.
Lemma js_not_eq a : js_not a ≡32 Z.lnot a.
Proof. unfold js_not. by rewrite !i32_eq. Qed.
Lemma js_shl_eq v n : 0 <= n -> js_shl v n ≡32 Z.shiftl v n.
Proof. intros Hn. unfold js_shl. rewrite i32_eq. apply shiftl_eq32; [done|apply i32_eq]. Qed.

Lemma js_shr_SHR v n : 0 <= v < W32 -> js_shr v n = SHR n v.
Proof. intros Hv. unfold js_shr, SHR. by rewrite u32_small. Qed.

Lemma rotr_eq n x : 0 <= x < W32 -> 0 <= n <= 32 -> rotr x n ≡32 ROTR n x.
Proof.
  intros Hx Hn. unfold rotr, ROTR. rewrite js_or_eq, js_shl_eq by lia.
  change (Z.shiftl x (32 - n) mod W32) with (u32 (Z.shiftl x (32 - n))).
  rewrite u32_eq. unfold js_shr. by rewrite u32_small.
Qed.

Lemma not_word x : 0 <= x < W32 -> W32 - 1 - x ≡32 Z.lnot x.
Proof.
  intros Hx. unfold eq32, u32, Z.lnot. rewrite <- (Z_mod_plus_full (Z.pred (- x)) 1 W32).
  f_equal. unfold W32. lia.
Qed.

(** The sums of the code and of the standard. *)
Definition word (x : Z) : Prop := 0 <= x < W32.

Lemma sigma0_eq x : word x -> js_xor (js_xor (rotr x 7) (rotr x 18)) (js_shr x 3) ≡32 sigma0 x.
Proof.
  intros Hx. unfold sigma0. rewrite !js_xor_eq, !rotr_eq by (done || lia). by rewrite js_shr_SHR.
Qed.
Lemma sigma1_eq x : word x -> js_xor (js_xor (rotr x 17) (rotr x 19)) (js_shr x 10) ≡32 sigma1 x.
Proof.
  intros Hx. unfold sigma1. rewrite !js_xor_eq, !rotr_eq by (done || lia). by rewrite js_shr_SHR.
Qed.
Lemma Sigma0_eq x : word x -> js_xor (js_xor (rotr x 2) (rotr x 13)) (rotr x 22) ≡32 Sigma0 x.
Proof. intros Hx. unfold Sigma0. by rewrite !js_xor_eq, !rotr_eq by (done || lia). Qed.
Lemma Sigma1_eq x : word x -> js_xor (js_xor (rotr x 6) (rotr x 11)) (rotr x 25) ≡32 Sigma1 x.
Proof. intros Hx. unfold Sigma1. by rewrite !js_xor_eq, !rotr_eq by (done || lia). Qed.
Lemma Ch_eq x y z : word x -> js_xor (js_and x y) (js_and (js_not x) z) ≡32 Ch x y z.
Proof. intros Hx. unfold Ch. by rewrite js_xor_eq, !js_and_eq, js_not_eq, not_word. Qed.
Lemma Maj_eq x y z :
  js_xor (js_xor (js_and x y) (js_and x z)) (js_and y z) ≡32 Maj x y z.
Proof. unfold Maj. by rewrite !js_xor_eq, !js_and_eq. Qed.

(** ** One round *)

Definition regs_ok (r : registers) : Prop :=
  word (ra r) /\ word (rb r) /\ word (rc r) /\ word (rd r)
  /\ word (re r) /\ word (rf r) /\ word (rg r) /\ word (rh r).

Lemma round_fips w r t : regs_ok r -> round w r t = fips_round r (at_ K t, at_ w t).
Proof.
  destruct r as [a b c d e f g h]. intros (Ha & Hb & Hc & Hd & He & Hf & Hg & Hh).
  cbn [ra rb rc rd re rf rg rh] in *. unfold round, fips_round. cbn [fst snd].
  set (temp1 := u32 (h + _ + _ + at_ K t + at_ w t)).
  set (T1 := (h + Sigma1 e + Ch e f g + at_ K t + at_ w t) mod W32).
  assert (HT1 : temp1 = T1).
  { unfold temp1, T1. change (_ mod W32) with (u32 (h + Sigma1 e + Ch e f g + at_ K t + at_ w t)).
    change (?x = ?y) with (eq32 (h + js_xor (js_xor (rotr e 6) (rotr e 11)) (rotr e 25)
      + js_xor (js_and e f) (js_and (js_not e) g) + at_ K t + at_ w t)
      (h + Sigma1 e + Ch e f g + at_ K t + at_ w t)).
    by rewrite Sigma1_eq, Ch_eq. }
  set (temp2 := u32 (js_xor (js_xor (rotr a 2) (rotr a 13)) (rotr a 22) + _)).
  assert (HT2 : temp2 = (Sigma0 a + Maj a b c) mod W32).
  { unfold temp2. change (eq32 (js_xor (js_xor (rotr a 2) (rotr a 13)) (rotr a 22)
      + js_xor (js_xor (js_and a b) (js_and a c)) (js_and b c)) (Sigma0 a + Maj a b c)).
    by rewrite Sigma0_eq, Maj_eq. }
  by rewrite HT1, HT2.
Qed.

Lemma fips_round_ok r kw : regs_ok r -> regs_ok (fips_round r kw).
Proof.
  destruct r as [a b c d e f g h]. intros (Ha & Hb & Hc & Hd & He & Hf & Hg & Hh).
  cbn [ra rb rc rd re rf rg rh] in *. unfold regs_ok. cbn.
  split_and!; try done; apply Z.mod_pos_bound; done.
Qed.

(** ** Arrays *)

Lemma at_lookup xs i x : xs !! i = Some x -> at_ xs i = x.
Proof. unfold at_. by intros ->. Qed.

Lemma at_take xs n i : (i < n)%nat -> at_ (take n xs) i = at_ xs i.
Proof. intros Hi. unfold at_. by rewrite lookup_take_lt. Qed.

Lemma at_drop xs n i : at_ (drop n xs) i = at_ xs (n + i).
Proof. unfold at_. by rewrite lookup_drop. Qed.

Lemma at_Forall (P : Z -> Prop) xs i : P 0 -> Forall P xs -> P (at_ xs i).
Proof.
  intros H0 Hxs. unfold at_. destruct (xs !! i) eqn:Hi; [|done].
  by eapply Forall_lookup_1.
Qed.

Lemma take_insert_S (xs : list Z) t v : (t < length xs)%nat ->
  take (S t) (<[t := v]> xs) = take t xs ++ [v].
Proof.
  intros Ht. rewrite (take_S_r _ _ v).
  - by rewrite take_insert_ge by lia.
  - by apply list_lookup_insert_eq.
Qed.

(** A loop that stores [f t] at every [t]. *)
Lemma fold_insert_take (f : nat -> Z) n s (w : list Z) : (s + n <= length w)%nat ->
  take (s + n) (fold_left (fun w t => <[t := f t]> w) (seq s n) w) = take s w ++ map f (seq s n)
  /\ length (fold_left (fun w t => <[t := f t]> w) (seq s n) w) = length w.
Proof.
  revert s w. induction n as [|n IH]; intros s w Hs; cbn [seq fold_left map].
  - by rewrite Nat.add_0_r, app_nil_r.
  - specialize (IH (S s) (<[s := f s]> w)). rewrite length_insert in IH.
    destruct IH as [IH Hlen]; [lia|]. split; [|done].
    replace (s + S n)%nat with (S s + n)%nat by lia. rewrite IH.
    rewrite take_insert_S by lia. by rewrite <- app_assoc.
Qed.

Lemma zip_at (xs ys : list Z) : length xs = length ys ->
  zip xs ys = map (fun t => (at_ xs t, at_ ys t)) (seq 0 (length xs)).
Proof.
  revert ys. induction xs as [|x xs IH]; intros [|y ys] Hl; try done.
  cbn [length seq map]. cbn [zip zip_with]. f_equal. rewrite <- seq_shift, map_map.
  injection Hl as Hl. rewrite (IH ys Hl). done.
Qed.

(** ** The message schedule *)

Lemma fips_word ws t : word ((sigma1 (at_ ws (t - 2)) + at_ ws (t - 7) + sigma0 (at_ ws (t - 15))
  + at_ ws (t - 16)) mod W32).
Proof. apply Z.mod_pos_bound, W32_pos. Qed.

Lemma fips_schedule_words n ws : Forall word ws -> Forall word (fips_schedule n ws).
Proof.
  revert ws. induction n as [|n IH]; intros ws Hws; cbn [fips_schedule]; [done|].
  apply IH, Forall_app. split; [done|]. constructor; [apply fips_word|constructor].
Qed.

Lemma fips_schedule_length n ws : length (fips_schedule n ws) = (n + length ws)%nat.
Proof.
  revert ws. induction n as [|n IH]; intros ws; cbn [fips_schedule]; [done|].
  rewrite IH, length_app. simpl. lia.
Qed.

Lemma extend_word_fips w t ws : (16 <= t < length w)%nat -> take t w = ws -> Forall word ws ->
  extend_word w t
  = <[t := (sigma1 (at_ ws (t - 2)) + at_ ws (t - 7) + sigma0 (at_ ws (t - 15))
            + at_ ws (t - 16)) mod W32]> w.
Proof.
  intros Ht <- Hws. unfold extend_word. f_equal.
  assert (Hat : forall k, (0 < k <= 16)%nat -> at_ w (t - k) = at_ (take t w) (t - k))
    by (intros k Hk; by rewrite at_take by lia).
  rewrite (Hat 15%nat), (Hat 2%nat), (Hat 16%nat), (Hat 7%nat) by lia.
  assert (Hw : forall i, word (at_ (take t w) i)) by (intros i; apply at_Forall; done).
  set (x := at_ _ (t - 15)). set (y := at_ _ (t - 2)). set (w7 := at_ _ (t - 7)).
  set (w16 := at_ _ (t - 16)).
  change (eq32 (w16 + js_xor (js_xor (rotr x 7) (rotr x 18)) (js_shr x 3) + w7
    + js_xor (js_xor (rotr y 17) (rotr y 19)) (js_shr y 10)) (sigma1 y + w7 + sigma0 x + w16)).
  rewrite sigma0_eq, sigma1_eq by apply Hw.
  replace (sigma1 y + w7 + sigma0 x + w16) with (w16 + sigma0 x + w7 + sigma1 y) by lia. done.
Qed.

Lemma schedule_fips n t w ws : (16 <= t)%nat -> (t + n <= length w)%nat -> take t w = ws ->
  Forall word ws -> 
  take (t + n) (fold_left extend_word (seq t n) w) = fips_schedule n ws
  /\ length (fold_left extend_word (seq t n) w) = length w.
Proof.
  revert t w ws. induction n as [|n IH]; intros t w ws Ht Hl Htake Hws; cbn [seq fold_left].
  - by rewrite Nat.add_0_r.
  - assert (Hlen : length ws = t) by (rewrite <- Htake, length_take; lia).
    rewrite (extend_word_fips w t ws) by (done || lia). cbn [fips_schedule]. rewrite Hlen.
    set (v := _ mod W32). destruct (IH (S t) (<[t := v]> w) (ws ++ [v])) as [IHt IHl].
    + lia.
    + rewrite length_insert. lia.
    + rewrite take_insert_S by lia. by rewrite Htake.
    + apply Forall_app. split; [done|]. constructor; [apply fips_word|constructor].
    + rewrite length_insert in IHl. split; [|done]. rewrite <- IHt. f_equal. lia.
Qed.

Definition byte (x : Z) : Prop := 0 <= x < 256.

Lemma getUint32_word bytes i : Forall byte bytes -> word (getUint32 bytes i).
Proof.
  intros Hb. assert (Hat : forall j, byte (at_ bytes j)) by (intros j; apply at_Forall; done).
  unfold getUint32, word, W32. pose proof (Hat i). pose proof (Hat (i + 1)%nat).
  pose proof (Hat (i + 2)%nat). pose proof (Hat (i + 3)%nat). unfold byte in *. lia.
Qed.

Lemma fill_schedule_fips padded b w : Forall byte padded -> length w = 64%nat ->
  fill_schedule padded (b * 64) w = fips_schedule 48 (block_words (take 64 (drop (64 * b) padded))).
Proof.
  intros Hb Hw. unfold fill_schedule, load_words.
  destruct (fold_insert_take (fun t => u32 (getUint32 padded (b * 64 + t * 4))) 16 0 w) as [Ht Hl];
    [lia|]. cbn [plus take app] in Ht.
  set (w1 := fold_left _ (seq 0 16) w) in *.
  destruct (schedule_fips 48 16 w1 (block_words (take 64 (drop (64 * b) padded)))) as [Hs Hlen].
  - lia.
  - rewrite Hl. lia.
  - rewrite Ht. apply map_ext_in. intros t Hin%in_seq. rewrite u32_small by by apply getUint32_word.
    unfold getUint32. rewrite !at_take, !at_drop by lia.
    by rewrite !(Nat.mul_comm 64 b), !(Nat.mul_comm 4 t), !Nat.add_assoc.
  - rewrite <- Ht || idtac. apply Forall_forall. intros x Hx.
    apply list_elem_of_In, in_map_iff in Hx as (t & <- & _). apply getUint32_word.
    by apply Forall_take, Forall_drop.
  - rewrite <- Hs. rewrite take_ge; [done|]. rewrite Hlen, Hl. lia.
Qed.

(** ** Blocks *)

Lemma blocks_map n bytes : blocks n bytes = map (fun b => take 64 (drop (64 * b) bytes)) (seq 0 n).
Proof.
  revert bytes. induction n as [|n IH]; intros bytes; [done|].
  cbn [blocks seq map]. rewrite Nat.mul_0_r, drop_0. f_equal.
  rewrite IH, <- seq_shift, map_map. apply map_ext. intros b. rewrite drop_drop. do 2 f_equal. lia.
Qed.

Definition hash_ok (h : list Z) : Prop := length h = 8%nat /\ Forall word h.

Lemma regs_of_ok h : hash_ok h -> regs_ok (regs_of h).
Proof. intros [_ Hh]. unfold regs_ok, regs_of. cbn. split_and!; apply at_Forall; done. Qed.

Lemma add_regs_ok h r : hash_ok (add_regs h r).
Proof. split; [done|]. unfold add_regs. repeat constructor; apply u32_range. Qed.

Lemma rounds_fips w r ts : regs_ok r ->
  fold_left (round w) ts r = fold_left fips_round (map (fun t => (at_ K t, at_ w t)) ts) r.
Proof.
  revert r. induction ts as [|t ts IH]; intros r Hr; cbn [fold_left map]; [done|].
  rewrite round_fips by done. apply IH. by apply fips_round_ok.
Qed.

Lemma process_block_fips padded h w b : Forall byte padded -> hash_ok h -> length w = 64%nat ->
  exists w', process_block padded (h, w) b = (fips_block h (take 64 (drop (64 * b) padded)), w')
    /\ length w' = 64%nat.
Proof.
  intros Hb Hh Hw. unfold process_block. rewrite fill_schedule_fips by done.
  set (ws := fips_schedule 48 _). exists ws.
  assert (Hlen : length ws = 64%nat).
  { unfold ws. rewrite fips_schedule_length. unfold block_words. by rewrite length_map, length_seq. }
  assert (Hr : fold_left (round ws) (seq 0 64) (regs_of h) = fold_left fips_round (zip K ws) (regs_of h)).
  { rewrite rounds_fips by by apply regs_of_ok. rewrite (zip_at K ws) by by rewrite Hlen.
    change (length K) with 64%nat. reflexivity. }
  split; [|exact Hlen]. rewrite Hr. unfold fips_block. by rewrite K_fips.
Qed.

Lemma fips_block_ok h block : hash_ok (fips_block h block).
Proof. unfold fips_block. cbv zeta. apply add_regs_ok. Qed.

Lemma fold_left_cons {A B} (f : A -> B -> A) x xs a : fold_left f (x :: xs) a = fold_left f xs (f a x).
Proof. done. Qed.

Lemma process_blocks_fips padded bs h w : Forall byte padded -> hash_ok h -> length w = 64%nat ->
  exists w', fold_left (process_block padded) bs (h, w)
    = (fold_left fips_block (map (fun b => take 64 (drop (64 * b) padded)) bs) h, w').
Proof.
  intros Hb. revert h w. induction bs as [|b bs IH]; intros h w Hh Hw; [by exists w|].
  destruct (process_block_fips padded h w b Hb Hh Hw) as (w' & Hpb & Hw').
  destruct (IH (fips_block h (take 64 (drop (64 * b) padded))) w' (fips_block_ok _ _) Hw') as (w2 & Hw2).
  exists w2. rewrite fold_left_cons, Hpb, map_cons, fold_left_cons. exact Hw2.
Qed.

(** ** Padding *)

Lemma write_at_app (xs ys zs ws : list Z) n : n = length xs -> length ys = length ws ->
  write_at (xs ++ ys ++ zs) n ws = xs ++ ws ++ zs.
Proof.
  intros -> Hl. unfold write_at. rewrite take_app_length, <- Hl, drop_app_add.
  by rewrite drop_app_length.
Qed.

Lemma totalLen_split (len : nat) : exists z,
  (((len + 8) / 64 + 1) * 64 = len + (1 + (z + (4 + 4))))%nat
  /\ z = Z.to_nat ((55 - Z.of_nat len) mod 64).
Proof.
  exists (Z.to_nat ((55 - Z.of_nat len) mod 64)). split; [|done].
  pose proof (Nat.div_mod (len + 8) 64 ltac:(lia)) as Hd.
  pose proof (Nat.mod_upper_bound (len + 8) 64 ltac:(lia)) as Hm.
  set (q := ((len + 8) / 64)%nat) in *. set (r := ((len + 8) mod 64)%nat) in *.
  assert ((55 - Z.of_nat len) mod 64 = 63 - Z.of_nat r) as ->; [|lia].
  symmetry. apply (Z.mod_unique _ _ (- Z.of_nat q)); lia.
Qed.

Lemma be_bytes_eq32 x y : eq32 x y -> be_bytes x = be_bytes y.
Proof. unfold eq32, be_bytes. by intros ->. Qed.

Lemma pad_message_fips m : pad_message m = fips_pad m.
Proof.
  unfold pad_message, fips_pad, totalLen. cbv zeta.
  destruct (totalLen_split (length m)) as (z & Htot & Hz). rewrite Htot, <- Hz.
  assert (Hstart : write_at (replicate (length m + (1 + (z + (4 + 4)))) 0) 0 m
    = m ++ replicate (1 + (z + (4 + 4))) 0).
  { rewrite replicate_add.
    apply (write_at_app [] (replicate (length m) 0) (replicate _ 0) m); [done|].
    by rewrite length_replicate. }
  rewrite Hstart. rewrite (insert_app_r_alt _ _ (length m)), Nat.sub_diag by done.
  cbn [Nat.add replicate]. change (<[0%nat := 128]> (0 :: ?x)) with (128 :: x).
  replace (z + 8)%nat with (z + (4 + 4))%nat by lia. rewrite !replicate_add.
  assert (Hhi : be_bytes (Z.of_nat (length m) / 0x20000000) = be_bytes (8 * Z.of_nat (length m) / W32)).
  { f_equal. change W32 with (8 * 0x20000000). by rewrite Z.div_mul_cancel_l by lia. }
  assert (Hlo : be_bytes (u32 (js_shl (Z.of_nat (length m)) 3)) = be_bytes (8 * Z.of_nat (length m))).
  { apply be_bytes_eq32. rewrite u32_eq, js_shl_eq by lia. rewrite Z.shiftl_mul_pow2 by lia.
    by rewrite Z.mul_comm. }
  unfold setUint32. rewrite Hhi, Hlo.
  set (hi := be_bytes (_ / W32)). set (lo := be_bytes (8 * _)).
  assert (Hl4 : forall x, length (be_bytes x) = 4%nat) by done.
  replace (m ++ 128 :: replicate z 0 ++ replicate 4 0 ++ replicate 4 0)
    with ((m ++ [128] ++ replicate z 0) ++ replicate 4 0 ++ replicate 4 0)
    by by rewrite <- !app_assoc.
  rewrite (write_at_app (m ++ [128] ++ replicate z 0) (replicate 4 0) (replicate 4 0) hi);
    [|rewrite !length_app, length_replicate; simpl; lia|by unfold hi].
  replace ((m ++ [128] ++ replicate z 0) ++ hi ++ replicate 4 0)
    with ((m ++ [128] ++ replicate z 0 ++ hi) ++ replicate 4 0 ++ [])
    by by rewrite app_nil_r, <- !app_assoc.
  rewrite (write_at_app (m ++ [128] ++ replicate z 0 ++ hi) (replicate 4 0) [] lo);
    [|rewrite !length_app, length_replicate; unfold hi; rewrite Hl4; simpl; lia|by unfold lo].
  by rewrite app_nil_r, <- !app_assoc.
Qed.

Lemma be_bytes_byte x : Forall byte (be_bytes x).
Proof.
  pose proof (u32_range x) as Hr. unfold be_bytes, byte.
  repeat constructor; try apply Z.mod_pos_bound; try done.
  - apply Z.div_pos; lia.
  - apply Z.div_lt_upper_bound; [done|]. unfold W32 in Hr. lia.
Qed.

Lemma fips_pad_byte m : Forall byte m -> Forall byte (fips_pad m).
Proof.
  intros Hm. unfold fips_pad. rewrite !Forall_app. split_and!; try apply be_bytes_byte; [done| |].
  - by repeat constructor.
  - by apply Forall_replicate.
Qed.

Lemma fips_pad_length m : length (fips_pad m) = totalLen m.
Proof.
  unfold fips_pad, totalLen. destruct (totalLen_split (length m)) as (z & -> & Hz).
  rewrite <- Hz, !length_app, length_replicate. done.
Qed.

(** Writing the eight words of the result. *)
Lemma output_words h : length h = 8%nat ->
  fold_left (fun out i => setUint32 out (i * 4) (at_ h i)) (seq 0 8) (replicate 32 0)
  = concat (map be_bytes h).
Proof.
  intros Hl. do 8 (destruct h as [|? h]; [done|]). destruct h; [|done]. reflexivity.
Qed.

Lemma fips_blocks_ok bs h : hash_ok h -> hash_ok (fold_left fips_block bs h).
Proof.
  revert h. induction bs as [|b bs IH]; intros h Hh; [done|].
  rewrite fold_left_cons. apply IH, fips_block_ok.
Qed.

Lemma H0_ok : hash_ok H0.
Proof. split; [done|]. unfold H0. repeat (apply Forall_cons_2; [unfold word, W32; lia|]). constructor. Qed.

Lemma sha256_fips m : Forall byte m -> sha256Bytes m = fips_sha256 m.
Proof.
  intros Hm. unfold sha256Bytes, fips_sha256. cbv zeta. rewrite pad_message_fips, fips_pad_length.
  destruct (process_blocks_fips (fips_pad m) (seq 0 (totalLen m / 64)) H0 (replicate 64 0)
    (fips_pad_byte m Hm) H0_ok (length_replicate _ _)) as (w' & ->).
  rewrite blocks_map, <- H0_fips. apply output_words. by apply fips_blocks_ok, H0_ok.
Qed.

Lemma sha256_length m : Forall byte m -> length (sha256Bytes m) = 32%nat /\ Forall byte (sha256Bytes m).
Proof.
  intros Hm. rewrite sha256_fips by done. unfold fips_sha256. rewrite <- H0_fips.
  destruct (fips_blocks_ok (blocks (length (fips_pad m) / 64) (fips_pad m)) H0 H0_ok) as [Hl _].
  set (h := fold_left _ _ _) in *. cbv zeta. fold h. clearbody h. split.
  - do 8 (destruct h as [|? h]; [done|]). destruct h; done.
  - clear Hl. induction h as [|x h IH]; cbn [map concat]; [constructor|].
    apply Forall_app. split; [apply be_bytes_byte|done].
Qed.

(** ** Hexadecimal output *)

Lemma hex_byte_spec b : byte b -> length (hex_byte b) = 2%nat /\ forallb is_hex (hex_byte b) = true
  /\ parse_hex (hex_byte b) = Z.to_N b.
Proof.
  intros Hb.
  assert (Hall : forallb (fun n => let b := Z.of_nat n in
    (length (hex_byte b) =? 2)%nat && forallb is_hex (hex_byte b)
    && (parse_hex (hex_byte b) =? Z.to_N b)%N) (seq 0 256) = true) by (vm_compute; reflexivity).
  rewrite forallb_forall in Hall. specialize (Hall (Z.to_nat b)).
  cbv zeta in Hall. rewrite Z2Nat.id in Hall by (unfold byte in Hb; lia).
  rewrite !andb_true_iff, Nat.eqb_eq, N.eqb_eq in Hall.
  destruct Hall as [[? ?] ?]; [|done]. apply in_seq. unfold byte in Hb. lia.
Qed.

(** Reading hexadecimal text back, two digits at a time. *)
Fixpoint read_hex (n : nat) (s : jsstr) : list Z :=
  match n with
  | O => []
  | S n' => Z.of_N (parse_hex (take 2 s)) :: read_hex n' (drop 2 s)
  end.

Lemma read_hex_bytes bs : Forall byte bs -> read_hex (length bs) (concat (map hex_byte bs)) = bs.
Proof.
  induction 1 as [|b bs Hb _ IH]; cbn [length read_hex map concat]; [done|].
  destruct (hex_byte_spec b Hb) as (Hl & _ & Hp).
  rewrite <- Hl, take_app_length, drop_app_length, Hp, IH, Z2N.id by (unfold byte in Hb; lia). done.
Qed.

(** ** Properties *)

(** C10. The hash is SHA-256: on every byte string, the loops over typed arrays with
    signed 32-bit intermediate values compute the function FIPS 180-4 defines. *)
Theorem sha256Bytes_fips (message : list Z) :
  Forall byte message -> sha256Bytes message = fips_sha256 message.
Proof. apply sha256_fips. Qed.

Lemma sha256Bytes_fips_witness : sha256Bytes (ascii_bytes "abc") = fips_sha256 (ascii_bytes "abc").
Proof. apply (sha256Bytes_fips (ascii_bytes "abc")). repeat constructor; vm_compute; done. Defined.

(** The hexadecimal form: 64 digits that read back as the 32 bytes of the hash. *)
Theorem sha256Hex_roundtrip (message : list Z) :
  Forall byte message ->
  length (sha256Hex message) = 64%nat
  /\ forallb is_hex (sha256Hex message) = true
  /\ read_hex 32 (sha256Hex message) = sha256Bytes message.
Proof.
  intros Hm. destruct (sha256_length message Hm) as [Hl Hb]. unfold sha256Hex.
  split_and!; [| |rewrite <- Hl; by apply read_hex_bytes].
  - assert (Hlen : length (concat (map hex_byte (sha256Bytes message)))
      = (2 * length (sha256Bytes message))%nat); [|by rewrite Hlen, Hl].
    clear Hl. induction Hb as [|b bs Hb _ IH]; cbn [map concat]; [done|].
    rewrite length_app, IH. destruct (hex_byte_spec b Hb) as (-> & _). simpl. lia.
  - clear Hl. induction Hb as [|b bs Hb _ IH]; cbn [map concat]; [done|].
    rewrite forallb_app, IH. by destruct (hex_byte_spec b Hb) as (_ & -> & _).
Qed.

Lemma sha256Hex_roundtrip_witness :
  length (sha256Hex (ascii_bytes "key")) = 64%nat
  /\ forallb is_hex (sha256Hex (ascii_bytes "key")) = true
  /\ read_hex 32 (sha256Hex (ascii_bytes "key")) = sha256Bytes (ascii_bytes "key").
Proof. apply (sha256Hex_roundtrip (ascii_bytes "key")). repeat constructor; vm_compute; done. Defined.
