(* ===== verification/StatusCodes.v ===== *)
(** * HTTP status code rules and mappings

    Models [web/src/lib/http-status-code-rules.ts], which parses a list of status
    codes and ranges and normalises it, and
    [web/src/features/channels/lib/status-code-risk-guard.ts], which reviews a
    JSON mapping of status codes. *)

From stdpp Require Import sorting.
From S2P Require Import Prelude JsString JsNumber JsValue.

(** ** Rules *)

Record StatusCodeRange := Range { start : Z; end_ : Z }.

Record ParsedHttpStatusCodeRules := {
  ok : bool;
  ranges : list StatusCodeRange;
  tokens : list jsstr;
  normalized : jsstr;
  invalidTokens : list jsstr
}.

Definition isNumber (s : jsstr) : bool := all_digits s.

(** [Number.parseInt(s, 10)] on digits.  The code compares it with small bounds
    only, and those comparisons agree on the exact integer. *)
Definition parse_int (s : jsstr) : Z := Z.of_N (parse_dec s).

Definition isValidCode (code : Z) : bool := (100 <=? code) && (code <=? 599).

(** [s.replaceAll(/\s/g, '')] *)
Definition remove_spaces (s : jsstr) : jsstr := List.filter (fun c => negb (is_space c)) s.

Definition parseToken (token : jsstr) : option StatusCodeRange :=
  let cleaned := remove_spaces (trim token) in
  if negb (nonempty cleaned) then None
  else if includes_unit (ch "-") cleaned then
    match split (ch "-") cleaned with
    | a :: b :: _ =>
        if negb (isNumber a) || negb (isNumber b) then None
        else
          let start := parse_int a in
          let end_ := parse_int b in
          if negb (isValidCode start) || negb (isValidCode end_) || (end_ <? start) then None
          else Some (Range start end_)
    | _ => None
    end
  else if negb (isNumber cleaned) then None
  else
    let code := parse_int cleaned in
    if negb (isValidCode code) then None else Some (Range code code).

(** The comparison of the sort, and a stable sort by it. *)
Definition range_before (a b : StatusCodeRange) : bool :=
  (start a <? start b) || ((start a =? start b) && (end_ a <? end_ b)).

Fixpoint insert_range (r : StatusCodeRange) (sorted : list StatusCodeRange) : list StatusCodeRange :=
  match sorted with
  | [] => [r]
  | r' :: sorted' =>
      if range_before r' r then r' :: insert_range r sorted' else r :: sorted
  end.
Definition sort_ranges (rs : list StatusCodeRange) : list StatusCodeRange := fold_right insert_range [] rs.

(** The callback of [reduce]; the last range is a copy that the code mutates. *)
Definition merge_step (merged : list StatusCodeRange) (current : StatusCodeRange)
    : list StatusCodeRange :=
  match last merged with
  | None => merged ++ [current]
  | Some l =>
      if end_ l + 1 <? start current then merged ++ [current]
      else removelast merged ++ [Range (start l) (Z.max (end_ l) (end_ current))]
  end.

Definition mergeRanges (rs : list StatusCodeRange) : list StatusCodeRange :=
  match rs with
  | [] => []
  | _ => fold_left merge_step (sort_ranges rs) []
  end.

(** The loop over the segments: the ranges and the invalid tokens, in order. *)
Fixpoint parse_segments (segments : list jsstr) : list StatusCodeRange * list jsstr :=
  match segments with
  | [] => ([], [])
  | segment :: segments' =>
      let '(rs, bad) := parse_segments segments' in
      match parseToken segment with
      | Some parsed => (parsed :: rs, bad)
      | None => (rs, segment :: bad)
      end
  end.

(** The template of a merged range. *)
Definition range_token (r : StatusCodeRange) : jsstr :=
  if start r =? end_ r then string_of_Z (start r)
  else string_of_Z (start r) ++ js "-" ++ string_of_Z (end_ r).

(** [sanitized.split(',').map(trim).filter(Boolean)] with the fullwidth comma read
    as a comma. *)
Definition rule_segments (raw : jsstr) : list jsstr :=
  let sanitized := map (fun c => if (c =? 0xFF0C)%N then ch "," else c) raw in
  List.filter nonempty (map trim (split (ch ",") sanitized)).

Definition parseHttpStatusCodeRules (input : jsval) : ParsedHttpStatusCodeRules :=
  let raw := trim (if is_nullish input then [] else string_of_val input) in
  if negb (nonempty raw) then
    {| ok := true; ranges := []; tokens := []; normalized := []; invalidTokens := [] |}
  else
    let '(rs, invalid) := parse_segments (rule_segments raw) in
    if (0 <? Z.of_nat (length invalid)) then
      {| ok := false; ranges := []; tokens := []; normalized := raw; invalidTokens := invalid |}
    else
      let merged := mergeRanges rs in
      let tokens := map range_token merged in
      {| ok := true; ranges := merged; tokens := tokens; normalized := join (js ",") tokens;
         invalidTokens := [] |}.

Example rules_sample :
  let r := parseHttpStatusCodeRules (JStr (js " 500-503, 429,504 ,430-440, 410 ")) in
  (ok r, normalized r) = (true, js "410,429-440,500-504").
Proof. vm_compute. reflexivity. Qed.

(** Everything after a second hyphen is ignored. *)
Example third_bound_ignored : parseToken (js "400-404-x") = Some (Range 400 404).
Proof. vm_compute. reflexivity. Qed.

(** ** Mappings *)

Definition NON_REDIRECTABLE_STATUS_CODES : list Z := [504; 524].

(** [/^[1-5]\d{2}$/] *)
Definition is_status_text (s : jsstr) : bool :=
  match s with
  | [a; b; c] => (49 <=? a)%N && (a <=? 53)%N && is_digit b && is_digit c
  | _ => false
  end.

Definition parseStatusCodeKey (rawKey : jsstr) : option Z :=
  let normalized := trim rawKey in
  if negb (is_status_text normalized) then None else Some (parse_int normalized).

Definition parseStatusCodeMappingTarget (rawValue : jsval) : option Z :=
  match rawValue with
  | JNum n =>
      if is_integer n then
        let code := Zfloor_num n in
        if (100 <=? code) && (code <=? 599) then Some code else None
      else None
  | JStr s =>
      let normalized := trim s in
      if negb (is_status_text normalized) then None
      else
        let code := parse_int normalized in
        if (100 <=? code) && (code <=? 599) then Some code else None
  | _ => None
  end.

(** The entries of the mapping, empty when the text is blank, not JSON or not an
    object. *)
Definition mapping_entries (statusCodeMappingStr : jsstr) : list (jsstr * jsval) :=
  if negb (nonempty (trim statusCodeMappingStr)) then []
  else match json_parse statusCodeMappingStr with
       | Some (JObj fields) => fields
       | _ => []
       end.

Definition ARROW : jsstr := [32; 0x2192; 32]%N.

Definition collectInvalidStatusCodeEntries (statusCodeMappingStr : jsstr) : list jsstr :=
  flat_map (fun kv : jsstr * jsval =>
      match parseStatusCodeKey kv.1, parseStatusCodeMappingTarget kv.2 with
      | Some _, Some _ => []
      | _, _ => [kv.1 ++ ARROW ++ string_of_val kv.2]
      end) (mapping_entries statusCodeMappingStr).

(** The text pushed for one entry, if it is a risky redirect. *)
Definition risky_mapping (kv : jsstr * jsval) : list jsstr :=
  match parseStatusCodeKey kv.1, parseStatusCodeMappingTarget kv.2 with
  | Some fromCode, Some toCode =>
      if negb (existsb (Z.eqb fromCode) NON_REDIRECTABLE_STATUS_CODES) then []
      else if fromCode =? toCode then []
      else [string_of_Z fromCode ++ js " -> " ++ string_of_Z toCode]
  | _, _ => []
  end.

(** [.sort()] without a comparator: by code units *)
Fixpoint insert_str (s : jsstr) (sorted : list jsstr) : list jsstr :=
  match sorted with
  | [] => [s]
  | s' :: sorted' => if str_ltb s' s then s' :: insert_str s sorted' else s :: sorted
  end.
Definition sort_strs (ss : list jsstr) : list jsstr := fold_right insert_str [] ss.

Definition collectDisallowedStatusCodeRedirects (statusCodeMappingStr : jsstr) : list jsstr :=
  sort_strs (dedupe (flat_map risky_mapping (mapping_entries statusCodeMappingStr))).

Definition collectNewDisallowedStatusCodeRedirects (originalStr currentStr : jsstr) : list jsstr :=
  let currentRisky := collectDisallowedStatusCodeRedirects currentStr in
  if (length currentRisky =? 0)%nat then []
  else
    let originalRiskySet := dedupe (collectDisallowedStatusCodeRedirects originalStr) in
    List.filter (fun mapping => negb (includes_str originalRiskySet mapping)) currentRisky.

Definition json_sample (target : string) : jsstr :=
  js "{" ++ [DQUOTE] ++ js "504" ++ [DQUOTE] ++ js ":" ++ js target ++ js "}".

Example redirect_sample :
  collectNewDisallowedStatusCodeRedirects (json_sample "504") (json_sample "200")
  = [js "504 -> 200"].
Proof. vm_compute. reflexivity. Qed.

(** ** Merged ranges *)

Definition covers (rs : list StatusCodeRange) (code : Z) : Prop :=
  exists r, r ∈ rs /\ start r <= code <= end_ r.

Definition range_ok (r : StatusCodeRange) : Prop := 100 <= start r /\ start r <= end_ r /\ end_ r <= 599.

(** Apart: disjoint and not even adjacent, in increasing order. *)
Definition apart (a b : StatusCodeRange) : Prop := end_ a + 1 < start b.

Definition canonical (rs : list StatusCodeRange) : Prop :=
  StronglySorted apart rs /\ Forall range_ok rs.

Lemma covers_nil c : ~ covers [] c.
Proof. intros (r & Hr & _). by apply elem_of_nil in Hr. Qed.

Lemma covers_app xs ys c : covers (xs ++ ys) c <-> covers xs c \/ covers ys c.
Proof. unfold covers. setoid_rewrite elem_of_app. naive_solver. Qed.

Lemma covers_one r c : covers [r] c <-> start r <= c <= end_ r.
Proof. unfold covers. setoid_rewrite list_elem_of_singleton. naive_solver. Qed.

Lemma covers_perm xs ys c : xs ≡ₚ ys -> covers xs c <-> covers ys c.
Proof. intros Hp. unfold covers. by setoid_rewrite Hp. Qed.

Lemma list_snoc_cases {A} (l : list A) : l = [] \/ exists before x, l = before ++ [x].
Proof.
  induction l as [|x l _] using rev_ind; [by left|]. right. by exists l, x.
Qed.

Definition start_le (a b : StatusCodeRange) : Prop := start a <= start b.

Lemma insert_range_perm r l : insert_range r l ≡ₚ r :: l.
Proof.
  induction l as [|r' l IH]; cbn [insert_range]; [done|].
  destruct (range_before r' r); [|done]. rewrite IH. apply Permutation_swap.
Qed.

Lemma sort_ranges_perm l : sort_ranges l ≡ₚ l.
Proof.
  induction l as [|r l IH]; [done|]. cbn [sort_ranges fold_right].
  fold (sort_ranges l). by rewrite insert_range_perm, IH.
Qed.

Lemma sort_ranges_sorted l : StronglySorted start_le (sort_ranges l).
Proof.
  induction l as [|r l IH]; [constructor|]. cbn [sort_ranges fold_right]. fold (sort_ranges l).
  revert IH. generalize (sort_ranges l) as s. clear l. unfold start_le.
  induction 1 as [|r' s Hs IH Hall]; cbn [insert_range]; [by repeat constructor|].
  destruct (range_before r' r) eqn:Hb; unfold range_before in Hb.
  - constructor; [done|]. rewrite insert_range_perm. constructor; [|done].
    apply orb_true_iff in Hb as [Hb%Z.ltb_lt|[Hb%Z.eqb_eq _]%andb_true_iff]; lia.
  - apply orb_false_iff in Hb as [Hb%Z.ltb_ge _]. constructor; [by constructor|].
    constructor; [done|]. eapply Forall_impl; [exact Hall|]. intros x ?. simpl in *. lia.
Qed.

(** One step keeps the accumulator canonical and adds exactly the current range. *)
Lemma merge_step_spec acc r :
  canonical acc -> range_ok r -> (forall x, x ∈ acc -> start x <= start r) ->
  canonical (merge_step acc r)
  /\ (forall c, covers (merge_step acc r) c <-> covers acc c \/ start r <= c <= end_ r)
  /\ (forall x, x ∈ merge_step acc r -> start x <= start r).
Proof.
  intros [Hs Hok] Hr Hle. unfold merge_step.
  destruct (list_snoc_cases acc) as [->|(before & l & ->)].
  { cbn [last app]. split_and!.
    - split; [by repeat constructor|by constructor].
    - intros c. rewrite covers_one. split; [by right|]. intros [H|]; [by apply covers_nil in H|done].
    - intros x ->%list_elem_of_singleton. lia. }
  rewrite last_snoc, removelast_last.
  apply StronglySorted_app in Hs as (Hapart & Hbefore & _). apply Forall_app in Hok as [Hokb Hokl].
  apply Forall_cons_1 in Hokl as [Hl _]. destruct Hl as (? & ? & ?), Hr as (? & ? & ?).
  assert (Hlr : start l <= start r) by (apply Hle; set_solver).
  destruct (Z.ltb_spec (end_ l + 1) (start r)) as [Hgap|Hgap].
  - split_and!.
    + split; [|by apply Forall_app; split; [apply Forall_app; split; [done|by repeat constructor]|by repeat constructor]].
      apply StronglySorted_app. split_and!; [|by apply StronglySorted_app; split_and!; [done|done|by repeat constructor]|by repeat constructor].
      intros x y Hx ->%list_elem_of_singleton. apply elem_of_app in Hx as [Hx|Hx].
      * specialize (Hapart x l Hx ltac:(set_solver)). unfold apart in *. lia.
      * apply list_elem_of_singleton in Hx as ->. done.
    + intros c. rewrite (covers_app (before ++ [l])), covers_one. done.
    + intros x [Hx| ->%list_elem_of_singleton]%elem_of_app; [by apply Hle|lia].
  - split_and!.
    + split; [|apply Forall_app; split; [done|repeat constructor; simpl; lia]].
      apply StronglySorted_app. split_and!; [|done|by repeat constructor].
      intros x y Hx ->%list_elem_of_singleton. exact (Hapart x l Hx ltac:(set_solver)).
    + intros c. rewrite !covers_app, !covers_one. cbn [start end_]. split.
      * intros [Hc|Hc]; [by left; left|]. destruct (Z.le_gt_cases c (end_ l)); [left; right; lia|right; lia].
      * intros [[Hc|Hc]|Hc]; [by left|right; lia|right; lia].
    + intros x [Hx| ->%list_elem_of_singleton]%elem_of_app; [apply Hle; set_solver|simpl; lia].
Qed.

Lemma merge_fold_spec rs acc :
  canonical acc -> Forall range_ok rs -> StronglySorted start_le rs ->
  (forall x y, x ∈ acc -> y ∈ rs -> start x <= start y) ->
  canonical (fold_left merge_step rs acc)
  /\ forall c, covers (fold_left merge_step rs acc) c <-> covers acc c \/ covers rs c.
Proof.
  revert acc. induction rs as [|r rs IH]; intros acc Hacc Hok Hs Hle; cbn [fold_left].
  { split; [done|]. intros c. split; [by left|]. intros [H|H]; [done|by apply covers_nil in H]. }
  apply Forall_cons_1 in Hok as [Hr Hok]. apply StronglySorted_cons in Hs as [Hall Hs].
  destruct (merge_step_spec acc r Hacc Hr) as (Hcan & Hcov & Hmax); [intros; apply Hle; set_solver|].
  destruct (IH (merge_step acc r) Hcan Hok Hs) as [IHcan IHcov].
  { intros x y Hx Hy. rewrite Forall_forall in Hall. specialize (Hall y Hy). specialize (Hmax x Hx).
    unfold start_le in Hall. lia. }
  split; [done|]. intros c. rewrite IHcov, Hcov.
  change (r :: rs) with ([r] ++ rs). rewrite covers_app, covers_one. tauto.
Qed.

Lemma mergeRanges_spec rs : Forall range_ok rs ->
  canonical (mergeRanges rs) /\ forall c, covers (mergeRanges rs) c <-> covers rs c.
Proof.
  intros Hok. destruct rs as [|r0 rs0] eqn:Hrs; [by split; [repeat constructor|]|].
  unfold mergeRanges. rewrite <- Hrs in *. clear r0 rs0 Hrs.
  destruct (merge_fold_spec (sort_ranges rs) []) as [Hcan Hcov].
  - repeat constructor.
  - by rewrite sort_ranges_perm.
  - apply sort_ranges_sorted.
  - intros x y Hx. by apply elem_of_nil in Hx.
  - split; [done|]. intros c. rewrite Hcov, (covers_perm _ _ c (sort_ranges_perm rs)).
    split; [intros [H|H]; [by apply covers_nil in H|done]|by right].
Qed.

(** Merging canonical ranges changes nothing. *)
Lemma merge_fold_canonical rs acc : canonical (acc ++ rs) ->
  fold_left merge_step rs acc = acc ++ rs.
Proof.
  revert acc. induction rs as [|r rs IH]; intros acc Hcan; cbn [fold_left]; [by rewrite app_nil_r|].
  assert (Hstep : merge_step acc r = acc ++ [r]).
  { unfold merge_step. destruct (list_snoc_cases acc) as [->|(before & l & ->)]; [done|].
    rewrite last_snoc. destruct Hcan as [Hs _].
    apply StronglySorted_app in Hs as (Hapart & _ & _).
    specialize (Hapart l r ltac:(set_solver) ltac:(set_solver)).
    apply Z.ltb_lt in Hapart. by rewrite Hapart. }
  rewrite Hstep, IH by (rewrite <- app_assoc; done). by rewrite <- app_assoc.
Qed.

Lemma sort_ranges_canonical rs : canonical rs -> sort_ranges rs = rs.
Proof.
  induction rs as [|r rs IH]; intros [Hs Hok]; [done|]. cbn [sort_ranges fold_right].
  fold (sort_ranges rs). apply StronglySorted_cons in Hs as [Hall Hs].
  apply Forall_cons_1 in Hok as [Hr Hok]. rewrite IH by done.
  destruct rs as [|r' rs]; cbn [insert_range]; [done|].
  apply Forall_cons_1 in Hall as [Hrr' _]. apply Forall_cons_1 in Hok as [Hr' _].
  unfold apart, range_ok in *. assert (range_before r' r = false) as ->; [|done].
  unfold range_before. rewrite orb_false_iff, andb_false_iff, !Z.ltb_ge, Z.eqb_neq. lia.
Qed.

Lemma mergeRanges_canonical rs : canonical rs -> mergeRanges rs = rs.
Proof.
  intros Hcan. destruct rs as [|r0 rs0] eqn:Hrs; [done|]. unfold mergeRanges. rewrite <- Hrs in *.
  rewrite sort_ranges_canonical by done. by apply (merge_fold_canonical rs []).
Qed.

(** ** Tokens *)

Definition no_space (c : N) : bool := negb (is_space c).

Lemma digit_plain c : is_digit c = true ->
  no_space c = true /\ (c =? ch "-")%N = false /\ (c =? ch ",")%N = false /\ (c =? 0xFF0C)%N = false.
Proof.
  unfold is_digit. rewrite andb_true_iff, !N.leb_le. intros [Hlo Hhi].
  assert (Hc : exists n, (n < 10)%nat /\ c = (48 + N.of_nat n)%N) by (exists (N.to_nat (c - 48)); lia).
  destruct Hc as (n & Hn & ->). do 10 (destruct n as [|n]; [by split_and!|]). lia.
Qed.

Lemma code_text v : 100 <= v <= 599 ->
  forallb is_digit (string_of_Z v) = true /\ nonempty (string_of_Z v) = true
  /\ parse_int (string_of_Z v) = v.
Proof.
  intros Hv.
  assert (Hall : forallb (fun n => let v := 100 + Z.of_nat n in
    forallb is_digit (string_of_Z v) && nonempty (string_of_Z v)
    && (parse_int (string_of_Z v) =? v)) (seq 0 500) = true) by (vm_compute; reflexivity).
  rewrite forallb_forall in Hall. specialize (Hall (Z.to_nat (v - 100))).
  cbv zeta in Hall. replace (100 + Z.of_nat (Z.to_nat (v - 100))) with v in Hall by lia.
  rewrite !andb_true_iff, Z.eqb_eq in Hall.
  destruct Hall as [[? ?] ?]; [|done]. apply in_seq. lia.
Qed.

Lemma digits_isNumber s : forallb is_digit s = true -> nonempty s = true -> isNumber s = true.
Proof. by destruct s. Qed.

Lemma forallb_impl {A} (p q : A -> bool) l : (forall x, p x = true -> q x = true) ->
  forallb p l = true -> forallb q l = true.
Proof. intros H. rewrite !forallb_forall. auto. Qed.

Lemma filter_forallb {A} (p : A -> bool) l : forallb p l = true -> List.filter p l = l.
Proof.
  induction l as [|x l IH]; simpl; [done|]. rewrite andb_true_iff. intros [-> Hl]. by rewrite IH.
Qed.

Lemma digits_no_unit c s : forallb is_digit s = true -> is_digit c = false -> c ∉ s.
Proof.
  intros Hs Hc Hin. rewrite forallb_forall in Hs.
  specialize (Hs c ltac:(by apply list_elem_of_In)). congruence.
Qed.

Lemma includes_unit_spec c s : includes_unit c s = true <-> c ∈ s.
Proof.
  unfold includes_unit. rewrite existsb_exists. split.
  - intros (x & Hx & ->%N.eqb_eq). by apply list_elem_of_In.
  - intros Hx. exists c. split; [by apply list_elem_of_In|apply N.eqb_refl].
Qed.

Lemma range_token_plain r : range_ok r ->
  forallb no_space (range_token r) = true /\ ch "," ∉ range_token r /\ 0xFF0C%N ∉ range_token r
  /\ nonempty (range_token r) = true.
Proof.
  intros (Hlo & Hle & Hhi).
  destruct (code_text (start r) ltac:(lia)) as (Hd1 & Hn1 & _).
  destruct (code_text (end_ r) ltac:(lia)) as (Hd2 & Hn2 & _).
  assert (Hplain : forall s, forallb is_digit s = true ->
    forallb no_space s = true /\ ch "," ∉ s /\ 0xFF0C%N ∉ s).
  { intros s Hs. split_and!; [|by apply digits_no_unit|by apply digits_no_unit].
    eapply forallb_impl; [|exact Hs]. intros x Hx. by apply digit_plain. }
  destruct (Hplain _ Hd1) as (? & ? & ?), (Hplain _ Hd2) as (? & ? & ?).
  unfold range_token. destruct (start r =? end_ r); [done|].
  rewrite !forallb_app, !not_elem_of_app. change (js "-") with [ch "-"].
  rewrite !list_elem_of_singleton. split_and!; try done.
  - rewrite !andb_true_iff. done.
  - by destruct (string_of_Z (start r)).
Qed.

Lemma parse_range_token r : range_ok r -> parseToken (range_token r) = Some r.
Proof.
  intros Hr. pose proof (range_token_plain r Hr) as (Hsp & _ & _ & Hne).
  unfold parseToken. rewrite trim_no_space by done.
  unfold remove_spaces. rewrite filter_forallb by done. rewrite Hne. cbn [negb].
  destruct Hr as (Hlo & Hle & Hhi).
  destruct (code_text (start r) ltac:(lia)) as (Hd1 & Hn1 & Hp1).
  destruct (code_text (end_ r) ltac:(lia)) as (Hd2 & Hn2 & Hp2).
  assert (Hvalid : forall v, 100 <= v <= 599 -> isValidCode v = true)
    by (intros v Hv; apply andb_true_iff; split; apply Z.leb_le; lia).
  assert (Hno : forall s, forallb is_digit s = true -> ch "-" ∉ s)
    by (intros s Hs; by apply digits_no_unit).
  unfold range_token. destruct (Z.eqb_spec (start r) (end_ r)) as [Heq|Hne'].
  - destruct (includes_unit (ch "-") (string_of_Z (start r))) eqn:Hi.
    { apply includes_unit_spec in Hi. exfalso. by apply (Hno _ Hd1). }
    rewrite digits_isNumber by done. cbn [negb]. rewrite Hp1, Hvalid by lia. cbn [negb].
    destruct r as [a b]; cbn [start end_] in *. by subst.
  - assert (includes_unit (ch "-") (string_of_Z (start r) ++ js "-" ++ string_of_Z (end_ r)) = true) as ->.
    { apply includes_unit_spec. change (js "-") with [ch "-"]. set_solver. }
    change (string_of_Z (start r) ++ js "-" ++ string_of_Z (end_ r))
      with (join [ch "-"] [string_of_Z (start r); string_of_Z (end_ r)]).
    rewrite split_join by (done || by repeat constructor; auto).
    rewrite !digits_isNumber by done. cbn [negb orb]. rewrite Hp1, Hp2, !Hvalid by lia. cbn [negb orb].
    destruct (Z.ltb_spec (end_ r) (start r)); [lia|]. by destruct r.
Qed.

Lemma parse_segments_tokens rs : Forall range_ok rs -> parse_segments (map range_token rs) = (rs, []).
Proof.
  induction 1 as [|r rs Hr _ IH]; cbn [map parse_segments]; [done|].
  by rewrite IH, parse_range_token.
Qed.

Lemma rule_segments_tokens rs : rs <> [] -> Forall range_ok rs ->
  rule_segments (join (js ",") (map range_token rs)) = map range_token rs.
Proof.
  intros Hne Hok. unfold rule_segments.
  assert (Hplain : Forall (fun t => forallb no_space t = true /\ ch "," ∉ t /\ 0xFF0C%N ∉ t
    /\ nonempty t = true) (map range_token rs)).
  { apply Forall_map. eapply Forall_impl; [exact Hok|]. apply range_token_plain. }
  assert (Hts : map range_token rs <> []) by by destruct rs.
  revert Hplain Hts. generalize (map range_token rs) as ts. clear rs Hne Hok. intros ts Hplain Hts.
  assert (Hmap : forall s : jsstr, 0xFF0C%N ∉ s ->
    map (fun c => if (c =? 0xFF0C)%N then ch "," else c) s = s).
  { induction s as [|c s IH]; intros Hs; cbn [map]; [done|].
    apply not_elem_of_cons in Hs as [Hc Hs]. rewrite IH by done.
    destruct (N.eqb_spec c 0xFF0C); [congruence|done]. }
  rewrite Hmap.
  - rewrite split_join; [|done|eapply Forall_impl; [exact Hplain|]; by intros t (_ & Ht & _)].
    induction Hplain as [|t ts (Ht & _ & _ & Hn) _ IH]; cbn [map List.filter]; [done|].
    rewrite trim_no_space by done. rewrite Hn. f_equal.
    destruct ts; [done|]. by apply IH.
  - clear Hts. induction Hplain as [|t ts (_ & _ & Hf & _) Hrest IH]; cbn [join]; [by intros ?%elem_of_nil|].
    destruct ts as [|t' ts]; [done|]. rewrite !not_elem_of_app. split_and!; [done| |done].
    change (js ",") with [ch ","]. by rewrite list_elem_of_singleton.
Qed.

Lemma parseToken_ok s r : parseToken s = Some r -> range_ok r.
Proof.
  unfold parseToken. intros H.
  assert (Hvalid : forall v, isValidCode v = true -> 100 <= v <= 599)
    by (intros v [?%Z.leb_le ?%Z.leb_le]%andb_true_iff; lia).
  destruct (negb (nonempty _)); [done|]. destruct (includes_unit _ _).
  - destruct (split _ _) as [|a [|b rest]]; try done. destruct (negb _ || negb _); [done|].
    destruct (isValidCode (parse_int a)) eqn:Ha; [|done].
    destruct (isValidCode (parse_int b)) eqn:Hb; [|done]. cbn [negb orb] in H.
    destruct (Z.ltb_spec (parse_int b) (parse_int a)); [done|]. injection H as <-.
    apply Hvalid in Ha, Hb. unfold range_ok. cbn [start end_]. lia.
  - destruct (negb _); [done|]. destruct (isValidCode _) eqn:Ha; [|done]. injection H as <-.
    apply Hvalid in Ha. unfold range_ok. cbn [start end_]. lia.
Qed.

Lemma parse_segments_ok ss rs bad : parse_segments ss = (rs, bad) ->
  Forall range_ok rs
  /\ (forall r, r ∈ rs <-> exists s, s ∈ ss /\ parseToken s = Some r)
  /\ (forall s, s ∈ bad <-> s ∈ ss /\ parseToken s = None).
Proof.
  revert rs bad. induction ss as [|s ss IH]; intros rs bad H; cbn [parse_segments] in H.
  { injection H as <- <-. split_and!; [constructor| |]; set_solver. }
  destruct (parse_segments ss) as [rs' bad']. destruct (IH rs' bad' eq_refl) as (Hok & Hin & Hbad).
  destruct (parseToken s) as [r|] eqn:Hs; injection H as <- <-.
  - split_and!.
    + constructor; [by eapply parseToken_ok|done].
    + intros r'. rewrite elem_of_cons, Hin. setoid_rewrite elem_of_cons. naive_solver.
    + intros s'. rewrite Hbad, elem_of_cons. naive_solver.
  - split_and!; [done| |].
    + intros r'. rewrite Hin. setoid_rewrite elem_of_cons. naive_solver.
    + intros s'. rewrite elem_of_cons, Hbad, elem_of_cons. naive_solver.
Qed.

(** ** Sorted sets of texts *)

Definition str_le (a b : jsstr) : Prop := str_ltb b a = false.

Lemma insert_str_perm s l : insert_str s l ≡ₚ s :: l.
Proof.
  induction l as [|s' l IH]; cbn [insert_str]; [done|].
  destruct (str_ltb s' s); [|done]. rewrite IH. apply Permutation_swap.
Qed.

Lemma sort_strs_perm l : sort_strs l ≡ₚ l.
Proof.
  induction l as [|s l IH]; [done|]. cbn [sort_strs fold_right]. fold (sort_strs l).
  by rewrite insert_str_perm, IH.
Qed.

Lemma sort_strs_sorted l : StronglySorted str_le (sort_strs l).
Proof.
  induction l as [|s l IH]; [constructor|]. cbn [sort_strs fold_right]. fold (sort_strs l).
  revert IH. generalize (sort_strs l) as sorted. clear l.
  induction 1 as [|s' sorted Hs IH Hall]; cbn [insert_str]; [by repeat constructor|].
  destruct (str_ltb s' s) eqn:Hlt.
  - constructor; [done|]. rewrite insert_str_perm. constructor; [by apply str_ltb_asym|done].
  - constructor; [by constructor|]. constructor; [done|].
    eapply Forall_impl; [exact Hall|]. intros x. by apply str_leb_trans.
Qed.

(** A risky redirect of a mapping: away from 504 or 524, to another code. *)
Definition redirects (statusCodeMappingStr : jsstr) (mapping : jsstr) : Prop :=
  exists kv from_ to_, kv ∈ mapping_entries statusCodeMappingStr
    /\ parseStatusCodeKey kv.1 = Some from_ /\ parseStatusCodeMappingTarget kv.2 = Some to_
    /\ (from_ = 504 \/ from_ = 524) /\ from_ <> to_
    /\ mapping = string_of_Z from_ ++ js " -> " ++ string_of_Z to_.

Lemma risky_mapping_spec kv mapping : mapping ∈ risky_mapping kv <->
  exists from_ to_, parseStatusCodeKey kv.1 = Some from_
    /\ parseStatusCodeMappingTarget kv.2 = Some to_ /\ (from_ = 504 \/ from_ = 524)
    /\ from_ <> to_ /\ mapping = string_of_Z from_ ++ js " -> " ++ string_of_Z to_.
Proof.
  unfold risky_mapping, NON_REDIRECTABLE_STATUS_CODES. cbn [existsb].
  destruct (parseStatusCodeKey kv.1) as [f|]; [|split; [by intros ?%elem_of_nil|naive_solver]].
  destruct (parseStatusCodeMappingTarget kv.2) as [t|]; [|split; [by intros ?%elem_of_nil|naive_solver]].
  destruct (Z.eqb_spec f 504), (Z.eqb_spec f 524), (Z.eqb_spec f t); cbn [orb negb];
    rewrite ?elem_of_nil, ?list_elem_of_singleton; naive_solver.
Qed.

Lemma disallowed_spec s mapping :
  mapping ∈ collectDisallowedStatusCodeRedirects s <-> redirects s mapping.
Proof.
  unfold collectDisallowedStatusCodeRedirects, redirects.
  rewrite sort_strs_perm, elem_of_dedupe, list_elem_of_In, in_flat_map.
  setoid_rewrite <- list_elem_of_In. setoid_rewrite risky_mapping_spec. naive_solver.
Qed.

(** ** Properties *)

(** C11. Parsing status code rules.  A rejected text lists exactly its invalid
    segments.  An accepted one yields ranges within 100 to 599 that are sorted,
    disjoint and not adjacent, that cover exactly the codes its segments cover,
    and whose normalised text parses to the same ranges and the same text. *)
Theorem parseHttpStatusCodeRules_normal_form (input : jsval) :
  let raw := trim (if is_nullish input then [] else string_of_val input) in
  let r := parseHttpStatusCodeRules input in
  if ok r then
    canonical (ranges r)
    /\ (forall c, covers (ranges r) c <->
          exists segment range, segment ∈ rule_segments raw /\ parseToken segment = Some range
            /\ start range <= c <= end_ range)
    /\ (let again := parseHttpStatusCodeRules (JStr (normalized r)) in
        ok again = true /\ ranges again = ranges r /\ normalized again = normalized r)
  else
    invalidTokens r <> [] /\
    (forall s, s ∈ invalidTokens r <-> s ∈ rule_segments raw /\ parseToken s = None).
Proof.
  intros raw r. unfold r, parseHttpStatusCodeRules. fold raw.
  destruct (nonempty raw) eqn:Hraw; cbn [negb].
  2: { cbn [ok ranges normalized]. split; [by split; constructor|]. split; [|done].
       intros c. assert (raw = []) as -> by by destruct raw. split.
       - by intros ?%covers_nil.
       - intros (s & rg & Hs & _). by apply elem_of_nil in Hs. }
  destruct (parse_segments (rule_segments raw)) as [rs bad] eqn:Hseg.
  destruct (parse_segments_ok _ _ _ Hseg) as (Hok & Hin & Hbad).
  destruct (0 <? Z.of_nat (length bad)) eqn:Hlen; cbn [ok ranges normalized invalidTokens].
  { split; [|done]. intros ->. discriminate Hlen. }
  destruct (mergeRanges_spec rs Hok) as [Hcan Hcov]. split; [done|split].
  - intros c. rewrite Hcov. unfold covers. setoid_rewrite Hin. naive_solver.
  - destruct (mergeRanges rs) as [|m ms] eqn:Hm; [done|]. rewrite <- Hm in *.
    assert (Hne : mergeRanges rs <> []) by by rewrite Hm. destruct Hcan as [Hs Hall].
    cbn [is_nullish string_of_val].
    assert (Htrim : trim (join (js ",") (map range_token (mergeRanges rs)))
      = join (js ",") (map range_token (mergeRanges rs))).
    { apply trim_no_space. clear -Hall. induction Hall as [|x l Hx _ IH]; [done|].
      destruct (range_token_plain x Hx) as (Hp & _). cbn [map join].
      destruct l; [done|]. cbn [map] in *. rewrite !forallb_app, !andb_true_iff. done. }
    rewrite Htrim.
    assert (nonempty (join (js ",") (map range_token (mergeRanges rs))) = true) as ->.
    { rewrite Hm in *. apply Forall_cons_1 in Hall as [Hx _].
      destruct (range_token_plain m Hx) as (_ & _ & _ & Hn). cbn [map join].
      destruct (range_token m) as [|c t]; [done|]. by destruct (map range_token ms). }
    cbn [negb]. rewrite rule_segments_tokens, parse_segments_tokens by done. cbn [length].
    change (0 <? Z.of_nat 0) with false. cbn [ok ranges normalized].
    by rewrite (mergeRanges_canonical (mergeRanges rs)).
Qed.

(** The review of status code mappings.  The risky redirects reported are, in
    order and without duplicates, exactly the valid entries that map 504 or 524 to
    another code; the new ones are those that the original mapping did not have. *)
Theorem collectNewDisallowedStatusCodeRedirects_spec (originalStr currentStr : jsstr) :
  (forall m, m ∈ collectDisallowedStatusCodeRedirects currentStr <-> redirects currentStr m)
  /\ NoDup (collectDisallowedStatusCodeRedirects currentStr)
  /\ StronglySorted str_le (collectDisallowedStatusCodeRedirects currentStr)
  /\ (forall m, m ∈ collectNewDisallowedStatusCodeRedirects originalStr currentStr
        <-> redirects currentStr m /\ ~ redirects originalStr m).
Proof.
  split_and!.
  - intros m. apply disallowed_spec.
  - unfold collectDisallowedStatusCodeRedirects. rewrite sort_strs_perm. apply NoDup_dedupe.
  - apply sort_strs_sorted.
  - intros m. rewrite <- !disallowed_spec. unfold collectNewDisallowedStatusCodeRedirects.
    destruct (length _ =? 0)%nat eqn:Hl.
    + apply Nat.eqb_eq in Hl. destruct (collectDisallowedStatusCodeRedirects currentStr); [|done].
      split; [by intros ?%elem_of_nil|by intros [?%elem_of_nil _]].
    + rewrite in_filter, negb_true_iff, includes_str_false, elem_of_dedupe. done.
Qed.
