(* ===== verification/RouteEvents.v ===== *)
(** * Live route events ([lib/route-events.ts])

    The incremental parser of server-sent event frames, the check of
    [route-state] frames, the reconnect delay, the merge of the two sources of
    lane snapshots, and the connection loop of [openRouteEventStream] as a step
    function on events (what the awaited promises deliver, and [close()]).
    The theorems show that frames do not depend on how the text is cut into
    chunks, that a connection delivers exactly the valid frames of its text,
    that a closed stream never reconnects, how the back-off counts, which
    delays it asks for, and which snapshot wins. *)

From S2P Require Import Prelude JsString JsNumber JsRounding JsValue.

Definition NL : N := 10%N.
Definition CR : N := 13%N.

(** ** Data *)

Record SseFrame := { event : jsstr; data : jsstr }.

Record RouteStateFrame := { ts : jsstr; lanes : list jsval }.

Definition ROUTE_EVENTS_SSE_URL : jsstr := js "/api/v1/route-events".
Definition RECONNECT_BASE_MS : num := num_of_Z 1000.
Definition RECONNECT_MAX_MS : num := num_of_Z 30000.
Definition RECONNECT_JITTER_RATIO : num := ndiv (num_of_Z 25) (num_of_Z 100).
Definition SSE_SNAPSHOT_STALE_MS : num := num_of_Z 10000.

(** ** The reconnect delay *)

Record delay_options := {
  baseMs : option num;
  maxMs : option num;
  jitterRatio : option num
}.

Definition no_delay_options : delay_options :=
  {| baseMs := None; maxMs := None; jitterRatio := None |}.

(** [2 ** n] for a natural number: beyond 1023 it is infinite. *)
Definition pow2 (n : Z) : num :=
  if 1024 <=? n then S754_infinity false else num_of_Z (2 ^ n).

(** [random] is the value that the call of [options.random] returns. *)
Definition reconnectDelayMs (attempt : Z) (options : delay_options) (random : num) : num :=
  let baseMs := default RECONNECT_BASE_MS (baseMs options) in
  let maxMs := default RECONNECT_MAX_MS (maxMs options) in
  let jitterRatio := default RECONNECT_JITTER_RATIO (jitterRatio options) in
  let capped := nmin maxMs (nmul baseMs (pow2 (Z.max 0 attempt))) in
  let jitter := nadd (num_of_Z 1) (nmul random jitterRatio) in
  nmin maxMs (nround (nmul capped jitter)).

(** ** The frame parser *)

Record sse_parser := {
  buffer : jsstr;
  eventName : jsstr;
  dataLines : list jsstr;
  pending : list SseFrame
}.

Definition createSseFrameParser : sse_parser :=
  {| buffer := []; eventName := js "message"; dataLines := []; pending := [] |}.

Definition takeLine (p : sse_parser) (line : jsstr) : sse_parser :=
  if line === [] then
    {| buffer := buffer p; eventName := js "message"; dataLines := [];
       pending := if (0 <? length (dataLines p))%nat
                  then pending p ++ [{| event := eventName p; data := join [NL] (dataLines p) |}]
                  else pending p |}
  else if starts_with (js ":") line then p
  else
    let colon := index_of (js ":") line in
    let field := match colon with None => line | Some i => take i line end in
    let value := match colon with None => [] | Some i => drop (i + 1) line end in
    let value := if starts_with (js " ") value then drop 1 value else value in
    if field === js "event" then
      {| buffer := buffer p; eventName := value; dataLines := dataLines p; pending := pending p |}
    else if field === js "data" then
      {| buffer := buffer p; eventName := eventName p; dataLines := dataLines p ++ [value];
         pending := pending p |}
    else p.

(** [line.replace(/\r$/, '')] *)
Definition strip_cr (line : jsstr) : jsstr :=
  if ends_with [CR] line then take (length line - 1) line else line.

Definition set_buffer (b : jsstr) (p : sse_parser) : sse_parser :=
  {| buffer := b; eventName := eventName p; dataLines := dataLines p; pending := pending p |}.

(** The loop over the complete lines of the buffer. *)
Fixpoint feed_loop (fuel : nat) (p : sse_parser) : option sse_parser :=
  match fuel with
  | O => None
  | S fuel' =>
      match index_of [NL] (buffer p) with
      | None => Some p
      | Some idx =>
          let line := strip_cr (take idx (buffer p)) in
          feed_loop fuel' (takeLine (set_buffer (drop (idx + 1) (buffer p)) p) line)
      end
  end.

(** [pending.splice(0, pending.length)] *)
Definition splice_pending (p : sse_parser) : list SseFrame * sse_parser :=
  (pending p, {| buffer := buffer p; eventName := eventName p; dataLines := dataLines p;
                 pending := [] |}).

Definition feed (p : sse_parser) (chunk : jsstr) : option (list SseFrame * sse_parser) :=
  let p := set_buffer (buffer p ++ chunk) p in
  splice_pending <$> feed_loop (S (length (buffer p))) p.

Definition flush (p : sse_parser) : list SseFrame * sse_parser :=
  let p := if buffer p !== [] then takeLine (set_buffer [] p) (strip_cr (buffer p)) else p in
  let p :=
    if (0 <? length (dataLines p))%nat then
      {| buffer := buffer p; eventName := js "message"; dataLines := [];
         pending := pending p ++ [{| event := eventName p; data := join [NL] (dataLines p) |}] |}
    else p in
  splice_pending p.

(** ** [route-state] frames *)

Definition isLaneHealthSnapshot (v : jsval) : bool :=
  match v with
  | JNull => false
  | _ => is_typeof_object v && is_string (prop v (js "lane")) && is_array (prop v (js "members"))
  end.

Definition parseRouteStateFrame (frame : SseFrame) : option RouteStateFrame :=
  if event frame !== js "route-state" then None
  else
    match json_parse (data frame) with
    | None => None
    | Some raw =>
        if negb (is_typeof_object raw) || strict_eq raw JNull then None
        else
          match prop raw (js "ts"), prop raw (js "lanes") with
          | JStr t, JArr ls =>
              let kept := List.filter isLaneHealthSnapshot ls in
              if (length kept =? length ls)%nat then Some {| ts := t; lanes := kept |} else None
          | _, _ => None
          end
    end.

(** ** Merging the two sources *)

(** [map.set(k, v)]: a known key keeps its place. *)
Definition map_set {A} (m : list (jsstr * A)) (k : jsstr) (v : A) : list (jsstr * A) :=
  if has_key m k then replace_field m k v else m ++ [(k, v)].

(** [lane.lane], a string by the type of the interface. *)
Definition lane_name (snapshot : jsval) : jsstr :=
  match prop snapshot (js "lane") with JStr s => s | _ => [] end.

Record lane_sources := {
  sseLanes : option (list jsval);
  sseReceivedAt : option num;
  sseConnected : bool;
  pollLanes : option (list jsval);
  now : num;
  staleMs : option num
}.

Record ResolvedLaneRuntime := { byLane : list (jsstr * jsval); sseDriven : bool }.

Definition toMap (ls : option (list jsval)) : list (jsstr * jsval) :=
  fold_left (fun m lane => map_set m (lane_name lane) lane) (default [] ls) [].

Definition sse_fresh (p : lane_sources) : bool :=
  sseConnected p
  && match sseLanes p with Some _ => true | None => false end
  && match sseReceivedAt p with
     | Some at_ => num_leb (nsub (now p) at_) (default SSE_SNAPSHOT_STALE_MS (staleMs p))
     | None => false
     end.

Definition fill_lane (m : list (jsstr * jsval)) (entry : jsstr * jsval) : list (jsstr * jsval) :=
  if has_key m entry.1 then m else map_set m entry.1 entry.2.

Definition resolveLaneSnapshots (params : lane_sources) : ResolvedLaneRuntime :=
  let sseFresh := sse_fresh params in
  let byLane := toMap (if sseFresh then sseLanes params else pollLanes params) in
  let fallback := toMap (if sseFresh then pollLanes params else sseLanes params) in
  {| byLane := fold_left fill_lane fallback byLane; sseDriven := sseFresh |}.

(** ** The connection loop

    [openRouteEventStream] runs one asynchronous loop.  It is modelled as a
    step function: between two steps the loop waits for one promise, and an
    event is what that promise delivers, or a call of [close()].  [log] is what
    the loop does to the outside, in order. *)

Inductive RouteEventStatus := connecting | open | reconnecting | closed_.

(** [OLanes] records a call of [options.onLanes], and whether it returned. *)
Inductive stream_output :=
| OStatus (status : RouteEventStatus)
| OFetch (url : jsstr) (headers : list (jsstr * jsstr))
| OLanes (lanes : list jsval) (ts : jsstr) (returned : bool)
| OSleep (attempt : Z) (ms : num).

(** The promise the loop waits for. *)
Inductive phase :=
| AwaitHeaders
| AwaitFetch
| AwaitRead (parser : sse_parser)
| AwaitSleep
| Ended.

Inductive stream_event :=
| EHeaders (headers : option (list (jsstr * jsstr)))
| EResponse (ok : bool) (body : bool)
| EFetchError
| EChunk (text : jsstr)
| EDone
| EReadError
| EWoke
| EClose.

Record stream := {
  closed : bool;
  attempt : Z;
  receivedFrame : bool;
  draws : nat;
  at_phase : phase;
  log : list stream_output
}.

Section Stream.
(** The caller's options: the address, the back-off override, the source of
    random numbers (its n-th value), and whether [onLanes] returns or throws.
    [onStatus] and [delayFor] are taken to return. *)
Context (url : jsstr) (delayFor : option (Z -> num)) (random : nat -> num).
Context (onLanes : list jsval -> jsstr -> bool).

Definition emit (o : stream_output) (s : stream) : stream :=
  {| closed := closed s; attempt := attempt s; receivedFrame := receivedFrame s;
     draws := draws s; at_phase := at_phase s; log := log s ++ [o] |}.

Definition goto (ph : phase) (s : stream) : stream :=
  {| closed := closed s; attempt := attempt s; receivedFrame := receivedFrame s;
     draws := draws s; at_phase := ph; log := log s |}.

Definition set_received (b : bool) (s : stream) : stream :=
  {| closed := closed s; attempt := attempt s; receivedFrame := b;
     draws := draws s; at_phase := at_phase s; log := log s |}.

Definition set_attempt (n : Z) (s : stream) : stream :=
  {| closed := closed s; attempt := n; receivedFrame := receivedFrame s;
     draws := draws s; at_phase := at_phase s; log := log s |}.

(** The head of the loop. *)
Definition loop_head (s : stream) : stream :=
  if closed s then goto Ended s
  else
    goto AwaitHeaders
      (set_received false
         (emit (OStatus (if attempt s =? 0 then connecting else reconnecting)) s)).

(** The call of the back-off function: the caller's, or [reconnectDelayMs],
    which draws one random number. *)
Definition next_delay (s : stream) : num * stream :=
  match delayFor with
  | Some f => (f (attempt s), s)
  | None =>
      (reconnectDelayMs (attempt s) no_delay_options (random (draws s)),
       {| closed := closed s; attempt := attempt s; receivedFrame := receivedFrame s;
          draws := S (draws s); at_phase := at_phase s; log := log s |})
  end.

(** What follows the [try] statement. *)
Definition connection_over (s : stream) : stream :=
  if closed s then goto Ended s
  else
    let s := if receivedFrame s then set_attempt 0 s else s in
    let '(delay, s) := next_delay s in
    let asked := attempt s in
    goto AwaitSleep (emit (OSleep asked delay) (set_attempt (attempt s + 1) s)).

(** [emitFrame] on the frames of one chunk.  The boolean is false when
    [onLanes] threw, which ends the connection. *)
Fixpoint emit_frames (frames : list SseFrame) (s : stream) : bool * stream :=
  match frames with
  | [] => (true, s)
  | frame :: frames' =>
      match parseRouteStateFrame frame with
      | None => emit_frames frames' s
      | Some parsed =>
          let returned := onLanes (lanes parsed) (ts parsed) in
          let s := emit (OLanes (lanes parsed) (ts parsed) returned) s in
          if returned then emit_frames frames' (set_received true s) else (false, s)
      end
  end.

Definition request_headers (extra : list (jsstr * jsstr)) : list (jsstr * jsstr) :=
  fold_left (fun hs kv => set_field hs kv.1 kv.2) extra [(js "Accept", js "text/event-stream")].

Definition chunk_step (p : sse_parser) (text : jsstr) (s : stream) : option stream :=
  match feed p text with
  | None => None
  | Some (frames, p') =>
      let '(returned, s) := emit_frames frames s in
      Some (if returned then goto (AwaitRead p') s else connection_over s)
  end.

Definition done_step (p : sse_parser) (s : stream) : stream :=
  let '(frames, _) := flush p in
  let '(_, s) := emit_frames frames s in
  connection_over s.

(** [None]: the event does not fit what the loop waits for. *)
Definition step (s : stream) (ev : stream_event) : option stream :=
  match ev, at_phase s with
  | EClose, _ =>
      Some (emit (OStatus closed_)
              {| closed := true; attempt := attempt s; receivedFrame := receivedFrame s;
                 draws := draws s; at_phase := at_phase s; log := log s |})
  | EHeaders (Some extra), AwaitHeaders =>
      Some (goto AwaitFetch (emit (OFetch url (request_headers extra)) s))
  | EHeaders None, AwaitHeaders => Some (connection_over s)
  | EResponse ok body, AwaitFetch =>
      Some (if negb ok || negb body then connection_over s
            else goto (AwaitRead createSseFrameParser) (emit (OStatus open) s))
  | EFetchError, AwaitFetch => Some (connection_over s)
  | EChunk text, AwaitRead p => chunk_step p text s
  | EDone, AwaitRead p => Some (done_step p s)
  | EReadError, AwaitRead _ => Some (connection_over s)
  | EWoke, AwaitSleep => Some (loop_head s)
  | _, _ => None
  end.

Fixpoint steps (s : stream) (evs : list stream_event) : option stream :=
  match evs with
  | [] => Some s
  | ev :: evs' => match step s ev with Some s' => steps s' evs' | None => None end
  end.

Definition openRouteEventStream : stream :=
  loop_head {| closed := false; attempt := 0; receivedFrame := false; draws := 0;
               at_phase := Ended; log := [] |}.
End Stream.

(** ** Reference definitions of the frame format *)

(** A line that is not a comment is a field name and a value. *)
Definition field_of (line : jsstr) : option (jsstr * jsstr) :=
  match split (ch ":") line with
  | [name] => Some (name, [])
  | [] :: _ => None
  | name :: value =>
      let value := join (js ":") value in
      Some (name, if starts_with (js " ") value then drop 1 value else value)
  | [] => None
  end.

Definition values_of (name : jsstr) (block : list jsstr) : list jsstr :=
  omap (fun line => match field_of line with
                    | Some (n, v) => if n === name then Some v else None
                    | None => None
                    end) block.

(** A block of lines stands for one frame if it has data. *)
Definition frame_of_block (block : list jsstr) : option SseFrame :=
  match values_of (js "data") block with
  | [] => None
  | ds => Some {| event := List.last (values_of (js "event") block) (js "message");
                  data := join [NL] ds |}
  end.

(** Empty lines separate the blocks; the last block is the unfinished one. *)
Fixpoint blocks (lines : list jsstr) : list (list jsstr) :=
  match lines with
  | [] => [[]]
  | line :: rest =>
      match line, blocks rest with
      | [], bs => [] :: bs
      | _, b :: bs => (line :: b) :: bs
      | _, [] => [[line]]
      end
  end.

(** The lines of a text; an empty last piece is not a line. *)
Definition text_lines (text : jsstr) : list jsstr :=
  let pieces := split NL text in
  map strip_cr (if List.last pieces [] === [] then removelast pieces else pieces).

Definition sse_frames (text : jsstr) : list SseFrame :=
  omap frame_of_block (blocks (text_lines text)).

(** Only what an empty line has closed. *)
Definition closed_frames (text : jsstr) : list SseFrame :=
  omap frame_of_block (removelast (blocks (map strip_cr (removelast (split NL text))))).

(** Feeding a list of chunks. *)
Fixpoint feed_all (p : sse_parser) (chunks : list jsstr) : option (list SseFrame * sse_parser) :=
  match chunks with
  | [] => Some ([], p)
  | c :: cs =>
      match feed p c with
      | None => None
      | Some (fs, p') =>
          match feed_all p' cs with
          | None => None
          | Some (gs, p'') => Some (fs ++ gs, p'')
          end
      end
  end.

(** ** Lemmas: lines *)

Lemma index_of_split c s :
  match index_of [c] s with
  | None => split c s = [s]
  | Some i => split c s = take i s :: split c (drop (i + 1) s)
              /\ (length (drop (i + 1) s) < length s)%nat
  end.
Proof.
  induction s as [|x s IH]; [done|]. cbn [index_of starts_with]. rewrite andb_true_r, N.eqb_sym.
  cbn [split]. destruct (x =? c)%N eqn:Hx; [split; [done|cbn; rewrite drop_0; lia]|].
  destruct (index_of [c] s) as [i|]; cbn [fmap option_fmap option_map].
  - destruct IH as [-> Hlen]. split; [done|]. cbn in *. lia.
  - by rewrite IH.
Qed.

Lemma split_app c a b :
  split c (a ++ b) = removelast (split c a) ++ split c (List.last (split c a) [] ++ b).
Proof.
  induction a as [|x a IH]; [done|]. cbn [app split].
  pose proof (split_nonnil c a) as Hne. destruct (x =? c)%N eqn:Hx.
  - rewrite IH. by destruct (split c a).
  - rewrite IH. destruct (split c a) as [|p [|q qs]]; [done| |done].
    cbn [removelast List.last app]. cbn [split]. by rewrite Hx.
Qed.

Lemma split_removelast_last c s :
  split c s = removelast (split c s) ++ [List.last (split c s) []].
Proof. apply app_removelast_last, split_nonnil. Qed.

Lemma last_split_no_sep c s : split c (List.last (split c s) []) = [List.last (split c s) []].
Proof.
  assert (Hin : c ∉ List.last (split c s) []).
  { apply (split_no_sep c s). rewrite split_removelast_last at 2. set_solver. }
  by apply (split_join c [_]); [done|constructor].
Qed.

(** A line's effect on the parser, by its field. *)
Lemma takeLine_field p line : line <> [] ->
  takeLine p line =
    match field_of line with
    | None => p
    | Some (n, v) =>
        if n === js "event" then
          {| buffer := buffer p; eventName := v; dataLines := dataLines p; pending := pending p |}
        else if n === js "data" then
          {| buffer := buffer p; eventName := eventName p; dataLines := dataLines p ++ [v];
             pending := pending p |}
        else p
    end.
Proof.
  intros Hne. unfold takeLine, field_of. rewrite (proj2 (str_eqb_neq _ _)) by done.
  change (js ":") with [ch ":"]. pose proof (index_of_split (ch ":") line) as Hs.
  destruct (index_of [ch ":"] line) as [i|] eqn:Hi.
  - destruct Hs as [Hs _]. rewrite Hs. pose proof (split_nonnil (ch ":") (drop (i + 1) line)) as Hn.
    rewrite join_split.
    destruct line as [|x line]; [done|]. cbn [index_of starts_with] in *.
    rewrite andb_true_r in *. destruct (ch ":" =? x)%N eqn:Hx.
    + injection Hi as <-. cbn [take]. by destruct (split (ch ":") (drop (0 + 1) (x :: line))).
    + destruct (index_of [ch ":"] line) as [j|]; [|done]. injection Hi as <-. cbn [take firstn].
      destruct (split (ch ":") (drop (S j + 1) (x :: line))); [done|reflexivity].
  - rewrite Hs. assert (starts_with [ch ":"] line = false) as ->; [|by destruct line].
    destruct line as [|x line]; [done|]. cbn [index_of starts_with] in *.
    rewrite andb_true_r in *. by destruct (ch ":" =? x)%N.
Qed.

Lemma takeLine_set_buffer b p line :
  takeLine (set_buffer b p) line = set_buffer b (takeLine p line).
Proof.
  unfold takeLine. cbv zeta. cbn [set_buffer dataLines eventName pending buffer].
  by repeat case_match.
Qed.

Lemma takeLine_buffer p line : buffer (takeLine p line) = buffer p.
Proof. unfold takeLine. cbv zeta. by repeat case_match. Qed.

Lemma fold_takeLine_set_buffer b ls p :
  fold_left takeLine ls (set_buffer b p) = set_buffer b (fold_left takeLine ls p).
Proof.
  revert p. induction ls as [|l ls IH]; intros p; [done|]. cbn [fold_left].
  by rewrite takeLine_set_buffer, IH.
Qed.

(** The loop takes the complete lines and leaves the last piece. *)
Lemma feed_loop_spec fuel p : (length (buffer p) < fuel)%nat ->
  feed_loop fuel p =
    Some (set_buffer (List.last (split NL (buffer p)) [])
            (fold_left takeLine (map strip_cr (removelast (split NL (buffer p)))) p)).
Proof.
  revert p. induction fuel as [|fuel IH]; intros p Hlen; [lia|]. cbn [feed_loop].
  pose proof (index_of_split NL (buffer p)) as Hs.
  destruct (index_of [NL] (buffer p)) as [i|].
  - destruct Hs as [Hs Hl]. rewrite IH.
    2: { rewrite takeLine_buffer. cbn [set_buffer buffer]. lia. }
    rewrite takeLine_buffer. cbn [set_buffer buffer]. rewrite Hs.
    pose proof (split_nonnil NL (drop (i + 1) (buffer p))) as Hn.
    destruct (split NL (drop (i + 1) (buffer p))) as [|q qs]; [done|].
    cbn [removelast List.last map fold_left]. f_equal.
    rewrite takeLine_set_buffer, fold_takeLine_set_buffer. done.
  - rewrite Hs. cbn. by destruct p.
Qed.

(** ** Lemmas: blocks *)

Lemma blocks_nonnil ls : blocks ls <> [].
Proof. destruct ls as [|[|c l] ls]; cbn; [done..|]. by destruct (blocks ls). Qed.

Lemma blocks_app_blank b rest : Forall (fun l => l <> []) b ->
  blocks (b ++ [] :: rest) = b :: blocks rest.
Proof.
  induction 1 as [|l b Hl _ IH]; [done|]. cbn [app blocks]. rewrite IH. by destruct l.
Qed.

Lemma blocks_snoc ls l :
  blocks (ls ++ [l]) =
    match l with
    | [] => blocks ls ++ [[]]
    | _ => removelast (blocks ls) ++ [List.last (blocks ls) [] ++ [l]]
    end.
Proof.
  induction ls as [|x ls IH]; [by destruct l|]. cbn [app blocks]. rewrite IH.
  pose proof (blocks_nonnil ls) as Hn. destruct x as [|c x].
  - destruct l; [done|]. by destruct (blocks ls).
  - destruct l as [|d l].
    + by destruct (blocks ls).
    + by destruct (blocks ls) as [|b [|b' bs]].
Qed.

Lemma values_of_snoc name block line :
  values_of name (block ++ [line]) =
    values_of name block ++
      match field_of line with
      | Some (n, v) => if n === name then [v] else []
      | None => []
      end.
Proof.
  unfold values_of. rewrite omap_app. f_equal. cbn.
  destruct (field_of line) as [[n v]|]; [|done]. by destruct (n === name).
Qed.

Lemma last_default_snoc (l : list jsstr) x d : List.last (l ++ [x]) d = x.
Proof. apply List.last_last. Qed.

(** The parser after [lines], having handed out [emitted]. *)
Record reads (lines : list jsstr) (emitted : list SseFrame) (p : sse_parser) : Prop := {
  reads_frames : emitted ++ pending p = omap frame_of_block (removelast (blocks lines));
  reads_event : eventName p = List.last (values_of (js "event") (List.last (blocks lines) [])) (js "message");
  reads_data : dataLines p = values_of (js "data") (List.last (blocks lines) [])
}.

(** The frame the unfinished block stands for. *)
Lemma reads_unfinished lines emitted p : reads lines emitted p ->
  frame_of_block (List.last (blocks lines) []) =
    if (0 <? length (dataLines p))%nat
    then Some {| event := eventName p; data := join [NL] (dataLines p) |} else None.
Proof.
  intros [_ He Hd]. unfold frame_of_block. rewrite <- He, <- Hd. by destruct (dataLines p).
Qed.

Lemma blocks_all_frames lines :
  omap frame_of_block (blocks lines) =
    omap frame_of_block (removelast (blocks lines))
      ++ option_list (frame_of_block (List.last (blocks lines) [])).
Proof.
  rewrite (app_removelast_last [] (blocks_nonnil lines)) at 1. by rewrite omap_app.
Qed.

Lemma reads_takeLine lines emitted p line :
  reads lines emitted p -> reads (lines ++ [line]) emitted (takeLine p line).
Proof.
  intros Hr. pose proof (reads_unfinished _ _ _ Hr) as Hu. destruct Hr as [Hf He Hd].
  destruct line as [|c line].
  - unfold takeLine. cbn [str_eqb]. split; cbn [pending eventName dataLines];
      rewrite blocks_snoc; rewrite ?last_last, ?removelast_last; [|done..].
    rewrite blocks_all_frames, Hu, <- Hf.
    destruct (0 <? length (dataLines p))%nat; cbn [option_list];
      by rewrite ?app_nil_r, ?app_assoc.
  - rewrite takeLine_field by done.
    split; rewrite blocks_snoc, ?last_last, ?removelast_last, ?values_of_snoc.
    + rewrite <- Hf. by repeat case_match.
    + destruct (field_of (c :: line)) as [[n v]|]; [|by rewrite app_nil_r].
      destruct (n === js "event") eqn:Hn; [by rewrite last_default_snoc|].
      rewrite app_nil_r, <- He. by destruct (n === js "data").
    + destruct (field_of (c :: line)) as [[n v]|]; [|by rewrite app_nil_r].
      destruct (str_eqb_spec n (js "event")) as [->|]; [by rewrite app_nil_r|].
      destruct (n === js "data"); cbn [dataLines]; [by rewrite Hd|by rewrite app_nil_r].
Qed.

Lemma reads_fold more lines emitted p :
  reads lines emitted p -> reads (lines ++ more) emitted (fold_left takeLine more p).
Proof.
  revert lines p. induction more as [|l more IH]; intros lines p Hr; cbn [fold_left].
  - by rewrite app_nil_r.
  - rewrite cons_middle, app_assoc. by apply IH, reads_takeLine.
Qed.

Lemma reads_set_buffer lines emitted p b :
  reads lines emitted p -> reads lines emitted (set_buffer b p).
Proof. by intros []. Qed.

(** The parser after [text]. *)
Record has_read (text : jsstr) (emitted : list SseFrame) (p : sse_parser) : Prop := {
  has_read_buffer : buffer p = List.last (split NL text) [];
  has_read_lines : reads (map strip_cr (removelast (split NL text))) emitted p;
  has_read_spliced : pending p = []
}.

Lemma has_read_init : has_read [] [] createSseFrameParser.
Proof. by split. Qed.

Lemma has_read_frames text emitted p : has_read text emitted p -> emitted = closed_frames text.
Proof. intros [_ [Hf _ _] Hp]. by rewrite Hp, app_nil_r in Hf. Qed.

Lemma feed_reads text emitted p chunk : has_read text emitted p ->
  exists frames p', feed p chunk = Some (frames, p')
    /\ has_read (text ++ chunk) (emitted ++ frames) p'.
Proof.
  intros [Hb Hr Hp]. unfold feed. rewrite feed_loop_spec by lia.
  cbn [fmap option_fmap option_map splice_pending set_buffer buffer].
  eexists _, _. split; [done|]. rewrite fold_takeLine_set_buffer. cbn [pending set_buffer eventName dataLines].
  rewrite Hb.
  set (new := split NL (List.last (split NL text) [] ++ chunk)).
  assert (Hsplit : split NL (text ++ chunk) = removelast (split NL text) ++ new)
    by apply split_app.
  assert (Hne : new <> []) by apply split_nonnil.
  assert (Hlast : List.last (split NL (text ++ chunk)) [] = List.last new []).
  { rewrite Hsplit, (app_removelast_last [] Hne), app_assoc, !last_last. done. }
  assert (Hinit : removelast (split NL (text ++ chunk)) = removelast (split NL text) ++ removelast new).
  { rewrite Hsplit. by apply removelast_app. }
  split; cbn [buffer pending]; [done| |done].
  rewrite Hinit, map_app. destruct (reads_fold (map strip_cr (removelast new)) _ _ _ Hr) as [Hf He Hd].
  split; cbn [pending eventName dataLines]; [|done..]. by rewrite app_nil_r.
Qed.

Lemma feed_all_reads chunks text emitted p : has_read text emitted p ->
  exists frames p', feed_all p chunks = Some (frames, p')
    /\ has_read (text ++ concat chunks) (emitted ++ frames) p'.
Proof.
  revert text emitted p. induction chunks as [|c cs IH]; intros text emitted p Hr.
  - eexists _, _. cbn. by rewrite !app_nil_r.
  - destruct (feed_reads _ _ _ c Hr) as (fs & p' & Hfeed & Hr').
    destruct (IH _ _ _ Hr') as (gs & p'' & Hall & Hr''). eexists _, _. cbn [feed_all concat].
    rewrite Hfeed, Hall. split; [done|]. by rewrite !app_assoc in *.
Qed.

Lemma flush_reads text emitted p : has_read text emitted p ->
  emitted ++ (flush p).1 = sse_frames text.
Proof.
  intros [Hb Hr Hp]. unfold sse_frames, flush, text_lines. rewrite <- Hb.
  assert (Hend : forall lines q, reads lines emitted q ->
    emitted ++ (splice_pending
      (if (0 <? length (dataLines q))%nat then
         {| buffer := buffer q; eventName := js "message"; dataLines := [];
            pending := pending q ++ [{| event := eventName q; data := join [NL] (dataLines q) |}] |}
       else q)).1 = omap frame_of_block (blocks lines)).
  { intros lines q Hq. rewrite blocks_all_frames, (reads_unfinished _ _ _ Hq), <- (reads_frames _ _ _ Hq).
    destruct (0 <? length (dataLines q))%nat; cbn; by rewrite ?app_nil_r, ?app_assoc. }
  destruct (buffer p === []) eqn:Hbuf; cbn [negb].
  - by apply Hend.
  - apply Hend. rewrite (split_removelast_last NL text), map_app, <- Hb. cbn [map].
    by apply reads_takeLine, reads_set_buffer.
Qed.

(** ** Lemmas: writing frames *)

Lemma omap_cons_app {A B} (f : A -> option B) x l :
  omap f (x :: l) = option_list (f x) ++ omap f l.
Proof. cbn. by destruct (f x). Qed.

(** Text that fits on one line. *)
Definition one_line (s : jsstr) : Prop := NL ∉ s /\ CR ∉ s.

Definition well_formed_frame (f : SseFrame) : Prop := one_line (event f) /\ CR ∉ data f.

(** What a server writes: comments, then the event's name and the lines of data,
    each line ended by [NL] or by [CR NL], and an empty line. *)
Definition frame_lines (comments : list jsstr) (f : SseFrame) : list jsstr :=
  map (fun c => js ":" ++ c) comments ++ (js "event: " ++ event f)
    :: map (fun l => js "data: " ++ l) (split NL (data f)).

Definition encode (crlf : bool) (item : list jsstr * SseFrame) : jsstr :=
  concat (map (fun l => l ++ (if crlf then [CR] else []) ++ [NL]) (frame_lines item.1 item.2 ++ [[]])).

Lemma strip_cr_id l : CR ∉ l -> strip_cr l = l.
Proof.
  intros Hl. unfold strip_cr. destruct (ends_with [CR] l) eqn:He; [|done].
  unfold ends_with in He. apply starts_with_spec in He as [t Ht]. cbn in Ht.
  exfalso. apply Hl. rewrite <- (rev_involutive l), Ht. cbn [rev app].
  apply elem_of_app. set_solver.
Qed.

Lemma strip_cr_cr l : strip_cr (l ++ [CR]) = l.
Proof.
  unfold strip_cr, ends_with. rewrite rev_app_distr. cbn [rev app starts_with]. cbn [N.eqb andb].
  rewrite length_app. cbn [length]. replace (length l + 1 - 1)%nat with (length l) by lia.
  apply take_app_length.
Qed.

Lemma split_lines ls : Forall (fun l => NL ∉ l) ls ->
  split NL (concat (map (fun l => l ++ [NL]) ls)) = ls ++ [[]].
Proof.
  induction 1 as [|l ls Hl _ IH]; [done|]. cbn [map concat]. rewrite <- app_assoc.
  assert (H : forall s, split NL (l ++ NL :: s) = l :: split NL s).
  { intros s. clear -Hl. induction l as [|x l IH]; cbn [app split].
    - done.
    - destruct (N.eqb_spec x NL) as [->|]; [set_solver|]. rewrite IH by set_solver. done. }
  cbn [app]. by rewrite H, IH.
Qed.

Lemma field_of_field name v : ch ":" ∉ name -> name <> [] ->
  field_of (name ++ js ": " ++ v) = Some (name, v).
Proof.
  intros Hn Hne. unfold field_of. change (js ": " ++ v) with (ch ":" :: 32%N :: v).
  assert (split (ch ":") (name ++ ch ":" :: 32%N :: v) = name :: split (ch ":") (32%N :: v)) as ->.
  { clear Hne. induction name as [|x name IH]; [done|]. cbn [app split].
    destruct (N.eqb_spec x (ch ":")) as [->|]; [set_solver|]. rewrite IH by set_solver. done. }
  change (js ":") with [ch ":"].
  pose proof (split_nonnil (ch ":") (32%N :: v)). destruct name as [|x name]; [done|].
  rewrite join_split. by destruct (split (ch ":") (32%N :: v)).
Qed.

Lemma field_of_event v : field_of (js "event: " ++ v) = Some (js "event", v).
Proof. apply (field_of_field (js "event")); [vm_compute; set_solver|done]. Qed.

Lemma field_of_data v : field_of (js "data: " ++ v) = Some (js "data", v).
Proof. apply (field_of_field (js "data")); [vm_compute; set_solver|done]. Qed.

Lemma values_of_frame_lines comments f name :
  values_of name (frame_lines comments f) =
    (if js "event" === name then [event f] else [])
      ++ (if js "data" === name then split NL (data f) else []).
Proof.
  unfold frame_lines, values_of. rewrite omap_app, omap_cons_app.
  assert (Hcomments : forall g : jsstr -> option jsstr, (forall c, g (js ":" ++ c) = None) ->
    omap g (map (fun c => js ":" ++ c) comments) = []).
  { intros g Hg. induction comments as [|c cs IH]; [done|]. cbn [map]. by rewrite omap_cons_app, Hg, IH. }
  rewrite Hcomments.
  2: { intros c. unfold field_of. change (js ":" ++ c) with (ch ":" :: c). cbn [split].
       rewrite N.eqb_refl. by destruct (split (ch ":") c) eqn:?; [destruct (split_nonnil (ch ":") c)|]. }
  cbn [app]. rewrite field_of_event.
  assert (Hdata : forall ls, omap (fun line => match field_of line with
        | Some (n, v) => if n === name then Some v else None | None => None end)
      (map (fun l => js "data: " ++ l) ls) = if js "data" === name then ls else []).
  { induction ls as [|l ls IH]; [by destruct (_ === _)|]. cbn [map]. rewrite omap_cons_app, IH.
    rewrite field_of_data. by destruct (js "data" === name). }
  rewrite Hdata. by destruct (js "event" === name).
Qed.

Lemma frame_of_frame_lines comments f : frame_of_block (frame_lines comments f) = Some f.
Proof.
  unfold frame_of_block. rewrite !values_of_frame_lines. cbn [str_eqb].
  change (js "event" === js "data") with false. change (js "data" === js "data") with true.
  change (js "event" === js "event") with true. change (js "data" === js "event") with false.
  cbn [app List.last]. pose proof (split_nonnil NL (data f)) as Hn.
  destruct (split NL (data f)) as [|d ds] eqn:Hs; [done|]. rewrite <- Hs, join_split. by destruct f.
Qed.

Lemma frame_lines_plain comments f :
  Forall one_line comments -> well_formed_frame f ->
  Forall (fun l => one_line l /\ l <> []) (frame_lines comments f).
Proof.
  intros Hc [[He1 He2] Hd]. unfold frame_lines. apply Forall_app. split.
  { apply Forall_map. eapply Forall_impl; [done|]. intros c [Hc1 Hc2].
    split; [|done]. unfold one_line. change (js ":" ++ c) with (58%N :: c).
    rewrite !not_elem_of_cons. done. }
  constructor.
  { split; [|done]. unfold one_line. rewrite !not_elem_of_app. split; split; try done;
      vm_compute; set_solver. }
  apply Forall_map, Forall_forall. intros l Hl. split; [|done].
  assert (NL ∉ l) by by eapply split_no_sep.
  assert (CR ∉ l).
  { intros Hcr. apply Hd. rewrite <- (join_split NL (data f)). clear -Hl Hcr.
    induction (split NL (data f)) as [|p ps IH]; [set_solver|]. cbn [join].
    destruct ps; set_solver. }
  unfold one_line. rewrite !not_elem_of_app. split; split; try done; vm_compute; set_solver.
Qed.

(** The blocks of a written text: those of its items, and an empty one. *)
Lemma blocks_of_encoded crlf items :
  Forall (fun item => Forall one_line item.1 /\ well_formed_frame item.2) items ->
  List.last (split NL (concat (map (encode crlf) items))) [] = []
  /\ blocks (map strip_cr (removelast (split NL (concat (map (encode crlf) items))))) =
    map (fun item => frame_lines item.1 item.2) items ++ [[]].
Proof.
  intros Hall. set (eol := if crlf then [CR] else []).
  set (ls := concat (map (fun item => frame_lines item.1 item.2 ++ [[]]) items)).
  assert (Hls : Forall one_line ls).
  { unfold ls. clear -Hall. induction Hall as [|item items [Hc Hf] _ IH]; [constructor|].
    cbn [map concat]. rewrite !Forall_app. split; [split|done].
    - eapply Forall_impl; [by apply frame_lines_plain|]. by intros l [? _].
    - constructor; [split; set_solver|constructor]. }
  assert (concat (map (encode crlf) items) = concat (map (fun l => l ++ [NL]) (map (fun l => l ++ eol) ls))) as ->.
  { unfold ls, encode. fold eol. rewrite map_map. clear. induction items as [|item items IH]; [done|].
    cbn [map concat]. rewrite IH, (map_app _ (_ ++ _)), concat_app.
    do 2 f_equal. apply map_ext. intros l. by rewrite app_assoc. }
  rewrite split_lines.
  2: { apply Forall_map. eapply Forall_impl; [done|]. intros l [Hn _]. unfold eol.
       destruct crlf; rewrite not_elem_of_app; split; try done; vm_compute; set_solver. }
  split; [apply List.last_last|]. rewrite removelast_last, map_map, (map_ext_in _ id), map_id.
  2: { intros l Hl%list_elem_of_In. unfold eol, id. destruct crlf; [apply strip_cr_cr|].
       rewrite app_nil_r. apply strip_cr_id. rewrite Forall_forall in Hls. by apply Hls. }
  unfold ls. clear -Hall. induction Hall as [|item items [Hc Hf] _ IH]; [done|].
  cbn [map concat app]. rewrite <- app_assoc. cbn [app]. rewrite blocks_app_blank, IH; [done|].
  eapply Forall_impl; [by apply frame_lines_plain|]. by intros l [_ ?].
Qed.

Lemma omap_frames (items : list (list jsstr * SseFrame)) :
  omap frame_of_block (map (fun item => frame_lines item.1 item.2) items) = map snd items.
Proof.
  induction items as [|item items IH]; [done|]. cbn [map].
  rewrite omap_cons_app, frame_of_frame_lines. by f_equal.
Qed.

(** ** Properties: frames *)

(** C12. Frames do not depend on the chunks.  However the text of a connection is
    cut, feeding the chunks never fails, hands out the frames of the blocks
    that an empty line has closed, and the final flush adds the unfinished one:
    together they are the frames of the whole text. *)
Theorem sse_chunking_invariance (chunks : list jsstr) :
  exists frames p, feed_all createSseFrameParser chunks = Some (frames, p)
    /\ frames = closed_frames (concat chunks)
    /\ frames ++ (flush p).1 = sse_frames (concat chunks).
Proof.
  destruct (feed_all_reads chunks [] [] _ has_read_init) as (frames & p & Hall & Hr).
  exists frames, p. split_and!; [done|by apply has_read_frames in Hr|by apply flush_reads].
Qed.

(** Frames written by a server are read back: with either line ending, with
    comments in between, with data of several lines, and with any chunks. *)
Theorem sse_roundtrip (crlf : bool) (items : list (list jsstr * SseFrame)) (chunks : list jsstr)
    (Hitems : Forall (fun item => Forall one_line item.1 /\ well_formed_frame item.2) items)
    (Hchunks : concat chunks = concat (map (encode crlf) items)) :
  exists p, feed_all createSseFrameParser chunks = Some (map snd items, p) /\ (flush p).1 = [].
Proof.
  destruct (feed_all_reads chunks [] [] _ has_read_init) as (frames & p & Hall & Hr).
  pose proof (has_read_frames _ _ _ Hr) as Hf. pose proof (flush_reads _ _ _ Hr) as Hflush.
  destruct (blocks_of_encoded crlf items Hitems) as [Hlast Hblocks].
  unfold closed_frames, sse_frames, text_lines in *. cbn [app] in *. rewrite Hchunks in *.
  rewrite Hlast in Hflush. cbn [str_eqb] in Hflush.
  rewrite Hblocks, ?removelast_last, ?omap_app, omap_frames in *. subst frames.
  exists p. split; [done|]. by apply app_inv_head in Hflush.
Qed.

Definition sample_frame : SseFrame :=
  {| event := js "route-state"; data := js "{" ++ [NL] ++ js "}" |}.

Lemma sse_roundtrip_witness :
  exists p, feed_all createSseFrameParser
              (map (fun c => [c]) (encode true ([js "ping"], sample_frame)))
            = Some ([sample_frame], p) /\ (flush p).1 = [].
Proof.
  apply (sse_roundtrip true [([js "ping"], sample_frame)]).
  - repeat constructor; vm_compute; set_solver.
  - vm_compute. reflexivity.
Defined.

(** ** Lemmas and properties: the connection loop *)

Section StreamProperties.
Context (url : jsstr) (delayFor : option (Z -> num)) (random : nat -> num).
Context (onLanes : list jsval -> jsstr -> bool).

Local Abbreviation step := (step url delayFor random onLanes).
Local Abbreviation steps := (steps url delayFor random onLanes).

(** What the frames of a connection make the stream do, when every callback
    returns. *)
Definition delivery (frames : list SseFrame) : list stream_output :=
  map (fun f => OLanes (lanes f) (ts f) true) (omap parseRouteStateFrame frames).

Definition delivered (frames : list SseFrame) (s : stream) : stream :=
  {| closed := closed s; attempt := attempt s;
     receivedFrame := receivedFrame s || (0 <? length (delivery frames))%nat;
     draws := draws s; at_phase := at_phase s; log := log s ++ delivery frames |}.

Lemma delivered_nil s : delivered [] s = s.
Proof. destruct s. unfold delivered. cbn. by rewrite orb_false_r, app_nil_r. Qed.

Lemma delivered_app fs gs s : delivered gs (delivered fs s) = delivered (fs ++ gs) s.
Proof.
  unfold delivered, delivery. cbn. rewrite omap_app, map_app, length_app, <- app_assoc. f_equal.
  destruct (receivedFrame s); [done|]. cbn [orb].
  by destruct (map _ (omap parseRouteStateFrame fs)).
Qed.

Lemma delivered_goto fs ph s : delivered fs (goto ph s) = goto ph (delivered fs s).
Proof. done. Qed.

Lemma emit_frames_delivered frames s : (forall l t, onLanes l t = true) ->
  emit_frames onLanes frames s = (true, delivered frames s).
Proof.
  intros Hcb. revert s. induction frames as [|f fs IH]; intros s.
  - by rewrite delivered_nil.
  - cbn [emit_frames]. change (f :: fs) with ([f] ++ fs). rewrite <- delivered_app.
    destruct (parseRouteStateFrame f) as [r|] eqn:Hf.
    + rewrite Hcb, IH. f_equal. f_equal. unfold delivered, delivery. cbn. rewrite Hf. cbn.
      by rewrite orb_true_r.
    + rewrite IH. f_equal. f_equal. unfold delivered, delivery. cbn. rewrite Hf. cbn.
      rewrite orb_false_r, app_nil_r. by destruct s.
Qed.

Lemma connection_over_goto ph s :
  connection_over delayFor random (goto ph s) = connection_over delayFor random s.
Proof. unfold connection_over, next_delay. cbn. by destruct (closed s), (receivedFrame s), delayFor. Qed.

Lemma steps_app s evs evs' :
  steps s (evs ++ evs') = match steps s evs with Some s' => steps s' evs' | None => None end.
Proof.
  revert s. induction evs as [|ev evs IH]; intros s; [done|]. cbn [app RouteEvents.steps].
  destruct (step s ev); [apply IH|done].
Qed.

(** Reading chunks delivers the frames they close. *)
Lemma chunks_delivered chunks text emitted p s : (forall l t, onLanes l t = true) ->
  at_phase s = AwaitRead p -> has_read text emitted p ->
  exists frames p', has_read (text ++ concat chunks) (emitted ++ frames) p'
    /\ steps s (map EChunk chunks) = Some (goto (AwaitRead p') (delivered frames s)).
Proof.
  intros Hcb. revert text emitted p s. induction chunks as [|c cs IH]; intros text emitted p s Hph Hr.
  - exists [], p. cbn [concat map RouteEvents.steps]. rewrite !app_nil_r, delivered_nil. split; [done|].
    destruct s. cbn in *. by subst.
  - destruct (feed_reads _ _ _ c Hr) as (fs & p1 & Hfeed & Hr1).
    destruct (IH (text ++ c) (emitted ++ fs) p1 (goto (AwaitRead p1) (delivered fs s)) eq_refl Hr1)
      as (gs & p2 & Hr2 & Hsteps).
    exists (fs ++ gs), p2. cbn [concat map RouteEvents.steps RouteEvents.step]. rewrite Hph.
    unfold chunk_step. rewrite Hfeed, emit_frames_delivered, Hsteps by done.
    rewrite delivered_goto, delivered_app, !app_assoc in *. done.
Qed.

(** ** Closing *)

(** An output that starts or prepares another connection. *)
Definition reconnects (o : stream_output) : bool :=
  match o with
  | OSleep _ _ | OStatus connecting | OStatus reconnecting => true
  | _ => false
  end.

(** An event after which the current connection is over. *)
Definition ends_connection (ev : stream_event) : bool :=
  match ev with
  | EHeaders None | EFetchError | EDone | EReadError | EWoke => true
  | EResponse ok body => negb (ok && body)
  | _ => false
  end.

(** The effect of a step on a closed stream. *)
Definition quiet_step (s s' : stream) : Prop :=
  closed s' = true /\ exists outs, log s' = log s ++ outs
    /\ Forall (fun o => reconnects o = false) outs.

Lemma emit_frames_quiet frames s r s' : emit_frames onLanes frames s = (r, s') ->
  closed s = true -> quiet_step s s'.
Proof.
  revert s. induction frames as [|f fs IH]; intros s H Hc; cbn [emit_frames] in H.
  - injection H as <- <-. split; [done|]. exists []. by rewrite app_nil_r.
  - destruct (parseRouteStateFrame f) as [rf|]; [|by apply IH].
    destruct (onLanes (lanes rf) (ts rf)).
    + destruct (IH _ H Hc) as [Hc' (outs & Hlog & Hq)]. split; [done|].
      cbn [set_received emit log] in Hlog. rewrite <- app_assoc in Hlog.
      eexists. split; [exact Hlog|]. by constructor.
    + injection H as <- <-. split; [done|]. eexists. split; [done|]. by repeat constructor.
Qed.

Lemma step_closed s ev s' : closed s = true -> step s ev = Some s' ->
  quiet_step s s' /\ (ends_connection ev = true -> at_phase s' = Ended).
Proof.
  intros Hc Hstep.
  assert (Hover : forall x, closed x = true -> connection_over delayFor random x = goto Ended x)
    by (intros x Hx; unfold connection_over; by rewrite Hx).
  assert (Hquiet : forall outs x, closed x = true -> log x = log s ++ outs ->
    Forall (fun o => reconnects o = false) outs -> quiet_step s x) by (intros; split; eauto).
  assert (Hnone : forall x, closed x = true -> log x = log s -> quiet_step s x)
    by (intros x Hx Hl; apply (Hquiet [] x Hx); [by rewrite app_nil_r|done]).
  unfold RouteEvents.step in Hstep.
  destruct ev as [[hs|]|ok body| |text| | | |], (at_phase s) as [| |p| |];
    simplify_eq; rewrite ?Hover by done; try (split; [by apply Hnone|done]);
    try (split; [by eapply Hquiet; [done|reflexivity|repeat constructor]|done]).
  - destruct ok, body; cbn [negb orb]; rewrite ?Hover by done;
      try (split; [by apply Hnone|done]).
    split; [|done]. by eapply Hquiet; [done|reflexivity|repeat constructor].
  - unfold chunk_step in Hstep. destruct (feed p text) as [[fs p']|]; [|done].
    destruct (emit_frames onLanes fs s) as [r x] eqn:He.
    destruct (emit_frames_quiet _ _ _ _ He Hc) as [Hc' Hq].
    split; [|done]. simplify_eq. destruct r; [done|]. by rewrite Hover.
  - unfold done_step. destruct (flush p) as [fs p'].
    destruct (emit_frames onLanes fs s) as [r x] eqn:He.
    destruct (emit_frames_quiet _ _ _ _ He Hc) as [Hc' Hq]. by rewrite Hover.
  - unfold loop_head. rewrite Hc. split; [by apply Hnone|done].
Qed.

Lemma quiet_step_trans s1 s2 s3 : quiet_step s1 s2 -> quiet_step s2 s3 -> quiet_step s1 s3.
Proof.
  intros [_ (o1 & H1 & Hq1)] [Hc (o2 & H2 & Hq2)]. split; [done|]. exists (o1 ++ o2).
  rewrite H2, H1, <- app_assoc. split; [done|]. by apply Forall_app.
Qed.

(** ** The back-off *)

(** The logs of a stream, with the number of the next wait, whether the current
    connection has delivered a frame, and the random numbers drawn. *)
Inductive backoff_log : list stream_output -> Z -> bool -> nat -> Prop :=
| backoff_start : backoff_log [] 0 false 0
| backoff_first l got k :
    backoff_log l 0 got k -> backoff_log (l ++ [OStatus connecting]) 0 false k
| backoff_again l n got k :
    backoff_log l n got k -> 0 < n -> backoff_log (l ++ [OStatus reconnecting]) n false k
| backoff_lanes l n got k ls t :
    backoff_log l n got k -> backoff_log (l ++ [OLanes ls t true]) n true k
| backoff_lanes_threw l n got k ls t :
    backoff_log l n got k -> backoff_log (l ++ [OLanes ls t false]) n got k
| backoff_fetch l n got k hs :
    backoff_log l n got k -> backoff_log (l ++ [OFetch url hs]) n got k
| backoff_open l n got k :
    backoff_log l n got k -> backoff_log (l ++ [OStatus open]) n got k
| backoff_closed l n got k :
    backoff_log l n got k -> backoff_log (l ++ [OStatus closed_]) n got k
| backoff_sleep l n got k m ms k' :
    backoff_log l n got k ->
    m = (if got then 0 else n) ->
    match delayFor with
    | Some f => ms = f m /\ k' = k
    | None => ms = reconnectDelayMs m no_delay_options (random k) /\ k' = S k
    end ->
    backoff_log (l ++ [OSleep m ms]) (m + 1) got k'.

Definition logged (s : stream) : Prop :=
  0 <= attempt s /\ backoff_log (log s) (attempt s) (receivedFrame s) (draws s).

Lemma logged_goto ph s : logged s -> logged (goto ph s).
Proof. done. Qed.

Lemma logged_loop_head s : logged s -> logged (loop_head s).
Proof.
  intros [Hn Hl]. unfold loop_head. destruct (closed s); [done|]. split; [done|]. cbn.
  destruct (Z.eqb_spec (attempt s) 0) as [H0|H0].
  - rewrite H0 in *. by eapply backoff_first.
  - eapply backoff_again; [done|lia].
Qed.

Lemma logged_connection_over s : logged s -> logged (connection_over delayFor random s).
Proof.
  intros [Hn Hl]. unfold connection_over, next_delay. destruct (closed s); [done|].
  assert (Hm : 0 <= if receivedFrame s then 0 else attempt s) by (destruct (receivedFrame s); lia).
  destruct delayFor as [f|] eqn:Hd; split; cbn;
    try (destruct (receivedFrame s); cbn in *; lia);
    destruct (receivedFrame s) eqn:Hr; cbn; rewrite ?Hr; cbn;
    (eapply backoff_sleep; [exact Hl|done|by rewrite Hd]).
Qed.

Lemma logged_emit_frames frames s r s' :
  emit_frames onLanes frames s = (r, s') -> logged s -> logged s'.
Proof.
  revert s. induction frames as [|f fs IH]; intros s H [Hn Hl]; cbn [emit_frames] in H.
  - by injection H as <- <-.
  - destruct (parseRouteStateFrame f) as [rf|]; [|by apply (IH s)].
    destruct (onLanes (lanes rf) (ts rf)).
    + eapply IH; [exact H|]. split; [done|]. by eapply backoff_lanes.
    + injection H as <- <-. split; [done|]. by apply backoff_lanes_threw.
Qed.

Lemma logged_step s ev s' : step s ev = Some s' -> logged s -> logged s'.
Proof.
  intros Hstep Hl. pose proof Hl as [Hn Hlog]. unfold RouteEvents.step in Hstep.
  destruct ev as [[hs|]|ok body| |text| | | |], (at_phase s) as [| |p| |];
    simplify_eq; try (by apply logged_connection_over);
    try (by split; [|apply backoff_closed]).
  - split; [done|]. by apply backoff_fetch.
  - destruct (negb ok || negb body); [by apply logged_connection_over|].
    split; [done|]. by apply backoff_open.
  - unfold chunk_step in Hstep. destruct (feed p text) as [[fs p']|]; [|done].
    destruct (emit_frames onLanes fs s) as [r x] eqn:He.
    pose proof (logged_emit_frames _ _ _ _ He Hl) as Hx. simplify_eq.
    destruct r; [done|by apply logged_connection_over].
  - unfold done_step. destruct (flush p) as [fs p'].
    destruct (emit_frames onLanes fs s) as [r x] eqn:He.
    by eapply logged_connection_over, logged_emit_frames.
  - by apply logged_loop_head.
Qed.

Lemma logged_steps evs s s' : steps s evs = Some s' -> logged s -> logged s'.
Proof.
  revert s. induction evs as [|ev evs IH]; intros s H Hl; cbn [RouteEvents.steps] in H; [by simplify_eq|].
  destruct (step s ev) as [s1|] eqn:Hs; [|done]. eapply IH; [done|]. by eapply logged_step.
Qed.
End StreamProperties.

Lemma steps_ended url delayFor random onLanes evs s s' :
  steps url delayFor random onLanes s evs = Some s' -> at_phase s = Ended -> at_phase s' = Ended.
Proof.
  revert s. induction evs as [|ev evs IH]; intros s H Hp; cbn [steps] in H; [by simplify_eq|].
  destruct (step url delayFor random onLanes s ev) as [s1|] eqn:Hs; [|done].
  apply (IH s1 H). unfold step in Hs. rewrite Hp in Hs. destruct ev as [[]| | | | | | |]; by simplify_eq.
Qed.

Lemma steps_closed url delayFor random onLanes evs s s' :
  closed s = true -> steps url delayFor random onLanes s evs = Some s' ->
  quiet_step s s' /\ (existsb ends_connection evs = true -> at_phase s' = Ended).
Proof.
  revert s. induction evs as [|ev evs IH]; intros s Hc H; cbn [steps] in H.
  - simplify_eq. split; [|done]. split; [done|]. exists []. by rewrite app_nil_r.
  - destruct (step url delayFor random onLanes s ev) as [s1|] eqn:Hs; [|done].
    destruct (step_closed _ _ _ _ _ _ _ Hc Hs) as [Hq He].
    destruct (IH s1 (proj1 Hq) H) as [Hq' He']. split; [by eapply quiet_step_trans|].
    cbn [existsb]. rewrite orb_true_iff. intros [Hev|Hev]; [|by apply He'].
    eapply steps_ended; [done|]. by apply He.
Qed.

(** C13. A connection delivers its text.  From a fresh connection, whatever the
    chunks are, the stream calls [onLanes] for exactly the valid [route-state]
    frames, in order: when the server ends the connection, those of the whole
    text; when reading fails, those that an empty line has closed.  It then
    waits for the back-off, or stops if it has been closed. *)
Theorem stream_delivers_frames (url : jsstr) (delayFor : option (Z -> num)) (random : nat -> num)
    (onLanes : list jsval -> jsstr -> bool) (s : stream) (chunks : list jsstr)
    (Hcallback : forall l t, onLanes l t = true)
    (Hfresh : at_phase s = AwaitRead createSseFrameParser) :
  let run := steps url delayFor random onLanes s in
  run (map EChunk chunks ++ [EDone]) =
    Some (connection_over delayFor random (delivered (sse_frames (concat chunks)) s))
  /\ run (map EChunk chunks ++ [EReadError]) =
    Some (connection_over delayFor random (delivered (closed_frames (concat chunks)) s)).
Proof.
  cbv zeta. rewrite !steps_app.
  destruct (chunks_delivered url delayFor random onLanes chunks [] [] _ s Hcallback Hfresh has_read_init)
    as (fs & p & Hr & Hsteps).
  rewrite Hsteps. pose proof (flush_reads _ _ _ Hr) as Hflush.
  pose proof (has_read_frames _ _ _ Hr) as Hclosed. cbn [app] in *. cbn [steps step goto at_phase].
  rewrite connection_over_goto, Hclosed. split; [|done].
  unfold done_step. destruct (flush p) as [gs p'] eqn:Hfl. cbn [fst] in Hflush.
  rewrite emit_frames_delivered by done.
  rewrite delivered_goto, connection_over_goto, delivered_app, <- Hclosed. by rewrite Hflush.
Qed.

Definition fresh_stream : stream :=
  {| closed := false; attempt := 2; receivedFrame := false; draws := 0;
     at_phase := AwaitRead createSseFrameParser; log := [] |}.

Lemma stream_delivers_frames_witness :
  let run := steps [] None (fun _ => zero) (fun _ _ => true) fresh_stream in
  run (map EChunk [js "data: x"] ++ [EDone]) =
    Some (connection_over None (fun _ => zero) (delivered (sse_frames (js "data: x")) fresh_stream))
  /\ run (map EChunk [js "data: x"] ++ [EReadError]) =
    Some (connection_over None (fun _ => zero) (delivered (closed_frames (js "data: x")) fresh_stream)).
Proof.
  apply (stream_delivers_frames [] None (fun _ => zero) (fun _ _ => true) fresh_stream [js "data: x"]);
    reflexivity.
Defined.

(** A closed stream stays closed.  Whatever is still delivered to it, it never
    announces another attempt and never waits for one, and the first event that
    ends its connection, or the end of a running wait, ends the loop. *)
Theorem stream_close_is_final (url : jsstr) (delayFor : option (Z -> num)) (random : nat -> num)
    (onLanes : list jsval -> jsstr -> bool) (s s' : stream) (evs : list stream_event)
    (Hclosed : closed s = true) (Hsteps : steps url delayFor random onLanes s evs = Some s') :
  closed s' = true
  /\ (exists outs, log s' = log s ++ outs /\ Forall (fun o => reconnects o = false) outs)
  /\ (existsb ends_connection evs = true -> at_phase s' = Ended).
Proof. by destruct (steps_closed _ _ _ _ _ _ _ Hclosed Hsteps) as [[Hc Hq] He]. Qed.

Definition closed_while_reading : stream :=
  {| closed := true; attempt := 0; receivedFrame := false; draws := 0;
     at_phase := AwaitRead createSseFrameParser; log := [] |}.

Definition sample_message : jsstr :=
  js "event: route-state" ++ [NL] ++ js "data: {" ++ [34%N] ++ js "ts" ++ [34%N] ++ js ":"
    ++ [34%N; 34%N] ++ js "," ++ [34%N] ++ js "lanes" ++ [34%N] ++ js ":[]}" ++ [NL; NL].

(** The last chunk of a closed stream is still delivered, and then the loop ends. *)
Lemma stream_close_is_final_witness :
  exists s', log s' = [OLanes [] [] true] /\ at_phase s' = Ended
    /\ exists outs, log s' = [] ++ outs /\ Forall (fun o => reconnects o = false) outs.
Proof.
  set (s' := {| closed := true; attempt := 0; receivedFrame := true; draws := 0;
                at_phase := Ended; log := [OLanes [] [] true] |}).
  destruct (stream_close_is_final [] None (fun _ => zero) (fun _ _ => true)
              closed_while_reading s' [EChunk sample_message; EReadError]
              eq_refl ltac:(vm_compute; reflexivity)) as (_ & Hlog & Hended).
  exists s'. split; [reflexivity|]. split; [exact (Hended eq_refl)|exact Hlog].
Defined.

(** The back-off counts failures.  In every log of the stream, the first attempt
    is announced as connecting and every other one as reconnecting; the n-th
    wait since the last connection that delivered a frame asks for the n-th
    delay, counted from zero, and the next random number is drawn for it. *)
Theorem stream_backoff (url : jsstr) (delayFor : option (Z -> num)) (random : nat -> num)
    (onLanes : list jsval -> jsstr -> bool) (evs : list stream_event) :
  match steps url delayFor random onLanes openRouteEventStream evs with
  | Some s => backoff_log url delayFor random (log s) (attempt s) (receivedFrame s) (draws s)
  | None => True
  end.
Proof.
  destruct (steps _ _ _ _ _ evs) as [s|] eqn:Hs; [|done].
  eapply (logged_steps url delayFor random onLanes evs openRouteEventStream s Hs).
  apply logged_loop_head. split; [done|constructor].
Qed.

(** ** Lemmas and properties: merging *)

Lemma assoc_map_set {A} (m : list (jsstr * A)) k k' v :
  assoc (map_set m k v) k' = if k === k' then Some v else assoc m k'.
Proof.
  unfold map_set, has_key. destruct (assoc m k) as [w|] eqn:Hk.
  - rewrite assoc_replace_field. unfold has_key. by rewrite Hk.
  - rewrite assoc_app, assoc_cons. destruct (str_eqb_spec k k') as [->|]; [by rewrite Hk|].
    by destruct (assoc m k').
Qed.

(** The last snapshot of a lane. *)
Definition last_of (ls : option (list jsval)) (name : jsstr) : option jsval :=
  find (fun lane => lane_name lane === name) (rev (default [] ls)).

Lemma assoc_toMap ls name : assoc (toMap ls) name = last_of ls name.
Proof.
  unfold toMap, last_of. induction (default [] ls) as [|x l IH] using rev_ind; [done|].
  rewrite fold_left_app, rev_app_distr. cbn [fold_left rev app find].
  by rewrite assoc_map_set, IH.
Qed.

Lemma assoc_fill (fallback m : list (jsstr * jsval)) name :
  assoc (fold_left fill_lane fallback m) name =
    match assoc m name with Some v => Some v | None => assoc fallback name end.
Proof.
  revert m. induction fallback as [|[k v] fb IH]; intros m; cbn [fold_left].
  - by destruct (assoc m name).
  - rewrite IH, assoc_cons. unfold fill_lane, has_key. cbn [fst snd].
    destruct (assoc m k) as [w|] eqn:Hk.
    + destruct (str_eqb_spec k name) as [->|]; [by rewrite Hk|done].
    + rewrite assoc_map_set. destruct (str_eqb_spec k name) as [->|]; [by rewrite Hk|done].
Qed.

Lemma map_fst_replace {A} (m : list (jsstr * A)) k v :
  map fst (replace_field m k v) = map fst m.
Proof.
  induction m as [|[k' w] m IH]; [done|]. cbn [replace_field].
  destruct (str_eqb_spec k' k) as [->|]; cbn [map fst]; [done|]. by rewrite IH.
Qed.

Lemma assoc_None_keys {A} (m : list (jsstr * A)) k : assoc m k = None -> k ∉ map fst m.
Proof.
  induction m as [|[k' w] m IH]; [intros _; apply not_elem_of_nil|]. rewrite assoc_cons. cbn [map fst].
  destruct (str_eqb_spec k' k); [done|]. rewrite not_elem_of_cons. auto.
Qed.

Lemma NoDup_map_set {A} (m : list (jsstr * A)) k v :
  NoDup (map fst m) -> NoDup (map fst (map_set m k v)).
Proof.
  unfold map_set, has_key. intros Hm. destruct (assoc m k) eqn:Hk; [by rewrite map_fst_replace|].
  rewrite map_app. apply NoDup_app. split_and!; [done| |apply NoDup_singleton].
  intros x Hx ->%list_elem_of_singleton. by eapply assoc_None_keys.
Qed.

Lemma NoDup_toMap ls : NoDup (map fst (toMap ls)).
Proof.
  unfold toMap. induction (default [] ls) as [|x l IH] using rev_ind; [constructor|].
  rewrite fold_left_app. by apply NoDup_map_set.
Qed.

Lemma NoDup_fill fallback m : NoDup (map fst m) -> NoDup (map fst (fold_left fill_lane fallback m)).
Proof.
  revert m. induction fallback as [|e fb IH]; intros m Hm; [done|]. apply IH.
  unfold fill_lane. destruct (has_key m e.1); [done|by apply NoDup_map_set].
Qed.

Lemma toMap_order ls m : (forall lane, lane ∈ ls -> lane_name lane ∉ map fst m) ->
  NoDup (map lane_name ls) ->
  map fst (fold_left (fun m lane => map_set m (lane_name lane) lane) ls m) =
    map fst m ++ map lane_name ls.
Proof.
  revert m. induction ls as [|x ls IH]; intros m Hnew Hnd; cbn [fold_left map]; [by rewrite app_nil_r|].
  apply NoDup_cons in Hnd as [Hx Hnd].
  assert (Hset : map_set m (lane_name x) x = m ++ [(lane_name x, x)]).
  { unfold map_set, has_key. destruct (assoc m (lane_name x)) as [w|] eqn:Hk; [|done].
    exfalso. apply (Hnew x); [set_solver|]. apply list_elem_of_fmap.
    exists (lane_name x, w). split; [done|by apply assoc_in]. }
  rewrite Hset, IH, map_app, <- app_assoc; [done| |done].
  intros lane Hl. rewrite map_app, not_elem_of_app. split; [apply Hnew; set_solver|].
  cbn. rewrite list_elem_of_singleton. intros Heq. apply Hx. rewrite <- Heq.
  by apply list_elem_of_fmap_2.
Qed.

(** Merging the two sources.  The result is driven by the events exactly when
    the stream is connected and its last snapshot is not older than the limit.
    Each lane has one entry: the last snapshot of the leading source, else the
    last one of the other source; so no lane either source knows is missing,
    and when the lanes of the leading source are distinct they come first, in
    their order. *)
Theorem resolveLaneSnapshots_spec (params : lane_sources) :
  let r := resolveLaneSnapshots params in
  let leading := if sseDriven r then sseLanes params else pollLanes params in
  let other := if sseDriven r then pollLanes params else sseLanes params in
  (sseDriven r = true <->
     sseConnected params = true /\ exists ls at_, sseLanes params = Some ls
       /\ sseReceivedAt params = Some at_
       /\ num_leb (nsub (now params) at_) (default SSE_SNAPSHOT_STALE_MS (staleMs params)) = true)
  /\ (forall name, assoc (byLane r) name =
        match last_of leading name with Some v => Some v | None => last_of other name end)
  /\ NoDup (map fst (byLane r))
  /\ (NoDup (map lane_name (default [] leading)) ->
        exists more, map fst (byLane r) = map lane_name (default [] leading) ++ more).
Proof.
  intros r leading other. unfold r, resolveLaneSnapshots in *. cbn [sseDriven byLane] in *.
  split_and!.
  - unfold sse_fresh. rewrite !andb_true_iff.
    destruct (sseLanes params) as [ls|], (sseReceivedAt params) as [at_|]; split.
    all: try (intros [[? ?] ?]; discriminate).
    all: try (intros (? & ? & ? & ? & ? & ?); discriminate).
    + intros [[Hc _] Hn]. split; [done|]. by exists ls, at_.
    + intros (Hc & ls' & at' & [= <-] & [= <-] & Hn). done.
  - intros name. by rewrite assoc_fill, !assoc_toMap.
  - apply NoDup_fill, NoDup_toMap.
  - intros Hnd. fold leading other.
    assert (Hmap : map fst (toMap leading) = map lane_name (default [] leading))
      by (unfold toMap; rewrite toMap_order; [done|intros; apply not_elem_of_nil|done]).
    rewrite <- Hmap. clear. generalize (toMap leading) as m.
    induction (toMap other) as [|e fb IH]; intros m; cbn [fold_left]; [exists []; by rewrite app_nil_r|].
    destruct (IH (fill_lane m e)) as [more ->]. unfold fill_lane, map_set.
    destruct (has_key m e.1); [by exists more|]. rewrite map_app, <- app_assoc. by eexists.
Qed.

(** ** The reconnect delay stays between its bounds *)

Definition capped_delay (n : Z) : num := nmin RECONNECT_MAX_MS (nmul RECONNECT_BASE_MS (pow2 n)).

Lemma capped_delay_small :
  forallb (fun k => bool_decide (capped_delay (Z.of_nat k)
                                 = num_of_Z (Z.min 30000 (1000 * 2 ^ Z.of_nat k)))) (seq 0 1024) = true.
Proof. vm_compute. reflexivity. Qed.

Lemma capped_delay_exact n : 0 <= n -> capped_delay n = num_of_Z (Z.min 30000 (1000 * 2 ^ n)).
Proof.
  intros Hn. destruct (Z_lt_ge_dec n 1024) as [Hlt|Hge].
  - pose proof (proj1 (forallb_forall _ _) capped_delay_small (Z.to_nat n)) as H.
    cbv beta in H. rewrite Z2Nat.id, bool_decide_eq_true in H by done.
    apply H, in_seq. lia.
  - unfold capped_delay, pow2. rewrite (proj2 (Z.leb_le _ _)) by lia.
    pose proof (Z.pow_le_mono_r 2 10 n ltac:(lia) ltac:(lia)).
    rewrite Z.min_l by (change (2 ^ 10) with 1024 in *; lia). reflexivity.
Qed.

Lemma num_of_Z_enclosed z : 0 < z < 2 ^ prec -> enclosed (num_of_Z z) z 0 z 0.
Proof.
  destruct z as [|p|p]; [lia| |lia]. intros Hz.
  apply binary_round_enclosed; try apply dle_refl; try done; split; done || lia.
Qed.

Lemma jitter_enclosed random : in_unit_interval random ->
  enclosed (nadd (num_of_Z 1) (nmul random RECONNECT_JITTER_RATIO)) 1 0 5 (-2).
Proof.
  intros Hr. apply one_plus_enclosed.
  apply (nmul_enclosed random RECONNECT_JITTER_RATIO 0 0 1 0 1 (-2) 1 (-2)); try done.
  by apply unit_enclosed.
Qed.

(** C14. The reconnect delay.  With the default options and a random number between
    0 and 1, the n-th delay is a whole number of milliseconds, at least
    1000 * 2^n and at most a quarter more, and capped at 30000: never longer,
    and never shorter once the cap is reached. *)
Theorem reconnectDelayMs_bounds (attempt : Z) (random : num) (Hrandom : in_unit_interval random) :
  let grown := 1000 * 2 ^ Z.max 0 attempt in
  exists ms, reconnectDelayMs attempt no_delay_options random = num_of_Z ms
    /\ Z.min 30000 grown <= ms <= Z.min 30000 (grown + grown / 4).
Proof.
  intros grown. unfold reconnectDelayMs. cbn [no_delay_options baseMs maxMs jitterRatio default].
  fold (capped_delay (Z.max 0 attempt)). rewrite capped_delay_exact by lia. fold grown.
  pose proof (Z.pow_pos_nonneg 2 (Z.max 0 attempt) ltac:(lia) ltac:(lia)) as Hpow.
  assert (Hgrown : exists b, grown = 8 * b /\ 0 < b) by (exists (125 * 2 ^ Z.max 0 attempt); lia).
  destruct Hgrown as (b & Hb & Hb0). clearbody grown. subst grown.
  set (c := Z.min 30000 (8 * b)). assert (Hc : 0 < c <= 30000) by lia.
  assert (Hprec : 2 ^ prec = 9007199254740992) by done.
  assert (Hprod : enclosed (nmul (num_of_Z c)
      (nadd (num_of_Z 1) (nmul random RECONNECT_JITTER_RATIO))) c 0 (5 * c) (-2)).
  { apply (nmul_enclosed _ _ c 0 c 0 1 0 5 (-2)); try lia; try done.
    - apply num_of_Z_enclosed. lia.
    - by apply jitter_enclosed.
    - split; [lia|done].
    - split; [lia|done].
    - rewrite Z.mul_1_r. apply dle_refl.
    - rewrite Z.mul_comm. apply dle_refl. }
  destruct (nround_enclosed _ c (c + c / 4) (5 * c) (-2) Hprod) as (z & Hz & Hlo & Hhi).
  - unfold dle. assert (exists d, c = 4 * d) as [d ->].
    { unfold c. destruct (Z.min_spec 30000 (8 * b)) as [[_ ->]|[_ ->]];
        [by exists 7500|exists (2 * b); lia]. }
    rewrite (Z.mul_comm 4 d), Z.div_mul by lia. change (-2 - Z.min (-2) 0) with 0. change (0 - Z.min (-2) 0) with 2. lia.
  - lia.
  - exists (Z.min 30000 z). rewrite Hz. unfold RECONNECT_MAX_MS.
    rewrite nmin_of_Z by (rewrite Hprec; pose proof (Z.div_le_upper_bound c 4 c ltac:(lia) ltac:(lia)); lia).
    split; [done|]. assert (H84 : 8 * b / 4 = 2 * b) by (symmetry; apply Z.div_unique_exact; lia).
    rewrite H84. unfold c in *. destruct (Z.min_spec 30000 (8 * b)) as [[? E]|[? E]]; rewrite E in *; lia.
Qed.

Lemma reconnectDelayMs_bounds_witness :
  exists ms, reconnectDelayMs 3 no_delay_options (ndiv (num_of_Z 1) (num_of_Z 2)) = num_of_Z ms
    /\ 8000 <= ms <= 10000.
Proof.
  apply (reconnectDelayMs_bounds 3 (ndiv (num_of_Z 1) (num_of_Z 2))).
  vm_compute. done.
Defined.

Example delay_sample : reconnectDelayMs 3 no_delay_options (ndiv (num_of_Z 1) (num_of_Z 2)) = num_of_Z 9000.
Proof. vm_compute. reflexivity. Qed.
