(* ===== verification/AuthStore.v ===== *)
(** * The authentication store and the shapes it accepts

    Models [stores/auth-store.ts] (the store and its four actions), the parts of
    [lib/pbr-auth.ts] that build the local bundle, and the shape checks of
    [lib/auth-session.ts].  A bundle is the JavaScript object the code passes
    around: the checks only cast it, so its fields are read as the code reads
    them. *)

From S2P Require Import Prelude JsString JsNumber JsValue.

(** ** [stores/auth-store.ts] *)

Inductive AuthBootstrapState := idle | checking | complete.

#[global] Instance AuthBootstrapState_eq_dec : EqDecision AuthBootstrapState.
Proof. solve_decision. Defined.

(** [null] is [JNull]. *)
Record AuthState := {
  user : jsval;
  accessToken : jsval;
  accessExpiresAt : jsval;
  session : jsval;
  bootstrapState : AuthBootstrapState
}.

Definition initial_auth : AuthState :=
  {| user := JNull; accessToken := JNull; accessExpiresAt := JNull; session := JNull;
     bootstrapState := idle |}.

Definition setBundle (bundle : jsval) (a : AuthState) : AuthState :=
  {| user := prop bundle (js "user"); accessToken := prop bundle (js "access_token");
     accessExpiresAt := prop bundle (js "access_expires_at");
     session := prop bundle (js "session"); bootstrapState := complete |}.

Definition setUser (u : jsval) (a : AuthState) : AuthState :=
  {| user := u; accessToken := accessToken a; accessExpiresAt := accessExpiresAt a;
     session := session a; bootstrapState := bootstrapState a |}.

Definition setBootstrapState (b : AuthBootstrapState) (a : AuthState) : AuthState :=
  {| user := user a; accessToken := accessToken a; accessExpiresAt := accessExpiresAt a;
     session := session a; bootstrapState := b |}.

Definition reset (b : AuthBootstrapState) (a : AuthState) : AuthState :=
  {| user := JNull; accessToken := JNull; accessExpiresAt := JNull; session := JNull;
     bootstrapState := b |}.

(** ** [lib/pbr-auth.ts] *)

Definition field (key : string) (v : jsval) : jsstr * jsval := (js key, v).

(** The display name is the two characters for "administrator". *)
Definition PBR_ADMIN_USER : jsval :=
  JObj [field "id" (JNum (num_of_Z 1)); field "username" (JStr (js "admin"));
        field "display_name" (JStr [0x7BA1; 0x7406; 0x5458]%N);
        field "role" (JNum (num_of_Z 100))].

(** [now] is [Math.floor(Date.now() / 1000)]. *)
Definition syntheticSession (userAgent : jsstr) (now : Z) : jsval :=
  JObj [field "sid" (JStr (js "pbr-session")); field "current" (JBool true);
        field "login_method" (JStr (js "password")); field "ip" (JStr []);
        field "user_agent" (JStr userAgent); field "created_at" (JNum (num_of_Z now));
        field "last_active_at" (JNum (num_of_Z now));
        field "expires_at" (JNum (num_of_Z (now + 7 * 24 * 60 * 60)))].

Definition buildPBRBundle (userAgent : jsstr) (now : Z) : jsval :=
  JObj [field "access_token" (JStr (js "pbr-session-cookie"));
        field "token_type" (JStr (js "Cookie"));
        field "access_expires_at" (JNum (num_of_Z (now + 7 * 24 * 60 * 60)));
        field "user" PBR_ADMIN_USER; field "session" (syntheticSession userAgent now)].

(** ** The shape checks of [lib/auth-session.ts] *)

Definition isRecord (v : jsval) : bool := truthy v && is_typeof_object v.

Definition is_positive_number (v : jsval) : bool :=
  match v with JNum n => num_ltb zero n | _ => false end.

(** [typeof v === 'string' && v.length > 0] *)
Definition is_nonempty_string (v : jsval) : bool :=
  match v with JStr s => nonempty s | _ => false end.

Definition isAuthUser (v : jsval) : bool :=
  isRecord v
  && (match prop v (js "id") with JNum n => is_integer n | _ => false end
      && is_positive_number (prop v (js "id"))
      && is_string (prop v (js "username"))
      && is_number (prop v (js "role"))).

Definition isLoginSession (v : jsval) : bool :=
  isRecord v
  && (is_nonempty_string (prop v (js "sid"))
      && is_boolean (prop v (js "current"))
      && is_string (prop v (js "login_method"))
      && is_string (prop v (js "ip"))
      && is_string (prop v (js "user_agent"))
      && is_number (prop v (js "created_at"))
      && is_number (prop v (js "last_active_at"))
      && is_number (prop v (js "expires_at"))).

Definition hasValidTokenFields (v : jsval) : bool :=
  is_nonempty_string (prop v (js "access_token"))
  && is_nonempty_string (prop v (js "token_type"))
  && (match prop v (js "access_expires_at") with JNum n => is_finite n | _ => false end
      && is_positive_number (prop v (js "access_expires_at"))).

Definition isAuthBundle (v : jsval) : bool :=
  isRecord v
  && (hasValidTokenFields v && isAuthUser (prop v (js "user"))
      && isLoginSession (prop v (js "session"))).

Definition isAuthTokenRotation (v : jsval) : bool :=
  isRecord v && hasValidTokenFields v
  && strict_eq (prop v (js "token_type")) (JStr (js "Bearer"))
  && isLoginSession (prop v (js "session"))
  && truthy (prop (prop v (js "session")) (js "current")).

(** [session?.sid] *)
Definition session_sid (session : jsval) : jsval :=
  if is_nullish session then JUndefined else prop session (js "sid").

(** ** The store's invariant: either nobody is signed in, or the fields are those of
    a checked bundle. *)

Definition no_session (a : AuthState) : Prop :=
  user a = JNull /\ accessToken a = JNull /\ accessExpiresAt a = JNull /\ session a = JNull.

Definition live_session (a : AuthState) : Prop :=
  isAuthUser (user a) = true /\ isLoginSession (session a) = true
  /\ is_nonempty_string (accessToken a) = true
  /\ match accessExpiresAt a with JNum n => is_finite n && num_ltb zero n | _ => false end = true.

Definition auth_wf (a : AuthState) : Prop := no_session a \/ live_session a.

Lemma initial_auth_wf : auth_wf initial_auth.
Proof. by left. Qed.

Lemma reset_wf b a : auth_wf (reset b a).
Proof. by left. Qed.

Lemma setBootstrapState_wf b a : auth_wf a -> auth_wf (setBootstrapState b a).
Proof. done. Qed.

Lemma setBundle_wf bundle a : isAuthBundle bundle = true -> auth_wf (setBundle bundle a).
Proof.
  unfold isAuthBundle, hasValidTokenFields. rewrite !andb_true_iff.
  intros (_ & ((((Ht & _) & He & Hp) & Hu) & Hs)). right. split_and!; [done..|].
  cbn [setBundle accessExpiresAt]. destruct (prop bundle (js "access_expires_at")); try done.
  cbn in Hp. by rewrite He, Hp.
Qed.

#[export] Hint Resolve initial_auth_wf reset_wf setBootstrapState_wf setBundle_wf : pbr.

(** The local bundle has the shape the store expects. *)
Lemma syntheticSession_ok userAgent now : isLoginSession (syntheticSession userAgent now) = true.
Proof. reflexivity. Qed.

Lemma PBR_ADMIN_USER_ok : isAuthUser PBR_ADMIN_USER = true.
Proof. vm_compute. reflexivity. Qed.
