(* ===== verification/AuthSync.v ===== *)
(** * The session hint and the messages between tabs

    Models [lib/session-hint.ts] (reading a cookie) and
    [lib/auth-session-sync.ts] (announcing a sign-in or sign-out to the other
    tabs, over a broadcast channel or over storage events). *)

From S2P Require Import Prelude JsString JsNumber JsRounding JsValue JsJson.

(** ** [lib/session-hint.ts] *)

Definition SESSION_HINT_COOKIE_NAME : jsstr := js "pbr_has_session".

(** One turn of the loop: [None] continues. *)
Definition read_part (name part : jsstr) : option jsstr :=
  match index_of (js "=") part with
  | None => None
  | Some separator =>
      if trim (take separator part) !== name then None
      else Some (trim (drop (separator + 1) part))
  end.

Fixpoint read_parts (name : jsstr) (parts : list jsstr) : option jsstr :=
  match parts with
  | [] => None
  | part :: rest =>
      match read_part name part with
      | Some value => Some value
      | None => read_parts name rest
      end
  end.

(** [None] is [null]. *)
Definition readCookie (cookieHeader name : jsstr) : option jsstr :=
  read_parts name (split (ch ";") cookieHeader).

(** [None] for the cookies: there is no [document]. *)
Definition hasSessionHint (cookies : option jsstr) : bool :=
  match cookies with
  | None => true
  | Some header => match readCookie header SESSION_HINT_COOKIE_NAME with Some _ => true | None => false end
  end.

(** ** [lib/auth-session-sync.ts] *)

Inductive sync_kind := authenticated | signed_out.

Definition kind_text (k : sync_kind) : jsstr :=
  match k with authenticated => js "authenticated" | signed_out => js "signed_out" end.

Definition AUTH_SYNC_CHANNEL : jsstr := js "pbr:auth-session".
Definition AUTH_SYNC_STORAGE_KEY : jsstr := js "pbr:auth-session:event".

Definition isAuthSessionSyncEvent (v : jsval) : bool :=
  negb (negb (truthy v) || negb (is_typeof_object v))
  && ((strict_eq (prop v (js "kind")) (JStr (js "authenticated"))
       || strict_eq (prop v (js "kind")) (JStr (js "signed_out")))
      && is_string (prop v (js "sid"))
      && match prop v (js "sid") with JStr s => nonempty s | _ => false end
      && is_string (prop v (js "source"))
      && is_string (prop v (js "nonce"))
      && is_number (prop v (js "timestamp"))).

(** A tab: whether it has a window and broadcast channels, and its identity. *)
Record tab := {
  has_window : bool;
  has_broadcast : bool;
  storage_works : bool;
  authSyncSource : jsstr
}.

Inductive sync_output :=
| PostMessage (channel : jsstr) (message : jsval)
| SetItem (key value : jsstr)
| RemoveItem (key : jsstr).

(** The event a tab announces. [nonce] is a fresh random identifier and [now] the
    clock, in milliseconds. *)
Definition sync_event (t : tab) (kind : sync_kind) (sid nonce : jsstr) (now : num) : jsval :=
  JObj [(js "kind", JStr (kind_text kind)); (js "sid", JStr sid);
        (js "source", JStr (authSyncSource t)); (js "nonce", JStr nonce);
        (js "timestamp", JNum now)].

Definition publishAuthSessionEvent (t : tab) (kind : sync_kind) (sid nonce : jsstr) (now : num)
    : list sync_output :=
  if negb (has_window t) || negb (nonempty sid) then []
  else
    let event := sync_event t kind sid nonce now in
    if has_broadcast t then [PostMessage AUTH_SYNC_CHANNEL event]
    else if storage_works t then
      [SetItem AUTH_SYNC_STORAGE_KEY (default [] (json_stringify event));
       RemoveItem AUTH_SYNC_STORAGE_KEY]
    else [].

(** [deliver]: the event handed to the listener, if any. *)
Definition deliver (t : tab) (now : num) (value : jsval) : option jsval :=
  if isAuthSessionSyncEvent value
     && negb (strict_eq (prop value (js "source")) (JStr (authSyncSource t)))
     && num_ltb (nabs (nsub now match prop value (js "timestamp") with JNum n => n | _ => S754_nan end))
          (num_of_Z 60000)
  then Some value else None.

(** [handleMessage] and [handleStorage].  [None] as a value is [null], as after
    [removeItem]. *)
Definition handleMessage (t : tab) (now : num) (data : jsval) : option jsval := deliver t now data.

Definition handleStorage (t : tab) (now : num) (key newValue : option jsstr) : option jsval :=
  match key, newValue with
  | Some k, Some text =>
      if (k !== AUTH_SYNC_STORAGE_KEY) || negb (nonempty text) then None
      else match json_parse text with
           | Some v => deliver t now v
           | None => None
           end
  | _, _ => None
  end.

(** What a subscribed tab hears of an output of another one: a broadcast reaches
    the tabs that listen to the channel, a stored item those that listen to
    storage events. *)
Definition hears (t : tab) (now : num) (o : sync_output) : option jsval :=
  if negb (has_window t) then None
  else if has_broadcast t then
    match o with
    | PostMessage channel data => if channel === AUTH_SYNC_CHANNEL then handleMessage t now data else None
    | _ => None
    end
  else
    match o with
    | SetItem key value => handleStorage t now (Some key) (Some value)
    | RemoveItem key => handleStorage t now (Some key) None
    | PostMessage _ _ => None
    end.

(** ** Lemmas *)

(** A cookie's name and value, as a browser writes them. *)
Definition cookie_text (s : jsstr) : Prop :=
  ch ";" ∉ s /\ forallb (fun c => negb (is_space c)) s = true.

Definition cookie (kv : jsstr * jsstr) : jsstr := kv.1 ++ js "=" ++ kv.2.

Definition cookie_ok (kv : jsstr * jsstr) : Prop :=
  cookie_text kv.1 /\ ch "=" ∉ kv.1 /\ cookie_text kv.2.

Lemma index_of_first c s t : c ∉ s -> index_of [c] (s ++ c :: t) = Some (length s).
Proof.
  induction s as [|x s IH]; intros Hs; cbn [app index_of starts_with].
  - by rewrite N.eqb_refl.
  - apply not_elem_of_cons in Hs as [Hx Hs]. rewrite (proj2 (N.eqb_neq _ _) Hx). cbn [andb].
    by rewrite IH.
Qed.

Lemma trim_leading_space s : forallb (fun c => negb (is_space c)) s = true -> trim (js " " ++ s) = s.
Proof. intros Hs. unfold trim. change (trim_start (js " " ++ s)) with (trim_start s). by apply trim_no_space. Qed.

(** Reading one written part, with or without the space after the separator. *)
Lemma read_part_cookie name kv space : cookie_ok kv -> space = [] \/ space = js " " ->
  read_part name (space ++ cookie kv) = if kv.1 === name then Some kv.2 else None.
Proof.
  intros ([_ Hn] & Heq & [_ Hv]) Hspace. unfold read_part, cookie. change (js "=") with [ch "="].
  rewrite app_assoc. cbn [app].
  rewrite index_of_first by (destruct Hspace; subst; set_solver).
  rewrite take_app_length.
  assert (drop (length (space ++ kv.1) + 1) ((space ++ kv.1) ++ ch "=" :: kv.2) = kv.2) as ->.
  { rewrite drop_app_ge by lia. by replace (_ + 1 - _)%nat with 1%nat by lia. }
  assert (trim (space ++ kv.1) = kv.1) as ->.
  { destruct Hspace; subst; [by apply trim_no_space|by apply trim_leading_space]. }
  rewrite (trim_no_space kv.2) by done. by destruct (kv.1 === name).
Qed.

Lemma join_cookies ps : join (js "; ") ps =
  join [ch ";"] (match ps with [] => [] | p :: rest => p :: map (fun q => js " " ++ q) rest end).
Proof.
  destruct ps as [|p ps]; [done|]. revert p. induction ps as [|q ps IH]; intros p; [done|].
  change (p ++ js "; " ++ join (js "; ") (q :: ps)
          = p ++ [ch ";"] ++ join [ch ";"] ((js " " ++ q) :: map (fun q => js " " ++ q) ps)).
  rewrite IH. by destruct ps.
Qed.

Lemma read_parts_cookies name kvs : Forall cookie_ok kvs ->
  read_parts name (map (fun q => js " " ++ q) (map cookie kvs)) = assoc kvs name.
Proof.
  induction 1 as [|[k v] kvs Hkv _ IH]; [done|]. cbn [map read_parts].
  rewrite (read_part_cookie name (k, v) (js " ")) by auto. rewrite assoc_cons, IH. cbn [fst snd].
  by destruct (k === name).
Qed.

Lemma cookie_no_semicolon kv : cookie_ok kv -> ch ";" ∉ cookie kv.
Proof.
  intros ([Hk _] & _ & [Hv _]). unfold cookie. rewrite !not_elem_of_app. split_and!; try done.
  vm_compute. set_solver.
Qed.

(** ** Properties *)

(** Cookies are read back.  In the header a browser writes for a list of
    cookies, [readCookie] finds the value of the first one with the name, and
    nothing when there is none. *)
Theorem readCookie_roundtrip (kvs : list (jsstr * jsstr)) (name : jsstr)
    (Hcookies : Forall cookie_ok kvs) :
  readCookie (join (js "; ") (map cookie kvs)) name = assoc kvs name.
Proof.
  unfold readCookie. rewrite join_cookies. destruct Hcookies as [|[k v] kvs Hkv Hall]; [done|].
  rewrite split_join; [|done|].
  - cbn [map read_parts]. change (cookie (k, v)) with ([] ++ cookie (k, v)).
    rewrite (read_part_cookie name (k, v) []) by auto. cbn [fst snd].
    rewrite read_parts_cookies, assoc_cons by done. by destruct (k === name).
  - cbn [map]. constructor; [by apply cookie_no_semicolon|]. apply Forall_map, Forall_map.
    eapply Forall_impl; [exact Hall|]. intros kv' H'. cbn beta. apply not_elem_of_app.
    split; [vm_compute; set_solver|by apply cookie_no_semicolon].
Qed.

Lemma readCookie_roundtrip_witness :
  readCookie (js "lang=en; pbr_has_session=1") SESSION_HINT_COOKIE_NAME = Some (js "1").
Proof.
  apply (readCookie_roundtrip [(js "lang", js "en"); (SESSION_HINT_COOKIE_NAME, js "1")]
           SESSION_HINT_COOKIE_NAME).
  repeat constructor; vm_compute; set_solver.
Defined.

(** Messages between tabs.  Over a broadcast channel, what one tab announces
    reaches every other tab unchanged and exactly once, provided the clocks
    differ by less than a minute; it never reaches a listener of the same
    source, and nothing is announced for an empty session identifier. *)
Theorem auth_sync_delivery (a b : tab) (kind : sync_kind) (sid nonce : jsstr) (sent heard : num)
    (Ha : has_window a = true /\ has_broadcast a = true)
    (Hb : has_window b = true /\ has_broadcast b = true) :
  omap (hears b heard) (publishAuthSessionEvent a kind sid nonce sent) =
    if nonempty sid && (authSyncSource a !== authSyncSource b)
       && num_ltb (nabs (nsub heard sent)) (num_of_Z 60000)
    then [sync_event a kind sid nonce sent] else [].
Proof.
  destruct Ha as [Ha1 Ha2], Hb as [Hb1 Hb2]. unfold publishAuthSessionEvent.
  rewrite Ha1, Ha2. cbn [negb orb]. destruct (nonempty sid) eqn:Hsid; cbn [negb andb]; [|done].
  assert (Hevent : isAuthSessionSyncEvent (sync_event a kind sid nonce sent) = true).
  { destruct sid as [|c sid]; [done|]. by destruct kind. }
  assert (Hheard : hears b heard (PostMessage AUTH_SYNC_CHANNEL (sync_event a kind sid nonce sent))
    = if (authSyncSource a !== authSyncSource b)
         && num_ltb (nabs (nsub heard sent)) (num_of_Z 60000)
      then Some (sync_event a kind sid nonce sent) else None).
  { unfold hears, handleMessage, deliver. rewrite Hb1, Hb2, Hevent, str_eqb_refl. cbn [negb andb].
    reflexivity. }
  cbn [omap list_omap]. rewrite Hheard.
  by destruct (_ && num_ltb _ _).
Qed.

Definition sample_tab (source : string) : tab :=
  {| has_window := true; has_broadcast := true; storage_works := true; authSyncSource := js source |}.

Lemma auth_sync_delivery_witness :
  omap (hears (sample_tab "b") (num_of_Z 5000))
    (publishAuthSessionEvent (sample_tab "a") signed_out (js "s1") (js "n") (num_of_Z 4000))
  = [sync_event (sample_tab "a") signed_out (js "s1") (js "n") (num_of_Z 4000)].
Proof.
  exact (auth_sync_delivery (sample_tab "a") (sample_tab "b") signed_out (js "s1") (js "n")
           (num_of_Z 4000) (num_of_Z 5000) (conj eq_refl eq_refl) (conj eq_refl eq_refl)).
Defined.

(** The same over storage, where the event travels as JSON text. *)
Definition storage_tab (source : string) : tab :=
  {| has_window := true; has_broadcast := false; storage_works := true; authSyncSource := js source |}.

Example storage_delivery :
  omap (hears (storage_tab "b") (num_of_Z 5000))
    (publishAuthSessionEvent (storage_tab "a") authenticated (js "s1") (js "n") (num_of_Z 4000))
  = [sync_event (storage_tab "a") authenticated (js "s1") (js "n") (num_of_Z 4000)].
Proof. vm_compute. reflexivity. Qed.
