(* ===== verification/AuthSession.v ===== *)
(** * The login session ([lib/auth-session.ts])

    [createRefreshRunner] is modelled once for any runtime: a record of the
    operations the code is given.  The module's own state machine then
    instantiates it.  Code that awaits is cut at its awaits: a step is what runs
    between two of them, and an event is what an awaited promise delivers or a
    call from outside, so that other calls can come in between, as they can in
    the browser. *)

From S2P Require Import Prelude JsString JsNumber JsRounding JsValue AuthStore AuthSync.

(** ** Outcomes *)

Inductive refresh_error := Superseded | Failed (error : jsval).

Inductive RefreshOutcome :=
| Authenticated (bundle : jsval)
| Anonymous
| TransientError (error : refresh_error)
| OutOfSync (code : option jsstr)
| Stale.

Record AuthRefreshHTTPResponse := { status : Z; data : jsval; error : jsval }.

(** ** The runner, for any runtime *)

(** The runtime: the runner's access to a state [S].  [None] for [isCurrent] means
    that the runtime has no such check. *)
Record AuthRefreshRuntime (S : Type) := {
  getExpectedSID : S -> jsval;
  parseBundle : jsval -> option jsval;
  acceptBundle : jsval -> S -> S;
  clear : bool -> option AuthBootstrapState -> S -> S;
  markTransient : S -> S;
  isCurrent : option (S -> bool)
}.
Arguments getExpectedSID {S}.
Arguments parseBundle {S}.
Arguments acceptBundle {S}.
Arguments clear {S}.
Arguments markTransient {S}.
Arguments isCurrent {S}.

Definition refreshRaceDelays : list Z := [80; 200; 500].

(** What the runner waits for: an answer to a request, or the end of a delay, in
    both cases in the run with these arguments. *)
Inductive run_next :=
| Requesting (raceAttempt : nat) (allowMismatchRetry : bool) (expectedSID : jsval)
| Waiting (delay : Z) (raceAttempt : nat) (allowMismatchRetry : bool)
| Finished (outcome : RefreshOutcome).

Section Runner.
Context {S : Type} (runtime : AuthRefreshRuntime S).

Definition current (s : S) : bool :=
  match isCurrent runtime with Some f => f s | None => true end.

Definition superseded : RefreshOutcome := TransientError Superseded.

(** [run] up to its request. *)
Definition run_begin (raceAttempt : nat) (allowMismatchRetry : bool) (s : S) : run_next :=
  if negb (current s) then Finished superseded
  else Requesting raceAttempt allowMismatchRetry (getExpectedSID runtime s).

(** What the runner does with a response that carries no bundle. *)
Definition run_failure (raceAttempt : nat) (allowMismatchRetry : bool)
    (response : AuthRefreshHTTPResponse) (responseData : jsval) (code : option jsstr) (s : S)
    : run_next * S :=
  let has_code c := match code with Some c' => c' === c | None => false end in
  if (status response =? 409) && has_code (js "AUTH_REFRESH_RACE") then
    match refreshRaceDelays !! raceAttempt with
    | Some delay => (Waiting delay (raceAttempt + 1) allowMismatchRetry, s)
    | None => (Finished (OutOfSync code), clear runtime false None s)
    end
  else if (status response =? 409) && has_code (js "AUTH_SESSION_MISMATCH") then
    if allowMismatchRetry then
      let s := clear runtime false (Some idle) s in (run_begin 0 false s, s)
    else (Finished (OutOfSync code), clear runtime false None s)
  else if (status response =? 200) && isRecord responseData
          && strict_eq (prop responseData (js "stale")) (JBool true) then
    (Finished Stale, clear runtime true None s)
  else if status response =? 401 then (Finished Anonymous, clear runtime true None s)
  else if (status response =? 0) || (500 <=? status response) || (status response =? 429) then
    (Finished (TransientError
       (Failed (if is_nullish (error response) then data response else error response))),
     markTransient runtime s)
  else
    (Finished (OutOfSync (Some (default (js "AUTH_INVALID_REFRESH_RESPONSE") code))),
     clear runtime false None s).

(** [run] after its request. *)
Definition run_response (raceAttempt : nat) (allowMismatchRetry : bool)
    (response : AuthRefreshHTTPResponse) (s : S) : run_next * S :=
  if negb (current s) then (Finished superseded, s)
  else
    let responseData := if isRecord (data response) then data response else JUndefined in
    let code := match prop responseData (js "code") with JStr c => Some c | _ => None end in
    match parseBundle runtime (prop responseData (js "data")) with
    | Some bundle =>
        if strict_eq (prop responseData (js "success")) (JBool true)
        then (Finished (Authenticated bundle), acceptBundle runtime bundle s)
        else run_failure raceAttempt allowMismatchRetry response responseData code s
    | None => run_failure raceAttempt allowMismatchRetry response responseData code s
    end.
End Runner.

(** ** The module's state *)

Inductive settled := Resolved (outcome : RefreshOutcome) | Rejected (error : jsval).

(** What the shared refresh waits for. *)
Inductive refresh_phase :=
| AwaitLock
| AwaitSession (raceAttempt : nat) (allowMismatchRetry : bool)
| AwaitDiscard (raceAttempt : nat) (allowMismatchRetry : bool)
| AwaitDelay (delay : Z) (raceAttempt : nat) (allowMismatchRetry : bool)
| Settled (result : settled).

(** [refreshPromise] with what its closure captured. *)
Record refresh_run := { refreshEpoch : Z; refreshPhase : refresh_phase }.

(** [published] are the calls of [publishAuthSessionEvent] that announce
    something, [requests] counts the questions asked of the server. *)
Record world := {
  auth : AuthState;
  authEpoch : Z;
  refreshPromise : option refresh_run;
  published : list (sync_kind * jsval);
  requests : nat
}.

Definition initial_world : world :=
  {| auth := initial_auth; authEpoch := 0; refreshPromise := None; published := []; requests := 0 |}.

Definition set_auth (f : AuthState -> AuthState) (w : world) : world :=
  {| auth := f (auth w); authEpoch := authEpoch w; refreshPromise := refreshPromise w;
     published := published w; requests := requests w |}.

Definition bump_epoch (w : world) : world :=
  {| auth := auth w; authEpoch := authEpoch w + 1; refreshPromise := refreshPromise w;
     published := published w; requests := requests w |}.

(** The guard [!sid] of [publishAuthSessionEvent]. *)
Definition publish (kind : sync_kind) (sid : jsval) (w : world) : world :=
  {| auth := auth w; authEpoch := authEpoch w; refreshPromise := refreshPromise w;
     published := if truthy sid then published w ++ [(kind, sid)] else published w;
     requests := requests w |}.

Definition applyAuthBundle (bundle : jsval) (synchronizeTabs : bool) (w : world) : world :=
  let previousSID := session_sid (session (auth w)) in
  let sid := prop (prop bundle (js "session")) (js "sid") in
  let w := set_auth (setBundle bundle) (bump_epoch w) in
  if synchronizeTabs && negb (strict_eq previousSID sid) then publish authenticated sid w else w.

Definition clearAuthentication (synchronizeTabs : bool) (b : AuthBootstrapState) (w : world) : world :=
  let sid := session_sid (session (auth w)) in
  let w := set_auth (reset b) (bump_epoch w) in
  if synchronizeTabs && truthy sid then publish signed_out sid w else w.

(** The bundle [applyAuthRotation] builds from a rotation and the current user. *)
Definition rotated_bundle (value : jsval) (u : jsval) : jsval :=
  JObj [field "access_token" (prop value (js "access_token"));
        field "token_type" (prop value (js "token_type"));
        field "access_expires_at" (prop value (js "access_expires_at"));
        field "session" (prop value (js "session")); field "user" u].

(** A thrown [AuthRotationError] is its message. *)
Definition applyAuthRotation (value : jsval) (w : world) : outcome jsstr world :=
  if negb (isAuthTokenRotation value) then
    Throw (js "Invalid authentication rotation response")
  else if negb (truthy (user (auth w))) || negb (truthy (session (auth w))) then
    Throw (js "Authentication rotation has no active session")
  else if negb (strict_eq (prop (prop value (js "session")) (js "sid"))
                          (prop (session (auth w)) (js "sid"))) then
    Throw (js "Authentication rotation session mismatch")
  else Ret (applyAuthBundle (rotated_bundle value (user (auth w))) false w).

(** ** The shared refresh *)

(** What [authClient.get] delivers: a body, an axios error with the response it may
    carry, or another thrown value. *)
Inductive session_reply :=
| SessionBody (status : Z) (body : jsval)
| AxiosError (response : option (Z * jsval)) (error : jsval)
| OtherError (error : jsval).

Section Module_.
(** Whether the browser has locks, and its user agent. *)
Context (hasLocks : bool) (userAgent : jsstr).

(** [requestRefresh] up to its answer: [None] when it first discards the cookie.
    [now] is the clock in seconds. *)
Definition session_response (now : Z) (reply : session_reply) : option AuthRefreshHTTPResponse :=
  match reply with
  | SessionBody status body =>
      if truthy (prop body (js "authenticated")) then
        Some {| status := status;
                data := JObj [field "success" (JBool true);
                              field "data" (buildPBRBundle userAgent now)];
                error := JUndefined |}
      else if truthy (prop body (js "stale")) then None
      else Some {| status := 401; data := body; error := JUndefined |}
  | OtherError e => Some {| status := 0; data := JUndefined; error := e |}
  | AxiosError (Some (status, data)) e => Some {| status := status; data := data; error := e |}
  | AxiosError None e => Some {| status := 0; data := JUndefined; error := e |}
  end.

Definition discarded_response : AuthRefreshHTTPResponse :=
  {| status := 200; data := JObj [field "stale" (JBool true)]; error := JUndefined |}.

(** The runtime of [runRefresh]. *)
Definition refresh_runtime (epoch : Z) : AuthRefreshRuntime world := {|
  getExpectedSID := fun w => session_sid (session (auth w));
  parseBundle := fun v => if isAuthBundle v then Some v else None;
  acceptBundle := fun bundle w => applyAuthBundle bundle false w;
  clear := fun synchronizeTabs b w =>
    match synchronizeTabs, b with
    | false, Some idle => set_auth (reset idle) w
    | _, _ => clearAuthentication synchronizeTabs (default complete b) w
    end;
  markTransient := fun w => set_auth (setBootstrapState idle) w;
  isCurrent := Some (fun w => authEpoch w =? epoch)
|}.

Definition set_refresh (r : option refresh_run) (w : world) : world :=
  {| auth := auth w; authEpoch := authEpoch w; refreshPromise := r;
     published := published w; requests := requests w |}.

Definition count_request (w : world) : world :=
  {| auth := auth w; authEpoch := authEpoch w; refreshPromise := refreshPromise w;
     published := published w; requests := requests w + 1 |}.

(** The shared refresh goes on with what the runner waits for. *)
Definition continue (epoch : Z) (next : run_next) (w : world) : world :=
  match next with
  | Requesting race allow _ =>
      count_request
        (set_refresh (Some {| refreshEpoch := epoch; refreshPhase := AwaitSession race allow |}) w)
  | Waiting delay race allow =>
      set_refresh (Some {| refreshEpoch := epoch; refreshPhase := AwaitDelay delay race allow |}) w
  | Finished outcome =>
      set_refresh (Some {| refreshEpoch := epoch; refreshPhase := Settled (Resolved outcome) |}) w
  end.

Definition begin_run (epoch : Z) (race : nat) (allow : bool) (w : world) : world :=
  continue epoch (run_begin (refresh_runtime epoch) race allow w) w.

(** [performRefreshWithBrowserLock]: with locks, the run starts when the lock is
    granted, otherwise at once. *)
Definition performRefreshWithBrowserLock (epoch : Z) (w : world) : world :=
  if hasLocks
  then set_refresh (Some {| refreshEpoch := epoch; refreshPhase := AwaitLock |}) w
  else begin_run epoch 0 true w.

Definition refreshAuthentication (w : world) : world :=
  match refreshPromise w with
  | Some _ => w
  | None => performRefreshWithBrowserLock (authEpoch w) w
  end.

Definition respond (epoch : Z) (race : nat) (allow : bool) (response : AuthRefreshHTTPResponse)
    (w : world) : world :=
  let '(next, w) := run_response (refresh_runtime epoch) race allow response w in
  continue epoch next w.

(** ** Resolving the session *)

(** A number of the store against a number of seconds: [a <= b]. *)
Definition expires_by (expires : jsval) (seconds : Z) : bool :=
  match expires with JNum n => num_leb n (num_of_Z seconds) | _ => false end.
Definition expires_after (expires : jsval) (seconds : Z) : bool :=
  match expires with JNum n => num_ltb (num_of_Z seconds) n | _ => false end.

Definition currentValidAuthBundle (now : Z) (a : AuthState) : option jsval :=
  if negb (truthy (user a)) || negb (truthy (accessToken a)) || negb (truthy (accessExpiresAt a))
     || negb (truthy (session a)) || expires_by (accessExpiresAt a) now
  then None
  else Some (JObj [field "access_token" (accessToken a); field "token_type" (JStr (js "Bearer"));
                   field "access_expires_at" (accessExpiresAt a); field "user" (user a);
                   field "session" (session a)]).

(** An answer at once, or that of the shared refresh. *)
Inductive resolution := Immediately (outcome : RefreshOutcome) | OfRefresh.

Definition resolveAuthentication (now : Z) (w : world) : resolution * world :=
  match currentValidAuthBundle now (auth w) with
  | Some bundle => (Immediately (Authenticated bundle), set_auth (setBootstrapState complete) w)
  | None =>
      let hasStaleSession := truthy (user (auth w)) && truthy (session (auth w)) in
      if bool_decide (bootstrapState (auth w) = complete) && negb hasStaleSession
      then (Immediately Anonymous, w)
      else (OfRefresh, refreshAuthentication (set_auth (setBootstrapState checking) w))
  end.

Definition bootstrapAuthentication (now : Z) (cookies : option jsstr) (w : world)
    : resolution * world :=
  let skip :=
    match currentValidAuthBundle now (auth w) with Some _ => false | None => true end
    && negb (hasSessionHint cookies)
    && (negb (truthy (user (auth w))) && negb (truthy (session (auth w)))) in
  if skip then (Immediately Anonymous, w) else resolveAuthentication now w.

(** ** Request headers *)

Definition getCommonHeaders (w : world) : list (jsstr * jsstr) :=
  let headers := [(js "Content-Type", js "application/json")] in
  if truthy (accessToken (auth w))
  then set_field headers (js "Authorization") (js "Bearer " ++ string_of_val (accessToken (auth w)))
  else headers.

Definition token_lives (seconds : Z) (a : AuthState) : bool :=
  truthy (accessToken a) && truthy (accessExpiresAt a) && expires_after (accessExpiresAt a) seconds.

(** [getFreshAuthHeaders] up to its refresh: [None] when it has to ask for one. *)
Definition fresh_headers (now : Z) (w : world) : option (list (jsstr * jsstr)) * world :=
  if token_lives (now + 60) (auth w) then (Some (getCommonHeaders w), w)
  else (None, refreshAuthentication w).

(** [getFreshAuthHeaders] after its refresh; a thrown error is its untranslated
    message and its cause. *)
Definition headers_after_refresh (now : Z) (o : RefreshOutcome) (w : world)
    : outcome (jsstr * option refresh_error) (list (jsstr * jsstr)) :=
  match o with
  | Authenticated _ => Ret (getCommonHeaders w)
  | _ =>
      if token_lives now (auth w) then Ret (getCommonHeaders w)
      else match o with
           | TransientError e => Throw (js "Request failed", Some e)
           | _ => Throw (js "Session expired!", None)
           end
  end.

(** ** Steps *)

Inductive auth_event :=
| CallRefresh
| LockGranted
| LockRejected (error : jsval)
| SessionReply (now : Z) (reply : session_reply)
| CookieDiscarded
| DelayOver
| RefreshSettled
| SignIn (bundle : jsval) (synchronizeTabs : bool)
| Rotate (value : jsval)
| SignOut (synchronizeTabs : bool) (b : AuthBootstrapState)
| Resolve (now : Z)
| Bootstrap (now : Z) (cookies : option jsstr).

(** [None]: the shared refresh does not wait for the event. *)
Definition step (w : world) (ev : auth_event) : option world :=
  match ev, refreshPromise w with
  | CallRefresh, _ => Some (refreshAuthentication w)
  | SignIn bundle sync, _ => Some (applyAuthBundle bundle sync w)
  | Rotate value, _ => Some (match applyAuthRotation value w with Ret w' => w' | _ => w end)
  | SignOut sync b, _ => Some (clearAuthentication sync b w)
  | Resolve now, _ => Some (resolveAuthentication now w).2
  | Bootstrap now cookies, _ => Some (bootstrapAuthentication now cookies w).2
  | _, None => None
  | ev, Some run =>
      let epoch := refreshEpoch run in
      match ev, refreshPhase run with
      | LockGranted, AwaitLock => Some (begin_run epoch 0 true w)
      | LockRejected e, AwaitLock =>
          Some (set_refresh (Some {| refreshEpoch := epoch; refreshPhase := Settled (Rejected e) |}) w)
      | SessionReply now reply, AwaitSession race allow =>
          Some (match session_response now reply with
                | Some response => respond epoch race allow response w
                | None => set_refresh (Some {| refreshEpoch := epoch;
                                               refreshPhase := AwaitDiscard race allow |}) w
                end)
      | CookieDiscarded, AwaitDiscard race allow =>
          Some (respond epoch race allow discarded_response w)
      | DelayOver, AwaitDelay _ race allow => Some (begin_run epoch race allow w)
      | RefreshSettled, Settled _ => Some (set_refresh None w)
      | _, _ => None
      end
  end.

Fixpoint steps (w : world) (evs : list auth_event) : option world :=
  match evs with
  | [] => Some w
  | ev :: evs' => match step w ev with Some w' => steps w' evs' | None => None end
  end.
End Module_.

(** ** Lemmas: what each operation does to the store *)

Lemma rotated_bundle_ok value u :
  isAuthTokenRotation value = true -> isAuthUser u = true -> isAuthBundle (rotated_bundle value u) = true.
Proof.
  unfold isAuthTokenRotation. rewrite !andb_true_iff. intros [[[[_ Hf] _] Hs] _] Hu.
  unfold isAuthBundle, hasValidTokenFields in *.
  change (isRecord (rotated_bundle value u)) with true.
  change (prop (rotated_bundle value u) (js "access_token")) with (prop value (js "access_token")).
  change (prop (rotated_bundle value u) (js "token_type")) with (prop value (js "token_type")).
  change (prop (rotated_bundle value u) (js "access_expires_at")) with (prop value (js "access_expires_at")).
  change (prop (rotated_bundle value u) (js "user")) with u.
  change (prop (rotated_bundle value u) (js "session")) with (prop value (js "session")).
  by rewrite Hf, Hu, Hs.
Qed.

Definition time_ok (now : Z) : Prop := 0 <= now < 2 ^ 52.

Lemma buildPBRBundle_ok userAgent now : time_ok now -> isAuthBundle (buildPBRBundle userAgent now) = true.
Proof.
  intros Hnow. destruct (num_of_Z_exact (now + 7 * 24 * 60 * 60)) as (m & Hm & _).
  { unfold time_ok in Hnow. change (2 ^ prec) with (2 * 2 ^ 52). lia. }
  unfold buildPBRBundle. rewrite Hm. reflexivity.
Qed.

Lemma applyAuthBundle_auth bundle sync w : auth (applyAuthBundle bundle sync w) = setBundle bundle (auth w).
Proof. unfold applyAuthBundle. by destruct (sync && _). Qed.

Lemma clearAuthentication_auth sync b w : auth (clearAuthentication sync b w) = reset b (auth w).
Proof. unfold clearAuthentication. by destruct (sync && _). Qed.

(** The invariant of the module: the store is well-formed, and every announced
    session identifier is truthy. *)
Definition world_ok (w : world) : Prop :=
  auth_wf (auth w) /\ Forall (fun m => truthy m.2 = true) (published w).

Lemma publish_ok kind sid w : world_ok w -> world_ok (publish kind sid w).
Proof.
  intros [Ha Hp]. split; [done|]. cbn. destruct (truthy sid) eqn:Hs; [|done].
  apply Forall_app. split; [done|]. by constructor.
Qed.

Lemma set_auth_ok f w : auth_wf (f (auth w)) -> world_ok w -> world_ok (set_auth f w).
Proof. intros Hf [_ Hp]. by split. Qed.

Lemma applyAuthBundle_ok bundle sync w :
  isAuthBundle bundle = true -> world_ok w -> world_ok (applyAuthBundle bundle sync w).
Proof.
  intros Hb Hw. unfold applyAuthBundle.
  assert (H : world_ok (set_auth (setBundle bundle) (bump_epoch w)))
    by (apply set_auth_ok; [by apply setBundle_wf|done]).
  destruct (sync && _); [by apply publish_ok|done].
Qed.

Lemma clearAuthentication_ok sync b w : world_ok w -> world_ok (clearAuthentication sync b w).
Proof.
  intros Hw. unfold clearAuthentication.
  assert (H : world_ok (set_auth (reset b) (bump_epoch w))) by (apply set_auth_ok; [apply reset_wf|done]).
  destruct (sync && _); [by apply publish_ok|done].
Qed.

Lemma set_refresh_ok r w : world_ok w -> world_ok (set_refresh r w).
Proof. done. Qed.

Lemma setBootstrapState_ok b w : world_ok w -> world_ok (set_auth (setBootstrapState b) w).
Proof. intros Hw. apply set_auth_ok; [apply Hw|done]. Qed.

#[export] Hint Resolve applyAuthBundle_ok clearAuthentication_ok set_refresh_ok setBootstrapState_ok
  set_auth_ok : pbr.

(** ** Lemmas: the runner against the runtime of the module *)

Section ModuleLemmas.
Context (hasLocks : bool) (userAgent : jsstr).

Lemma continue_auth epoch next w :
  auth (continue epoch next w) = auth w /\ published (continue epoch next w) = published w
  /\ authEpoch (continue epoch next w) = authEpoch w.
Proof. by destruct next. Qed.

Lemma continue_ok epoch next w : world_ok w -> world_ok (continue epoch next w).
Proof. intros [H1 H2]. by destruct next. Qed.

Lemma runtime_clear_ok epoch sync b w :
  world_ok w -> world_ok (clear (refresh_runtime epoch) sync b w).
Proof.
  intros Hw. cbn. destruct sync, b as [[]|]; auto with pbr.
Qed.

Lemma run_failure_ok epoch race allow response rd code w : world_ok w ->
  world_ok (run_failure (refresh_runtime epoch) race allow response rd code w).2.
Proof.
  intros Hw. unfold run_failure.
  repeat case_match; cbn [snd]; try apply runtime_clear_ok; done.
Qed.

Lemma run_response_ok epoch race allow response w : world_ok w ->
  world_ok (run_response (refresh_runtime epoch) race allow response w).2.
Proof.
  intros Hw. unfold run_response. destruct (negb _); [done|].
  destruct (parseBundle _ _) as [b|] eqn:Hb; [|by apply run_failure_ok].
  destruct (strict_eq _ _); [|by apply run_failure_ok].
  cbn in Hb. destruct (isAuthBundle _) eqn:Hv; [|done]. injection Hb as <-.
  by apply applyAuthBundle_ok.
Qed.

Lemma respond_ok epoch race allow response w : world_ok w -> world_ok (respond epoch race allow response w).
Proof.
  intros Hw. unfold respond. pose proof (run_response_ok epoch race allow response w Hw) as H.
  destruct (run_response _ _ _ _ _) as [next w']. by apply continue_ok.
Qed.

Lemma refreshAuthentication_ok w : world_ok w -> world_ok (refreshAuthentication hasLocks w).
Proof.
  intros Hw. unfold refreshAuthentication, performRefreshWithBrowserLock.
  destruct (refreshPromise w), hasLocks; try done. by apply continue_ok.
Qed.

Lemma resolveAuthentication_ok now w : world_ok w -> world_ok (resolveAuthentication hasLocks now w).2.
Proof.
  intros Hw. unfold resolveAuthentication. destruct (currentValidAuthBundle _ _).
  - by apply setBootstrapState_ok.
  - destruct (bool_decide _ && _); [done|]. by apply refreshAuthentication_ok, setBootstrapState_ok.
Qed.

Lemma applyAuthRotation_ok value w w' : world_ok w -> applyAuthRotation value w = Ret w' -> world_ok w'.
Proof.
  intros Hw. unfold applyAuthRotation. destruct (isAuthTokenRotation value) eqn:Hr; [|done].
  destruct (negb (truthy (user (auth w))) || _) eqn:Hu; [done|].
  destruct (negb (strict_eq _ _)); [done|]. intros [= <-]. apply applyAuthBundle_ok; [|done].
  apply rotated_bundle_ok; [done|]. apply orb_false_iff in Hu as [Hu _].
  destruct Hw as [[(Hn & _)|(Hu' & _)] _]; [|done]. by rewrite Hn in Hu.
Qed.

(** The bundle of a sign-in is typed. *)
Definition event_ok (ev : auth_event) : Prop :=
  match ev with SignIn bundle _ => isAuthBundle bundle = true | _ => True end.

Lemma step_ok w ev w' : event_ok ev -> world_ok w -> step hasLocks userAgent w ev = Some w' -> world_ok w'.
Proof.
  intros Hev Hw Hstep. unfold step in Hstep.
  assert (Hbegin : forall epoch race allow, world_ok (begin_run epoch race allow w))
    by (intros; by apply continue_ok).
  destruct ev.
  1: { simplify_eq. by apply refreshAuthentication_ok. }
  all: try by (destruct (refreshPromise w) as [[epoch []]|]; cbn [refreshPhase] in Hstep;
                simplify_eq; auto with pbr).
  - destruct (refreshPromise w) as [[epoch []]|]; cbn [refreshPhase refreshEpoch] in Hstep; simplify_eq.
    destruct (session_response _ _ _); [by apply respond_ok|done].
  - destruct (refreshPromise w) as [[epoch []]|]; cbn [refreshPhase refreshEpoch] in Hstep; simplify_eq.
    by apply respond_ok.
  - simplify_eq. destruct (applyAuthRotation value w) eqn:Hr; try done.
    by eapply applyAuthRotation_ok.
  - simplify_eq. by apply resolveAuthentication_ok.
  - simplify_eq. unfold bootstrapAuthentication. destruct (_ && _); [done|].
    by apply resolveAuthentication_ok.
Qed.

Lemma steps_ok evs w w' : Forall event_ok evs -> world_ok w ->
  steps hasLocks userAgent w evs = Some w' -> world_ok w'.
Proof.
  intros Hevs. revert w. induction Hevs as [|ev evs Hev _ IH]; intros w Hw H; cbn [steps] in H;
    [by simplify_eq|].
  destruct (step hasLocks userAgent w ev) as [w1|] eqn:Hs; [|done].
  eapply IH; [|done]. by eapply step_ok.
Qed.
End ModuleLemmas.

(** ** Properties *)

(** C19. The store stays well-formed.  From the initial state, after any sequence of
    calls, answers of the server and cross-tab events, the store is either empty
    or holds a user, a session, a token and an expiry of the checked shapes, and
    everything announced to other tabs carries a session identifier. *)
Theorem session_store_invariant (hasLocks : bool) (userAgent : jsstr) (evs : list auth_event) (w : world)
    (Hevs : Forall event_ok evs)
    (Hsteps : steps hasLocks userAgent initial_world evs = Some w) :
  auth_wf (auth w) /\ Forall (fun m => truthy m.2 = true) (published w).
Proof.
  refine (steps_ok hasLocks userAgent evs initial_world w Hevs _ Hsteps).
  split; [by left|constructor].
Qed.

Definition sample_now : Z := 1700000000.
Definition sign_in : jsval := buildPBRBundle (js "agent") sample_now.

(** A sign-in, then a refresh that finds the session stale. *)
Definition sample_events : list auth_event :=
  [SignIn sign_in true; CallRefresh; LockGranted;
   SessionReply sample_now (SessionBody 200 (JObj [field "stale" (JBool true)]));
   CookieDiscarded; RefreshSettled].

Lemma session_store_invariant_witness :
  exists w, steps true (js "agent") initial_world sample_events = Some w
    /\ no_session (auth w) /\ map fst (published w) = [authenticated; signed_out]
    /\ auth_wf (auth w).
Proof.
  destruct (steps true (js "agent") initial_world sample_events) as [w|] eqn:Hw;
    [|vm_compute in Hw; discriminate Hw].
  pose proof (session_store_invariant true (js "agent") sample_events w
    ltac:(repeat constructor; vm_compute; reflexivity) Hw) as [Hwf _].
  exists w. vm_compute in Hw. injection Hw as <-. split; [reflexivity|].
  split; [by vm_compute|]. split; [reflexivity|exact Hwf].
Defined.

(** ** A superseded refresh *)

(** What the shared refresh itself waits for. *)
Definition internal (ev : auth_event) : bool :=
  match ev with
  | LockGranted | LockRejected _ | SessionReply _ _ | CookieDiscarded | DelayOver | RefreshSettled => true
  | _ => false
  end.

(** The refresh of an earlier epoch: it has not settled, or it has settled without
    a verdict, or it is gone. *)
Definition outdated (w : world) : Prop :=
  match refreshPromise w with
  | None => True
  | Some run =>
      refreshEpoch run <> authEpoch w /\
      match refreshPhase run with
      | Settled (Resolved o) => o = superseded
      | _ => True
      end
  end.

Definition untouched (w w' : world) : Prop :=
  auth w' = auth w /\ published w' = published w /\ authEpoch w' = authEpoch w
  /\ requests w' = requests w.

Lemma outdated_step hasLocks userAgent w ev w' : internal ev = true -> outdated w ->
  step hasLocks userAgent w ev = Some w' -> outdated w' /\ untouched w w'.
Proof.
  intros Hev Hw Hstep. unfold outdated, untouched in *. unfold step in Hstep.
  destruct (refreshPromise w) as [[epoch ph]|] eqn:Hp; [|by destruct ev].
  cbn [refreshEpoch refreshPhase] in *. destruct Hw as [He Ho].
  assert (Hcur : forall race allow, run_begin (refresh_runtime epoch) race allow w = Finished superseded).
  { intros. unfold run_begin, current. cbn. by rewrite (proj2 (Z.eqb_neq _ _)) by congruence. }
  assert (Hresp : forall race allow response,
    run_response (refresh_runtime epoch) race allow response w = (Finished superseded, w)).
  { intros. unfold run_response, current. cbn. by rewrite (proj2 (Z.eqb_neq _ _)) by congruence. }
  destruct ev; try done; destruct ph; simplify_eq; unfold begin_run, respond;
    rewrite ?Hcur, ?Hresp; cbn; try done.
  destruct (session_response userAgent now reply); rewrite ?Hresp; done.
Qed.


(** A sign-out while a refresh waits for the server, then the server's answer. *)
Definition after_sign_out : world :=
  default initial_world (steps false (js "agent") initial_world
    [SignIn sign_in true; CallRefresh; SignOut true complete]).

Definition late_answer : list auth_event :=
  [SessionReply sample_now (SessionBody 200 (JObj [field "authenticated" (JBool true)]))].


(** ** Termination *)

(** How many more requests a run can make after the one it waits for. *)
Definition more_requests (raceAttempt : nat) (allowMismatchRetry : bool) : nat :=
  (if allowMismatchRetry then 4 else 0) + (3 - raceAttempt).

Definition phase_measure (ph : refresh_phase) : nat :=
  match ph with
  | AwaitLock => 25
  | AwaitSession race allow => 3 * more_requests race allow + 3
  | AwaitDiscard race allow => 3 * more_requests race allow + 2
  | AwaitDelay _ race allow => 3 * more_requests race allow + 4
  | Settled _ => 1
  end.

Definition refresh_measure (w : world) : nat :=
  match refreshPromise w with None => 0 | Some run => phase_measure (refreshPhase run) end.

(** The requests a refresh may still make. *)
Definition requests_left (w : world) : nat :=
  match refreshPromise w with
  | None => 0
  | Some run =>
      match refreshPhase run with
      | AwaitLock => 8
      | AwaitSession race allow | AwaitDiscard race allow => more_requests race allow
      | AwaitDelay _ race allow => more_requests race allow + 1
      | Settled _ => 0
      end
  end.

(** Going on from [w], at most [m] is left of the measure and [k] of the requests. *)
Definition within (m k : nat) (w w' : world) : Prop :=
  (refresh_measure w' <= m)%nat /\ (requests w' + requests_left w' <= requests w + k)%nat.

Lemma begin_within epoch race allow w :
  within (3 * more_requests race allow + 3) (more_requests race allow + 1) w (begin_run epoch race allow w).
Proof.
  unfold begin_run, run_begin. destruct (negb (current _ _)); unfold within, refresh_measure, requests_left;
    cbn; lia.
Qed.

Lemma runtime_clear_counts epoch sync b w :
  requests (clear (refresh_runtime epoch) sync b w) = requests w.
Proof.
  assert (H : forall s b, requests (clearAuthentication s b w) = requests w)
    by (intros s b'; unfold clearAuthentication; by destruct (s && _)).
  cbn. destruct sync, b as [[]|]; cbn; auto.
Qed.

Lemma run_begin_cases {S} (rt : AuthRefreshRuntime S) race allow s :
  match run_begin rt race allow s with
  | Requesting race' allow' _ => race' = race /\ allow' = allow
  | Waiting _ _ _ => False
  | Finished o => o = superseded
  end.
Proof. unfold run_begin. by destruct (negb _). Qed.

Lemma run_failure_next epoch race allow response rd code w :
  let '(next, w') := run_failure (refresh_runtime epoch) race allow response rd code w in
  requests w' = requests w /\
  match next with
  | Finished _ => True
  | Waiting _ race' allow' => allow' = allow /\ race' = (race + 1)%nat /\ (race < 3)%nat
  | Requesting race' allow' _ => allow = true /\ allow' = false /\ race' = 0%nat
  end.
Proof.
  unfold run_failure.
  assert (Hlt : forall d, refreshRaceDelays !! race = Some d -> (race < 3)%nat)
    by (intros d Hd; by apply lookup_lt_Some in Hd).
  repeat case_match; simplify_eq; rewrite ?runtime_clear_counts; try done.
  all: try (split_and!; eauto; fail).
  all: match goal with
       | H : run_begin ?rt ?r ?a ?s = _ |- _ =>
           pose proof (run_begin_cases rt r a s) as Hc; rewrite H in Hc
       end; naive_solver.
Qed.

Lemma run_response_next epoch race allow response w :
  let '(next, w') := run_response (refresh_runtime epoch) race allow response w in
  requests w' = requests w /\
  match next with
  | Finished _ => True
  | Waiting _ race' allow' => allow' = allow /\ race' = (race + 1)%nat /\ (race < 3)%nat
  | Requesting race' allow' _ => allow = true /\ allow' = false /\ race' = 0%nat
  end.
Proof.
  unfold run_response. destruct (negb _); [done|].
  destruct (parseBundle _ _); [destruct (strict_eq _ _)|]; try apply run_failure_next.
  by split.
Qed.

Lemma respond_within epoch race allow response w :
  within (3 * more_requests race allow + 1) (more_requests race allow) w (respond epoch race allow response w).
Proof.
  unfold respond. pose proof (run_response_next epoch race allow response w) as H.
  destruct (run_response _ _ _ _ _) as [next w']. destruct H as [Hr Hn].
  unfold within, refresh_measure, requests_left, more_requests in *.
  destruct next as [race' allow' sid|delay race' allow'|o]; cbn; rewrite Hr; unfold more_requests.
  - destruct Hn as (-> & -> & ->). lia.
  - destruct Hn as (-> & -> & Hlt). destruct allow; lia.
  - destruct allow; lia.
Qed.

(** Every event the refresh waits for is accepted, and brings it nearer to its end. *)
Definition awaited (ph : refresh_phase) (ev : auth_event) : Prop :=
  match ph, ev with
  | AwaitLock, (LockGranted | LockRejected _) => True
  | AwaitSession _ _, SessionReply _ _ => True
  | AwaitDiscard _ _, CookieDiscarded => True
  | AwaitDelay _ _ _, DelayOver => True
  | Settled _, RefreshSettled => True
  | _, _ => False
  end.

(** C21. A refresh terminates.  Whatever the server answers, each event the refresh
    waits for is accepted and strictly lowers a measure, which is at most 25, so
    a refresh takes at most that many events; and it asks the server at most
    eight times, however many races and mismatches it is told of. *)
Theorem refresh_terminates (hasLocks : bool) (userAgent : jsstr) (w : world) :
  (refreshPromise w = None ->
     (refresh_measure (refreshAuthentication hasLocks w) <= 25)%nat
     /\ (requests (refreshAuthentication hasLocks w)
          + requests_left (refreshAuthentication hasLocks w) <= requests w + 8)%nat)
  /\ (forall run ev, refreshPromise w = Some run -> awaited (refreshPhase run) ev ->
        exists w', step hasLocks userAgent w ev = Some w'
          /\ (refresh_measure w' < refresh_measure w)%nat
          /\ (requests w' + requests_left w' <= requests w + requests_left w)%nat)
  /\ (forall run ev, refreshPromise w = Some run -> internal ev = true ->
        (exists w', step hasLocks userAgent w ev = Some w') <-> awaited (refreshPhase run) ev).
Proof.
  split_and!.
  - intros Hnone. unfold refreshAuthentication, performRefreshWithBrowserLock. rewrite Hnone.
    destruct hasLocks; [unfold refresh_measure, requests_left; cbn; lia|].
    pose proof (begin_within (authEpoch w) 0 true w) as [H1 H2].
    change (more_requests 0 true) with 7%nat in *. lia.
  - intros [epoch ph] ev Hrun Haw. unfold step. rewrite Hrun. cbn [refreshPhase refreshEpoch] in *.
    unfold refresh_measure at 2, requests_left at 2. rewrite Hrun. cbn [refreshPhase].
    destruct ph, ev; try done; eexists; (split; [reflexivity|]).
    + pose proof (begin_within epoch 0 true w) as [H1 H2].
      change (more_requests 0 true) with 7%nat in *. cbn [phase_measure]. lia.
    + cbn. lia.
    + destruct (session_response userAgent now reply) as [response|]; [|cbn; lia].
      pose proof (respond_within epoch raceAttempt allowMismatchRetry response w) as [H1 H2]. cbn [phase_measure]. lia.
    + pose proof (respond_within epoch raceAttempt allowMismatchRetry discarded_response w) as [H1 H2].
      cbn [phase_measure]. lia.
    + pose proof (begin_within epoch raceAttempt allowMismatchRetry w) as [H1 H2]. cbn [phase_measure]. lia.
    + cbn. lia.
  - intros [epoch ph] ev Hrun Hin. unfold step. rewrite Hrun. cbn [refreshPhase refreshEpoch] in *.
    destruct ev; try done; destruct ph; cbn; split; intros H; try done; try (by destruct H); eauto.
Qed.

(** ** What the server's answers mean *)

Lemma current_run (S : Type) (rt : AuthRefreshRuntime S) s f :
  isCurrent rt = Some f -> f s = true -> current rt s = true.
Proof. unfold current. by intros -> ->. Qed.

(** What the server's answers mean.  For a refresh that is still current:
    a valid session signs the user in without announcing it; a stale one, once
    its cookie is discarded, empties the store and announces the sign-out of
    the session that was known; no session empties the store as an anonymous
    visitor; and an answer that does not arrive, or a server error, keeps the
    store and only marks the check as not done. *)
Theorem session_answers (hasLocks : bool) (userAgent : jsstr) (w : world) (epoch : Z)
    (race : nat) (allow : bool) (now : Z)
    (Hnow : time_ok now) (Hepoch : authEpoch w = epoch)
    (Hphase : refreshPromise w =
       Some {| refreshEpoch := epoch; refreshPhase := AwaitSession race allow |}) :
  let settle o := Some {| refreshEpoch := epoch; refreshPhase := Settled (Resolved o) |} in
  let answer reply := step hasLocks userAgent w (SessionReply now reply) in
  let sid := session_sid (session (auth w)) in
  let announced := if truthy sid then [(signed_out, sid)] else [] in
  (forall status body, truthy (prop body (js "authenticated")) = true ->
     exists w', answer (SessionBody status body) = Some w'
       /\ refreshPromise w' = settle (Authenticated (buildPBRBundle userAgent now))
       /\ auth w' = setBundle (buildPBRBundle userAgent now) (auth w)
       /\ published w' = published w)
  /\ (forall status body, truthy (prop body (js "authenticated")) = false ->
        truthy (prop body (js "stale")) = true ->
        exists w1 w', answer (SessionBody status body) = Some w1 /\ auth w1 = auth w
          /\ step hasLocks userAgent w1 CookieDiscarded = Some w'
          /\ refreshPromise w' = settle Stale /\ auth w' = reset complete (auth w)
          /\ published w' = published w ++ announced)
  /\ (forall status fs, let body := JObj fs in
        truthy (prop body (js "authenticated")) = false ->
        truthy (prop body (js "stale")) = false -> isAuthBundle (prop body (js "data")) = false ->
        exists w', answer (SessionBody status body) = Some w'
          /\ refreshPromise w' = settle Anonymous /\ auth w' = reset complete (auth w)
          /\ published w' = published w ++ announced)
  /\ (forall e, exists w', answer (AxiosError None e) = Some w'
        /\ refreshPromise w' =
             settle (TransientError (Failed (if is_nullish e then JUndefined else e)))
        /\ auth w' = setBootstrapState idle (auth w) /\ published w' = published w)
  /\ (forall status e, 500 <= status -> exists w',
        answer (AxiosError (Some (status, JUndefined)) e) = Some w'
        /\ refreshPromise w' =
             settle (TransientError (Failed (if is_nullish e then JUndefined else e)))
        /\ auth w' = setBootstrapState idle (auth w) /\ published w' = published w).
Proof.
  intros settle answer sid announced. unfold answer, step. rewrite Hphase. cbn [refreshPhase refreshEpoch].
  assert (Hcur : forall w', authEpoch w' = epoch -> current (refresh_runtime epoch) w' = true).
  { intros w' H. unfold current. cbn. by rewrite H, Z.eqb_refl. }
  assert (Hclear : forall w', auth w' = auth w -> published w' = published w ->
    auth (clearAuthentication true complete w') = reset complete (auth w)
    /\ published (clearAuthentication true complete w') = published w ++ announced).
  { intros w' Ha Hp. unfold clearAuthentication, announced, sid. rewrite Ha.
    destruct (truthy (session_sid (session (auth w)))) eqn:Ht; cbn; rewrite ?Ht, ?Ha, ?Hp, ?app_nil_r; done. }
  split_and!.
  - intros status body Hauth. eexists. split; [reflexivity|]. cbn [session_response]. rewrite Hauth.
    unfold respond, run_response. rewrite Hcur by done. cbn [negb data].
    change (isRecord (JObj [field "success" (JBool true); field "data" (buildPBRBundle userAgent now)])) with true.
    cbv iota. set (rd := JObj _). change (prop rd (js "data")) with (buildPBRBundle userAgent now).
    change (strict_eq (prop rd (js "success")) (JBool true)) with true.
    cbn [parseBundle refresh_runtime]. rewrite buildPBRBundle_ok by done. by split_and!.
  - intros status body Hauth Hstale. eexists _, _. split; [reflexivity|]. cbn [session_response].
    rewrite Hauth, Hstale. split; [done|]. cbn [set_refresh refreshPromise refreshPhase refreshEpoch].
    split; [reflexivity|]. unfold respond, run_response. rewrite Hcur by done. cbn [negb].
    destruct (Hclear (set_refresh (Some {| refreshEpoch := epoch; refreshPhase := AwaitDiscard race allow |}) w)
      eq_refl eq_refl) as [H1 H2].
    split_and!; [reflexivity|exact H1|exact H2].
  - intros status fs Hauth Hstale Hdata. set (body := JObj fs) in *. eexists. split; [reflexivity|]. cbn [session_response].
    rewrite Hauth, Hstale. unfold respond, run_response. rewrite Hcur by done. cbn [negb data].
    change (isRecord body) with true. cbv iota zeta. cbn [parseBundle refresh_runtime].
    rewrite Hdata. unfold run_failure. cbn [AuthSession.status Z.eqb Pos.eqb andb].
    destruct (Hclear w eq_refl eq_refl) as [H1 H2]. by split_and!.
  - intros e. eexists. split; [reflexivity|]. cbn [session_response]. unfold respond, run_response.
    rewrite Hcur by done. by split_and!.
  - intros status e Hs. eexists. split; [reflexivity|]. cbn [session_response].
    unfold respond, run_response. rewrite Hcur by done. cbn [negb data error AuthSession.status].
    change (isRecord JUndefined) with false. cbv iota zeta. cbn [parseBundle refresh_runtime].
    change (isAuthBundle (prop JUndefined (js "data"))) with false. unfold run_failure. cbn [AuthSession.status].
    assert (Hne : forall k, k < 500 -> (status =? k) = false) by (intros; apply Z.eqb_neq; lia).
    rewrite !Hne, (proj2 (Z.leb_le _ _) Hs) by lia. by split_and!.
Qed.

Definition waiting_world : world :=
  default initial_world (steps false (js "agent") initial_world [SignIn sign_in true; CallRefresh]).

Lemma session_answers_witness :
  exists w', step false (js "agent") waiting_world (SessionReply sample_now (AxiosError None JNull)) = Some w'
    /\ session_sid (session (auth w')) = JStr (js "pbr-session").
Proof.
  destruct (session_answers false (js "agent") waiting_world 1 0 true sample_now
    ltac:(vm_compute; split; [discriminate|reflexivity]) eq_refl eq_refl) as (_ & _ & _ & H & _).
  destruct (H JNull) as (w' & Hstep & _ & Ha & _). exists w'. split; [exact Hstep|].
  rewrite Ha. vm_compute. reflexivity.
Defined.

(** ** Resolving *)

Lemma live_session_truthy a : live_session a ->
  truthy (user a) = true /\ truthy (session a) = true /\ truthy (accessToken a) = true
  /\ truthy (accessExpiresAt a) = true.
Proof.
  unfold live_session, isAuthUser, isLoginSession, isRecord.
  intros ([[Hu _]%andb_true_iff _]%andb_true_iff & [[Hs _]%andb_true_iff _]%andb_true_iff & Ht & He).
  split_and!; [done..| |].
  - by destruct (accessToken a) as [| | | |[]| |].
  - destruct (accessExpiresAt a) as [| | |n| | |]; try done. by destruct n as [[]|[]| |[] m e].
Qed.

Lemma current_bundle_live now a : live_session a -> expires_by (accessExpiresAt a) now = false ->
  exists bundle, currentValidAuthBundle now a = Some bundle /\ prop bundle (js "user") = user a
    /\ prop bundle (js "session") = session a /\ prop bundle (js "access_token") = accessToken a
    /\ prop bundle (js "access_expires_at") = accessExpiresAt a.
Proof.
  intros Hl He. destruct (live_session_truthy a Hl) as (Hu & Hs & Ht & Hx).
  unfold currentValidAuthBundle. rewrite Hu, Hs, Ht, Hx, He. cbn [negb orb].
  eexists. split; [reflexivity|]. by split_and!.
Qed.

Lemma no_current_bundle now a : no_session a -> currentValidAuthBundle now a = None.
Proof. intros (Hu & _). unfold currentValidAuthBundle. by rewrite Hu. Qed.

Lemma refresh_started hasLocks w : refreshPromise (refreshAuthentication hasLocks w) <> None.
Proof.
  unfold refreshAuthentication. destruct (refreshPromise w) eqn:Hp; [by rewrite Hp|].
  unfold performRefreshWithBrowserLock. destruct hasLocks; [done|].
  unfold begin_run, run_begin. by destruct (negb _).
Qed.

(** A skipped check is not a verdict.  With nothing in memory, no hint cookie and
    no completed check, the public boot path answers anonymous at once and
    changes nothing, so that resolving later still asks the server; a hint or a
    known session makes it resolve.  Resolving answers at once, without asking,
    for a session whose token is still valid, and for a visitor the server has
    already found anonymous; for an expired session it asks. *)
Theorem bootstrap_is_not_a_verdict (hasLocks : bool) (now later : Z) (cookies : option jsstr) (w : world) :
  (no_session (auth w) -> hasSessionHint cookies = false -> bootstrapState (auth w) <> complete ->
     bootstrapAuthentication hasLocks now cookies w = (Immediately Anonymous, w)
     /\ (resolveAuthentication hasLocks later w).1 = OfRefresh
     /\ refreshPromise (resolveAuthentication hasLocks later w).2 <> None)
  /\ (hasSessionHint cookies = true \/ live_session (auth w) ->
        bootstrapAuthentication hasLocks now cookies w = resolveAuthentication hasLocks now w)
  /\ (live_session (auth w) -> expires_by (accessExpiresAt (auth w)) now = false ->
        exists bundle, resolveAuthentication hasLocks now w =
          (Immediately (Authenticated bundle), set_auth (setBootstrapState complete) w)
          /\ prop bundle (js "user") = user (auth w) /\ prop bundle (js "session") = session (auth w))
  /\ (no_session (auth w) -> bootstrapState (auth w) = complete ->
        resolveAuthentication hasLocks now w = (Immediately Anonymous, w))
  /\ (live_session (auth w) -> expires_by (accessExpiresAt (auth w)) now = true ->
        (resolveAuthentication hasLocks now w).1 = OfRefresh
        /\ refreshPromise (resolveAuthentication hasLocks now w).2 <> None).
Proof.
  split_and!.
  - intros Hn Hh Hb. pose proof Hn as (Hu & _ & _ & Hs).
    unfold bootstrapAuthentication, resolveAuthentication.
    rewrite !no_current_bundle, Hh, Hu, Hs by done. cbn [truthy negb andb].
    rewrite (bool_decide_eq_false_2 _ Hb). split; [done|]. split; [done|]. apply refresh_started.
  - intros H. unfold bootstrapAuthentication. destruct H as [->|Hl]; [by rewrite andb_false_r|].
    destruct (live_session_truthy _ Hl) as (-> & _). by rewrite andb_false_r.
  - intros Hl He. destruct (current_bundle_live now _ Hl He) as (b & Hb & Hu & Hs & _).
    exists b. unfold resolveAuthentication. by rewrite Hb.
  - intros Hn Hb. unfold resolveAuthentication. rewrite no_current_bundle by done.
    rewrite (bool_decide_eq_true_2 _ Hb). by destruct Hn as (-> & _).
  - intros Hl He. unfold resolveAuthentication.
    destruct (live_session_truthy _ Hl) as (Hu & Hs & Ht & Hx).
    assert (currentValidAuthBundle now (auth w) = None) as ->.
    { unfold currentValidAuthBundle. by rewrite He, !orb_true_r. }
    rewrite Hu, Hs, andb_false_r. split; [done|]. apply refresh_started.
Qed.

(** Rotating the token.  A rotation is accepted exactly when it has the shape of
    one, names the current session and somebody is signed in; it then replaces
    the token, the expiry and the session under the same identifier, keeps the
    user, supersedes a running refresh and announces nothing.  Any other
    rotation is refused with the reason, and changes nothing. *)
Theorem applyAuthRotation_spec (value : jsval) (w : world) :
  match applyAuthRotation value w with
  | Ret w' =>
      isAuthTokenRotation value = true /\ truthy (user (auth w)) = true
      /\ truthy (session (auth w)) = true
      /\ user (auth w') = user (auth w)
      /\ accessToken (auth w') = prop value (js "access_token")
      /\ accessExpiresAt (auth w') = prop value (js "access_expires_at")
      /\ session (auth w') = prop value (js "session")
      /\ strict_eq (prop (session (auth w')) (js "sid")) (prop (session (auth w)) (js "sid")) = true
      /\ bootstrapState (auth w') = complete
      /\ published w' = published w /\ authEpoch w' = authEpoch w + 1
      /\ refreshPromise w' = refreshPromise w
  | Throw message =>
      isAuthTokenRotation value = false
        /\ message = js "Invalid authentication rotation response"
      \/ isAuthTokenRotation value = true
         /\ truthy (user (auth w)) && truthy (session (auth w)) = false
         /\ message = js "Authentication rotation has no active session"
      \/ isAuthTokenRotation value = true
         /\ truthy (user (auth w)) && truthy (session (auth w)) = true
         /\ strict_eq (prop (prop value (js "session")) (js "sid")) (prop (session (auth w)) (js "sid")) = false
         /\ message = js "Authentication rotation session mismatch"
  | OutOfFuel => False
  end.
Proof.
  unfold applyAuthRotation. destruct (isAuthTokenRotation value); cbn [negb]; [|by left].
  destruct (truthy (user (auth w))); cbn [negb orb andb]; [|by right; left].
  destruct (truthy (session (auth w))); cbn [negb orb andb]; [|by right; left].
  destruct (strict_eq _ _) eqn:Hs; cbn [negb]; [|by right; right].
  split_and!; try reflexivity. exact Hs.
Qed.

(** ** What the lock's rejection leaves behind

    The handler of [performRefreshWithBrowserLock] returns the promise of
    [navigator.locks.request] without awaiting it, so its [catch] does not see a
    rejection: the refresh is rejected, and the store stays in [checking]. *)
Example lock_rejection_not_handled :
  exists w, steps true (js "agent") initial_world [Resolve sample_now; LockRejected JNull; RefreshSettled] = Some w
    /\ bootstrapState (auth w) = checking /\ refreshPromise w = None.
Proof. eexists. split; [vm_compute; reflexivity|]. split; reflexivity. Qed.

(** A bundle read back from memory has another token type than the one stored. *)
Example token_type_not_kept :
  prop sign_in (js "token_type") = JStr (js "Cookie")
  /\ match currentValidAuthBundle sample_now (setBundle sign_in initial_auth) with
     | Some bundle => prop bundle (js "token_type")
     | None => JUndefined
     end = JStr (js "Bearer").
Proof. split; vm_compute; reflexivity. Qed.

(** Eight requests can be needed: three races and a mismatch, then four races. *)
Definition refused (code : string) : session_reply :=
  AxiosError (Some (409, JObj [field "code" (JStr (js code))])) JNull.

Example eight_requests :
  exists w, steps false (js "agent") initial_world
    (CallRefresh ::
     concat (repeat [SessionReply 0 (refused "AUTH_REFRESH_RACE"); DelayOver] 3)
     ++ [SessionReply 0 (refused "AUTH_SESSION_MISMATCH")]
     ++ concat (repeat [SessionReply 0 (refused "AUTH_REFRESH_RACE"); DelayOver] 3)
     ++ [SessionReply 0 (refused "AUTH_REFRESH_RACE")]) = Some w
    /\ requests w = 8%nat.
Proof. eexists. split; [vm_compute; reflexivity|reflexivity]. Qed.
