(* ===== verification/AdvancedCustom.v ===== *)
(** * Advanced custom channels ([features/channels/lib/advanced-custom.ts])

    The routes an operator configures for a custom channel: the tables the editor
    offers, the editing operations, normalisation and validation.  A
    configuration is parsed from JSON and only cast, so it is a value of unknown
    shape here too: reading a field of [null] or [undefined], or trimming a value
    that is not a string, throws a [TypeError].  The URL parser of the platform is
    an argument. *)

From S2P Require Import Prelude JsString JsNumber JsValue JsJson.

(** ** The tables *)

Definition ADVANCED_CUSTOM_MODEL_LIST_PATH : jsstr := js "/v1/models".
Definition ADVANCED_CUSTOM_MODEL_LIST_LABEL : jsstr := js "OpenAI Models".
Definition ADVANCED_CUSTOM_BALANCE_PATH : jsstr := js "/v1/dashboard/billing/credit_grants".
Definition ADVANCED_CUSTOM_BALANCE_LABEL : jsstr := js "Balance Query".

Record converter_option := { c_value : jsstr; c_label : jsstr; c_triggerLabel : jsstr }.

Definition converter_row (value label triggerLabel : string) : converter_option :=
  {| c_value := js value; c_label := js label; c_triggerLabel := js triggerLabel |}.

Definition ADVANCED_CUSTOM_CONVERTER_OPTIONS : list converter_option :=
  [ converter_row "none" "Native forwarding" "Native forwarding";
    converter_row "anthropic_messages_to_openai_chat_completions"
      "Anthropic Messages to OpenAI Chat" "To OpenAI Chat";
    converter_row "openai_chat_completions_to_anthropic_messages"
      "OpenAI Chat to Anthropic Messages" "To Anthropic Messages";
    converter_row "openai_chat_completions_to_openai_responses"
      "OpenAI Chat to OpenAI Responses" "To OpenAI Responses";
    converter_row "openai_responses_to_openai_chat_completions"
      "OpenAI Responses to OpenAI Chat" "To OpenAI Chat";
    converter_row "openai_responses_to_gemini_generate_content"
      "OpenAI Responses to Gemini Generate Content" "To Gemini Generate Content";
    converter_row "gemini_generate_content_to_openai_chat_completions"
      "Gemini Generate Content to OpenAI Chat" "To OpenAI Chat";
    converter_row "openai_chat_completions_to_gemini_generate_content"
      "OpenAI Chat to Gemini Generate Content" "To Gemini Generate Content" ].

Definition ADVANCED_CUSTOM_AUTH_MODE_OPTIONS : list (jsstr * jsstr) :=
  [ (js "default", js "Default Bearer"); (js "none", js "No Auth");
    (js "header", js "Header"); (js "query", js "Query") ].

(** Value and label. *)
Definition ADVANCED_CUSTOM_INCOMING_PATH_OPTIONS : list (jsstr * jsstr) :=
  [ (js "/v1/chat/completions", js "OpenAI Chat");
    (js "/v1/responses", js "OpenAI Responses");
    (js "/v1/responses/compact", js "OpenAI Responses Compact");
    (js "/v1/alpha/search", js "Codex Alpha Search");
    (js "/v1/embeddings", js "OpenAI Embeddings");
    (js "/v1/images/generations", js "OpenAI Image Generations");
    (js "/v1/images/edits", js "OpenAI Image Edits");
    (js "/v1/completions", js "OpenAI Completions");
    (js "/v1/audio/speech", js "OpenAI Audio Speech");
    (js "/v1/audio/transcriptions", js "OpenAI Audio Transcriptions");
    (js "/v1/audio/translations", js "OpenAI Audio Translations");
    (js "/v1/rerank", js "Rerank");
    (js "/v1/realtime", js "OpenAI Realtime");
    (js "/v1/messages", js "Claude Messages");
    (js "/v1beta/models/{model}:generateContent", js "Gemini Generate Content");
    (js "/v1beta/models/{model}:embedContent", js "Gemini Embed Content");
    (js "/v1beta/models/{model}:batchEmbedContents", js "Gemini Batch Embed Contents") ].

Definition ADVANCED_CUSTOM_ROUTE_SUMMARY_LABELS : list (jsstr * jsstr) :=
  [ (js "/v1/chat/completions", js "OpenAI Chat");
    (ADVANCED_CUSTOM_MODEL_LIST_PATH, ADVANCED_CUSTOM_MODEL_LIST_LABEL);
    (ADVANCED_CUSTOM_BALANCE_PATH, ADVANCED_CUSTOM_BALANCE_LABEL) ].

Definition ADVANCED_CUSTOM_MODEL_REGEX_PREFIX : jsstr := js "re:".

Definition openAIChatPath : jsstr := js "/v1/chat/completions".
Definition openAIResponsesPath : jsstr := js "/v1/responses".
Definition claudeMessagesPath : jsstr := js "/v1/messages".
Definition geminiGenerateContentPath : jsstr := js "/v1beta/models/{model}:generateContent".

(** ** Authentication of a route *)

Definition text_field (key : string) (s : jsstr) : jsstr * jsval := (js key, JStr s).

Definition auth_value (type name value : jsstr) : jsval :=
  JObj [text_field "type" type; text_field "name" name; text_field "value" value].

Definition bearerHeaderAuth : jsval :=
  auth_value (js "header") (js "Authorization") (js "Bearer {api_key}").
Definition apiKeyHeaderAuth : jsval := auth_value (js "header") (js "x-api-key") (js "{api_key}").
Definition geminiQueryAuth : jsval := auth_value (js "query") (js "key") (js "{api_key}").

Definition getAdvancedCustomNativeAuth (incomingPath : jsstr) : jsval :=
  if incomingPath === claudeMessagesPath then apiKeyHeaderAuth
  else if includes (js ":generateContent") incomingPath
          || includes (js ":streamGenerateContent") incomingPath
          || includes (js ":embedContent") incomingPath
          || includes (js ":batchEmbedContents") incomingPath then geminiQueryAuth
  else bearerHeaderAuth.

(** [route.auth?.type || 'default'] *)
Definition getAdvancedCustomAuthMode (route : jsval) : outcome type_error jsval :=
  let? auth := get_field route (js "auth") in
  Ret (js_or (if is_nullish auth then JUndefined else prop auth (js "type")) (JStr (js "default"))).

(** The [name] or [value] of the previous authentication, or a default. *)
Definition previous_or (previousAuth : jsval) (key : string) (d : jsstr) : jsval :=
  js_or (if is_nullish previousAuth then JUndefined else prop previousAuth (js key)) (JStr d).

Definition buildAdvancedCustomAuth (mode : jsstr) (previousAuth : jsval) : jsval :=
  if mode === js "default" then JUndefined
  else if mode === js "none" then JObj [text_field "type" (js "none")]
  else if mode === js "header" then
    JObj [text_field "type" (js "header");
          (js "name", previous_or previousAuth "name" (js "Authorization"));
          (js "value", previous_or previousAuth "value" (js "Bearer {api_key}"))]
  else
    JObj [text_field "type" (js "query");
          (js "name", previous_or previousAuth "name" (js "api_key"));
          (js "value", previous_or previousAuth "value" (js "{api_key}"))].

(** ** Converters and paths *)

Definition isAdvancedCustomConverter (value : jsval) : bool :=
  existsb (fun option => strict_eq (JStr (c_value option)) value) ADVANCED_CUSTOM_CONVERTER_OPTIONS.

Definition is_converter (converter : jsval) (name : string) : bool :=
  strict_eq converter (JStr (js name)).

Definition isConverterPathAllowed (incomingPath : jsstr) (converter : jsval) : bool :=
  if is_converter converter "none" then true
  else if incomingPath === js "/v1/alpha/search" then false
  else if is_converter converter "anthropic_messages_to_openai_chat_completions" then
    incomingPath === js "/v1/messages"
  else if is_converter converter "openai_chat_completions_to_anthropic_messages"
          || is_converter converter "openai_chat_completions_to_openai_responses"
          || is_converter converter "openai_chat_completions_to_gemini_generate_content" then
    incomingPath === js "/v1/chat/completions"
  else if is_converter converter "openai_responses_to_openai_chat_completions" then
    incomingPath === js "/v1/responses"
  else if is_converter converter "openai_responses_to_gemini_generate_content" then
    incomingPath === js "/v1/responses"
  else
    includes (js ":generateContent") incomingPath || includes (js ":streamGenerateContent") incomingPath.

Definition getAdvancedCustomIncomingPathOptions (converter : jsval) : list (jsstr * jsstr) :=
  List.filter (fun option => isConverterPathAllowed option.1 converter)
    ADVANCED_CUSTOM_INCOMING_PATH_OPTIONS.

Definition getDefaultAdvancedCustomIncomingPath (converter : jsval) : jsstr :=
  match getAdvancedCustomIncomingPathOptions converter with
  | (value, _) :: _ => if nonempty value then value else js "/v1/chat/completions"
  | [] => js "/v1/chat/completions"
  end.

Definition isAdvancedCustomIncomingPathAllowed (incomingPath : jsstr) (converter : jsval) : bool :=
  isConverterPathAllowed incomingPath converter.

Definition getAdvancedCustomConverterOptions (incomingPath : jsstr) : list converter_option :=
  let normalizedIncomingPath := trim incomingPath in
  List.filter (fun option => (c_value option === js "none")
                             || isConverterPathAllowed normalizedIncomingPath (JStr (c_value option)))
    ADVANCED_CUSTOM_CONVERTER_OPTIONS.

Definition getAdvancedCustomIncomingPathLabel (value : jsstr) : jsstr :=
  match assoc ADVANCED_CUSTOM_INCOMING_PATH_OPTIONS value with
  | Some label => if nonempty label then label else value
  | None => value
  end.

(** The upstream path and the authentication. *)
Definition getAdvancedCustomConverterDefaults (converter : jsval) (incomingPath : jsstr)
    : jsstr * jsval :=
  let normalizedIncomingPath :=
    if nonempty (trim incomingPath) then trim incomingPath
    else getDefaultAdvancedCustomIncomingPath converter in
  if is_converter converter "none" then
    (normalizedIncomingPath, getAdvancedCustomNativeAuth normalizedIncomingPath)
  else if is_converter converter "anthropic_messages_to_openai_chat_completions"
          || is_converter converter "gemini_generate_content_to_openai_chat_completions"
          || is_converter converter "openai_responses_to_openai_chat_completions" then
    (openAIChatPath, bearerHeaderAuth)
  else if is_converter converter "openai_chat_completions_to_openai_responses" then
    (openAIResponsesPath, bearerHeaderAuth)
  else if is_converter converter "openai_chat_completions_to_anthropic_messages" then
    (claudeMessagesPath, apiKeyHeaderAuth)
  else if is_converter converter "openai_chat_completions_to_gemini_generate_content"
          || is_converter converter "openai_responses_to_gemini_generate_content" then
    (geminiGenerateContentPath, geminiQueryAuth)
  else
    (if nonempty normalizedIncomingPath then normalizedIncomingPath else openAIChatPath,
     getAdvancedCustomNativeAuth normalizedIncomingPath).

Definition getAdvancedCustomUpstreamPathPlaceholder (converter : jsval) (incomingPath : option jsstr)
    : jsstr :=
  (getAdvancedCustomConverterDefaults converter
     (default (getDefaultAdvancedCustomIncomingPath converter) incomingPath)).1.

(** ** Templates *)

Definition native_route (auth : jsval) (path : jsstr) : jsval :=
  JObj [text_field "incoming_path" path; text_field "upstream_path" path;
        text_field "converter" (js "none"); (js "auth", auth)].

Definition createOpenAINativeRoutes : list jsval :=
  map (native_route bearerHeaderAuth)
    [js "/v1/chat/completions"; js "/v1/completions"; js "/v1/responses";
     js "/v1/responses/compact"; js "/v1/embeddings"; js "/v1/images/generations";
     js "/v1/images/edits"; js "/v1/audio/speech"; js "/v1/audio/transcriptions";
     js "/v1/audio/translations"; js "/v1/realtime"].

Definition createClaudeNativeRoutes : list jsval :=
  [native_route apiKeyHeaderAuth (js "/v1/messages")].

Definition createGeminiNativeRoutes : list jsval :=
  map (native_route geminiQueryAuth)
    [js "/v1beta/models/{model}:generateContent"; js "/v1beta/models/{model}:embedContent";
     js "/v1beta/models/{model}:batchEmbedContents"].

Definition createGatewayNativeRoutes : list jsval :=
  map (native_route bearerHeaderAuth) [js "/v1/alpha/search"; js "/v1/rerank"].

(** A configuration with the given routes. *)
Definition config_of (routes : list jsval) : jsval := JObj [(js "advanced_routes", JArr routes)].

(** Value, label and configuration. *)
Definition ADVANCED_CUSTOM_TEMPLATE_OPTIONS : list (jsstr * jsstr * jsval) :=
  [ (js "all_protocols", js "All routes",
     config_of (createOpenAINativeRoutes ++ createClaudeNativeRoutes
                ++ createGeminiNativeRoutes ++ createGatewayNativeRoutes));
    (js "openai_only", js "OpenAI only", config_of createOpenAINativeRoutes);
    (js "claude_only", js "Claude only", config_of createClaudeNativeRoutes);
    (js "gemini_only", js "Gemini only", config_of createGeminiNativeRoutes) ].

(** [cloneAdvancedCustomConfig] copies: a value here. *)
Definition getAdvancedCustomTemplateConfig (templateKey : jsstr) : jsval :=
  match find (fun option => option.1.1 === templateKey) ADVANCED_CUSTOM_TEMPLATE_OPTIONS,
        ADVANCED_CUSTOM_TEMPLATE_OPTIONS with
  | Some option, _ => option.2
  | None, first :: _ => first.2
  | None, [] => JUndefined
  end.

(** ** Normalisation *)

Definition getAdvancedCustomRouteUpstreamPath (route : jsval) : outcome type_error jsstr :=
  let? path := get_field route (js "upstream_path") in str_trim (js_or path (JStr [])).

Definition normalizeAdvancedCustomRouteModels (models : jsval) : outcome type_error (list jsstr) :=
  match models with
  | JArr ms => let? names := omapM str_trim ms in Ret (List.filter nonempty names)
  | _ => Ret []
  end.

(** The fields of a normalised route; models and authentication only when present. *)
Definition route_value (incoming : jsval) (upstream : jsstr) (converter : jsval)
    (models : list jsstr) (auth : option jsval) : jsval :=
  JObj ([(js "incoming_path", incoming); (js "upstream_path", JStr upstream);
         (js "converter", converter)]
        ++ (match models with [] => [] | _ => [(js "models", JArr (map JStr models))] end)
        ++ (match auth with None => [] | Some a => [(js "auth", a)] end)).

Definition normalize_auth (auth : jsval) : option jsval :=
  if truthy auth then
    Some (JObj [(js "type", prop auth (js "type"));
                (js "name", js_or (prop auth (js "name")) (JStr []));
                (js "value", js_or (prop auth (js "value")) (JStr []))])
  else None.

Definition normalizeAdvancedCustomRoute (route : jsval) : outcome type_error jsval :=
  let? incoming := get_field route (js "incoming_path") in
  let? upstream := getAdvancedCustomRouteUpstreamPath route in
  let? converter := get_field route (js "converter") in
  let? models_ := get_field route (js "models") in
  let? models := normalizeAdvancedCustomRouteModels models_ in
  let? auth := get_field route (js "auth") in
  Ret (route_value (js_or incoming (JStr [])) upstream (js_or converter (JStr (js "none")))
         models (normalize_auth auth)).

(** The routes of the normalised configuration. *)
Definition normalized_routes (config : jsval) : outcome type_error (list jsval) :=
  let? routes := get_field config (js "advanced_routes") in
  match routes with
  | JArr rs => omapM normalizeAdvancedCustomRoute rs
  | _ => Ret []
  end.

Definition normalizeAdvancedCustomConfig (config : jsval) : outcome type_error jsval :=
  let? routes := normalized_routes config in Ret (config_of routes).

(** [None] is [null]; every exception inside the [try] gives [null]. *)
Definition parseAdvancedCustomConfig (value : option jsstr) : option jsval :=
  match value with
  | None => None
  | Some text =>
      if negb (nonempty (trim text)) then None
      else
        match json_parse text with
        | Some parsed =>
            if negb (truthy parsed) || negb (is_typeof_object parsed) || is_array parsed then None
            else match normalizeAdvancedCustomConfig parsed with
                 | Ret config => Some config
                 | _ => None
                 end
        | None => None
        end
  end.

Definition parseAdvancedCustomRouteModels (value : jsstr) : list jsstr :=
  dedupe (List.filter nonempty (map trim (split (ch ",") value))).

Definition is_regex_rule (modelRule : jsstr) : bool :=
  starts_with ADVANCED_CUSTOM_MODEL_REGEX_PREFIX modelRule.

Definition getAdvancedCustomRegexModelPattern (modelRule : jsstr) : jsstr :=
  drop (length ADVANCED_CUSTOM_MODEL_REGEX_PREFIX) modelRule.

(** ** Management routes *)

Definition isAdvancedCustomManagementPath (path : jsstr) : bool :=
  (path === ADVANCED_CUSTOM_MODEL_LIST_PATH) || (path === ADVANCED_CUSTOM_BALANCE_PATH).

(** [route.incoming_path?.trim()] of a normalised route *)
Definition incoming_of (route : jsval) : outcome type_error jsstr :=
  trim_or_empty (prop route (js "incoming_path")).

(** [routes.findIndex(p)] for a test that may throw. *)
Fixpoint find_index (p : jsval -> outcome type_error bool) (routes : list jsval)
    : outcome type_error (option nat) :=
  match routes with
  | [] => Ret None
  | r :: routes' =>
      let? hit := p r in
      if hit then Ret (Some 0%nat)
      else let? i := find_index p routes' in Ret (S <$> i)
  end.

Fixpoint filterM (p : jsval -> outcome type_error bool) (routes : list jsval)
    : outcome type_error (list jsval) :=
  match routes with
  | [] => Ret []
  | r :: routes' =>
      let? keep := p r in
      let? rest := filterM p routes' in
      Ret (if keep then r :: rest else rest)
  end.

Definition has_path (path : jsstr) (route : jsval) : outcome type_error bool :=
  let? incoming := incoming_of route in Ret (incoming === path).

Definition is_management (route : jsval) : outcome type_error bool :=
  let? incoming := incoming_of route in Ret (isAdvancedCustomManagementPath incoming).

Definition getAdvancedCustomManagementRoute (config : jsval) (path : jsstr)
    : outcome type_error (option jsval) :=
  let? routes := normalized_routes config in
  let? index := find_index (has_path path) routes in
  Ret (i ← index; routes !! i).

Definition management_route (path : jsstr) (route : jsval) : jsval :=
  JObj [text_field "incoming_path" path;
        (js "upstream_path", js_or (prop route (js "upstream_path")) (JStr []));
        text_field "converter" (js "none"); (js "models", JArr []);
        (js "auth", prop route (js "auth"))].

(** [None] for the route is [null], which removes. *)
Definition replaceAdvancedCustomManagementRoute (config : jsval) (path : jsstr) (route : option jsval)
    : outcome type_error jsval :=
  let? routes := normalized_routes config in
  let? index := find_index (has_path path) routes in
  Ret (config_of
         match route, index with
         | None, None => routes
         | None, Some i => take i routes ++ drop (i + 1) routes
         | Some r, None => routes ++ [management_route path r]
         | Some r, Some i => <[i := management_route path r]> routes
         end).

Definition replaceAdvancedCustomForwardingRoutes (config : jsval) (forwardingRoutes : list jsval)
    : outcome type_error jsval :=
  let? routes := normalized_routes config in
  let? firstForwardingIndex :=
    find_index (fun r => let? m := is_management r in Ret (negb m)) routes in
  let? managementRoutes := filterM is_management routes in
  match firstForwardingIndex with
  | None => Ret (config_of (managementRoutes ++ forwardingRoutes))
  | Some i =>
      let? before := filterM is_management (take i routes) in
      let? after := filterM is_management (drop i routes) in
      Ret (config_of (before ++ forwardingRoutes ++ after))
  end.

Definition createAdvancedCustomRoute : jsval :=
  JObj [text_field "incoming_path" openAIChatPath; text_field "upstream_path" openAIChatPath;
        text_field "converter" (js "none")].

Definition createAdvancedCustomConfig : jsval := config_of [createAdvancedCustomRoute].

Definition createAdvancedCustomManagementRoute (path : jsstr) : jsval :=
  JObj [text_field "incoming_path" path; text_field "upstream_path" path;
        text_field "converter" (js "none"); (js "models", JArr [])].

(** ** Validation *)

Record AdvancedCustomValidationError := { message : jsstr; routeIndex : option nat }.

(** What the loop remembers of one incoming path. *)
Record path_rules := { catchAllIndex : option nat; rule_models : list (jsstr * nat) }.

Definition no_rules : path_rules := {| catchAllIndex := None; rule_models := [] |}.

(** The loop over the models of a route. *)
Fixpoint check_models (index : nat) (seenInRoute : list jsstr) (models : list jsstr)
    (seen : list (jsstr * nat)) : jsstr + list (jsstr * nat) :=
  match models with
  | [] => inr seen
  | model :: rest =>
      if is_regex_rule model && (getAdvancedCustomRegexModelPattern model === []) then
        inl (js "Model regex cannot be empty")
      else if includes_str seenInRoute model then inl (js "Duplicate model in route models")
      else if has_key seen model then
        inl (js "Route models must be unique for the same incoming path")
      else check_models index (seenInRoute ++ [model]) rest (seen ++ [(model, index)])
  end.

Definition validateAdvancedCustomRouteModels (index : nat) (incomingPath : jsstr)
    (models : list jsstr) (routeModelsByPath : list (jsstr * path_rules))
    : jsstr + list (jsstr * path_rules) :=
  let state := default no_rules (assoc routeModelsByPath incomingPath) in
  let remember s :=
    if has_key routeModelsByPath incomingPath then replace_field routeModelsByPath incomingPath s
    else routeModelsByPath ++ [(incomingPath, s)] in
  match models with
  | [] =>
      match catchAllIndex state with
      | Some _ => inl (js "Only one catch-all route is allowed for the same incoming path")
      | None => inr (remember {| catchAllIndex := Some index; rule_models := rule_models state |})
      end
  | _ =>
      match catchAllIndex state with
      | Some _ => inl (js "Catch-all route must be last for the same incoming path")
      | None =>
          match check_models index [] models (rule_models state) with
          | inl m => inl m
          | inr seen => inr (remember {| catchAllIndex := None; rule_models := seen |})
          end
      end
  end.

Definition validateRouteAuth (auth : jsval) : outcome type_error (option jsstr) :=
  if negb (truthy auth) then Ret None
  else if strict_eq (prop auth (js "type")) (JStr (js "none")) then Ret None
  else if negb (strict_eq (prop auth (js "type")) (JStr (js "header")))
          && negb (strict_eq (prop auth (js "type")) (JStr (js "query"))) then
    Ret (Some (js "Auth type is invalid"))
  else
    let? name := trim_or_empty (prop auth (js "name")) in
    if negb (nonempty name) then Ret (Some (js "Auth name is required"))
    else
      let? value := trim_or_empty (prop auth (js "value")) in
      if negb (nonempty value) then Ret (Some (js "Auth value is required")) else Ret None.

Record loop_state := {
  byPath : list (jsstr * path_rules);
  modelListRouteIndex : option nat;
  balanceRouteIndex : option nat
}.

Section Validation.
(** [new URL(value)]: the host and the protocol, [None] when it throws. *)
Context (parse_url : jsstr -> option (jsstr * jsstr)).

Definition isFullHttpURLOrAbsolutePath (value : jsstr) : bool :=
  if starts_with (js "/") value then negb (starts_with (js "//") value)
  else
    match parse_url value with
    | Some (host, protocol) =>
        nonempty host && ((protocol === js "http:") || (protocol === js "https:"))
    | None => false
    end.

(** The checks of a management route; [inl] is the error's message. *)
Definition check_management (index : nat) (incomingPath upstreamPath : jsstr) (converter : jsval)
    (routeModels : list jsstr) (s : loop_state) : jsstr + loop_state :=
  let isModelListRoute := incomingPath === ADVANCED_CUSTOM_MODEL_LIST_PATH in
  let existingIndex := if isModelListRoute then modelListRouteIndex s else balanceRouteIndex s in
  let routeLabel := if isModelListRoute then js "OpenAI Models" else js "Balance Query" in
  match existingIndex with
  | Some _ => inl (js "Only one " ++ routeLabel ++ js " route is allowed")
  | None =>
      if (0 <? length routeModels)%nat then
        inl (routeLabel ++ js " route does not support client model rules")
      else if negb (is_converter converter "none") then
        inl (routeLabel ++ js " route must use native forwarding")
      else if includes (js "{model}") upstreamPath then
        inl (routeLabel ++ js " upstream path must not contain {model}")
      else
        inr {| byPath := byPath s;
               modelListRouteIndex := if isModelListRoute then Some index else modelListRouteIndex s;
               balanceRouteIndex := if isModelListRoute then balanceRouteIndex s else Some index |}
  end.

(** One turn of the loop. *)
Definition check_route (index : nat) (route : jsval) (s : loop_state)
    : outcome type_error (jsstr + loop_state) :=
  let? incomingPath := incoming_of route in
  let? upstreamPath := getAdvancedCustomRouteUpstreamPath route in
  let converter := js_or (prop route (js "converter")) (JStr (js "none")) in
  let? routeModels := normalizeAdvancedCustomRouteModels (prop route (js "models")) in
  if negb (nonempty incomingPath) then Ret (inl (js "Incoming path is required"))
  else if negb (starts_with (js "/") incomingPath) then
    Ret (inl (js "Incoming path must start with /"))
  else if includes (js "?") incomingPath then
    Ret (inl (js "Incoming path must not include query"))
  else
    let managed :=
      if isAdvancedCustomManagementPath incomingPath
      then check_management index incomingPath upstreamPath converter routeModels s
      else inr s in
    match managed with
    | inl m => Ret (inl m)
    | inr s =>
        match validateAdvancedCustomRouteModels index incomingPath routeModels (byPath s) with
        | inl m => Ret (inl m)
        | inr rules =>
            if negb (nonempty upstreamPath) then Ret (inl (js "Upstream path is required"))
            else if negb (isFullHttpURLOrAbsolutePath upstreamPath) then
              Ret (inl (js "Upstream path must be a full URL or a path starting with /"))
            else if negb (isAdvancedCustomConverter converter) then
              Ret (inl (js "Converter is not registered"))
            else if negb (isConverterPathAllowed incomingPath converter) then
              Ret (inl (js "Converter does not match incoming path"))
            else
              let? authError := validateRouteAuth (prop route (js "auth")) in
              match authError with
              | Some m => Ret (inl m)
              | None => Ret (inr {| byPath := rules; modelListRouteIndex := modelListRouteIndex s;
                                    balanceRouteIndex := balanceRouteIndex s |})
              end
        end
    end.

Fixpoint check_routes (index : nat) (routes : list jsval) (s : loop_state)
    : outcome type_error (option AdvancedCustomValidationError) :=
  match routes with
  | [] => Ret None
  | route :: rest =>
      let? checked := check_route index route s in
      match checked with
      | inl m => Ret (Some {| message := m; routeIndex := Some index |})
      | inr s => check_routes (S index) rest s
      end
  end.

Definition initial_loop : loop_state :=
  {| byPath := []; modelListRouteIndex := None; balanceRouteIndex := None |}.

Definition validateAdvancedCustomConfig (config : option jsval)
    : outcome type_error (option AdvancedCustomValidationError) :=
  match config with
  | None =>
      Ret (Some {| message := js "Advanced custom configuration is required"; routeIndex := None |})
  | Some config =>
      let? routes := normalized_routes config in
      match routes with
      | [] => Ret (Some {| message := js "Advanced custom configuration requires at least one route";
                           routeIndex := None |})
      | _ => check_routes 0 routes initial_loop
      end
  end.

Definition hasValidAdvancedCustomModelListRoute (config : option jsval) : outcome type_error bool :=
  match config with
  | None => Ret false
  | Some c =>
      let? error := validateAdvancedCustomConfig (Some c) in
      match error with
      | Some _ => Ret false
      | None =>
          let? routes := normalized_routes c in
          let? index := find_index (has_path ADVANCED_CUSTOM_MODEL_LIST_PATH) routes in
          Ret (match index with Some _ => true | None => false end)
      end
  end.

Definition advancedCustomConfigUsesRelativeUpstreamPath (config : option jsval)
    : outcome type_error bool :=
  match config with
  | None => Ret false
  | Some c =>
      let? routes := normalized_routes c in
      let? index := find_index
        (fun r => let? path := getAdvancedCustomRouteUpstreamPath r in Ret (starts_with (js "/") path))
        routes in
      Ret (match index with Some _ => true | None => false end)
  end.

Definition getAdvancedCustomRouteSummaryLabel (route : jsval) : outcome type_error (option jsstr) :=
  let? incomingPath := incoming_of route in
  if negb (nonempty incomingPath) then Ret None
  else Ret (Some (match assoc ADVANCED_CUSTOM_ROUTE_SUMMARY_LABELS incomingPath with
                  | Some label => label
                  | None => getAdvancedCustomIncomingPathLabel incomingPath
                  end)).

Record config_stats := { routeCount : nat; valid : bool; routeTypeLabels : list jsstr }.

(** The labels in order, without the missing, empty and repeated ones. *)
Definition summary_labels (labels : list (option jsstr)) : list jsstr :=
  dedupe (List.filter nonempty (omap id labels)).

Definition getAdvancedCustomStats (value : option jsstr) : outcome type_error config_stats :=
  match parseAdvancedCustomConfig value with
  | None => Ret {| routeCount := 0; valid := false; routeTypeLabels := [] |}
  | Some config =>
      let? routes := normalized_routes config in
      let? labels := omapM getAdvancedCustomRouteSummaryLabel routes in
      let? error := validateAdvancedCustomConfig (Some (config_of routes)) in
      Ret {| routeCount := length routes;
             valid := match error with None => true | Some _ => false end;
             routeTypeLabels := summary_labels labels |}
  end.
End Validation.

(** ** Validity of a list of routes *)

(** The fields the validation reads of a normalised route. *)
Record route_view := {
  v_incoming : jsstr;
  v_upstream : jsstr;
  v_converter : jsval;
  v_models : list jsstr;
  v_auth : jsval
}.

Definition view_route (route : jsval) : outcome type_error route_view :=
  let? incoming := incoming_of route in
  let? upstream := getAdvancedCustomRouteUpstreamPath route in
  let? models := normalizeAdvancedCustomRouteModels (prop route (js "models")) in
  Ret {| v_incoming := incoming; v_upstream := upstream;
         v_converter := js_or (prop route (js "converter")) (JStr (js "none"));
         v_models := models; v_auth := prop route (js "auth") |}.

(** A text that is not blank. *)
Definition filled (v : jsval) : Prop := exists s, v = JStr s /\ trim s <> [].

Definition auth_ok (auth : jsval) : Prop :=
  truthy auth = false
  \/ prop auth (js "type") = JStr (js "none")
  \/ ((prop auth (js "type") = JStr (js "header") \/ prop auth (js "type") = JStr (js "query"))
      /\ filled (prop auth (js "name")) /\ filled (prop auth (js "value"))).

Definition rules_ok (models : list jsstr) : Prop :=
  NoDup models /\ ADVANCED_CUSTOM_MODEL_REGEX_PREFIX ∉ models.

(** A management route takes no model rule, is native and has a fixed upstream. *)
Definition management_ok (v : route_view) : Prop :=
  isAdvancedCustomManagementPath (v_incoming v) = true ->
  v_models v = [] /\ v_converter v = JStr (js "none")
  /\ includes (js "{model}") (v_upstream v) = false.

Definition path_ok (path : jsstr) : Prop :=
  starts_with (js "/") path = true /\ ch "?" ∉ path.

(** Two routes of the same path, in this order: the first one names its models,
    and the second one none of them. *)
Definition compatible (v w : route_view) : Prop :=
  v_incoming v = v_incoming w -> v_models v <> [] /\ v_models v ## v_models w.

Section Valid_routes.
Context (parse_url : jsstr -> option (jsstr * jsstr)).

Definition view_ok (v : route_view) : Prop :=
  path_ok (v_incoming v) /\ management_ok v /\ rules_ok (v_models v)
  /\ v_upstream v <> [] /\ isFullHttpURLOrAbsolutePath parse_url (v_upstream v) = true
  /\ isAdvancedCustomConverter (v_converter v) = true
  /\ isConverterPathAllowed (v_incoming v) (v_converter v) = true
  /\ auth_ok (v_auth v).

Definition routes_ok (vs : list route_view) : Prop :=
  Forall view_ok vs /\ ForallOrdPairs compatible vs.

(** *** One route *)

Lemma trim_or_empty_filled v :
  match trim_or_empty v with
  | Ret s => nonempty s = true <-> filled v
  | Throw _ => ~ filled v
  | OutOfFuel => False
  end.
Proof.
  unfold trim_or_empty, filled. destruct v; cbn;
    first [ naive_solver
          | split; [intros H; eexists; split; [done|]; by destruct (trim _)
                   |intros (? & [= ->] & ?); by destruct (trim _)] ].
Qed.

Lemma validateRouteAuth_spec auth :
  match validateRouteAuth auth with
  | Ret None => auth_ok auth
  | OutOfFuel => False
  | _ => ~ auth_ok auth
  end.
Proof.
  unfold validateRouteAuth, auth_ok.
  destruct (truthy auth) eqn:Ht; cbn; [|by left].
  destruct (strict_eq _ (JStr (js "none"))) eqn:Hn; cbn.
  { apply strict_eq_str in Hn. auto. }
  assert (prop auth (js "type") <> JStr (js "none")) by (rewrite <- strict_eq_str; congruence).
  destruct (negb (strict_eq _ (JStr (js "header"))) && _) eqn:Hhq; cbn.
  { apply andb_prop in Hhq as [Hh Hq]. apply negb_true_iff in Hh, Hq.
    intros [?|[?|[[E|E] _]]]; [done|done| |]; apply strict_eq_str in E; congruence. }
  assert (prop auth (js "type") = JStr (js "header") \/ prop auth (js "type") = JStr (js "query")).
  { rewrite <- !strict_eq_str. apply andb_false_iff in Hhq.
    rewrite !negb_false_iff in Hhq. done. }
  pose proof (trim_or_empty_filled (prop auth (js "name"))) as Hname.
  destruct (trim_or_empty (prop auth (js "name"))) as [name|e|]; cbn; [|intuition congruence..].
  destruct (nonempty name); cbn; [|intuition congruence].
  pose proof (trim_or_empty_filled (prop auth (js "value"))) as Hvalue.
  destruct (trim_or_empty (prop auth (js "value"))) as [value|e|]; cbn; [|intuition congruence..].
  destruct (nonempty value); cbn; intuition congruence.
Qed.

(** *** The models of a path *)

Definition is_empty_rule (m : jsstr) : bool :=
  is_regex_rule m && (getAdvancedCustomRegexModelPattern m === []).

Lemma is_empty_rule_spec m :
  is_empty_rule m = true <-> m = ADVANCED_CUSTOM_MODEL_REGEX_PREFIX.
Proof.
  unfold is_empty_rule, is_regex_rule, getAdvancedCustomRegexModelPattern.
  rewrite andb_true_iff, str_eqb_eq, starts_with_spec. split.
  - intros [[t ->] Hd]. rewrite drop_app_length in Hd. subst. by rewrite app_nil_r.
  - intros ->. split; [by exists []|done].
Qed.

(** The models are accepted exactly when they satisfy the rules and none is
    remembered; then they are remembered. *)
Lemma check_models_spec index models : forall seenInRoute seen,
  match check_models index seenInRoute models seen with
  | inr seen' =>
      (rules_ok models /\ models ## seenInRoute /\ models ## seen.*1)
      /\ seen' = seen ++ map (fun m => (m, index)) models
  | inl _ => ~ (rules_ok models /\ models ## seenInRoute /\ models ## seen.*1)
  end.
Proof.
  unfold rules_ok.
  induction models as [|m models IH]; intros seenInRoute seen; cbn -[is_regex_rule].
  { rewrite app_nil_r. repeat split; try constructor; set_solver. }
  fold (is_empty_rule m).
  destruct (is_empty_rule m) eqn:Hrx.
  { apply is_empty_rule_spec in Hrx as ->. set_solver. }
  assert (m <> ADVANCED_CUSTOM_MODEL_REGEX_PREFIX) by (rewrite <- is_empty_rule_spec; congruence).
  destruct (includes_str seenInRoute m) eqn:Hseen.
  { apply includes_str_spec in Hseen. set_solver. }
  apply includes_str_false in Hseen.
  destruct (has_key seen m) eqn:Hkey.
  { apply has_key_spec in Hkey. set_solver. }
  assert (m ∉ seen.*1) by (rewrite <- has_key_spec; congruence).
  specialize (IH (seenInRoute ++ [m]) (seen ++ [(m, index)])).
  destruct (check_models _ _ _ _) as [e|seen'].
  - contradict IH. rewrite NoDup_cons in IH. rewrite fmap_app. cbn. set_solver.
  - destruct IH as [Hok ->]. rewrite <- app_assoc. split; [|done].
    rewrite fmap_app in Hok. cbn in Hok. rewrite NoDup_cons. set_solver.
Qed.

(** *** What the loop remembers of the routes before *)

Definition path_remembers (done : list route_view) (p : jsstr) (rules : path_rules) : Prop :=
  (catchAllIndex rules <> None <-> exists v, v ∈ done /\ v_incoming v = p /\ v_models v = [])
  /\ forall m, m ∈ (rule_models rules).*1
               <-> exists v, v ∈ done /\ v_incoming v = p /\ m ∈ v_models v.

Definition rules_at (by_path : list (jsstr * path_rules)) (p : jsstr) : path_rules :=
  default no_rules (assoc by_path p).

Definition paths_remembered (done : list route_view) (by_path : list (jsstr * path_rules)) : Prop :=
  forall p, path_remembers done p (rules_at by_path p).

Definition remembers (done : list route_view) (s : loop_state) : Prop :=
  paths_remembered done (byPath s)
  /\ (modelListRouteIndex s <> None <-> ADVANCED_CUSTOM_MODEL_LIST_PATH ∈ map v_incoming done)
  /\ (balanceRouteIndex s <> None <-> ADVANCED_CUSTOM_BALANCE_PATH ∈ map v_incoming done).

Lemma rules_at_remember by_path p rules p' :
  rules_at (if has_key by_path p then replace_field by_path p rules else by_path ++ [(p, rules)]) p'
  = if p === p' then rules else rules_at by_path p'.
Proof.
  unfold rules_at. destruct (has_key by_path p) eqn:Hk.
  - rewrite assoc_replace_field, Hk. by destruct (p === p').
  - rewrite assoc_app, assoc_cons. unfold has_key in Hk.
    destruct (str_eqb_spec p p') as [->|]; [by destruct (assoc by_path p')|].
    by destruct (assoc by_path p').
Qed.

(** A path that is not the new route's is remembered as before. *)
Lemma path_remembers_other done v p rules :
  v_incoming v <> p -> path_remembers done p rules -> path_remembers (done ++ [v]) p rules.
Proof.
  intros Hne [Hc Hm]. split.
  - rewrite Hc. split; intros (w & Hw & ? & ?); exists w; set_solver.
  - intros m. rewrite Hm. split; intros (w & Hw & ? & ?); exists w; set_solver.
Qed.

Definition compatible_after (done : list route_view) (v : route_view) : Prop :=
  forall d, d ∈ done -> compatible d v.

Lemma validateRouteModels_spec index done v by_path :
  paths_remembered done by_path ->
  match validateAdvancedCustomRouteModels index (v_incoming v) (v_models v) by_path with
  | inr by_path' =>
      rules_ok (v_models v) /\ compatible_after done v /\ paths_remembered (done ++ [v]) by_path'
  | inl _ => ~ (rules_ok (v_models v) /\ compatible_after done v)
  end.
Proof.
  intros Hinv. pose proof (Hinv (v_incoming v)) as [Hc Hm].
  unfold validateAdvancedCustomRouteModels, compatible_after. fold (rules_at by_path (v_incoming v)).
  assert (Hcatch : catchAllIndex (rules_at by_path (v_incoming v)) <> None ->
                   ~ forall d, d ∈ done -> compatible d v).
  { intros (d & Hd & Hp & Hnil)%Hc Hall. by destruct (Hall d Hd Hp). }
  destruct (catchAllIndex (rules_at by_path (v_incoming v))) as [c|] eqn:Hci.
  { destruct (v_models v); intros [_ Hall]; by apply Hcatch. }
  assert (Hnone : forall d, d ∈ done -> v_incoming d = v_incoming v -> v_models d <> []).
  { intros d Hd Hp Hnil. destruct Hc as [_ Hc]. by apply Hc; [exists d|]. }
  destruct (v_models v) as [|m ms] eqn:Hms.
  - split; [split; [constructor|set_solver]|]. split.
    { intros d Hd Hp. rewrite Hms. split; [by apply Hnone|set_solver]. }
    intros p. rewrite rules_at_remember. destruct (str_eqb_spec (v_incoming v) p) as [<-|Hne].
    + split; cbn.
      * split; [intros _; exists v; set_solver|done].
      * intros m. rewrite Hm. split; intros (w & Hw & Hp & Hin); exists w; [set_solver|].
        rewrite elem_of_app, list_elem_of_singleton in Hw.
        destruct Hw as [Hw| ->]; [done|]. rewrite Hms in Hin. set_solver.
    + by apply path_remembers_other.
  - rewrite <- Hms. pose proof (check_models_spec index (v_models v) []
                       (rule_models (rules_at by_path (v_incoming v)))) as Hcheck.
    assert (Hdis : (v_models v ## (rule_models (rules_at by_path (v_incoming v))).*1)
                   <-> forall d, d ∈ done -> compatible d v).
    { split.
      - intros Hd d Hdin Hp. split; [by apply Hnone|].
        intros x Hx1 Hx2. apply (Hd x Hx2), Hm. by exists d.
      - intros Hall x Hx (d & Hdin & Hp & Hxd)%Hm. by destruct (Hall d Hdin Hp) as [_ Hd]; apply (Hd x). }
    destruct (check_models _ _ _ _) as [e|seen].
    + rewrite Hdis in Hcheck. contradict Hcheck. set_solver.
    + rewrite Hdis in Hcheck. destruct Hcheck as [(? & _ & ?) ->]. split; [done|]. split; [done|].
      intros p. rewrite rules_at_remember. destruct (str_eqb_spec (v_incoming v) p) as [<-|Hne].
      * split; cbn.
        -- split; [done|]. intros (w & Hw & Hp & Hnil).
           rewrite elem_of_app, list_elem_of_singleton in Hw.
           destruct Hw as [Hw| ->]; [by apply Hnone in Hnil|congruence].
        -- intros x. rewrite fmap_app, elem_of_app, Hm, map_map. cbn. rewrite map_id.
           split; [intros [(w & ? & ? & ?)|?]; [exists w|exists v]; set_solver|].
           intros (w & Hw & Hp & Hin). rewrite elem_of_app, list_elem_of_singleton in Hw.
           destruct Hw as [Hw| ->]; [left; by exists w|by right].
      * by apply path_remembers_other.
Qed.

(** *** One turn of the loop *)

(** The checks of the loop, in the order of the code, on a read route. *)
Definition fine (done : list route_view) (v : route_view) : Prop :=
  view_ok v /\ compatible_after done v.

Lemma remembers_index (remembered : option nat) path done v :
  (remembered <> None <-> path ∈ map v_incoming done) -> v_incoming v <> path ->
  (remembered <> None <-> path ∈ map v_incoming (done ++ [v])).
Proof. intros -> ?. rewrite map_app. cbn. set_solver. Qed.

Lemma management_path_cases p :
  isAdvancedCustomManagementPath p = true ->
  p = ADVANCED_CUSTOM_MODEL_LIST_PATH
  \/ (p = ADVANCED_CUSTOM_BALANCE_PATH /\ p <> ADVANCED_CUSTOM_MODEL_LIST_PATH).
Proof.
  unfold isAdvancedCustomManagementPath. rewrite orb_true_iff, !str_eqb_eq.
  intros [->| ->]; [by left|by right].
Qed.

(** The indices of the management routes after a route. *)
Definition indices_remembered (done : list route_view) (s : loop_state) : Prop :=
  (modelListRouteIndex s <> None <-> ADVANCED_CUSTOM_MODEL_LIST_PATH ∈ map v_incoming done)
  /\ (balanceRouteIndex s <> None <-> ADVANCED_CUSTOM_BALANCE_PATH ∈ map v_incoming done).

(** A second route of a management path is not compatible with the first. *)
Lemma management_once done v :
  Forall view_ok done -> isAdvancedCustomManagementPath (v_incoming v) = true ->
  v_incoming v ∈ map v_incoming done -> ~ compatible_after done v.
Proof.
  rewrite Forall_forall. intros Hok Hm (d & Heq & Hd)%list_elem_of_fmap Hall.
  destruct (Hall d Hd (eq_sym Heq)) as [Hne _]. destruct (Hok d Hd) as (_ & Hman & _).
  rewrite Heq in Hm. by destruct (Hman Hm).
Qed.

Definition existing_index (is_list : bool) (s : loop_state) : option nat :=
  if is_list then modelListRouteIndex s else balanceRouteIndex s.

Definition remember_index (is_list : bool) (index : nat) (s : loop_state) : loop_state :=
  {| byPath := byPath s;
     modelListRouteIndex := if is_list then Some index else modelListRouteIndex s;
     balanceRouteIndex := if is_list then balanceRouteIndex s else Some index |}.

Lemma existing_index_spec done s path :
  indices_remembered done s -> isAdvancedCustomManagementPath path = true ->
  existing_index (path === ADVANCED_CUSTOM_MODEL_LIST_PATH) s <> None
  <-> path ∈ map v_incoming done.
Proof.
  intros [Hlist Hbal] Hm. destruct (str_eqb_spec path ADVANCED_CUSTOM_MODEL_LIST_PATH) as [->|].
  - done.
  - destruct (management_path_cases _ Hm) as [?|[-> _]]; done.
Qed.

Lemma remember_index_spec index done v s :
  indices_remembered done s -> isAdvancedCustomManagementPath (v_incoming v) = true ->
  indices_remembered (done ++ [v])
    (remember_index (v_incoming v === ADVANCED_CUSTOM_MODEL_LIST_PATH) index s).
Proof.
  intros [Hlist Hbal] Hm.
  assert (Hin : v_incoming v ∈ map v_incoming (done ++ [v])).
  { rewrite map_app, elem_of_app. right. apply list_elem_of_here. }
  destruct (str_eqb_spec (v_incoming v) ADVANCED_CUSTOM_MODEL_LIST_PATH) as [Hp|Hne].
  - rewrite Hp in Hin. split; [done|].
    apply remembers_index; [done|rewrite Hp; discriminate].
  - destruct (management_path_cases _ Hm) as [|[Hp _]]; [done|]. rewrite Hp in Hin.
    split; [by apply remembers_index|done].
Qed.

Lemma check_management_spec index done v s :
  Forall view_ok done -> isAdvancedCustomManagementPath (v_incoming v) = true ->
  indices_remembered done s ->
  match check_management index (v_incoming v) (v_upstream v) (v_converter v) (v_models v) s with
  | inr s' => management_ok v /\ byPath s' = byPath s /\ indices_remembered (done ++ [v]) s'
  | inl _ => ~ (management_ok v /\ compatible_after done v)
  end.
Proof.
  intros Hok Hm Hidx. pose proof (remember_index_spec index done v s Hidx Hm) as Hnext.
  pose proof (management_once done v Hok Hm) as Honce.
  rewrite <- (existing_index_spec done s) in Honce by done.
  unfold check_management. revert Hnext Honce. unfold existing_index, remember_index.
  set (is_list := v_incoming v === ADVANCED_CUSTOM_MODEL_LIST_PATH). intros Hnext Honce.
  destruct (if is_list then modelListRouteIndex s else balanceRouteIndex s); [intros [_ Hc]; by apply Honce|].
  unfold management_ok.
  case Nat.ltb_spec; intros Hlen.
  { intros [Hman _]. destruct (Hman Hm) as [Hnil _]. rewrite Hnil in Hlen. cbn in Hlen. lia. }
  assert (v_models v = []) by (destruct (v_models v); cbn in Hlen; [done|lia]).
  unfold is_converter. destruct (strict_eq _ _) eqn:Hconv; cbn;
    [apply strict_eq_str in Hconv
    |intros [Hman _]; destruct (Hman Hm) as (_ & Hc & _); apply strict_eq_str in Hc; congruence].
  destruct (includes (js "{model}") (v_upstream v)) eqn:Hinc; [|done].
  intros [Hman _]. by destruct (Hman Hm) as (_ & _ & ?).
Qed.

Lemma view_route_inv r v :
  view_route r = Ret v ->
  incoming_of r = Ret (v_incoming v)
  /\ getAdvancedCustomRouteUpstreamPath r = Ret (v_upstream v)
  /\ normalizeAdvancedCustomRouteModels (prop r (js "models")) = Ret (v_models v)
  /\ js_or (prop r (js "converter")) (JStr (js "none")) = v_converter v
  /\ prop r (js "auth") = v_auth v.
Proof.
  unfold view_route. intros (i & Hi & H)%obind_Ret_inv.
  apply obind_Ret_inv in H as (u & Hu & H). apply obind_Ret_inv in H as (m & Hm & H).
  injection H as <-. done.
Qed.

Lemma includes_single c s : includes [c] s = true <-> c ∈ s.
Proof.
  unfold includes. induction s as [|c' s IH]; cbn.
  - split; [done|]. intros H. inversion H.
  - rewrite elem_of_cons. destruct (N.eqb_spec c c') as [->|Hne]; cbn; [by split; [left|]|].
    destruct (index_of [c] s); cbn; rewrite <- IH; naive_solver.
Qed.

(** The turn accepts exactly the routes that are fine after the ones before. *)
Lemma check_route_spec index done r v s :
  Forall view_ok done -> remembers done s -> view_route r = Ret v ->
  match check_route parse_url index r s with
  | Ret (inr s') => fine done v /\ remembers (done ++ [v]) s'
  | OutOfFuel => False
  | _ => ~ fine done v
  end.
Proof.
  intros Hok [Hpaths Hidx] (Hi & Hu & Hm & Hc & Ha)%view_route_inv.
  unfold check_route. rewrite Hi, Hu, Hm, Hc, Ha. cbn [obind].
  unfold fine, view_ok, path_ok.
  destruct (nonempty (v_incoming v)) eqn:Hne; cbn [negb];
    [|intros [([Hs _] & _) _]; by destruct (v_incoming v)].
  destruct (starts_with (js "/") (v_incoming v)) eqn:Hslash; cbn [negb]; [|intuition congruence].
  destruct (includes (js "?") (v_incoming v)) eqn:Hq.
  { apply (includes_single (ch "?")) in Hq. tauto. }
  assert (ch "?" ∉ v_incoming v) by (rewrite <- includes_single; change [ch "?"] with (js "?"); congruence).
  match goal with |- context [match (if ?b then ?x else ?y) with inl _ => _ | inr _ => _ end] =>
    set (managed := if b then x else y) end.
  assert (Hman : match managed with
                 | inr s' => management_ok v /\ byPath s' = byPath s /\ indices_remembered (done ++ [v]) s'
                 | inl _ => ~ (management_ok v /\ compatible_after done v) end).
  { unfold managed. destruct (isAdvancedCustomManagementPath (v_incoming v)) eqn:Hmp.
    - by apply check_management_spec.
    - unfold management_ok. split; [congruence|]. split; [done|]. destruct Hidx.
      split; apply remembers_index; try done; intros E; rewrite E in Hmp; discriminate. }
  destruct managed as [e|s1]; [intuition auto|]. destruct Hman as (Hman & Hby & Hidx').
  rewrite Hby. pose proof (validateRouteModels_spec index done v (byPath s) Hpaths) as Hrules.
  destruct (validateAdvancedCustomRouteModels _ _ _ _) as [e|by_path]; [intuition auto|].
  destruct Hrules as (Hrules & Hcomp & Hpaths').
  destruct (nonempty (v_upstream v)) eqn:Hup; cbn [negb];
    [|intros ((_ & _ & _ & Hnil & _) & _); by destruct (v_upstream v)].
  assert (v_upstream v <> []) by (by destruct (v_upstream v)).
  destruct (isFullHttpURLOrAbsolutePath parse_url (v_upstream v)); cbn [negb]; [|intuition congruence].
  destruct (isAdvancedCustomConverter (v_converter v)); cbn [negb]; [|intuition congruence].
  destruct (isConverterPathAllowed (v_incoming v) (v_converter v)); cbn [negb]; [|intuition congruence].
  pose proof (validateRouteAuth_spec (v_auth v)) as Hauth.
  destruct (validateRouteAuth (v_auth v)) as [[e|]|e|]; cbn; [tauto| |tauto..].
  split; [tauto|]. by destruct Hidx'.
Qed.

Lemma ForallOrdPairs_snoc {A} (R : A -> A -> Prop) xs x :
  ForallOrdPairs R (xs ++ [x]) <-> ForallOrdPairs R xs /\ Forall (fun y => R y x) xs.
Proof.
  induction xs as [|y xs IH]; cbn.
  - split; [split; constructor|]. intros _. repeat constructor.
  - split.
    + intros H. inversion H as [|? ? Hy Hxs]; subst. apply Forall_app in Hy as [Hy Hyx].
      apply IH in Hxs as [??]. inversion Hyx; subst.
      split; constructor; done.
    + intros [H Hx]. inversion H; inversion Hx; subst. constructor; [|by apply IH].
      apply Forall_app. split; [done|]. by constructor.
Qed.

Lemma routes_ok_snoc done v : routes_ok (done ++ [v]) <-> routes_ok done /\ fine done v.
Proof.
  unfold routes_ok, fine, compatible_after. rewrite Forall_app, Forall_singleton, ForallOrdPairs_snoc.
  rewrite !Forall_forall. tauto.
Qed.

(** A longer list is valid only when its beginnings are. *)
Lemma routes_ok_app done vs : routes_ok (done ++ vs) -> routes_ok done.
Proof.
  induction vs as [|v vs IH] using rev_ind; [by rewrite app_nil_r|].
  rewrite app_assoc, routes_ok_snoc. tauto.
Qed.

Lemma check_routes_spec rs : forall done vs s,
  routes_ok done -> remembers done s -> omapM view_route rs = Ret vs ->
  match check_routes parse_url (length done) rs s with
  | Ret None => routes_ok (done ++ vs)
  | Ret (Some e) =>
      exists i, routeIndex e = Some (length done + i)%nat /\ (i < length vs)%nat
                /\ routes_ok (done ++ take i vs) /\ ~ routes_ok (done ++ take (S i) vs)
  | Throw _ => ~ routes_ok (done ++ vs)
  | OutOfFuel => False
  end.
Proof.
  induction rs as [|r rs IH]; intros done vs s Hdone Hs; cbn.
  { intros [= <-]. by rewrite app_nil_r. }
  intros (v & Hv & H)%obind_Ret_inv. apply obind_Ret_inv in H as (vs' & Hvs & [= <-]).
  pose proof (check_route_spec (length done) done r v s (proj1 Hdone) Hs Hv) as Hr.
  assert (Hbad : ~ fine done v -> ~ routes_ok (done ++ v :: vs')).
  { rewrite (app_assoc done [v] vs' : done ++ v :: vs' = _). intros Hf Hall.
    apply routes_ok_app, routes_ok_snoc in Hall. tauto. }
  destruct (check_route _ _ _ _) as [[m|s']|e|]; cbn; [|  |by apply Hbad|done].
  - exists 0%nat. cbn. rewrite app_nil_r, routes_ok_snoc. split_and!; [f_equal; lia|lia|done|tauto].
  - destruct Hr as [Hf Hs']. specialize (IH (done ++ [v]) vs' s').
    rewrite length_app, Nat.add_1_r in IH. rewrite (app_assoc done [v] vs' : done ++ v :: vs' = _).
    specialize (IH (proj2 (routes_ok_snoc _ _) (conj Hdone Hf)) Hs' Hvs).
    destruct (check_routes _ _ _ _) as [[e|]|e|]; try done.
    destruct IH as (i & Hi & Hlt & Hgood & Hbadi). exists (S i). cbn. rewrite Hi.
    rewrite <- app_assoc in Hgood, Hbadi. split_and!; [f_equal; lia|lia|done|done].
Qed.

Lemma remembers_nothing : remembers [] initial_loop.
Proof.
  split; [|split]; cbn.
  - intros p. split; [|intros m]; (split; [done || (intros H; inversion H)|]);
      intros (w & Hw & _); inversion Hw.
  - split; [done|]. intros H. inversion H.
  - split; [done|]. intros H. inversion H.
Qed.
End Valid_routes.

(** ** Normal form *)

Lemma prop_route_value i u c ms a :
  prop (route_value i u c ms a) (js "incoming_path") = i
  /\ prop (route_value i u c ms a) (js "upstream_path") = JStr u
  /\ prop (route_value i u c ms a) (js "converter") = c
  /\ normalizeAdvancedCustomRouteModels (prop (route_value i u c ms a) (js "models"))
     = normalizeAdvancedCustomRouteModels (JArr (map JStr ms))
  /\ prop (route_value i u c ms a) (js "auth") = default JUndefined a.
Proof. by destruct ms, a. Qed.

(** The rules of a normal form are trimmed and not empty. *)
Lemma normalize_models_idemp models ms :
  normalizeAdvancedCustomRouteModels models = Ret ms ->
  normalizeAdvancedCustomRouteModels (JArr (map JStr ms)) = Ret ms.
Proof.
  assert (Hgood : forall names, Forall (fun m => trim m = m /\ nonempty m = true) names ->
    normalizeAdvancedCustomRouteModels (JArr (map JStr names)) = Ret names).
  { intros names Hn. cbn. assert (Ht : omapM str_trim (map JStr names) = Ret names).
    { apply omapM_Ret. induction Hn as [|m l [Hm _] _ IH]; cbn; constructor; [|done].
      cbn. by rewrite Hm. }
    rewrite Ht. cbn. f_equal. clear Ht. induction Hn as [|m l [_ Hm] _ IH]; cbn; [done|].
    by rewrite Hm, IH. }
  destruct models; cbn; try (intros [= <-]; done).
  intros (names & Hnames & [= <-])%obind_Ret_inv. apply Hgood.
  apply omapM_Ret in Hnames.
  induction Hnames as [|x name l names Hx _ IH]; cbn; [constructor|].
  destruct (nonempty name) eqn:Hne; [|done]. constructor; [|done]. split; [|done].
  destruct x; cbn in Hx; simplify_eq. apply trim_idemp.
Qed.

Lemma normalize_auth_idemp auth a :
  normalize_auth auth = Some a -> normalize_auth a = Some a.
Proof.
  unfold normalize_auth. destruct (truthy auth); [|done]. intros [= <-]. cbn [truthy].
  set (t := prop auth _). set (n := js_or _ _). set (v := js_or _ _).
  assert (Hn : js_or n (JStr []) = n) by by apply js_or_idemp.
  assert (Hv : js_or v (JStr []) = v) by by apply js_or_idemp.
  change (Some (JObj [(js "type", t); (js "name", js_or n (JStr [])); (js "value", js_or v (JStr []))])
          = Some (JObj [(js "type", t); (js "name", n); (js "value", v)])).
  by rewrite Hn, Hv.
Qed.

(** A normalised route is its own normal form. *)
Lemma normalizeRoute_idemp route r :
  normalizeAdvancedCustomRoute route = Ret r -> normalizeAdvancedCustomRoute r = Ret r.
Proof.
  unfold normalizeAdvancedCustomRoute at 1.
  intros (i & _ & H)%obind_Ret_inv. apply obind_Ret_inv in H as (u & Hu & H).
  apply obind_Ret_inv in H as (c & _ & H). apply obind_Ret_inv in H as (m & _ & H).
  apply obind_Ret_inv in H as (ms & Hms & H). apply obind_Ret_inv in H as (a & _ & [= <-]).
  assert (Htrim : trim u = u).
  { unfold getAdvancedCustomRouteUpstreamPath in Hu. apply obind_Ret_inv in Hu as (x & _ & Hx).
    destruct (js_or x _); cbn in Hx; simplify_eq. apply trim_idemp. }
  apply normalize_models_idemp in Hms.
  unfold normalizeAdvancedCustomRoute, getAdvancedCustomRouteUpstreamPath, get_field. cbn [is_nullish route_value].
  pose proof (prop_route_value (js_or i (JStr [])) u (js_or c (JStr (js "none"))) ms (normalize_auth a))
    as (Pi & Pu & Pc & Pm & Pa).
  unfold route_value in *. rewrite Pi, Pu, Pc, Pa. cbn [obind]. rewrite Pm, Hms. cbn [obind].
  assert (Hup : str_trim (js_or (JStr u) (JStr [])) = Ret u).
  { destruct u as [|x u]; [done|]. change (Ret (trim (x :: u)) = Ret (E := type_error) (x :: u)).
    by rewrite Htrim. }
  rewrite Hup. cbn [obind].
  rewrite js_or_idemp by done. rewrite (js_or_self (js_or c _)) by by apply js_or_truthy.
  destruct (normalize_auth a) as [a'|] eqn:Ha; cbn [default]; [|done].
  by rewrite (normalize_auth_idemp a).
Qed.

Lemma normalized_routes_normal c rs :
  normalized_routes c = Ret rs -> Forall (fun r => normalizeAdvancedCustomRoute r = Ret r) rs.
Proof.
  unfold normalized_routes. intros (x & _ & H)%obind_Ret_inv.
  destruct x as [| |?|?|?|items|?]; try (injection H as <-; constructor).
  apply omapM_Ret in H. induction H as [|r r' l l' Hr _ IH]; constructor; [|done].
  by apply (normalizeRoute_idemp r).
Qed.

Lemma normalized_routes_config rs : normalized_routes (config_of rs) = omapM normalizeAdvancedCustomRoute rs.
Proof. done. Qed.

(** A list of normalised routes is normalised to itself. *)
Lemma normalized_routes_fixed rs :
  Forall (fun r => normalizeAdvancedCustomRoute r = Ret r) rs -> normalized_routes (config_of rs) = Ret rs.
Proof.
  intros H. rewrite normalized_routes_config. apply omapM_Ret. induction H; by constructor.
Qed.

(** ** Searching routes whose paths can be read *)

Definition incoming (route : jsval) : jsstr :=
  match incoming_of route with Ret p => p | _ => [] end.

Definition readable (route : jsval) : Prop := incoming_of route = Ret (incoming route).

Definition at_path (path : jsstr) (route : jsval) : bool := incoming route === path.
Definition managed (route : jsval) : bool := isAdvancedCustomManagementPath (incoming route).

Lemma find_index_spec p q rs :
  Forall (fun r => p r = Ret (q r)) rs ->
  (find_index p rs = Ret None /\ Forall (fun r => q r = false) rs)
  \/ (exists a r b, rs = a ++ r :: b /\ find_index p rs = Ret (Some (length a))
                    /\ Forall (fun r => q r = false) a /\ q r = true).
Proof.
  induction 1 as [|r rs Hr _ IH]; cbn; [left; done|]. rewrite Hr. cbn.
  destruct (q r) eqn:Hq; [right; by exists [], r, rs|].
  destruct IH as [[-> Hall]|(a & x & b & -> & -> & Ha & Hx)]; cbn.
  - left. split; [done|]. by constructor.
  - right. exists (r :: a), x, b. repeat split; [|done]. by constructor.
Qed.

Lemma filterM_spec p q rs :
  Forall (fun r => p r = Ret (q r)) rs -> filterM p rs = Ret (List.filter q rs).
Proof. induction 1 as [|r rs Hr _ IH]; cbn; [done|]. rewrite Hr, IH. by destruct (q r). Qed.

Lemma has_path_readable path rs :
  Forall readable rs -> Forall (fun r => has_path path r = Ret (at_path path r)) rs.
Proof. intros H. apply (Forall_impl _ _ _ H). intros r Hr. unfold has_path, at_path. by rewrite Hr. Qed.

Lemma is_management_readable rs :
  Forall readable rs -> Forall (fun r => is_management r = Ret (managed r)) rs.
Proof. intros H. apply (Forall_impl _ _ _ H). intros r Hr. unfold is_management, managed. by rewrite Hr. Qed.

Lemma find_none {A} (q : A -> bool) xs : Forall (fun x => q x = false) xs -> find q xs = None.
Proof. induction 1 as [|x xs Hx _ IH]; cbn; [done|]. by rewrite Hx. Qed.

Lemma find_app {A} (q : A -> bool) xs ys :
  find q (xs ++ ys) = match find q xs with Some x => Some x | None => find q ys end.
Proof. induction xs as [|x xs IH]; cbn; [done|]. by destruct (q x). Qed.

(** The route of a path is the first one with it. *)
Lemma getManagementRoute_find c path rs :
  normalized_routes c = Ret rs -> Forall readable rs ->
  getAdvancedCustomManagementRoute c path = Ret (find (at_path path) rs).
Proof.
  intros Hrs Hread. unfold getAdvancedCustomManagementRoute. rewrite Hrs. cbn [obind].
  destruct (find_index_spec _ _ _ (has_path_readable path rs Hread))
    as [[-> Hall]|(a & r & b & -> & -> & Ha & Hr)]; cbn.
  - by rewrite find_none.
  - rewrite list_lookup_middle by done. rewrite find_app, find_none by done. cbn. by rewrite Hr.
Qed.

(** The text of the upstream of an edited route, and the route's normal form. *)
Definition upstream_text (route : jsval) : jsstr :=
  match prop route (js "upstream_path") with JStr u => u | _ => [] end.

Definition edited_route (path : jsstr) (route : jsval) : jsval :=
  route_value (JStr path) (trim (upstream_text route)) (JStr (js "none")) []
    (normalize_auth (prop route (js "auth"))).

Lemma management_route_normal path r :
  prop r (js "upstream_path") = JStr (upstream_text r) ->
  normalizeAdvancedCustomRoute (management_route path r) = Ret (edited_route path r).
Proof.
  intros Hu. unfold normalizeAdvancedCustomRoute, getAdvancedCustomRouteUpstreamPath, get_field.
  unfold management_route. rewrite Hu. cbn [is_nullish].
  assert (Hor : forall s, js_or (JStr s) (JStr []) = JStr s) by (by intros []).
  rewrite Hor.
  change ((let? upstream := str_trim (js_or (JStr (upstream_text r)) (JStr [])) in
          Ret (route_value (js_or (JStr path) (JStr [])) upstream (JStr (js "none")) []
                 (normalize_auth (prop r (js "auth"))))) = Ret (E := type_error) (edited_route path r)).
  by rewrite !Hor.
Qed.

Lemma incoming_edited path r :
  trim path = path -> incoming_of (edited_route path r) = Ret path.
Proof. intros Hp. change (Ret (E := type_error) (trim path) = Ret path). by rewrite Hp. Qed.

(** The routes of an edited configuration: untouched ones, and the edited one. *)
Lemma normalized_around a b x x' :
  normalizeAdvancedCustomRoute x = Ret x' ->
  Forall (fun r => normalizeAdvancedCustomRoute r = Ret r) (a ++ b) ->
  normalized_routes (config_of (a ++ x :: b)) = Ret (a ++ x' :: b).
Proof.
  intros Hx [Ha Hb]%Forall_app. rewrite normalized_routes_config. apply omapM_Ret.
  apply Forall2_app; [|constructor; [done|]].
  - clear -Ha. by induction Ha; constructor.
  - clear -Hb. by induction Hb; constructor.
Qed.

Definition at_most_one (path : jsstr) (rs : list jsval) : Prop :=
  (length (List.filter (at_path path) rs) <= 1)%nat.

Lemma at_most_one_after path a r b :
  at_most_one path (a ++ r :: b) -> at_path path r = true -> Forall (fun x => at_path path x = false) b.
Proof.
  unfold at_most_one. rewrite List.filter_app, length_app. cbn. intros H Hr. rewrite Hr in H. cbn in H.
  apply Forall_forall. intros x Hx. apply not_true_iff_false. intros Hat.
  assert (In x (List.filter (at_path path) b)) as Hin
    by (apply filter_In; split; [by apply list_elem_of_In|done]).
  destruct (List.filter (at_path path) b); cbn in *; [done|lia].
Qed.

Lemma find_other {A} (q : A -> bool) a b x y :
  q x = false -> q y = false -> find q (a ++ x :: b) = find q (a ++ y :: b).
Proof. intros Hx Hy. rewrite !find_app. cbn. by rewrite Hx, Hy. Qed.

Lemma find_without {A} (q : A -> bool) a b x : q x = false -> find q (a ++ x :: b) = find q (a ++ b).
Proof. intros Hx. rewrite !find_app. cbn. by rewrite Hx. Qed.

Lemma at_other_path p path r : at_path path r = true -> p <> path -> at_path p r = false.
Proof. unfold at_path. rewrite str_eqb_eq. intros -> Hne. apply str_eqb_neq. congruence. Qed.

(** ** The main theorems *)

(** What the validation reads of the normalised routes. *)
Definition read_routes (c : jsval) : outcome type_error (list route_view) :=
  let? rs := normalized_routes c in omapM view_route rs.

(** C22. Validation accepts a configuration whose paths can be read exactly when it
    has a route, every route is well formed, and of two routes of the same path the
    first one names models that the second, which may be the path's catch-all, does
    not; the index of an error is that of the first route that breaks this. *)
Theorem validateAdvancedCustomConfig_correct parse_url c vs :
  read_routes c = Ret vs ->
  match validateAdvancedCustomConfig parse_url (Some c) with
  | Ret None => vs <> [] /\ routes_ok parse_url vs
  | Ret (Some e) =>
      match routeIndex e with
      | None => vs = []
      | Some i => (i < length vs)%nat /\ routes_ok parse_url (take i vs)
                  /\ ~ routes_ok parse_url (take (S i) vs)
      end
  | Throw _ => ~ routes_ok parse_url vs
  | OutOfFuel => False
  end.
Proof.
  unfold read_routes. intros (rs & Hrs & Hvs)%obind_Ret_inv.
  unfold validateAdvancedCustomConfig. rewrite Hrs. cbn [obind].
  destruct rs as [|r rs]; [by injection Hvs as <-|].
  pose proof (check_routes_spec parse_url (r :: rs) [] vs initial_loop) as H. cbn [length] in H.
  specialize (H (conj (Forall_nil_2 _) (FOP_nil _)) remembers_nothing Hvs).
  destruct (check_routes _ _ _ _) as [[e|]|e|]; [|  |done..].
  - destruct H as (i & -> & H). done.
  - split; [|done]. intros ->. apply omapM_Ret in Hvs. inversion Hvs.
Qed.

Definition sample_view (path : string) (models : list jsstr) : route_view :=
  {| v_incoming := js path; v_upstream := js path; v_converter := JStr (js "none");
     v_models := models; v_auth := JUndefined |}.

Definition sample_custom_route (path : string) (models : list string) : jsval :=
  JObj [text_field "incoming_path" (js path); text_field "upstream_path" (js path);
        (js "models", JArr (map (fun m => JStr (js m)) models))].

(** The catch-all comes before the route of one model: the second one is at fault. *)
Lemma validateAdvancedCustomConfig_correct_witness :
  let c := config_of [sample_custom_route "/v1/rerank" []; sample_custom_route "/v1/rerank" ["m"%string]] in
  let vs := [sample_view "/v1/rerank" []; sample_view "/v1/rerank" [js "m"]] in
  read_routes c = Ret vs
  /\ match validateAdvancedCustomConfig (fun _ => None) (Some c) with
     | Ret (Some e) => routeIndex e = Some 1%nat /\ ~ routes_ok (fun _ => None) (take 2 vs)
     | _ => False
     end.
Proof.
  split; [reflexivity|].
  pose proof (validateAdvancedCustomConfig_correct (fun _ => None)
    (config_of [sample_custom_route "/v1/rerank" []; sample_custom_route "/v1/rerank" ["m"%string]])
    [sample_view "/v1/rerank" []; sample_view "/v1/rerank" [js "m"]] eq_refl) as H.
  split; [reflexivity|]. exact (proj2 (proj2 H)).
Defined.

Lemma insert_middle {A} (a b : list A) x y : <[length a := y]> (a ++ x :: b) = a ++ y :: b.
Proof. rewrite insert_app_r_alt, Nat.sub_diag by lia. done. Qed.

Lemma edited_readable path r :
  trim path = path -> readable (edited_route path r) /\ incoming (edited_route path r) = path.
Proof. intros Hp. unfold readable, incoming. by rewrite incoming_edited. Qed.

(** Putting the edited route between routes that have another path. *)
Lemma get_edited path r a b :
  trim path = path -> prop r (js "upstream_path") = JStr (upstream_text r) ->
  Forall (fun r => normalizeAdvancedCustomRoute r = Ret r) (a ++ b) -> Forall readable (a ++ b) ->
  Forall (fun r => at_path path r = false) a ->
  forall p, getAdvancedCustomManagementRoute (config_of (a ++ management_route path r :: b)) p
            = Ret (if p === path then Some (edited_route path r) else find (at_path p) (a ++ b)).
Proof.
  intros Hpath Hr Hnorm [Hra Hrb]%Forall_app Ha p.
  destruct (edited_readable path r Hpath) as [Hread Hin].
  rewrite (getManagementRoute_find _ p (a ++ edited_route path r :: b));
    [|by apply normalized_around; [apply management_route_normal|]
     |by apply Forall_app; split; [|constructor]].
  f_equal. destruct (str_eqb_spec p path) as [->|Hne].
  - rewrite find_app, find_none by done. cbn. unfold at_path. by rewrite Hin, str_eqb_refl.
  - apply find_without. unfold at_path. rewrite Hin. apply str_eqb_neq. congruence.
Qed.

(** Editing the management route of a path: afterwards the path's route is the
    normal form of the edited one, or missing when it was removed, and the routes of
    the other paths are the ones they were. *)
Theorem replaceManagementRoute_get c path rs route :
  normalized_routes c = Ret rs -> Forall readable rs -> trim path = path -> at_most_one path rs ->
  (forall r, route = Some r -> prop r (js "upstream_path") = JStr (upstream_text r)) ->
  exists c', replaceAdvancedCustomManagementRoute c path route = Ret c'
    /\ getAdvancedCustomManagementRoute c' path = Ret (edited_route path <$> route)
    /\ forall p, p <> path ->
         getAdvancedCustomManagementRoute c' p = getAdvancedCustomManagementRoute c p.
Proof.
  intros Hrs Hread Hpath Hone Hroute. pose proof (normalized_routes_normal c rs Hrs) as Hnorm.
  assert (Hget : forall p, getAdvancedCustomManagementRoute c p = Ret (find (at_path p) rs))
    by (intros; by apply getManagementRoute_find).
  unfold replaceAdvancedCustomManagementRoute. rewrite Hrs. cbn [obind].
  destruct (find_index_spec _ _ _ (has_path_readable path rs Hread))
    as [[-> Hall]|(a & r0 & b & -> & -> & Ha & Hr0)]; cbn [obind]; eexists; split; try done.
  - destruct route as [r|].
    + rewrite <- (app_nil_r rs) in Hnorm, Hread, Hget.
      pose proof (get_edited path r rs [] Hpath (Hroute r eq_refl) Hnorm Hread Hall) as H.
      split; [by rewrite H, str_eqb_refl|]. intros p Hne. rewrite H, Hget.
      by destruct (str_eqb_spec p path).
    + assert (H : forall p, getAdvancedCustomManagementRoute (config_of rs) p = Ret (find (at_path p) rs))
        by (intros; apply getManagementRoute_find; [by apply normalized_routes_fixed|done]).
      split; [by rewrite H, find_none|]. intros p _. by rewrite H, Hget.
  - pose proof (at_most_one_after _ _ _ _ Hone Hr0) as Hb.
    apply Forall_app in Hnorm as [Hna Hnb], Hread as [Hra Hrb]. inversion Hnb; inversion Hrb; subst.
    assert (Hn : Forall (fun r => normalizeAdvancedCustomRoute r = Ret r) (a ++ b)) by by apply Forall_app.
    assert (Hr : Forall readable (a ++ b)) by by apply Forall_app.
    assert (Hother : forall p, p <> path -> find (at_path p) (a ++ r0 :: b) = find (at_path p) (a ++ b))
      by (intros; apply find_without; by apply (at_other_path p path)).
    destruct route as [r|].
    + rewrite insert_middle.
      pose proof (get_edited path r a b Hpath (Hroute r eq_refl) Hn Hr Ha) as H.
      split; [by rewrite H, str_eqb_refl|]. intros p Hne. rewrite H, Hget, Hother by done.
      by destruct (str_eqb_spec p path).
    + rewrite take_app_length, drop_app_add. cbn [drop].
      assert (H : forall p, getAdvancedCustomManagementRoute (config_of (a ++ b)) p = Ret (find (at_path p) (a ++ b)))
        by (intros; apply getManagementRoute_find; [by apply normalized_routes_fixed|done]).
      split; [rewrite H, find_none; [done|by apply Forall_app]|]. intros p Hne. by rewrite H, Hget, Hother.
Qed.

Lemma replaceForwardingRoutes_split c rs forwarding :
  normalized_routes c = Ret rs -> Forall readable rs ->
  exists before rest,
    rs = before ++ rest /\ Forall (fun r => managed r = true) before
    /\ (forall r rest', rest = r :: rest' -> managed r = false)
    /\ replaceAdvancedCustomForwardingRoutes c forwarding
       = Ret (config_of (before ++ forwarding ++ List.filter managed rest)).
Proof.
  intros Hrs Hread. pose proof (is_management_readable rs Hread) as Hm.
  assert (Hnot : Forall (fun r => (let? m := is_management r in Ret (negb m)) = Ret (negb (managed r))) rs).
  { apply (Forall_impl _ _ _ Hm). by intros r ->. }
  unfold replaceAdvancedCustomForwardingRoutes. rewrite Hrs. cbn [obind].
  rewrite (filterM_spec is_management managed) by done.
  destruct (find_index_spec _ _ _ Hnot) as [[-> Hall]|(a & r & b & -> & -> & Ha & Hr)]; cbn [obind].
  - assert (Hall' : Forall (fun r => managed r = true) rs)
      by (apply (Forall_impl _ _ _ Hall); intros r; by rewrite negb_false_iff).
    exists rs, []. rewrite filter_all by done. cbn. by rewrite !app_nil_r.
  - apply Forall_app in Hm as [Hma Hmb]. rewrite take_app_length, drop_app_length.
    rewrite !(filterM_spec is_management managed) by done. cbn [obind].
    assert (Ha' : Forall (fun r => managed r = true) a)
      by (apply (Forall_impl _ _ _ Ha); intros x; by rewrite negb_false_iff).
    exists a, (r :: b). rewrite (filter_all managed a) by done. split_and!; try done.
    intros x rest' [= <- <-]. by apply negb_true_iff.
Qed.

Definition sample_config : jsval :=
  config_of [sample_custom_route "/v1/rerank" []; sample_custom_route "/v1/models" []].

Definition sample_routes : list jsval :=
  [route_value (JStr (js "/v1/rerank")) (js "/v1/rerank") (JStr (js "none")) [] None;
   route_value (JStr (js "/v1/models")) (js "/v1/models") (JStr (js "none")) [] None].

Lemma replaceManagementRoute_get_witness :
  exists c', replaceAdvancedCustomManagementRoute sample_config ADVANCED_CUSTOM_MODEL_LIST_PATH
               (Some (createAdvancedCustomManagementRoute (js "/models"))) = Ret c'
    /\ getAdvancedCustomManagementRoute c' ADVANCED_CUSTOM_MODEL_LIST_PATH
       = Ret (Some (edited_route ADVANCED_CUSTOM_MODEL_LIST_PATH
                      (createAdvancedCustomManagementRoute (js "/models")))).
Proof.
  destruct (replaceManagementRoute_get sample_config ADVANCED_CUSTOM_MODEL_LIST_PATH sample_routes
              (Some (createAdvancedCustomManagementRoute (js "/models")))) as (c' & Hc & Hget & _).
  - reflexivity.
  - repeat constructor.
  - reflexivity.
  - cbv. lia.
  - intros r [= <-]. reflexivity.
  - exists c'. split; [exact Hc|exact Hget].
Defined.

(** Replacing the forwarding routes: the management routes before the first
    forwarding route stay in front, the new routes take that place, and the other
    management routes follow in their order; what a management path resolves to is
    unchanged when the new routes have none. *)
Theorem replaceForwardingRoutes_keeps c rs forwarding :
  normalized_routes c = Ret rs -> Forall readable rs ->
  exists before rest,
    rs = before ++ rest
    /\ Forall (fun r => managed r = true) before
    /\ (forall r rest', rest = r :: rest' -> managed r = false)
    /\ replaceAdvancedCustomForwardingRoutes c forwarding
       = Ret (config_of (before ++ forwarding ++ List.filter managed rest))
    /\ (forall c' path,
          isAdvancedCustomManagementPath path = true ->
          replaceAdvancedCustomForwardingRoutes c forwarding = Ret c' ->
          Forall (fun r => normalizeAdvancedCustomRoute r = Ret r /\ readable r /\ managed r = false)
            forwarding ->
          getAdvancedCustomManagementRoute c' path = getAdvancedCustomManagementRoute c path).
Proof.
  intros Hrs Hread.
  assert (Hsplit : exists before rest,
    rs = before ++ rest /\ Forall (fun r => managed r = true) before
    /\ (forall r rest', rest = r :: rest' -> managed r = false)
    /\ replaceAdvancedCustomForwardingRoutes c forwarding
       = Ret (config_of (before ++ forwarding ++ List.filter managed rest))).
  { by apply replaceForwardingRoutes_split. }
  destruct Hsplit as (before & rest & Hsplit & Hb & Hrest & Hrep). exists before, rest.
  split_and!; try done. intros c' path Hpath Hc' Hf. rewrite Hrep in Hc'. injection Hc' as <-.
  assert (Hq : forall r, managed r = false -> at_path path r = false).
  { unfold managed, at_path. intros r Hm. apply str_eqb_neq. intros <-. congruence. }
  pose proof (normalized_routes_normal c rs Hrs) as Hnorm.
  rewrite (getManagementRoute_find c path rs) by done.
  subst rs. apply Forall_app in Hnorm as [Hnb Hnr], Hread as [Hrb Hrr].
  assert (Hfilter : forall P, Forall P rest -> Forall P (List.filter managed rest)).
  { intros P HP. rewrite Forall_forall in *. intros r Hr%list_elem_of_In.
    apply filter_In in Hr as [Hr%list_elem_of_In _]. auto. }
  rewrite (getManagementRoute_find _ path (before ++ forwarding ++ List.filter managed rest)).
  - f_equal. rewrite !find_app. destruct (find (at_path path) before); [done|].
    rewrite find_none by (eapply Forall_impl; [exact Hf|]; intros r (_ & _ & Hm); auto).
    clear -Hq. induction rest as [|r rest IH]; cbn; [done|].
    destruct (managed r) eqn:Hm; cbn; [by rewrite IH|by rewrite (Hq r Hm)].
  - apply normalized_routes_fixed. rewrite !Forall_app. split_and!; [done| |by apply Hfilter].
    eapply Forall_impl; [exact Hf|]. by intros r (? & _).
  - rewrite !Forall_app. split_and!; [done| |by apply Hfilter].
    eapply Forall_impl; [exact Hf|]. by intros r (_ & ? & _).
Qed.

Lemma replaceForwardingRoutes_keeps_witness :
  exists c', replaceAdvancedCustomForwardingRoutes sample_config [createAdvancedCustomRoute] = Ret c'
    /\ getAdvancedCustomManagementRoute c' ADVANCED_CUSTOM_MODEL_LIST_PATH
       = getAdvancedCustomManagementRoute sample_config ADVANCED_CUSTOM_MODEL_LIST_PATH.
Proof.
  destruct (replaceForwardingRoutes_keeps sample_config sample_routes [createAdvancedCustomRoute])
    as (before & rest & _ & _ & _ & Hrep & Hget).
  - reflexivity.
  - repeat constructor.
  - eexists. split; [exact Hrep|]. apply Hget; [reflexivity|exact Hrep|].
    repeat constructor.
Defined.

(** What the editor offers is valid: every template, and every native or
    converted route built from the defaults of an option. *)
Theorem offered_routes_valid parse_url :
  (forall key, validateAdvancedCustomConfig parse_url (Some (getAdvancedCustomTemplateConfig key)) = Ret None)
  /\ forall option path label,
       option ∈ ADVANCED_CUSTOM_CONVERTER_OPTIONS ->
       (path, label) ∈ getAdvancedCustomIncomingPathOptions (JStr (c_value option)) ->
       let '(upstream, auth) := getAdvancedCustomConverterDefaults (JStr (c_value option)) path in
       validateAdvancedCustomConfig parse_url
         (Some (config_of [route_value (JStr path) upstream (JStr (c_value option)) [] (Some auth)]))
       = Ret None.
Proof.
  split.
  - intros key. unfold getAdvancedCustomTemplateConfig. cbn [find ADVANCED_CUSTOM_TEMPLATE_OPTIONS].
    repeat case_match; simplify_eq; vm_compute; reflexivity.
  - intros option path label Ho Hp.
    pose (run := fun (o : converter_option) p =>
      let '(upstream, auth) := getAdvancedCustomConverterDefaults (JStr (c_value o)) p in
      validateAdvancedCustomConfig parse_url
        (Some (config_of [route_value (JStr p) upstream (JStr (c_value o)) [] (Some auth)]))).
    pose (ok := fun o p => match run o p with Ret None => true | _ => false end).
    assert (H : forallb (fun o => forallb (fun q => ok o q.1)
                  (getAdvancedCustomIncomingPathOptions (JStr (c_value o)))) ADVANCED_CUSTOM_CONVERTER_OPTIONS
                = true) by (vm_compute; reflexivity).
    rewrite forallb_forall in H. specialize (H option (proj1 (list_elem_of_In _ _) Ho)).
    cbn beta in H. rewrite forallb_forall in H.
    specialize (H (path, label) (proj1 (list_elem_of_In _ _) Hp)). cbn [fst] in H.
    unfold ok, run in H. destruct (getAdvancedCustomConverterDefaults _ _) as [upstream auth].
    destruct (validateAdvancedCustomConfig _ _) as [[e|]|e|]; done.
Qed.

Lemma offered_routes_valid_witness :
  validateAdvancedCustomConfig (fun _ => None)
    (Some (config_of [route_value (JStr claudeMessagesPath) openAIChatPath
                        (JStr (js "anthropic_messages_to_openai_chat_completions")) []
                        (Some bearerHeaderAuth)])) = Ret None.
Proof.
  pose (option := converter_row "anthropic_messages_to_openai_chat_completions"
                    "Anthropic Messages to OpenAI Chat" "To OpenAI Chat").
  assert (Ho : option ∈ ADVANCED_CUSTOM_CONVERTER_OPTIONS) by (right; left).
  assert (Hp : (claudeMessagesPath, js "Claude Messages")
               ∈ getAdvancedCustomIncomingPathOptions (JStr (c_value option)))
    by (apply list_elem_of_In; left; reflexivity).
  exact (proj2 (offered_routes_valid (fun _ => None)) option claudeMessagesPath
           (js "Claude Messages") Ho Hp).
Defined.

(** A path that is a number parses, and makes the validation and the statistics throw. *)
Example numeric_path_throws :
  let text := js "{" ++ json_quote (js "advanced_routes") ++ js ":[{" ++ json_quote (js "incoming_path")
              ++ js ":5}]}" in
  match parseAdvancedCustomConfig (Some text) with
  | Some config => validateAdvancedCustomConfig (fun _ => None) (Some config) = Throw TypeError
  | None => False
  end
  /\ getAdvancedCustomStats (fun _ => None) (Some text) = Throw TypeError.
Proof. split; vm_compute; reflexivity. Qed.
