(* ===== verification/PlaygroundMessages.v ===== *)
(** * Playground messages ([features/playground/lib/message/])

    The messages of the playground chat: versions, the split of a text into its
    visible part and the reasoning between [<think>] tags, timing, the
    application of streamed chunks, the end of a message, and the editing of a
    conversation.  The clock, the identifiers and the translations are arguments:
    the arguments [now], [started], [reasoned] and [completed] are what the calls
    of [Date.now()] return.  An absent optional field is [None]. *)

From S2P Require Import Prelude JsString JsNumber JsValue.

(** ** Data *)

Inductive MessageRole := USER | ASSISTANT | SYSTEM.
Inductive MessageStatus := LOADING | STREAMING | COMPLETE | ERROR.

#[export] Instance MessageRole_eq_dec : EqDecision MessageRole.
Proof. solve_decision. Defined.
#[export] Instance MessageStatus_eq_dec : EqDecision MessageStatus.
Proof. solve_decision. Defined.

Record MessageVersion := { id : jsstr; content : jsstr }.

Record message_reasoning := {
  r_content : jsstr;
  r_duration : num;
  r_startedAt : option num;
  r_completedAt : option num;
  r_durationMs : option num
}.

Record source := { href : jsstr; title : jsstr }.

Record Message := {
  key : jsstr;
  from : MessageRole;
  versions : list MessageVersion;
  createdAt : option num;
  startedAt : option num;
  completedAt : option num;
  durationMs : option num;
  sources : option (list source);
  reasoning : option message_reasoning;
  isReasoningStreaming : option bool;
  isReasoningComplete : option bool;
  isContentComplete : option bool;
  status : option MessageStatus;
  errorCode : option (option jsstr);
  servedBy : option jsstr
}.

Definition API_REQUEST_ERROR : jsstr := js "Request error occurred".
Definition NETWORK_ERROR : jsstr := js "Network connection failed or server not responding".
Definition PARSE_ERROR : jsstr := js "Error parsing response data".
Definition STREAM_START_ERROR : jsstr := js "Error establishing connection".
Definition CONNECTION_CLOSED : jsstr := js "Connection closed".
Definition INTERRUPTED : jsstr := js "Generation was interrupted".
Definition MISSING_CLIENT_KEY : jsstr := js "Fill in a client key before sending a message".

(** ** Field updates [{ ...message, field: value }] *)

Definition with_versions (m : Message) (vs : list MessageVersion) : Message :=
  {| key := key m; from := from m; versions := vs; createdAt := createdAt m;
     startedAt := startedAt m; completedAt := completedAt m; durationMs := durationMs m;
     sources := sources m; reasoning := reasoning m;
     isReasoningStreaming := isReasoningStreaming m;
     isReasoningComplete := isReasoningComplete m; isContentComplete := isContentComplete m;
     status := status m; errorCode := errorCode m; servedBy := servedBy m |}.

Definition with_reasoning (m : Message) (r : option message_reasoning) : Message :=
  {| key := key m; from := from m; versions := versions m; createdAt := createdAt m;
     startedAt := startedAt m; completedAt := completedAt m; durationMs := durationMs m;
     sources := sources m; reasoning := r;
     isReasoningStreaming := isReasoningStreaming m;
     isReasoningComplete := isReasoningComplete m; isContentComplete := isContentComplete m;
     status := status m; errorCode := errorCode m; servedBy := servedBy m |}.

Definition with_streaming (m : Message) (b : bool) : Message :=
  {| key := key m; from := from m; versions := versions m; createdAt := createdAt m;
     startedAt := startedAt m; completedAt := completedAt m; durationMs := durationMs m;
     sources := sources m; reasoning := reasoning m; isReasoningStreaming := Some b;
     isReasoningComplete := isReasoningComplete m; isContentComplete := isContentComplete m;
     status := status m; errorCode := errorCode m; servedBy := servedBy m |}.

Definition with_status (m : Message) (st : MessageStatus) : Message :=
  {| key := key m; from := from m; versions := versions m; createdAt := createdAt m;
     startedAt := startedAt m; completedAt := completedAt m; durationMs := durationMs m;
     sources := sources m; reasoning := reasoning m;
     isReasoningStreaming := isReasoningStreaming m;
     isReasoningComplete := isReasoningComplete m; isContentComplete := isContentComplete m;
     status := Some st; errorCode := errorCode m; servedBy := servedBy m |}.

Definition with_error (m : Message) (code : option jsstr) : Message :=
  {| key := key m; from := from m; versions := versions m; createdAt := createdAt m;
     startedAt := startedAt m; completedAt := completedAt m; durationMs := durationMs m;
     sources := sources m; reasoning := reasoning m;
     isReasoningStreaming := isReasoningStreaming m;
     isReasoningComplete := isReasoningComplete m; isContentComplete := isContentComplete m;
     status := status m; errorCode := Some code; servedBy := servedBy m |}.

Definition with_served_by (m : Message) (s : jsstr) : Message :=
  {| key := key m; from := from m; versions := versions m; createdAt := createdAt m;
     startedAt := startedAt m; completedAt := completedAt m; durationMs := durationMs m;
     sources := sources m; reasoning := reasoning m;
     isReasoningStreaming := isReasoningStreaming m;
     isReasoningComplete := isReasoningComplete m; isContentComplete := isContentComplete m;
     status := status m; errorCode := errorCode m; servedBy := Some s |}.

Definition with_created (m : Message) (t : option num) : Message :=
  {| key := key m; from := from m; versions := versions m; createdAt := t;
     startedAt := startedAt m; completedAt := completedAt m; durationMs := durationMs m;
     sources := sources m; reasoning := reasoning m;
     isReasoningStreaming := isReasoningStreaming m;
     isReasoningComplete := isReasoningComplete m; isContentComplete := isContentComplete m;
     status := status m; errorCode := errorCode m; servedBy := servedBy m |}.

Definition with_timing (m : Message) (start done duration : num) : Message :=
  {| key := key m; from := from m; versions := versions m; createdAt := createdAt m;
     startedAt := Some start; completedAt := Some done; durationMs := Some duration;
     sources := sources m; reasoning := reasoning m;
     isReasoningStreaming := isReasoningStreaming m;
     isReasoningComplete := isReasoningComplete m; isContentComplete := isContentComplete m;
     status := status m; errorCode := errorCode m; servedBy := servedBy m |}.

(** ** Versions and content ([message-utils.ts]) *)

Definition createMessageVersion (nanoid content : jsstr) : MessageVersion :=
  {| id := nanoid; content := content |}.

Definition getCurrentVersion (message : Message) : MessageVersion :=
  match versions message with
  | v :: _ => v
  | [] => {| id := js "default"; content := [] |}
  end.

Definition getMessageContent (message : Message) : jsstr := content (getCurrentVersion message).

Definition hasMessageContent (message : Message) : bool :=
  trim (getMessageContent message) !== [].

Definition updateCurrentVersionContent (message : Message) (content : jsstr) : Message :=
  with_versions message [{| id := id (getCurrentVersion message); content := content |}].

Definition createUserMessage (nanoid version_id content : jsstr) (createdAt : num) : Message :=
  {| key := nanoid; from := USER; versions := [createMessageVersion version_id content];
     createdAt := Some createdAt; startedAt := None; completedAt := None; durationMs := None;
     sources := None; reasoning := None; isReasoningStreaming := None;
     isReasoningComplete := None; isContentComplete := None; status := None;
     errorCode := None; servedBy := None |}.

Definition createLoadingAssistantMessage (nanoid version_id : jsstr) (startedAt : num) : Message :=
  {| key := nanoid; from := ASSISTANT; versions := [createMessageVersion version_id []];
     createdAt := Some startedAt; startedAt := Some startedAt; completedAt := None;
     durationMs := None; sources := None; reasoning := None; isReasoningStreaming := Some false;
     isReasoningComplete := Some false; isContentComplete := Some false;
     status := Some LOADING; errorCode := None; servedBy := None |}.

Inductive ContentPart :=
| TextPart (text : jsstr)
| ImagePart (url : jsstr).

Inductive message_content :=
| PlainContent (text : jsstr)
| PartsContent (parts : list ContentPart).

Definition buildMessageContent (text : jsstr) (imageUrls : list jsstr) : message_content :=
  match List.filter (fun url => trim url !== []) imageUrls with
  | [] => PlainContent text
  | validImages => PartsContent (TextPart text :: map (fun url => ImagePart (trim url)) validImages)
  end.

Definition getTextContent (content : message_content) : jsstr :=
  match content with
  | PlainContent text => text
  | PartsContent parts =>
      match find (fun part => match part with TextPart _ => true | ImagePart _ => false end) parts with
      | Some (TextPart text) => text
      | _ => []
      end
  end.

Record ChatCompletionMessage := { role : MessageRole; message_text : jsstr }.

Definition formatMessageForAPI (message : Message) : ChatCompletionMessage :=
  {| role := from message; message_text := getMessageContent message |}.

Definition isValidMessage (message : Message) : bool :=
  match versions message with
  | [] => false
  | _ => negb (bool_decide (from message = ASSISTANT) && negb (hasMessageContent message))
  end.

(** ** Reasoning tags ([message-reasoning-utils.ts]) *)

Definition OPEN_TAG : jsstr := js "<think>".
Definition CLOSE_TAG : jsstr := js "</think>".

(** [s.indexOf(needle, pos)] *)
Definition index_from (needle s : jsstr) (pos : nat) : option nat :=
  (fun i => (pos + i)%nat) <$> index_of needle (drop pos s).

Record ParsedThinkTags := {
  visibleContent : jsstr;
  parsed_reasoning : jsstr;
  hasUnclosedTag : bool
}.

(** The loop: visible parts, reasoning parts, and whether a tag is left open.
    [None] only when the fuel, one per closed tag, runs out. *)
Fixpoint think_loop (fuel : nat) (content : jsstr) (currentPos : nat)
    (visibleParts reasoningParts : list jsstr) : option (list jsstr * list jsstr * bool) :=
  match fuel with
  | O => None
  | S fuel =>
      match index_from OPEN_TAG content currentPos with
      | None =>
          Some (if (currentPos <? length content)%nat
                then visibleParts ++ [drop currentPos content] else visibleParts,
                reasoningParts, false)
      | Some openPos =>
          let visibleParts :=
            if (currentPos <? openPos)%nat
            then visibleParts ++ [slice currentPos openPos content] else visibleParts in
          match index_from CLOSE_TAG content (openPos + 7) with
          | None => Some (visibleParts, reasoningParts ++ [drop (openPos + 7) content], true)
          | Some closePos =>
              think_loop fuel content (closePos + 8) visibleParts
                (reasoningParts ++ [slice (openPos + 7) closePos content])
          end
      end
  end.

Definition parseThinkTags (content : jsstr) : ParsedThinkTags :=
  if negb (includes OPEN_TAG content) then
    {| visibleContent := content; parsed_reasoning := []; hasUnclosedTag := false |}
  else
    let '(visibleParts, reasoningParts, unclosed) :=
      default ([], [], false) (think_loop (S (length content)) content 0 [] []) in
    {| visibleContent := trim (join [] visibleParts);
       parsed_reasoning := trim (join [10%N; 10%N] reasoningParts);
       hasUnclosedTag := unclosed |}.

(** ** Timing ([message-timing-utils.ts]) *)

Definition option_or {A} (a b : option A) : option A := match a with Some _ => a | None => b end.

Definition completeAssistantTiming (message : Message) (completedAt : num) : Message :=
  if decide (from message = ASSISTANT) then
    let start := default completedAt (option_or (startedAt message) (createdAt message)) in
    with_timing message start completedAt (nmax zero (nsub completedAt start))
  else message.

Definition startReasoningTiming (message : Message) (now : num) : message_reasoning :=
  match reasoning message with
  | Some r =>
      {| r_content := r_content r; r_duration := r_duration r;
         r_startedAt := Some (default now (r_startedAt r));
         r_completedAt := r_completedAt r; r_durationMs := r_durationMs r |}
  | None =>
      {| r_content := []; r_duration := zero; r_startedAt := Some now;
         r_completedAt := None; r_durationMs := None |}
  end.

Definition reasoning_content (r : message_reasoning) (c : jsstr) : message_reasoning :=
  {| r_content := c; r_duration := r_duration r; r_startedAt := r_startedAt r;
     r_completedAt := r_completedAt r; r_durationMs := r_durationMs r |}.

Definition completeReasoningTiming (message : Message) (completedAt : num) : Message :=
  match reasoning message with
  | None => message
  | Some r =>
      match r_durationMs r with
      | Some _ => message
      | None =>
          let start := default completedAt (option_or (r_startedAt r) (startedAt message)) in
          let duration := nmax zero (nsub completedAt start) in
          with_reasoning message
            (Some {| r_content := r_content r; r_duration := nceil (ndiv duration (num_of_Z 1000));
                     r_startedAt := Some start; r_completedAt := Some completedAt;
                     r_durationMs := Some duration |})
      end
  end.

(** ** Streaming ([message-streaming-utils.ts]) *)

Definition processStreamingContent (message : Message) (contentChunk : jsstr) (started : num) : Message :=
  let fullContent := getMessageContent message ++ contentChunk in
  match reasoning message, includes OPEN_TAG fullContent with
  | None, false => with_streaming (updateCurrentVersionContent message fullContent) false
  | _, _ =>
      let parsed := parseThinkTags fullContent in
      let finalReasoning :=
        if nonempty (parsed_reasoning parsed)
        then Some (reasoning_content (startReasoningTiming message started) (parsed_reasoning parsed))
        else reasoning message in
      with_streaming (with_reasoning (updateCurrentVersionContent message fullContent) finalReasoning)
        (hasUnclosedTag parsed)
  end.

Inductive StreamChunkType := ReasoningChunk | ContentChunk.

Definition getAppendableChunk (currentContent chunk : jsstr) : jsstr :=
  if negb (nonempty currentContent) || negb (starts_with currentContent chunk) then chunk
  else drop (length currentContent) chunk.

Definition applyStreamingChunk (message : Message) (type : StreamChunkType) (chunk : jsstr)
    (started reasoned : num) : Message :=
  if decide (status message = Some ERROR) then message
  else
    match type with
    | ReasoningChunk =>
        let r := startReasoningTiming message started in
        with_status
          (with_streaming
             (with_reasoning message
                (Some (reasoning_content r (r_content r ++ getAppendableChunk (r_content r) chunk)))) true)
          STREAMING
    | ContentChunk =>
        let contentMessage :=
          processStreamingContent message (getAppendableChunk (getMessageContent message) chunk) started in
        with_status
          (if default false (isReasoningStreaming contentMessage) then contentMessage
           else completeReasoningTiming contentMessage reasoned) STREAMING
    end.

(** [a || b] on texts, an absent one being falsy. *)
Definition text_or (a b : jsstr) : jsstr := if nonempty a then a else b.

Definition finalizeMessage (message : Message) (apiReasoningContent : option jsstr)
    (started reasoned : num) : Message :=
  let current := getMessageContent message in
  let parsed := if includes OPEN_TAG current then Some (parseThinkTags current) else None in
  let visible := default current (visibleContent <$> parsed) in
  let finalReasoning :=
    text_or (default [] apiReasoningContent)
      (text_or (default [] (r_content <$> reasoning message))
         (default [] (parsed_reasoning <$> parsed))) in
  completeReasoningTiming
    (with_streaming
       (with_reasoning (updateCurrentVersionContent message visible)
          (if nonempty finalReasoning
           then Some (reasoning_content (startReasoningTiming message started) finalReasoning)
           else None)) false) reasoned.

Definition completeAssistantMessage (message : Message) (started reasoned completed : num) : Message :=
  completeAssistantTiming
    (with_status (finalizeMessage message None started reasoned) COMPLETE) completed.

Definition isAssistantMessageFinal (message : Message) : bool :=
  bool_decide (status message = Some COMPLETE) || bool_decide (status message = Some ERROR).

Definition isAssistantMessagePending (message : Message) : bool :=
  bool_decide (status message = Some LOADING) || bool_decide (status message = Some STREAMING).

Definition isPendingAssistantMessage (message : Message) : bool :=
  bool_decide (from message = ASSISTANT) && isAssistantMessagePending message.

(** A choice of a response: its content and its reasoning content, where present. *)
Record ChatCompletionChoice := {
  choice_content : option jsstr;
  choice_reasoning : option jsstr
}.

Definition hasChatCompletionChoice (choices : list ChatCompletionChoice) : bool :=
  match choices with [] => false | _ => true end.

Definition applyChatCompletionChoice (message : Message) (choice : ChatCompletionChoice)
    (started reasoned completed : num) : Message :=
  completeAssistantTiming
    (with_status
       (finalizeMessage
          (updateCurrentVersionContent message (default [] (choice_content choice)))
          (choice_reasoning choice) started reasoned) COMPLETE) completed.

Definition applyChatCompletionResponse (message : Message) (choices : list ChatCompletionChoice)
    (started reasoned completed : num) : option Message :=
  match choices with
  | [] => None
  | choice :: _ => Some (applyChatCompletionChoice message choice started reasoned completed)
  end.

(** The last pending message from the assistant: the messages before it, itself, and
    the ones after it. *)
Fixpoint last_pending (messages : list Message) : option (list Message * Message * list Message) :=
  match messages with
  | [] => None
  | m :: rest =>
      match last_pending rest with
      | Some (before, target, after) => Some (m :: before, target, after)
      | None => if isPendingAssistantMessage m then Some ([], m, rest) else None
      end
  end.

Definition sanitizeMessagesOnLoad (t : jsstr -> jsstr) (messages : list Message)
    (started reasoned completed : num) : list Message :=
  match last_pending messages with
  | None => messages
  | Some (before, target, after) =>
      let finalized := finalizeMessage target None started reasoned in
      let hasReasoning :=
        match reasoning finalized with Some r => nonempty (trim (r_content r)) | None => false end in
      let sanitized :=
        if hasMessageContent finalized || hasReasoning then
          completeAssistantTiming
            (with_streaming (with_status finalized COMPLETE) false) completed
        else
          completeAssistantTiming
            (with_streaming
               (with_status
                  (updateCurrentVersionContent finalized
                     (t API_REQUEST_ERROR ++ js ": " ++ t INTERRUPTED)) ERROR) false) completed in
      before ++ sanitized :: after
  end.

(** ** The last message ([message-update-utils.ts]) *)

Definition updateLastAssistantMessage (messages : list Message) (updater : Message -> Message)
    : list Message :=
  match last messages with
  | Some m =>
      if decide (from m = ASSISTANT)
      then take (length messages - 1) messages ++ [updater m] else messages
  | None => messages
  end.

Definition updateAssistantMessageWithError (messages : list Message) (errorMessage : jsstr)
    (code : option jsstr) (title : jsstr) (completed : num) : list Message :=
  updateLastAssistantMessage messages (fun message =>
    completeAssistantTiming
      (with_error
         (with_streaming
            (with_status
               (updateCurrentVersionContent message (title ++ js ": " ++ errorMessage)) ERROR) false)
         (match code with
          | Some c => if nonempty c then Some c else None
          | None => None
          end)) completed).

(** ** The conversation ([conversation-message-utils.ts]) *)

(** The identifiers that the calls of [nanoid()] return for one message. *)
Record fresh_ids := { message_id : jsstr; version_id : jsstr }.

Definition loading_message (ids : fresh_ids) (now : num) : Message :=
  createLoadingAssistantMessage (message_id ids) (version_id ids) now.

Definition appendUserMessagePair (messages : list Message) (content : jsstr)
    (user_ids assistant_ids : fresh_ids) (submittedAt : num) : list Message :=
  messages ++ [createUserMessage (message_id user_ids) (version_id user_ids) content submittedAt;
               loading_message assistant_ids submittedAt].

(** [messages.findIndex(message => message.key === messageKey)] with the message. *)
Fixpoint find_key (messages : list Message) (messageKey : jsstr) : option (nat * Message) :=
  match messages with
  | [] => None
  | m :: rest =>
      if key m === messageKey then Some (0%nat, m)
      else (fun hit => (S hit.1, hit.2)) <$> find_key rest messageKey
  end.

Definition createRegeneratedMessages (messages : list Message) (messageKey : jsstr)
    (ids : fresh_ids) (now : num) : option (list Message) :=
  match find_key messages messageKey with
  | None => None
  | Some (messageIndex, m) =>
      Some (if decide (from m = USER)
            then take (messageIndex + 1) messages ++ [loading_message ids now]
            else take messageIndex messages ++ [loading_message ids now])
  end.

Definition removeMessageByKey (messages : list Message) (messageKey : jsstr) : list Message :=
  List.filter (fun message => key message !== messageKey) messages.

(** Backwards from the index. *)
Definition getPreviousUserMessage (messages : list Message) (beforeIndex : nat) : option Message :=
  find (fun m => bool_decide (from m = USER)) (rev (take beforeIndex messages)).

Record ApplyMessageEditResult := { edited_messages : list Message; shouldSend : bool }.

Definition edit_message (messageKey content : jsstr) (shouldSubmit : bool) (submittedAt : num)
    (message : Message) : Message :=
  if key message === messageKey then
    with_created (updateCurrentVersionContent message content)
      (if shouldSubmit then Some submittedAt else createdAt message)
  else message.

Definition applyMessageEdit (messages : list Message) (messageKey content : jsstr)
    (shouldSubmit : bool) (ids : fresh_ids) (submittedAt : num) : option ApplyMessageEditResult :=
  match find_key messages messageKey with
  | None => None
  | Some (messageIndex, m) =>
      let updatedMessages := map (edit_message messageKey content shouldSubmit submittedAt) messages in
      Some (if negb shouldSubmit || negb (bool_decide (from m = USER))
            then {| edited_messages := updatedMessages; shouldSend := false |}
            else {| edited_messages := take (messageIndex + 1) updatedMessages
                                       ++ [loading_message ids submittedAt];
                    shouldSend := true |})
  end.

Definition getEditingMessageContent (messages : list Message) (editingKey : option jsstr) : jsstr :=
  match editingKey with
  | None => []
  | Some k =>
      if nonempty k then
        match find_key messages k with Some (_, m) => getMessageContent m | None => [] end
      else []
  end.

Record ChatMessageRenderState := {
  alwaysShowActions : bool;
  render_content : jsstr;
  isEditing : bool
}.

Definition getChatMessageRenderState (messages : list Message) (message : Message)
    (messageIndex : nat) (editingKey : option jsstr) : ChatMessageRenderState :=
  {| alwaysShowActions := (S messageIndex =? length messages)%nat
                          && bool_decide (from message = ASSISTANT);
     render_content := getMessageContent message;
     isEditing := match editingKey with Some k => k === key message | None => false end |}.

(** ** What is shown ([message-content-utils.ts], [message-action-utils.ts],
    [message-error-utils.ts], [message-editor-utils.ts]) *)

Definition shouldShowMessageLoader (message : Message) (isAssistant : bool) (versionContent : jsstr)
    : bool :=
  isAssistant && negb (default false (isReasoningStreaming message))
  && (bool_decide (status message = Some LOADING)
      || (bool_decide (status message = Some STREAMING) && negb (nonempty versionContent))).

Definition shouldShowMessageContent (message : Message) (versionContent : jsstr) : bool :=
  (bool_decide (from message = USER) || negb (default false (isReasoningStreaming message)))
  && nonempty versionContent.

Definition getDisplayContent (message : Message) (versionContent : jsstr) : jsstr :=
  if negb (bool_decide (from message = ASSISTANT)) then versionContent
  else if negb (includes OPEN_TAG versionContent) then versionContent
  else visibleContent (parseThinkTags versionContent).

(** [reasoningContent] is present exactly when [hasReasoning] is true. *)
Record MessageContentState := {
  displayContent : jsstr;
  hasSources : bool;
  state_isAssistant : bool;
  showLoader : bool;
  showMessageContent : bool;
  state_sources : list source;
  reasoningContent : option jsstr
}.

Definition getMessageContentState (message : Message) (versionContent : jsstr) : MessageContentState :=
  let isAssistant := bool_decide (from message = ASSISTANT) in
  let sources := default [] (sources message) in
  let content := if isAssistant then default [] (r_content <$> reasoning message) else [] in
  {| displayContent := getDisplayContent message versionContent;
     hasSources := (0 <? length sources)%nat;
     state_isAssistant := isAssistant;
     showLoader := shouldShowMessageLoader message isAssistant versionContent;
     showMessageContent := shouldShowMessageContent message versionContent;
     state_sources := sources;
     reasoningContent := if nonempty content then Some content else None |}.

Record MessageActionState := {
  action_content : jsstr;
  hasContent : bool;
  action_isAssistant : bool;
  isUser : bool;
  isLoading : bool
}.

Definition getMessageActionState (message : Message) : MessageActionState :=
  {| action_content := getMessageContent message;
     hasContent := hasMessageContent message;
     action_isAssistant := bool_decide (from message = ASSISTANT);
     isUser := bool_decide (from message = USER);
     isLoading := isAssistantMessagePending message |}.

Definition isErrorMessage (message : Message) : bool := bool_decide (status message = Some ERROR).

Inductive error_kind := GenericError | ModelPriceError.

Definition getMessageErrorState (message : Message) : option (jsstr * error_kind) :=
  if negb (isErrorMessage message) then None
  else Some (text_or (getMessageContent message) (js "An unknown error occurred"),
             match errorCode message with
             | Some (Some code) =>
                 if code === js "model_price_error" then ModelPriceError else GenericError
             | _ => GenericError
             end).

Record MessageEditorState := { canSave : bool; hasChanged : bool; showSaveAndSubmit : bool }.

Definition getMessageEditorState (message : Message) (editText originalText : jsstr)
    : MessageEditorState :=
  let hasText := nonempty (trim editText) in
  let hasChanged := editText !== originalText in
  {| canSave := hasText && hasChanged; hasChanged := hasChanged;
     showSaveAndSubmit := bool_decide (from message = USER) |}.

(** ** The request ([streaming/payload-builder.ts]) *)

Record PlaygroundConfig := {
  model : jsstr;
  clientKey : jsstr;
  temperature : num;
  top_p : num;
  max_tokens : num;
  frequency_penalty : num;
  presence_penalty : num;
  seed : option num;
  stream : bool
}.

Record ParameterEnabled := {
  use_temperature : bool;
  use_top_p : bool;
  use_max_tokens : bool;
  use_frequency_penalty : bool;
  use_presence_penalty : bool;
  use_seed : bool
}.

Record ChatCompletionRequest := {
  req_model : jsstr;
  req_messages : list ChatCompletionMessage;
  req_stream : bool;
  req_temperature : option num;
  req_top_p : option num;
  req_max_tokens : option num;
  req_frequency_penalty : option num;
  req_presence_penalty : option num;
  req_seed : option num
}.

Definition only_if {A} (enabled : bool) (a : A) : option A := if enabled then Some a else None.

Definition buildChatCompletionPayload (messages : list Message) (config : PlaygroundConfig)
    (enabled : ParameterEnabled) : ChatCompletionRequest :=
  {| req_model := model config;
     req_messages := map formatMessageForAPI (List.filter isValidMessage messages);
     req_stream := stream config;
     req_temperature := only_if (use_temperature enabled) (temperature config);
     req_top_p := only_if (use_top_p enabled) (top_p config);
     req_max_tokens := only_if (use_max_tokens enabled) (max_tokens config);
     req_frequency_penalty := only_if (use_frequency_penalty enabled) (frequency_penalty config);
     req_presence_penalty := only_if (use_presence_penalty enabled) (presence_penalty config);
     req_seed := if use_seed enabled then seed config else None |}.

(** ** Tagged texts *)

(** Visible parts, each followed by a closed thought, then a visible end and perhaps
    a thought that is still open. *)
Fixpoint tagged (segments : list (jsstr * jsstr)) (tail : jsstr) (opened : option jsstr) : jsstr :=
  match segments with
  | [] => tail ++ match opened with Some r => OPEN_TAG ++ r | None => [] end
  | (visible, thought) :: segments =>
      visible ++ OPEN_TAG ++ thought ++ CLOSE_TAG ++ tagged segments tail opened
  end.

Definition well_tagged (segments : list (jsstr * jsstr)) (tail : jsstr) (opened : option jsstr) : Prop :=
  Forall (fun seg => includes OPEN_TAG seg.1 = false /\ includes CLOSE_TAG seg.2 = false) segments
  /\ includes OPEN_TAG tail = false
  /\ match opened with Some r => includes CLOSE_TAG r = false | None => True end.

Definition thoughts (segments : list (jsstr * jsstr)) (opened : option jsstr) : list jsstr :=
  segments.*2 ++ option_list opened.

Definition is_present {A} (o : option A) : bool := match o with Some _ => true | None => false end.

Lemma join_nil_concat ps : join [] ps = concat ps.
Proof.
  induction ps as [|p [|q ps] IH]; [done|cbn; by rewrite app_nil_r|].
  change (p ++ [] ++ join [] (q :: ps) = p ++ concat (q :: ps)). by rewrite IH.
Qed.

Lemma drop_app_here {A} (pre s : list A) n : n = length pre -> drop n (pre ++ s) = s.
Proof. intros ->. apply drop_app_length. Qed.

Lemma index_from_needle c n pre v rest :
  c ∉ n -> includes (c :: n) v = false ->
  index_from (c :: n) (pre ++ v ++ (c :: n) ++ rest) (length pre) = Some (length pre + length v)%nat.
Proof. intros Hc Hv. unfold index_from. by rewrite drop_app_length, index_of_needle. Qed.

Lemma index_from_missing n pre v :
  includes n v = false -> index_from n (pre ++ v) (length pre) = None.
Proof.
  unfold index_from, includes. rewrite drop_app_length. by destruct (index_of n v).
Qed.

Lemma OPEN_TAG_head : exists n, OPEN_TAG = ch "<" :: n /\ ch "<" ∉ n.
Proof. exists (js "think>"). split; [done|]. cbv. set_solver. Qed.

Lemma CLOSE_TAG_head : exists n, CLOSE_TAG = ch "<" :: n /\ ch "<" ∉ n.
Proof. exists (js "/think>"). split; [done|]. cbv. set_solver. Qed.

Lemma find_open pre v rest :
  includes OPEN_TAG v = false ->
  index_from OPEN_TAG (pre ++ v ++ OPEN_TAG ++ rest) (length pre) = Some (length pre + length v)%nat.
Proof. destruct OPEN_TAG_head as (n & -> & Hn). intros Hv. by apply index_from_needle. Qed.

Lemma find_close pre r rest :
  includes CLOSE_TAG r = false ->
  index_from CLOSE_TAG (pre ++ r ++ CLOSE_TAG ++ rest) (length pre) = Some (length pre + length r)%nat.
Proof. destruct CLOSE_TAG_head as (n & -> & Hn). intros Hr. by apply index_from_needle. Qed.

Lemma length_tags : (length OPEN_TAG = 7 /\ length CLOSE_TAG = 8)%nat.
Proof. done. Qed.

(** The visible parts grow by the text between the positions. *)
Lemma push_visible (parts : list jsstr) pre v rest :
  concat (if (length pre <? length pre + length v)%nat
          then parts ++ [slice (length pre) (length pre + length v) (pre ++ v ++ rest)] else parts)
  = concat parts ++ v.
Proof.
  case Nat.ltb_spec; intros Hl.
  - rewrite concat_app. cbn. rewrite app_nil_r. f_equal. unfold slice.
    rewrite drop_app_length. replace (_ + _ - _)%nat with (length v) by lia. apply take_app_length.
  - destruct v; cbn in Hl; [|lia]. by rewrite app_nil_r.
Qed.

(** One closed thought is one turn of the loop. *)
Lemma think_loop_step fuel pre v r rest vis rs :
  includes OPEN_TAG v = false -> includes CLOSE_TAG r = false ->
  exists vis',
    think_loop (S fuel) (pre ++ v ++ OPEN_TAG ++ r ++ CLOSE_TAG ++ rest) (length pre) vis rs
    = think_loop fuel ((pre ++ v ++ OPEN_TAG ++ r ++ CLOSE_TAG) ++ rest)
        (length (pre ++ v ++ OPEN_TAG ++ r ++ CLOSE_TAG)) vis' (rs ++ [r])
    /\ concat vis' = concat vis ++ v.
Proof.
  intros Hv Hr. cbn [think_loop]. rewrite find_open by done.
  assert (Heq1 : pre ++ v ++ OPEN_TAG ++ r ++ CLOSE_TAG ++ rest
                 = (pre ++ v ++ OPEN_TAG) ++ r ++ CLOSE_TAG ++ rest) by by rewrite <- !app_assoc.
  assert (Hlen1 : (length pre + length v + 7)%nat = length (pre ++ v ++ OPEN_TAG))
    by (rewrite !length_app, ?(proj1 length_tags); lia).
  assert (Hlen2 : (length (pre ++ v ++ OPEN_TAG) + length r + 8)%nat
                  = length (pre ++ v ++ OPEN_TAG ++ r ++ CLOSE_TAG))
    by (rewrite !length_app, ?(proj1 length_tags), ?(proj2 length_tags); lia).
  assert (Heq2 : (pre ++ v ++ OPEN_TAG ++ r ++ CLOSE_TAG) ++ rest
                 = pre ++ v ++ OPEN_TAG ++ r ++ CLOSE_TAG ++ rest) by by rewrite <- !app_assoc.
  assert (Hslice : slice (length (pre ++ v ++ OPEN_TAG)) (length (pre ++ v ++ OPEN_TAG) + length r)
                     (pre ++ v ++ OPEN_TAG ++ r ++ CLOSE_TAG ++ rest) = r).
  { rewrite Heq1. unfold slice. rewrite drop_app_length.
    replace (_ + _ - _)%nat with (length r) by lia. apply take_app_length. }
  assert (Hfind : index_from CLOSE_TAG (pre ++ v ++ OPEN_TAG ++ r ++ CLOSE_TAG ++ rest)
                    (length (pre ++ v ++ OPEN_TAG)) = Some (length (pre ++ v ++ OPEN_TAG) + length r)%nat)
    by (rewrite Heq1; by apply find_close).
  eexists. split; [|apply (push_visible vis pre v (OPEN_TAG ++ r ++ CLOSE_TAG ++ rest))].
  rewrite Hlen1, Hfind, Hslice, Hlen2, Heq2. reflexivity.
Qed.

(** The end of the text, perhaps with an open thought. *)
Lemma think_loop_end fuel pre tail opened vis rs :
  well_tagged [] tail opened ->
  exists vis',
    think_loop (S fuel) (pre ++ tagged [] tail opened) (length pre) vis rs
    = Some (vis', rs ++ option_list opened, is_present opened)
    /\ concat vis' = concat vis ++ tail.
Proof.
  intros (_ & Htail & Hopen). cbn [think_loop tagged].
  destruct opened as [r|]; cbn [option_list is_present].
  - rewrite find_open by done.
    assert (Heq : pre ++ tail ++ OPEN_TAG ++ r = (pre ++ tail ++ OPEN_TAG) ++ r)
      by by rewrite <- !app_assoc.
    assert (Hlen : (length pre + length tail + 7)%nat = length (pre ++ tail ++ OPEN_TAG))
      by (rewrite !length_app, ?(proj1 length_tags); lia).
    eexists. split; [|apply push_visible].
    by rewrite Hlen, Heq, index_from_missing, drop_app_length, <- Heq.
  - rewrite app_nil_r, index_from_missing by done. eexists. split; [by rewrite app_nil_r|].
    rewrite length_app. case Nat.ltb_spec; intros Hl.
    + rewrite drop_app_length, concat_app. cbn. by rewrite app_nil_r.
    + destruct tail; cbn in Hl; [by rewrite app_nil_r|lia].
Qed.

Lemma think_loop_tagged segments tail opened : well_tagged segments tail opened ->
  forall fuel pre visibleParts reasoningParts,
  (length segments < fuel)%nat ->
  exists visible',
    think_loop fuel (pre ++ tagged segments tail opened) (length pre) visibleParts reasoningParts
      = Some (visible', reasoningParts ++ thoughts segments opened, is_present opened)
    /\ concat visible' = concat visibleParts ++ concat segments.*1 ++ tail.
Proof.
  intros (Hsegs & Hend). unfold thoughts.
  induction Hsegs as [|[v r] segments [Hv Hr] _ IH]; intros fuel pre vis rs Hfuel;
    (destruct fuel as [|fuel]; [cbn in Hfuel; lia|]).
  - by apply think_loop_end.
  - cbn [tagged fst snd] in *.
    destruct (think_loop_step fuel pre v r (tagged segments tail opened) vis rs Hv Hr) as (vis1 & -> & Hcat1).
    destruct (IH fuel (pre ++ v ++ OPEN_TAG ++ r ++ CLOSE_TAG) vis1 (rs ++ [r])) as (out & -> & Hcat);
      [cbn in Hfuel; lia|].
    exists out. split; [by rewrite <- app_assoc|]. rewrite Hcat, Hcat1. cbn. by rewrite <- !app_assoc.
Qed.

(** Every text is written in one of these ways. *)
Lemma tagged_decomposition_bound n : forall content, (length content <= n)%nat ->
  exists segments tail opened,
    well_tagged segments tail opened /\ content = tagged segments tail opened.
Proof.
  induction n as [n IH] using lt_wf_ind. intros content Hn.
  destruct (index_of OPEN_TAG content) as [i|] eqn:Hi.
  2: { exists [], content, None. split; [|by rewrite (app_nil_r content : tagged [] content None = content)].
       split; [constructor|]. split; [|done]. unfold includes. by rewrite Hi. }
  assert (Hv : includes OPEN_TAG (take i content) = false) by by apply index_of_before.
  destruct (index_of_Some _ _ _ Hi) as [[b Hb] _]. set (v := take i content) in *.
  destruct (index_of CLOSE_TAG b) as [j|] eqn:Hj.
  - assert (Hr : includes CLOSE_TAG (take j b) = false) by by apply index_of_before.
    destruct (index_of_Some _ _ _ Hj) as [[rest Hrest] _]. set (r := take j b) in *.
    assert (Hlen : (length rest < n)%nat).
    { rewrite Hb, Hrest, !length_app, (proj1 length_tags), (proj2 length_tags) in Hn. lia. }
    destruct (IH (length rest) Hlen rest (Nat.le_refl _)) as (segs & tail & opened & [Hsegs Hend] & ->).
    exists ((v, r) :: segs), tail, opened. split; [by split; [constructor|]|].
    cbn [tagged]. by rewrite <- Hrest.
  - exists [], v, (Some b). split; [|done]. split; [constructor|]. split; [done|].
    unfold includes. by rewrite Hj.
Qed.

(** Reading a written text. *)
Lemma parseThinkTags_tagged segments tail opened :
  well_tagged segments tail opened -> thoughts segments opened <> [] ->
  parseThinkTags (tagged segments tail opened) =
    {| visibleContent := trim (concat segments.*1 ++ tail);
       parsed_reasoning := trim (join [10%N; 10%N] (thoughts segments opened));
       hasUnclosedTag := is_present opened |}.
Proof.
  intros Hwell Hsome. unfold parseThinkTags.
  assert (Hin : includes OPEN_TAG (tagged segments tail opened) = true).
  { apply includes_spec. destruct segments as [|[v r] segments]; cbn [tagged].
    - destruct opened as [r|]; [by exists tail, r|done].
    - by eexists v, _. }
  rewrite Hin. cbn [negb].
  destruct (think_loop_tagged segments tail opened Hwell (S (length (tagged segments tail opened))) [] [] [])
    as (vis & Hloop & Hcat).
  { clear. induction segments as [|[v r] segments IH]; cbn [tagged length] in *; [lia|].
    rewrite !length_app, (proj1 length_tags), (proj2 length_tags). lia. }
  cbn [app length] in Hloop. rewrite Hloop. cbv beta iota delta [default from_option Datatypes.id].
  by rewrite join_nil_concat, Hcat.
Qed.

(** C18. Every text is visible parts and thoughts between tags, the last one perhaps
    open, and the parser returns exactly these: the visible parts in a row, the
    thoughts as paragraphs, both trimmed, and whether a thought is open; a text
    without a tag is returned as it is. *)
Theorem parseThinkTags_spec content :
  exists segments tail opened,
    well_tagged segments tail opened /\ content = tagged segments tail opened
    /\ parseThinkTags content =
       match thoughts segments opened with
       | [] => {| visibleContent := content; parsed_reasoning := []; hasUnclosedTag := false |}
       | paragraphs => {| visibleContent := trim (concat segments.*1 ++ tail);
                          parsed_reasoning := trim (join [10%N; 10%N] paragraphs);
                          hasUnclosedTag := is_present opened |}
       end.
Proof.
  destruct (tagged_decomposition_bound (length content) content (Nat.le_refl _))
    as (segments & tail & opened & Hwell & ->).
  exists segments, tail, opened. split; [done|]. split; [done|].
  destruct (thoughts segments opened) as [|p ps] eqn:Ht.
  - unfold thoughts in Ht. apply app_nil in Ht as [Hs Ho].
    destruct segments; [|done]. destruct opened; [done|].
    destruct Hwell as (_ & Htail & _). unfold parseThinkTags. cbn [tagged]. by rewrite app_nil_r, Htail.
  - rewrite parseThinkTags_tagged by (rewrite ?Ht; done). by rewrite Ht.
Qed.

(** ** Streaming into a message *)

Definition reasoning_text (m : Message) : jsstr := default [] (r_content <$> reasoning m).

Lemma content_update m c : getMessageContent (updateCurrentVersionContent m c) = c.
Proof. done. Qed.

Lemma parse_untagged c :
  includes OPEN_TAG c = false ->
  parseThinkTags c = {| visibleContent := c; parsed_reasoning := []; hasUnclosedTag := false |}.
Proof. intros Hc. unfold parseThinkTags. by rewrite Hc. Qed.

Lemma text_or_nil_l b : text_or [] b = b.
Proof. done. Qed.

Lemma text_or_nil_r a : text_or a [] = a.
Proof. by destruct a. Qed.

Lemma completeReasoningTiming_same m t :
  versions (completeReasoningTiming m t) = versions m /\ from (completeReasoningTiming m t) = from m
  /\ status (completeReasoningTiming m t) = status m
  /\ reasoning_text (completeReasoningTiming m t) = reasoning_text m.
Proof.
  unfold completeReasoningTiming, reasoning_text. destruct (reasoning m) as [r|] eqn:Hr; [|by rewrite Hr].
  destruct (r_durationMs r); cbn; by rewrite ?Hr.
Qed.

Lemma completeAssistantTiming_same m t :
  versions (completeAssistantTiming m t) = versions m /\ from (completeAssistantTiming m t) = from m
  /\ status (completeAssistantTiming m t) = status m
  /\ reasoning_text (completeAssistantTiming m t) = reasoning_text m.
Proof. unfold completeAssistantTiming. by destruct (decide _). Qed.

Lemma content_of_versions m m' : versions m = versions m' -> getMessageContent m = getMessageContent m'.
Proof. unfold getMessageContent, getCurrentVersion. by intros ->. Qed.

Lemma processStreamingContent_spec m chunk t :
  let m' := processStreamingContent m chunk t in
  let full := getMessageContent m ++ chunk in
  getMessageContent m' = full /\ from m' = from m /\ status m' = status m
  /\ reasoning_text m' = text_or (parsed_reasoning (parseThinkTags full)) (reasoning_text m).
Proof.
  cbv zeta. unfold processStreamingContent.
  destruct (reasoning m) as [r|] eqn:Hr, (includes OPEN_TAG (getMessageContent m ++ chunk)) eqn:Hi.
  all: try (rewrite (parse_untagged _ Hi)).
  all: unfold reasoning_text; cbn; rewrite ?Hr; try done.
  all: unfold text_or; by destruct (nonempty (parsed_reasoning _)).
Qed.

(** A chunk of content is appended, and a thought found in the content so far becomes
    the reasoning. *)
Lemma applyStreamingChunk_content m chunk t1 t2 :
  status m <> Some ERROR ->
  let m' := applyStreamingChunk m ContentChunk chunk t1 t2 in
  let full := getMessageContent m ++ getAppendableChunk (getMessageContent m) chunk in
  getMessageContent m' = full /\ from m' = from m /\ status m' = Some STREAMING
  /\ reasoning_text m' = text_or (parsed_reasoning (parseThinkTags full)) (reasoning_text m).
Proof.
  intros Hst. cbv zeta. unfold applyStreamingChunk. rewrite decide_False by done.
  destruct (processStreamingContent_spec m (getAppendableChunk (getMessageContent m) chunk) t1)
    as (Hc & Hf & _ & Hr).
  destruct (default false _); [done|].
  destruct (completeReasoningTiming_same
    (processStreamingContent m (getAppendableChunk (getMessageContent m) chunk) t1) t2) as (Hv & Hf' & _ & Hr').
  split_and!; cbn.
  - rewrite <- Hc. by apply content_of_versions.
  - by rewrite Hf'.
  - done.
  - rewrite <- Hr, <- Hr'. done.
Qed.

Lemma startReasoning_content m t : r_content (startReasoningTiming m t) = reasoning_text m.
Proof. unfold startReasoningTiming, reasoning_text. by destruct (reasoning m). Qed.

Lemma applyStreamingChunk_reasoning m chunk t1 t2 :
  status m <> Some ERROR ->
  let m' := applyStreamingChunk m ReasoningChunk chunk t1 t2 in
  getMessageContent m' = getMessageContent m /\ from m' = from m /\ status m' = Some STREAMING
  /\ reasoning_text m' = reasoning_text m ++ getAppendableChunk (reasoning_text m) chunk.
Proof.
  intros Hst. cbv zeta. unfold applyStreamingChunk. rewrite decide_False by done.
  split_and!; try done. unfold reasoning_text at 1. cbn. by rewrite startReasoning_content.
Qed.

(** The end of a message keeps its visible content, and its reasoning, or the
    thoughts in its content when it has none. *)
Lemma finalizeMessage_spec m api t1 t2 :
  let m' := finalizeMessage m api t1 t2 in
  let parsed := parseThinkTags (getMessageContent m) in
  getMessageContent m' = visibleContent parsed /\ from m' = from m /\ status m' = status m
  /\ reasoning_text m' = text_or (default [] api) (text_or (reasoning_text m) (parsed_reasoning parsed)).
Proof.
  cbv zeta. unfold finalizeMessage.
  match goal with |- context [completeReasoningTiming ?x t2] =>
    destruct (completeReasoningTiming_same x t2) as (Hv & Hf & Hs & Hr); set (y := x) in * end.
  rewrite Hf, Hs, Hr, (content_of_versions _ _ Hv). subst y. clear.
  assert (Hvis : default (getMessageContent m)
      (visibleContent <$> (if includes OPEN_TAG (getMessageContent m)
                           then Some (parseThinkTags (getMessageContent m)) else None))
      = visibleContent (parseThinkTags (getMessageContent m))).
  { destruct (includes _ _) eqn:Hi; [done|]. by rewrite parse_untagged. }
  assert (Hpar : default []
      (parsed_reasoning <$> (if includes OPEN_TAG (getMessageContent m)
                             then Some (parseThinkTags (getMessageContent m)) else None))
      = parsed_reasoning (parseThinkTags (getMessageContent m))).
  { destruct (includes _ _) eqn:Hi; [done|]. by rewrite parse_untagged. }
  rewrite Hvis, Hpar. fold (reasoning_text m).
  split_and!; try done. unfold reasoning_text at 1. cbn.
  destruct (nonempty (text_or _ _)) eqn:Hne; cbn; [done|]. by destruct (text_or _ _).
Qed.

Lemma completeAssistantMessage_spec m t1 t2 t3 :
  let m' := completeAssistantMessage m t1 t2 t3 in
  let parsed := parseThinkTags (getMessageContent m) in
  getMessageContent m' = visibleContent parsed /\ from m' = from m /\ status m' = Some COMPLETE
  /\ reasoning_text m' = text_or (reasoning_text m) (parsed_reasoning parsed).
Proof.
  cbv zeta. unfold completeAssistantMessage.
  match goal with |- context [completeAssistantTiming ?x t3] =>
    destruct (completeAssistantTiming_same x t3) as (Hv & Hf & Hs & Hr); set (y := x) in * end.
  rewrite Hf, Hs, Hr, (content_of_versions _ _ Hv). subst y.
  destruct (finalizeMessage_spec m None t1 t2) as (Hc & Hf' & _ & Hr').
  by split_and!.
Qed.

Lemma includes_app_l n a b : includes n (a ++ b) = false -> includes n a = false.
Proof.
  intros Hab. apply not_true_iff_false. intros (x & y & ->)%includes_spec.
  apply not_true_iff_false in Hab. apply Hab, includes_spec. exists x, (y ++ b).
  by rewrite <- !app_assoc.
Qed.

(** No run of chunks starts by repeating the run before it: the code takes such a
    chunk for a snapshot of the whole text and drops the repeated part. *)
Definition no_restart (chunks : list jsstr) : Prop :=
  forall before run next after,
    chunks = before ++ run ++ next ++ after -> concat run <> [] -> next <> [] ->
    starts_with (concat run) (concat next) = false.

Lemma appendable_no_restart cur chunk :
  (cur <> [] -> starts_with cur chunk = false) -> getAppendableChunk cur chunk = chunk.
Proof.
  intros H. unfold getAppendableChunk. destruct cur as [|c cur]; [done|]. cbn [nonempty negb orb].
  by rewrite H.
Qed.

(** What a message shows after chunks of content and of reasoning. *)
Definition shows (m : Message) (contents reasonings : list jsstr) : Prop :=
  getMessageContent m = concat contents /\ from m = ASSISTANT /\ isAssistantMessagePending m = true
  /\ (includes OPEN_TAG (concat contents) = false -> reasoning_text m = concat reasonings)
  /\ (reasonings = [] -> nonempty (parsed_reasoning (parseThinkTags (concat contents))) = true ->
      reasoning_text m = parsed_reasoning (parseThinkTags (concat contents))).

Lemma pending_no_error m : isAssistantMessagePending m = true -> status m <> Some ERROR.
Proof.
  unfold isAssistantMessagePending. rewrite orb_true_iff, !bool_decide_eq_true. intros [->| ->]; done.
Qed.

Lemma streaming_pending m : status m = Some STREAMING -> isAssistantMessagePending m = true.
Proof. unfold isAssistantMessagePending. by intros ->. Qed.

Lemma shows_content m contents reasonings more t1 t2 :
  shows m contents reasonings ->
  (concat contents <> [] -> starts_with (concat contents) (concat more) = false) ->
  shows (applyStreamingChunk m ContentChunk (concat more) t1 t2) (contents ++ more) reasonings.
Proof.
  intros (Hc & Hf & Hs & Hu & Ht) Hno.
  destruct (applyStreamingChunk_content m (concat more) t1 t2 (pending_no_error m Hs)) as (Hc' & Hf' & Hs' & Hr').
  rewrite Hc, appendable_no_restart, <- concat_app in Hc', Hr' by done.
  split_and!; [done|congruence|by apply streaming_pending| |].
  - intros Hi. rewrite Hr', (parse_untagged _ Hi). apply Hu.
    rewrite concat_app in Hi. by eapply includes_app_l.
  - intros _ Hne. rewrite Hr'. unfold text_or. by rewrite Hne.
Qed.

Lemma shows_reasoning m contents reasonings more t1 t2 :
  shows m contents reasonings -> more <> [] ->
  (concat reasonings <> [] -> starts_with (concat reasonings) (concat more) = false) ->
  shows (applyStreamingChunk m ReasoningChunk (concat more) t1 t2) contents (reasonings ++ more).
Proof.
  intros (Hc & Hf & Hs & Hu & Ht) Hmore Hno.
  destruct (applyStreamingChunk_reasoning m (concat more) t1 t2 (pending_no_error m Hs)) as (Hc' & Hf' & Hs' & Hr').
  split_and!; [congruence|congruence|by apply streaming_pending| |].
  - intros Hi. rewrite Hr', (Hu Hi), appendable_no_restart by done. by rewrite concat_app.
  - intros [_ ?]%app_nil. done.
Qed.

(** The finished message. *)
Lemma shows_completed m contents reasonings t1 t2 t3 :
  shows m contents reasonings ->
  let m' := completeAssistantMessage m t1 t2 t3 in
  let parsed := parseThinkTags (concat contents) in
  status m' = Some COMPLETE /\ from m' = ASSISTANT /\ getMessageContent m' = visibleContent parsed
  /\ (includes OPEN_TAG (concat contents) = false -> reasoning_text m' = concat reasonings)
  /\ (reasonings = [] -> parsed_reasoning parsed <> [] -> reasoning_text m' = parsed_reasoning parsed).
Proof.
  intros (Hc & Hf & Hs & Hu & Ht). cbv zeta.
  destruct (completeAssistantMessage_spec m t1 t2 t3) as (Hc' & Hf' & Hs' & Hr').
  rewrite Hc in Hc', Hr'. split_and!; try done; [congruence| |].
  - intros Hi. rewrite Hr', (Hu Hi), (parse_untagged _ Hi). apply text_or_nil_r.
  - intros Hnil Hne.
    assert (Hn : nonempty (parsed_reasoning (parseThinkTags (concat contents))) = true)
      by (by destruct (parsed_reasoning _)).
    rewrite Hr', (Ht Hnil Hn). unfold text_or. by rewrite Hn.
Qed.

(** Deciding [no_restart]: every start, length of the run and length of the next one. *)
Definition no_restartb (chunks : list jsstr) : bool :=
  forallb (fun a => forallb (fun b => forallb (fun c =>
    let run := concat (take b (drop a chunks)) in
    let next := concat (take (S c) (drop (a + b) chunks)) in
    negb (nonempty run) || negb (starts_with run next) || (length chunks <? a + b + S c)%nat)
    (seq 0 (length chunks))) (seq 0 (S (length chunks)))) (seq 0 (S (length chunks))).

Lemma no_restartb_sound chunks : no_restartb chunks = true -> no_restart chunks.
Proof.
  unfold no_restartb. rewrite forallb_forall. intros H before run next after -> Hrun Hnext.
  destruct next as [|n next]; [done|]. set (chunks := before ++ run ++ (n :: next) ++ after) in *.
  assert (Hlen : length chunks = (length before + (length run + (S (length next) + length after)))%nat)
    by (subst chunks; rewrite !length_app; cbn; lia).
  specialize (H (length before)). rewrite in_seq, forallb_forall in H. specialize (H ltac:(lia) (length run)).
  rewrite in_seq, forallb_forall in H. specialize (H ltac:(lia) (length next)).
  rewrite in_seq in H. specialize (H ltac:(lia)).
  assert (Hr : take (length run) (drop (length before) chunks) = run)
    by (subst chunks; by rewrite drop_app_length, take_app_length).
  assert (Hn : take (S (length next)) (drop (length before + length run) chunks) = n :: next).
  { subst chunks. rewrite <- drop_drop, !drop_app_length.
    change (S (length next)) with (length (n :: next)). apply take_app_length. }
  cbv zeta in H. rewrite Hr, Hn in H.
  assert (Hne : nonempty (concat run) = true) by (by destruct (concat run)).
  rewrite Hne in H. cbn [negb orb] in H. apply orb_prop in H as [H|H]; [by apply negb_true_iff|].
  apply Nat.ltb_lt in H. lia.
Qed.

(** ** Where chunks are lost or kept too long *)

(** A chunk that repeats the text so far is dropped. *)
Example repeated_chunk_dropped :
  let m0 := createLoadingAssistantMessage (js "k") (js "v") zero in
  let m1 := applyStreamingChunk m0 ContentChunk (js "ha") zero zero in
  getMessageContent (applyStreamingChunk m1 ContentChunk (js "ha") zero zero) = js "ha".
Proof. reflexivity. Qed.

(** A half-received closing tag of an empty thought stays as the reasoning. *)
Example partial_tag_kept :
  let m0 := createLoadingAssistantMessage (js "k") (js "v") zero in
  let m1 := applyStreamingChunk m0 ContentChunk (js "<think></thi") zero zero in
  let m2 := applyStreamingChunk m1 ContentChunk (js "nk>Hi") zero zero in
  let m3 := completeAssistantMessage m2 zero zero zero in
  (getMessageContent m3, reasoning_text m3) = (js "Hi", js "</thi").
Proof. vm_compute. reflexivity. Qed.
