(* ===== verification/StreamRequest.v ===== *)
(** * Streamed chat requests ([features/playground/hooks/use-stream-request.ts])

    The controller that opens one event source at a time for the playground, as
    a step function on what happens to it: a request, a stop, the headers that an
    awaited promise delivers, and the events of any source ever opened, in any
    order.  Its client's callbacks are an interface; a callback may throw, which
    keeps the state reached so far.  With it the parsing of stream messages and
    errors ([lib/streaming/stream-utils.ts], [served-by.ts],
    [request-error-utils.ts]).

    A source that [close()] makes dispatch an event synchronously finds its request
    finished or overtaken, so such an event is one that the theorems cover. *)

From S2P Require Import Prelude JsString JsNumber JsValue JsJson PlaygroundMessages.

(** ** Messages of the stream ([stream-utils.ts]) *)

Definition STREAM_DONE_MESSAGE : jsstr := js "[DONE]".
Definition STREAM_CLOSED_READY_STATE : Z := 2.

(** [v?.[0]]; nothing below it is read of a value without it. *)
Definition first_item (v : jsval) : jsval :=
  match v with
  | JArr (x :: _) => x
  | JObj fs => default JUndefined (assoc fs (js "0"))
  | _ => JUndefined
  end.

(** [v?.key] *)
Definition opt_prop (v : jsval) (key : string) : jsval :=
  if is_nullish v then JUndefined else prop v (js key).

(** [v || undefined] *)
Definition or_undefined (v : jsval) : option jsval := if truthy v then Some v else None.

Record StreamErrorDetails := { sd_code : option jsval; sd_message : jsval }.

Definition parseStreamErrorDetails (data : option jsstr) : StreamErrorDetails :=
  let text := default [] data in
  let fallbackMessage := JStr (text_or text API_REQUEST_ERROR) in
  let fallback := {| sd_code := None; sd_message := fallbackMessage |} in
  if negb (nonempty text) then fallback
  else
    match json_parse text with
    | None => fallback
    | Some parsed =>
        let error := opt_prop parsed "error" in
        if negb (truthy error) then fallback
        else {| sd_code := or_undefined (prop error (js "code"));
                sd_message := js_or (prop error (js "message")) fallbackMessage |}
    end.

(** The updates of a message; [None] when parsing or reading it throws. *)
Definition parseStreamMessageUpdates (data : jsstr) : option (list (StreamChunkType * jsval)) :=
  match json_parse data with
  | None => None
  | Some chunk =>
      if is_nullish chunk then None
      else
        let delta := opt_prop (first_item (prop chunk (js "choices"))) "delta" in
        if negb (truthy delta) then Some []
        else
          let reasoning := prop delta (js "reasoning_content") in
          let content := prop delta (js "content") in
          Some ((if truthy reasoning then [(ReasoningChunk, reasoning)] else [])
                ++ (if truthy content then [(ContentChunk, content)] else []))
  end.

Definition isStreamDoneMessage (data : jsstr) : bool := data === STREAM_DONE_MESSAGE.

Definition isStreamClosedReadyState (readyState : option Z) : bool :=
  match readyState with Some r => (r =? STREAM_CLOSED_READY_STATE)%Z | None => false end.

Definition getStreamReadyStateError (eventReadyState status : option Z) : option jsstr :=
  match eventReadyState, status with
  | Some r, Some st =>
      if (STREAM_CLOSED_READY_STATE <=? r)%Z && negb (st =? 200)%Z
      then Some (js "HTTP " ++ string_of_Z st ++ js ": " ++ CONNECTION_CLOSED) else None
  | _, _ => None
  end.

(** ** The upstream that served a request ([served-by.ts]) *)

Definition SERVED_BY_HEADER : jsstr := js "X-Served-By".

Definition normalizeServedBy (value : option jsstr) : option jsstr :=
  match value with
  | Some v => if nonempty (trim v) then Some (trim v) else None
  | None => None
  end.

(** A header of the stream: one value or several. *)
Inductive header_value := OneHeader (v : jsstr) | ManyHeaders (vs : list jsstr).

Definition servedByFromStreamHeaders (headers : option (list (jsstr * header_value))) : option jsstr :=
  match headers with
  | None => None
  | Some hs =>
      match assoc hs (to_lower SERVED_BY_HEADER) with
      | Some (ManyHeaders vs) => normalizeServedBy (hd_error vs)
      | Some (OneHeader v) => normalizeServedBy (Some v)
      | None => None
      end
  end.

(** ** Failed requests ([request-error-utils.ts]) *)

(** Reading fields of an exception of unknown shape never throws. *)
Definition parseRequestErrorDetails (error : jsval) : StreamErrorDetails :=
  let data := opt_prop (opt_prop error "response") "data" in
  {| sd_code := or_undefined (opt_prop (opt_prop data "error") "code");
     sd_message := js_or (opt_prop data "message")
                     (js_or (opt_prop error "message") (JStr API_REQUEST_ERROR)) |}.

(** ** The client *)

(** [StreamRequestCallbacks]: what a controller calls, for the request [t]. *)
Class StreamClient (T C : Type) := {
  onUpdate : T -> StreamChunkType -> jsval -> io C unit;
  onComplete : T -> io C unit;
  onError : T -> jsval -> option jsval -> io C unit;
  onServedBy : T -> jsstr -> io C unit
}.

(** ** The controller *)

(** What the runtime and the client are asked, in order; a callback with the
    generation of its request. *)
Inductive call (T : Type) :=
| SetStreaming (streaming : bool)
| CreateSource (source : nat) (request : T)
| StartSource (source : nat)
| CloseSource (source : nat)
| Updated (source gen : nat) (request : T) (type : StreamChunkType) (chunk : jsval)
| Completed (source gen : nat) (request : T)
| Failed (source : option nat) (gen : nat) (request : T) (message : jsval)
| Served (source gen : nat) (request : T) (by_ : jsstr).
Arguments SetStreaming {T} _.
Arguments CreateSource {T} _ _.
Arguments StartSource {T} _.
Arguments CloseSource {T} _.
Arguments Updated {T} _ _ _ _ _.
Arguments Completed {T} _ _ _.
Arguments Failed {T} _ _ _ _.
Arguments Served {T} _ _ _ _.

(** A source and the variables of the listeners on it. *)
Record stream_source (T : Type) := {
  requestGeneration : nat;
  request_of : T;
  completed : bool
}.
Arguments requestGeneration {T} _.
Arguments request_of {T} _.
Arguments completed {T} _.

Record controller (T C : Type) := {
  active : option nat;
  generation : nat;
  opened : list (stream_source T);
  awaiting : list (nat * T);
  streaming : bool;
  client : C;
  trace : list (call T)
}.
Arguments active {T C} _.
Arguments generation {T C} _.
Arguments opened {T C} _.
Arguments awaiting {T C} _.
Arguments streaming {T C} _.
Arguments client {T C} _.
Arguments trace {T C} _.

(** What happens to the controller. *)
Inductive stream_event (T : Type) :=
| Send (request : T) (headersGiven starts : bool)
| HeadersReady (gen : nat) (starts : bool)
| HeadersFailed (gen : nat) (message : option jsstr)
| SourceOpen (source : nat) (headers : option (list (jsstr * header_value)))
| SourceMessage (source : nat) (data : option jsstr)
| SourceError (source : nat) (readyState : option Z) (data : option jsstr)
| SourceReadyState (source : nat) (readyState status : option Z)
| Stop
| Dispose.
Arguments Send {T} _ _ _.
Arguments HeadersReady {T} _ _.
Arguments HeadersFailed {T} _ _.
Arguments SourceOpen {T} _ _.
Arguments SourceMessage {T} _ _.
Arguments SourceError {T} _ _ _.
Arguments SourceReadyState {T} _ _ _.
Arguments Stop {T}.
Arguments Dispose {T}.

Section Controller.
Context {T C : Type} `{StreamClient T C}.
Local Open Scope io_scope.

Definition say (c : call T) (w : controller T C) : controller T C :=
  {| active := active w; generation := generation w; opened := opened w;
     awaiting := awaiting w; streaming := streaming w; client := client w;
     trace := trace w ++ [c] |}.

Definition put_active (a : option nat) (w : controller T C) : controller T C :=
  {| active := a; generation := generation w; opened := opened w;
     awaiting := awaiting w; streaming := streaming w; client := client w; trace := trace w |}.

Definition put_generation (g : nat) (w : controller T C) : controller T C :=
  {| active := active w; generation := g; opened := opened w;
     awaiting := awaiting w; streaming := streaming w; client := client w; trace := trace w |}.

Definition put_opened (o : list (stream_source T)) (w : controller T C) : controller T C :=
  {| active := active w; generation := generation w; opened := o;
     awaiting := awaiting w; streaming := streaming w; client := client w; trace := trace w |}.

Definition put_awaiting (a : list (nat * T)) (w : controller T C) : controller T C :=
  {| active := active w; generation := generation w; opened := opened w;
     awaiting := a; streaming := streaming w; client := client w; trace := trace w |}.

Definition put_streaming (b : bool) (w : controller T C) : controller T C :=
  {| active := active w; generation := generation w; opened := opened w;
     awaiting := awaiting w; streaming := b; client := client w; trace := trace w |}.

Definition put_client (c : C) (w : controller T C) : controller T C :=
  {| active := active w; generation := generation w; opened := opened w;
     awaiting := awaiting w; streaming := streaming w; client := c; trace := trace w |}.

(** [runtime.setStreaming(b)] *)
Definition setStreaming (b : bool) (w : controller T C) : controller T C :=
  say (SetStreaming b) (put_streaming b w).

(** [source?.close()] *)
Definition close (source : option nat) (w : controller T C) : controller T C :=
  match source with Some i => say (CloseSource i) w | None => w end.

Definition complete_source (i : nat) (w : controller T C) : controller T C :=
  put_opened (alter (fun s => {| requestGeneration := requestGeneration s;
                                 request_of := request_of s; completed := true |}) i (opened w)) w.

(** A call of the client. *)
Definition callback (c : call T) (m : io C unit) : io (controller T C) unit :=
  io_modify (say c);; io_on client put_client m.

Definition closeActiveSource (i : nat) (w : controller T C) : controller T C :=
  let w := close (Some i) w in
  if decide (active w = Some i) then setStreaming false (put_active None w) else w.

Definition isCurrent (i : nat) (s : stream_source T) (w : controller T C) : bool :=
  (generation w =? requestGeneration s)%nat && bool_decide (active w = Some i).

(** The guard of a listener: the source, unless it is not current or finished. *)
Definition listening (i : nat) (w : controller T C) : option (stream_source T) :=
  match opened w !! i with
  | Some s => if isCurrent i s w && negb (completed s) then Some s else None
  | None => None
  end.

Definition handleError (i : nat) (errorMessage : jsval) (errorCode : option jsval)
    : io (controller T C) unit := fun w =>
  match listening i w with
  | None => io_ret tt w
  | Some s =>
      (io_modify (complete_source i);;
       callback (Failed (Some i) (requestGeneration s) (request_of s) errorMessage) (onError (request_of s) errorMessage errorCode);;
       io_modify (closeActiveSource i)) w
  end.

(** From [runtime.createSource] on; [starts] is false when [stream()] throws. *)
Definition open_source (gen : nat) (request : T) (starts : bool) : io (controller T C) unit := fun w =>
  if negb (generation w =? gen)%nat then io_ret tt w
  else
    let i := length (opened w) in
    (io_modify (say (CreateSource i request));;
     io_modify (fun w => put_opened (opened w ++ [{| requestGeneration := gen; request_of := request;
                                                     completed := false |}]) w);;
     io_modify (put_active (Some i));;
     io_modify (setStreaming true);;
     if starts then io_modify (say (StartSource i))
     else handleError i (JStr STREAM_START_ERROR) None) w.

Definition send (request : T) (headersGiven starts : bool) : io (controller T C) unit := fun w =>
  let gen := S (generation w) in
  let previousSource := active w in
  (io_modify (put_generation gen);;
   io_modify (put_active None);;
   io_modify (close previousSource);;
   io_modify (setStreaming false);;
   if headersGiven then open_source gen request starts
   else io_modify (fun w => put_awaiting (awaiting w ++ [(gen, request)]) w)) w.

(** The promise of the headers of a request settles once. *)
Definition awaited (gen : nat) (w : controller T C) : option T :=
  snd <$> find (fun p => (p.1 =? gen)%nat) (awaiting w).

Definition settle (gen : nat) (w : controller T C) : controller T C :=
  put_awaiting (List.filter (fun p => negb (p.1 =? gen)%nat) (awaiting w)) w.

Definition headers_ready (gen : nat) (starts : bool) : io (controller T C) unit := fun w =>
  match awaited gen w with
  | None => io_ret tt w
  | Some request => (io_modify (settle gen);; open_source gen request starts) w
  end.

Definition headers_failed (gen : nat) (message : option jsstr) : io (controller T C) unit := fun w =>
  match awaited gen w with
  | None => io_ret tt w
  | Some request =>
      (io_modify (settle gen);;
       fun w =>
         if negb (generation w =? gen)%nat then io_ret tt w
         else
           let errorMessage := JStr (default STREAM_START_ERROR message) in
           callback (Failed None gen request errorMessage) (onError request errorMessage None) w) w
  end.

Definition on_open (i : nat) (headers : option (list (jsstr * header_value)))
    : io (controller T C) unit := fun w =>
  match opened w !! i with
  | None => io_ret tt w
  | Some s =>
      if negb (isCurrent i s w) then io_ret tt w
      else match servedByFromStreamHeaders headers with
           | Some by_ => callback (Served i (requestGeneration s) (request_of s) by_) (onServedBy (request_of s) by_) w
           | None => io_ret tt w
           end
  end.

Definition deliver_update (i : nat) (s : stream_source T) (update : StreamChunkType * jsval)
    : io (controller T C) unit :=
  callback (Updated i (requestGeneration s) (request_of s) update.1 update.2)
    (onUpdate (request_of s) update.1 update.2).

(** The body of the [try]. *)
Definition deliver_message (i : nat) (s : stream_source T) (data : jsstr) : io (controller T C) unit :=
  match parseStreamMessageUpdates data with
  | None => io_throw
  | Some updates => io_each (deliver_update i s) updates
  end.

Definition on_message (i : nat) (data : option jsstr) : io (controller T C) unit := fun w =>
  match listening i w with
  | None => io_ret tt w
  | Some s =>
      if isStreamDoneMessage (default [] data) then
        (io_modify (complete_source i);;
         io_modify (closeActiveSource i);;
         callback (Completed i (requestGeneration s) (request_of s)) (onComplete (request_of s))) w
      else
        io_catch (deliver_message i s (default [] data))
          (handleError i (JStr PARSE_ERROR) None) w
  end.

Definition on_error (i : nat) (readyState : option Z) (data : option jsstr)
    : io (controller T C) unit := fun w =>
  match listening i w with
  | None => io_ret tt w
  | Some _ =>
      if isStreamClosedReadyState readyState then io_ret tt w
      else let details := parseStreamErrorDetails data in
           handleError i (sd_message details) (sd_code details) w
  end.

Definition on_ready_state (i : nat) (readyState status : option Z) : io (controller T C) unit := fun w =>
  match listening i w with
  | None => io_ret tt w
  | Some _ =>
      match getStreamReadyStateError readyState status with
      | Some errorMessage => handleError i (JStr errorMessage) None w
      | None => io_ret tt w
      end
  end.

Definition cancel (notify : bool) (w : controller T C) : controller T C :=
  let activeSource := active w in
  let w := close activeSource (put_active None (put_generation (S (generation w)) w)) in
  if notify then setStreaming false w else w.

Definition stream_step (e : stream_event T) : io (controller T C) unit :=
  match e with
  | Send request headersGiven starts => send request headersGiven starts
  | HeadersReady gen starts => headers_ready gen starts
  | HeadersFailed gen message => headers_failed gen message
  | SourceOpen i headers => on_open i headers
  | SourceMessage i data => on_message i data
  | SourceError i readyState data => on_error i readyState data
  | SourceReadyState i readyState status => on_ready_state i readyState status
  | Stop => io_modify (cancel true)
  | Dispose => io_modify (cancel false)
  end.

(** The state after the events; an exception of a callback ends its event only. *)
Definition stream_run (events : list (stream_event T)) (w : controller T C) : controller T C :=
  fold_left (fun w e => (stream_step e w).2) events w.

Definition createStreamRequestController (c : C) : controller T C :=
  {| active := None; generation := 0; opened := []; awaiting := []; streaming := false;
     client := c; trace := [] |}.
End Controller.

(** ** The moves of the controller

    Every event is a sequence of these; the invariants are proved move by move. *)

Section Moves.
Context {T C : Type} `{StreamClient T C}.
Implicit Types w : controller T C.

(** Leaving the active source: [send] and [cancel]. *)
Definition leave w : controller T C :=
  close (active w) (put_active None (put_generation (S (generation w)) w)).

Definition add_source (gen : nat) (request : T) w : controller T C :=
  setStreaming true
    (put_active (Some (length (opened w)))
       (put_opened (opened w ++ [{| requestGeneration := gen; request_of := request;
                                    completed := false |}])
          (say (CreateSource (length (opened w)) request) w))).

(** [dispose] says whether the moves are those of [dispose()], which reports nothing. *)
Inductive move (dispose : bool) : relation (controller T C) :=
| move_leave w : move dispose w (setStreaming false (leave w))
| move_dispose w : dispose = true -> move dispose w (leave w)
| move_await w request : active w = None ->
    move dispose w (put_awaiting (awaiting w ++ [(generation w, request)]) w)
| move_settle w gen : move dispose w (settle gen w)
| move_open w request : active w = None ->
    (forall r, (generation w, r) ∉ awaiting w) -> move dispose w (add_source (generation w) request w)
| move_start w i : active w = Some i -> move dispose w (say (StartSource i) w)
| move_no_headers w request m c :
    move dispose w (put_client c (say (Failed None (generation w) request m) w))
| move_served w i s by_ c : opened w !! i = Some s -> isCurrent i s w = true ->
    move dispose w (put_client c (say (Served i (requestGeneration s) (request_of s) by_) w))
| move_update w i s type chunk c : listening i w = Some s ->
    move dispose w (put_client c (say (Updated i (requestGeneration s) (request_of s) type chunk) w))
| move_fail w i s m c : listening i w = Some s ->
    move dispose w (put_client c (say (Failed (Some i) (requestGeneration s) (request_of s) m) (complete_source i w)))
| move_close w i : (exists s, opened w !! i = Some s /\ completed s = true) -> active w = Some i ->
    move dispose w (closeActiveSource i w)
| move_done w i s c : listening i w = Some s ->
    move dispose w (put_client c (say (Completed i (requestGeneration s) (request_of s)) (closeActiveSource i (complete_source i w)))).

Lemma callback_result (c : call T) (m : io C unit) w :
  exists r c', callback c m w = (r, put_client c' (say c w)).
Proof.
  unfold callback, io_bind, io_modify, io_on. cbn. destruct (m (client w)) as [r c']. by exists r, c'.
Qed.

Lemma listening_spec i w s :
  listening i w = Some s <->
  opened w !! i = Some s /\ isCurrent i s w = true /\ completed s = false.
Proof.
  unfold listening. destruct (opened w !! i) as [s'|]; [|by split; [|intros []]].
  split.
  - destruct (isCurrent i s' w) eqn:Hc, (completed s') eqn:Hd; try done. by intros [= <-].
  - intros ([= ->] & -> & ->). done.
Qed.

Lemma isCurrent_spec i s w :
  isCurrent i s w = true <-> generation w = requestGeneration s /\ active w = Some i.
Proof. unfold isCurrent. by rewrite andb_true_iff, Nat.eqb_eq, bool_decide_eq_true. Qed.

(** What awaits headers is not newer than the controller, and a request that may
    still open a source has none. *)
Definition awaits_well w : Prop :=
  Forall (fun p => (p.1 <= generation w)%nat) (awaiting w)
  /\ (active w <> None -> forall r, (generation w, r) ∉ awaiting w).

Lemma handleError_moves d i m code w r w' :
  handleError i m code w = (r, w') -> rtc (move d) w w'.
Proof.
  unfold handleError. destruct (listening i w) as [s|] eqn:Hl; [|intros [= _ <-]; done].
  unfold io_bind at 1, io_modify at 1. unfold io_bind.
  destruct (callback_result (Failed (Some i) (requestGeneration s) (request_of s) m) (onError (request_of s) m code)
              (complete_source i w)) as (r1 & c1 & ->).
  pose proof (move_fail d w i s m c1 Hl) as Hfail. apply listening_spec in Hl as (Hs & Hc & Hd).
  apply isCurrent_spec in Hc as [Hg Ha].
  destruct r1 as [[]|]; unfold io_modify; intros [= <- <-]; [|by apply rtc_once].
  eapply rtc_l; [exact Hfail|]. apply rtc_once, move_close; [|done].
  eexists. cbn. rewrite list_lookup_alter_eq, Hs. done.
Qed.

Lemma updates_move d i s updates : forall w r w',
  listening i w = Some s ->
  io_each (deliver_update i s) updates w = (r, w') -> rtc (move d) w w'.
Proof.
  induction updates as [|u us IH]; intros w r w' Hl; cbn [io_each].
  - by intros [= _ <-].
  - unfold io_bind. unfold deliver_update at 1.
    destruct (callback_result (Updated i (requestGeneration s) (request_of s) u.1 u.2) (onUpdate (request_of s) u.1 u.2) w)
      as (r1 & c1 & ->).
    pose proof (move_update d w i s u.1 u.2 c1 Hl) as Hu.
    destruct r1 as [[]|]; [|intros [= <- <-]; by apply rtc_once].
    intros Heach. eapply rtc_l; [exact Hu|]. by eapply IH.
Qed.

Lemma open_source_moves d gen request starts w r w' :
  active w = None -> (generation w = gen -> forall r, (generation w, r) ∉ awaiting w) ->
  open_source gen request starts w = (r, w') -> rtc (move d) w w'.
Proof.
  unfold open_source. intros Ha Hw. destruct (Nat.eqb_spec (generation w) gen) as [<-|Hne];
    cbn [negb]; [|by intros [= _ <-]].
  unfold io_bind, io_modify. cbn [fst snd].
  change (setStreaming true _) with (add_source (generation w) request w).
  intros Hrun. eapply rtc_l; [by apply (move_open d w request), Hw|].
  destruct starts.
  - injection Hrun as <- <-. by apply rtc_once, move_start.
  - by eapply handleError_moves.
Qed.

Lemma on_message_moves d i data w r w' :
  on_message i data w = (r, w') -> rtc (move d) w w'.
Proof.
  unfold on_message. destruct (listening i w) as [s|] eqn:Hl; [|by intros [= _ <-]].
  destruct (isStreamDoneMessage _).
  - unfold io_bind, io_modify. cbn [fst snd].
    destruct (callback_result (Completed i (requestGeneration s) (request_of s)) (onComplete (request_of s))
                (closeActiveSource i (complete_source i w))) as (r1 & c1 & ->).
    intros [= _ <-]. by apply rtc_once, move_done.
  - unfold io_catch.
    destruct (deliver_message i s _ w) as [r1 w1] eqn:Hu.
    assert (Hmoves : rtc (move d) w w1).
    { unfold deliver_message in Hu. destruct (parseStreamMessageUpdates _) as [updates|]; [by eapply updates_move|].
      by injection Hu as _ <-. }
    destruct r1 as [[]|]; [by intros [= _ <-]|].
    intros Herr. etrans; [exact Hmoves|]. by eapply handleError_moves.
Qed.

Lemma find_not_settled gen (rs : list (nat * T)) r :
  (gen, r) ∉ List.filter (fun p => negb (p.1 =? gen)%nat) rs.
Proof.
  rewrite list_elem_of_In, filter_In. cbn. rewrite Nat.eqb_refl. by intros [_ ?].
Qed.

Lemma awaited_in gen w request : awaited gen w = Some request -> (gen, request) ∈ awaiting w.
Proof.
  unfold awaited. destruct (find _ (awaiting w)) as [[g r]|] eqn:Hf; [|done]. intros [= <-].
  apply find_some in Hf as [Hin Hg]. cbn in Hg. apply Nat.eqb_eq in Hg as <-. by apply list_elem_of_In.
Qed.

Lemma send_moves d request headersGiven starts w r w' :
  awaits_well w -> send request headersGiven starts w = (r, w') -> rtc (move d) w w'.
Proof.
  intros [Hgens _]. unfold send. unfold io_bind, io_modify. cbn [fst snd].
  change (close (active w) _) with (leave w).
  assert (Hnone : active (setStreaming false (leave w)) = None)
    by (unfold leave, close; cbn; by destruct (active w)).
  assert (Hstart : rtc (move d) w (setStreaming false (leave w))) by apply rtc_once, move_leave.
  assert (Hgen : generation (setStreaming false (leave w)) = S (generation w))
    by (unfold leave, close; cbn; by destruct (active w)).
  assert (Haw : awaiting (setStreaming false (leave w)) = awaiting w)
    by (unfold leave, close; cbn; by destruct (active w)).
  intros Hrun. etrans; [exact Hstart|].
  destruct headersGiven.
  - eapply open_source_moves; [exact Hnone| |exact Hrun].
    intros _ r0. rewrite Hgen, Haw. intros Hin. rewrite Forall_forall in Hgens.
    apply Hgens in Hin. cbn in Hin. lia.
  - injection Hrun as _ <-. apply rtc_once.
    pose proof (move_await d (setStreaming false (leave w)) request Hnone) as Hm.
    rewrite Hgen in Hm. exact Hm.
Qed.

Definition is_dispose (e : stream_event T) : bool := match e with Dispose => true | _ => false end.

(** Every event of the controller is a sequence of moves. *)
Lemma stream_step_moves e w r w' :
  awaits_well w -> stream_step e w = (r, w') -> rtc (move (is_dispose e)) w w'.
Proof.
  intros Hw. destruct e as [request given starts|gen starts|gen message|i headers|i data|i rs data|i rs st| |];
    cbn [stream_step].
  - by apply send_moves.
  - unfold headers_ready. destruct (awaited gen w) as [request|] eqn:Ha; [|by intros [= _ <-]].
    unfold io_bind, io_modify. cbn [fst snd]. intros Hrun.
    eapply rtc_l; [apply (move_settle _ w gen)|].
    destruct (Nat.eqb_spec (generation w) gen) as [Hg|Hne].
    + eapply open_source_moves; [| |exact Hrun].
      * destruct (active w) eqn:Hact; [|done]. destruct Hw as [_ Hno]. exfalso.
        apply (Hno ltac:(congruence) request). rewrite Hg. by apply awaited_in.
      * intros _ r0. cbn. rewrite Hg. apply find_not_settled.
    + unfold open_source in Hrun. cbn in Hrun. apply Nat.eqb_neq in Hne. rewrite Hne in Hrun.
      by injection Hrun as _ <-.
  - unfold headers_failed. destruct (awaited gen w) as [request|]; [|by intros [= _ <-]].
    unfold io_bind at 1, io_modify at 1. intros Hrun.
    eapply rtc_l; [apply (move_settle _ w gen)|]. revert Hrun.
    destruct (Nat.eqb_spec (generation (settle gen w)) gen) as [Hg|]; cbn [negb]; [|by intros [= _ <-]].
    destruct (callback_result (Failed None gen request (JStr (default STREAM_START_ERROR message)))
                (onError request (JStr (default STREAM_START_ERROR message)) None) (settle gen w))
      as (r1 & c1 & ->).
    intros [= _ <-]. apply rtc_once.
    pose proof (move_no_headers (is_dispose (HeadersFailed gen message)) (settle gen w) request
                  (JStr (default STREAM_START_ERROR message)) c1) as Hm.
    rewrite Hg in Hm. exact Hm.
  - unfold on_open. destruct (opened w !! i) as [s|] eqn:Hs; [|by intros [= _ <-]].
    destruct (isCurrent i s w) eqn:Hc; cbn [negb]; [|by intros [= _ <-]].
    destruct (servedByFromStreamHeaders headers) as [by_|]; [|by intros [= _ <-]].
    destruct (callback_result (Served i (requestGeneration s) (request_of s) by_) (onServedBy (request_of s) by_) w)
      as (r1 & c1 & ->).
    intros [= _ <-]. by apply rtc_once, move_served.
  - by apply on_message_moves.
  - unfold on_error. destruct (listening i w); [|by intros [= _ <-]].
    destruct (isStreamClosedReadyState rs); [by intros [= _ <-]|]. apply handleError_moves.
  - unfold on_ready_state. destruct (listening i w); [|by intros [= _ <-]].
    destruct (getStreamReadyStateError rs st); [|by intros [= _ <-]]. apply handleError_moves.
  - intros [= _ <-]. apply rtc_once. apply (move_leave _ w).
  - intros [= _ <-]. apply rtc_once. by apply (move_dispose _ w).
Qed.

(** *** What the moves keep *)

(** The source that a callback is about. *)
Definition callback_source (c : call T) : option nat :=
  match c with
  | Updated i _ _ _ _ | Completed i _ _ => Some i
  | Failed i _ _ _ => i
  | _ => None
  end.

Definition is_update (c : call T) : bool := match c with Updated _ _ _ _ _ => true | _ => false end.

Definition about (i : nat) (calls : list (call T)) : list (call T) :=
  List.filter (fun c => bool_decide (callback_source c = Some i)) calls.

(** The callbacks of one source: updates, and then its end, once. *)
Definition protocol (finished : bool) (calls : list (call T)) : Prop :=
  exists updates ending, calls = updates ++ ending
    /\ Forall (fun c => is_update c = true) updates
    /\ if finished then exists e, ending = [e] /\ is_update e = false else ending = [].

Definition protocols w : Prop :=
  forall i, match opened w !! i with
            | Some s => protocol (completed s) (about i (trace w))
            | None => about i (trace w) = []
            end.

(** The active source belongs to the current request. *)
Definition active_well w : Prop :=
  (forall i s, opened w !! i = Some s -> (requestGeneration s <= generation w)%nat)
  /\ forall i, active w = Some i ->
       streaming w = true
       /\ exists s, opened w !! i = Some s /\ requestGeneration s = generation w.

(** Every other source was closed. *)
Definition others_closed w : Prop :=
  forall i, (i < length (opened w))%nat -> active w <> Some i -> CloseSource i ∈ trace w.

#[local] Arguments about : simpl never.

Lemma about_app i l l' : about i (l ++ l') = about i l ++ about i l'.
Proof. apply List.filter_app. Qed.

Lemma about_other i l c : callback_source c <> Some i -> about i (l ++ [c]) = about i l.
Proof.
  intros Hc. rewrite about_app. unfold about at 2. cbn. rewrite bool_decide_eq_false_2 by done. apply app_nil_r.
Qed.

Lemma about_this i l c : callback_source c = Some i -> about i (l ++ [c]) = about i l ++ [c].
Proof. intros Hc. rewrite about_app. unfold about at 2. cbn. by rewrite bool_decide_eq_true_2. Qed.

Lemma protocol_update calls c :
  protocol false calls -> is_update c = true -> protocol false (calls ++ [c]).
Proof.
  intros (us & end_ & -> & Hus & ->) Hc. exists (us ++ [c]), [].
  rewrite !app_nil_r, Forall_app. by repeat constructor.
Qed.

Lemma protocol_end calls c :
  protocol false calls -> is_update c = false -> protocol true (calls ++ [c]).
Proof.
  intros (us & end_ & -> & Hus & ->) Hc. exists us, [c]. rewrite app_nil_r. repeat split; [done|].
  by exists c.
Qed.

(** A call that is not a callback of a source changes no protocol. *)
Lemma protocols_say c w : callback_source c = None -> protocols w -> protocols (say c w).
Proof. intros Hc Hp i. cbn. rewrite about_other by congruence. apply Hp. Qed.

Lemma protocols_close w : protocols w -> protocols (close (active w) w).
Proof. unfold close. destruct (active w); [|done]. by apply protocols_say. Qed.

Lemma protocols_closeActive i w : protocols w -> protocols (closeActiveSource i w).
Proof.
  intros Hp. unfold closeActiveSource. set (w1 := close (Some i) w).
  assert (Hp1 : protocols w1) by by apply protocols_say.
  destruct (decide _); [|done]. by apply (protocols_say (SetStreaming false)).
Qed.

(** The next callback of a source that listens. *)
Lemma protocols_callback w i s c finished :
  protocols w -> opened w !! i = Some s -> completed s = false ->
  callback_source c = Some i -> is_update c = negb finished ->
  protocols (say c (if finished then complete_source i w else w)).
Proof.
  intros Hp Hs Hd Hsrc Hu j. pose proof (Hp j) as Hj. pose proof (Hp i) as Hi.
  rewrite Hs, Hd in Hi.
  destruct (decide (i = j)) as [<-|Hne].
  - destruct finished; cbn; rewrite about_this by done.
    + rewrite list_lookup_alter_eq, Hs. cbn. by apply protocol_end.
    + rewrite Hs, Hd. by apply protocol_update.
  - destruct finished; cbn; rewrite about_other by congruence; [|done].
    by rewrite list_lookup_alter_ne.
Qed.

Lemma protocols_leave w : protocols w -> protocols (leave w).
Proof.
  intros Hp. unfold leave, close. destruct (active w) as [i|]; [|done].
  by apply (protocols_say (CloseSource i)).
Qed.

Lemma move_protocols d w w' : move d w w' -> protocols w -> protocols w'.
Proof.
  intros Hm Hp. destruct Hm as [w|w _|w|w|w request Hnone _|w|w request m c|w i s by_ c Hs Hc|w i s ty ch c Hl|w i s m c Hl|w i Hcomp Ha|w i s c Hl].
  - by apply (protocols_say (SetStreaming false)), protocols_leave.
  - by apply protocols_leave.
  - done.
  - done.
  - intros i. pose proof (Hp i) as Hi. unfold add_source, setStreaming. cbn [say put_streaming put_active put_opened trace opened].
    rewrite !about_other by done.
    destruct (decide (i < length (opened w))%nat) as [Hlt|Hge].
    + by rewrite lookup_app_l.
    + rewrite (lookup_ge_None_2 (opened w)) in Hi by lia. rewrite Hi.
      rewrite lookup_app_r by lia. destruct (i - length (opened w))%nat; cbn; [|done].
      by exists [], [].
  - by apply protocols_say.
  - by apply (protocols_say (Failed None (generation w) request m)).
  - by apply (protocols_say (Served i (requestGeneration s) (request_of s) by_)).
  - apply listening_spec in Hl as (Hs & _ & Hd).
    by apply (protocols_callback w i s (Updated i (requestGeneration s) (request_of s) ty ch) false).
  - apply listening_spec in Hl as (Hs & _ & Hd).
    by apply (protocols_callback w i s (Failed (Some i) (requestGeneration s) (request_of s) m) true).
  - by apply protocols_closeActive.
  - apply listening_spec in Hl as (Hs & _ & Hd).
    pose proof (protocols_callback w i s (Completed i (requestGeneration s) (request_of s)) true Hp Hs Hd eq_refl eq_refl) as Hdone.
    intros j. pose proof (Hdone j) as Hj. cbn in Hj |- *.
    unfold closeActiveSource, close, setStreaming. cbn. destruct (decide _); cbn;
      rewrite !about_app in *; cbn; rewrite ?app_nil_r; exact Hj.
Qed.

(** The projections of a closing. *)
Lemma leave_fields w :
  active (leave w) = None /\ generation (leave w) = S (generation w)
  /\ opened (leave w) = opened w /\ awaiting (leave w) = awaiting w
  /\ trace (leave w) = trace w ++ match active w with Some i => [CloseSource i] | None => [] end.
Proof. unfold leave, close. destruct (active w); cbn; by rewrite ?app_nil_r. Qed.

Lemma closeActive_fields i w :
  active w = Some i ->
  closeActiveSource i w = setStreaming false (put_active None (say (CloseSource i) w)).
Proof. intros Ha. unfold closeActiveSource. cbn. by rewrite decide_True. Qed.

Lemma closeActive_same i w :
  generation (closeActiveSource i w) = generation w /\ opened (closeActiveSource i w) = opened w
  /\ awaiting (closeActiveSource i w) = awaiting w.
Proof. unfold closeActiveSource. cbn. by destruct (decide _). Qed.

Lemma move_awaits d w w' : move d w w' -> awaits_well w -> awaits_well w'.
Proof.
  intros Hm [Hg Ha].
  destruct Hm as [w|w _|w request Hn|w gen|w request Hn Hno|w i Hi|w request m c|w i s by_ c Hs Hc|w i s ty ch c Hl|w i s m c Hl|w i Hcomp Hi|w i s c Hl];
    try done.
  1, 2: destruct (leave_fields w) as (Hact & Hgen & _ & Haw & _); split; cbn; rewrite ?Hact, ?Haw, ?Hgen; [|done];
    eapply Forall_impl; [exact Hg|]; cbn; lia.
  - split; cbn; [|by rewrite Hn]. apply Forall_app. split; [done|]. by constructor; [cbn; lia|].
  - assert (Hsub : forall p, p ∈ List.filter (fun p => negb (p.1 =? gen)%nat) (awaiting w) -> p ∈ awaiting w).
    { intros p. rewrite !list_elem_of_In, filter_In. tauto. }
    split; cbn; [|naive_solver]. rewrite Forall_forall in *. auto.
  - destruct (closeActive_same i w) as (Hgen & _ & Haw). split; rewrite Haw, Hgen; [done|].
    rewrite closeActive_fields by done. done.
  - apply listening_spec in Hl as (_ & [_ Hi]%isCurrent_spec & _).
    split; cbn; destruct (closeActive_same i (complete_source i w)) as (Hgen & _ & Haw); rewrite Haw, Hgen; [done|].
    rewrite closeActive_fields by done. done.
Qed.

Lemma move_active d w w' : move d w w' -> active_well w -> active_well w'.
Proof.
  intros Hm [Hg Ha].
  destruct Hm as [w|w _|w request Hn|w gen|w request Hn Hno|w i Hi|w request m c|w i s by_ c Hs Hc|w i s ty ch c Hl|w i s m c Hl|w i Hcomp Hi|w i s c Hl];
    try done.
  1, 2: destruct (leave_fields w) as (Hact & Hgen & Hop & _); split; cbn; rewrite ?Hact, ?Hop, ?Hgen; [|done];
    intros i s Hs; specialize (Hg i s Hs); lia.
  - split; cbn.
    + intros i s [Hs|[_ Hs]]%lookup_app_Some; [by apply (Hg i)|].
      destruct (i - length (opened w))%nat; cbn in Hs; [|done]. injection Hs as <-. done.
    + intros i [= <-]. split; [done|]. rewrite lookup_app_r by lia. rewrite Nat.sub_diag. cbn. by eexists.
  - assert (Hsame : forall j s, opened (complete_source i w) !! j = Some s ->
                                exists s0, opened w !! j = Some s0 /\ requestGeneration s0 = requestGeneration s).
    { intros j s0. cbn. rewrite list_lookup_alter. destruct (decide _) as [<-|_]; [|by exists s0].
      destruct (opened w !! i) as [s1|]; [|done]. intros [= <-]. by exists s1. }
    split; cbn.
    + intros j s0 (s1 & Hs1 & <-)%Hsame. by apply (Hg j).
    + intros j Hj. destruct (Ha j Hj) as (Hst & s1 & Hs1 & Hgen). split; [done|].
      rewrite list_lookup_alter. destruct (decide (i = j)) as [<-|_]; rewrite Hs1; by eexists.
  - rewrite closeActive_fields by done. split; cbn; [done|]. done.
  - apply listening_spec in Hl as (_ & [_ Hi]%isCurrent_spec & _).
    rewrite closeActive_fields by done. split; cbn; [|done].
    intros j s0. rewrite list_lookup_alter. destruct (decide _) as [<-|_]; [|by apply Hg].
    destruct (opened w !! i) as [s1|] eqn:Hs1; [|done]. intros [= <-]. by apply (Hg i s1).
Qed.

Lemma leave_closed w : others_closed w -> others_closed (leave w).
Proof.
  intros Hc i Hlt _. destruct (leave_fields w) as (_ & _ & Hop & _ & ->). rewrite Hop in Hlt.
  rewrite elem_of_app. destruct (decide (active w = Some i)) as [->|Hne]; [right; set_solver|].
  left. by apply Hc.
Qed.

Lemma move_closed d w w' : move d w w' -> others_closed w -> others_closed w'.
Proof.
  intros Hm Hc.
  assert (Hsay : forall c x, others_closed x -> others_closed (say c x))
    by (intros c x Hx i Hlt Hi; apply elem_of_app; left; by apply Hx).
  destruct Hm as [w|w _|w request Hn|w gen|w request Hn Hno|w i Hi|w request m c|w i s by_ c Hs Hcur|w i s ty ch c Hl|w i s m c Hl|w i Hcomp Hi|w i s c Hl];
    try (by apply Hsay); try done.
  - by apply Hsay, leave_closed.
  - by apply leave_closed.
  - intros i Hlt Hi. cbn in *. rewrite length_app in Hlt. cbn in Hlt.
    rewrite !elem_of_app. left. left. apply Hc; [|by rewrite Hn].
    assert (i <> length (opened w)) by congruence. lia.
  - intros j Hlt Hj. cbn in *. rewrite length_alter in Hlt. rewrite elem_of_app. left. by apply Hc.
  - rewrite closeActive_fields by done. intros j Hlt _. cbn in *. rewrite !elem_of_app.
    destruct (decide (active w = Some j)) as [Hj|Hj]; [left; right; rewrite Hi in Hj; simplify_eq; set_solver|].
    left. left. by apply Hc.
  - apply listening_spec in Hl as (_ & [_ Hi]%isCurrent_spec & _).
    rewrite closeActive_fields by done. intros j Hlt _. cbn in *. rewrite length_alter in Hlt. rewrite !elem_of_app.
    destruct (decide (active w = Some j)) as [Hj|Hj]; [left; left; right; rewrite Hi in Hj; simplify_eq; set_solver|].
    left. left. left. by apply Hc.
Qed.

(** All of it. *)
Definition controller_ok w : Prop := awaits_well w /\ active_well w /\ protocols w /\ others_closed w.

Lemma moves_ok d w w' : rtc (move d) w w' -> controller_ok w -> controller_ok w'.
Proof.
  induction 1 as [w|w1 w2 w3 Hm _ IH]; [done|]. intros (H1 & H2 & H3 & H4). apply IH.
  split_and!; by (eapply move_awaits || eapply move_active || eapply move_protocols || eapply move_closed).
Qed.

Lemma created_ok c : controller_ok (createStreamRequestController c).
Proof.
  split_and!.
  - by split; [constructor|].
  - by split.
  - by intros i.
  - intros i. cbn. lia.
Qed.

Lemma stream_run_ok events : forall w, controller_ok w -> controller_ok (stream_run events w).
Proof.
  induction events as [|e events IH]; intros w Hw; [done|]. cbn. apply IH.
  destruct (stream_step e w) as [r w'] eqn:Hstep. cbn. eapply moves_ok; [|exact Hw].
  eapply stream_step_moves; [|exact Hstep]. by destruct Hw.
Qed.

(** *** What the runtime was told *)

Definition quiet w : Prop := active w = None -> streaming w = false.

Lemma move_quiet w w' : move false w w' -> quiet w -> quiet w'.
Proof.
  unfold quiet. intros Hm Hq. destruct Hm as [w|w Hd|w request Hn|w gen|w request Hn Hno|w i Hi|w request m c|w i s by_ c Hs Hcur|w i s ty ch c Hl|w i s m c Hl|w i Hcomp Hi|w i s c Hl];
    cbn; try done.
  - by rewrite closeActive_fields.
  - apply listening_spec in Hl as (_ & [_ Hi]%isCurrent_spec & _). by rewrite closeActive_fields.
Qed.

Definition call_generation (c : call T) : option nat :=
  match c with
  | Updated _ g _ _ _ | Completed _ g _ | Failed _ g _ _ | Served _ g _ _ => Some g
  | _ => None
  end.

(** The callbacks that the list has are for requests from [g] on. *)
Definition for_requests_from (g : nat) (calls : list (call T)) : Prop :=
  Forall (fun c => forall g', call_generation c = Some g' -> (g <= g')%nat) calls.

Lemma move_calls d w w' : move d w w' ->
  (generation w <= generation w')%nat
  /\ exists calls, trace w' = trace w ++ calls /\ for_requests_from (generation w) calls.
Proof.
  assert (Hone : forall (c : call T) (x : controller T C), (forall g', call_generation c = Some g' -> (generation x <= g')%nat) ->
            exists calls, trace x ++ [c] = trace x ++ calls /\ for_requests_from (generation x) calls)
    by (intros c x Hc; exists [c]; split; [done|]; by constructor).
  assert (Hnil : forall x : controller T C, exists calls, trace x = trace x ++ calls /\ for_requests_from (generation x) calls)
    by (intros x; exists []; rewrite app_nil_r; by repeat constructor).
  assert (Hcur : forall i s (x : controller T C), listening i x = Some s -> (generation x <= requestGeneration s)%nat).
  { intros i s x (_ & [Hg _]%isCurrent_spec & _)%listening_spec. lia. }
  intros Hm. destruct Hm as [w|w Hd|w request Hn|w gen|w request Hn Hno|w i Hi|w request m c|w i s by_ c Hs Hc|w i s ty ch c Hl|w i s m c Hl|w i Hcomp Hi|w i s c Hl];
    cbn -[leave].
  - destruct (leave_fields w) as (_ & -> & _ & _ & ->). split; [lia|]. eexists.
    rewrite <- app_assoc. split; [done|]. unfold for_requests_from. rewrite Forall_app.
    destruct (active w); by repeat constructor.
  - destruct (leave_fields w) as (_ & -> & _ & _ & ->). split; [lia|]. eexists. split; [done|].
    destruct (active w); by repeat constructor.
  - by split.
  - by split.
  - split; [lia|]. rewrite <- app_assoc. eexists. split; [done|]. by repeat constructor.
  - split; [lia|]. by apply Hone.
  - split; [lia|]. apply Hone. intros g'. cbn. intros [= <-]. lia.
  - split; [lia|]. apply Hone. cbn. intros g' [= <-]. apply isCurrent_spec in Hc as [Hg _]. lia.
  - split; [lia|]. apply Hone. cbn. intros g' [= <-]. by eapply Hcur.
  - split; [lia|]. apply Hone. cbn. intros g' [= <-]. by eapply Hcur.
  - rewrite closeActive_fields by done. cbn. split; [lia|]. rewrite <- app_assoc. eexists. split; [done|].
    by repeat constructor.
  - pose proof (Hcur i s w Hl) as Hg. apply listening_spec in Hl as (_ & [_ Hi]%isCurrent_spec & _).
    rewrite closeActive_fields by done. cbn. split; [lia|]. rewrite <- !app_assoc. eexists. split; [done|].
    repeat constructor; try done. cbn. by intros g' [= <-].
Qed.

Lemma for_requests_weaken g g' calls :
  (g <= g')%nat -> for_requests_from g' calls -> for_requests_from g calls.
Proof. intros Hg H'. eapply Forall_impl; [exact H'|]. intros c Hc g1 H1. specialize (Hc g1 H1). lia. Qed.

Lemma moves_calls d w w' : rtc (move d) w w' ->
  (generation w <= generation w')%nat
  /\ exists calls, trace w' = trace w ++ calls /\ for_requests_from (generation w) calls.
Proof.
  induction 1 as [w|w1 w2 w3 Hm _ IH].
  - split; [done|]. exists []. rewrite app_nil_r. by repeat constructor.
  - apply move_calls in Hm as (Hg1 & calls1 & Ht1 & Hc1). destruct IH as (Hg2 & calls2 & Ht2 & Hc2).
    split; [lia|]. exists (calls1 ++ calls2). split; [by rewrite Ht2, Ht1, <- app_assoc|].
    apply Forall_app. split; [done|]. by eapply for_requests_weaken.
Qed.

Lemma stream_run_cons e events w :
  stream_run (e :: events) w = stream_run events (stream_step e w).2.
Proof. done. Qed.

Lemma stream_run_calls events : forall w, controller_ok w ->
  (generation w <= generation (stream_run events w))%nat
  /\ exists calls, trace (stream_run events w) = trace w ++ calls
                   /\ for_requests_from (generation w) calls.
Proof.
  induction events as [|e events IH]; intros w Hw.
  - split; [done|]. exists []. cbn. rewrite app_nil_r. by repeat constructor.
  - rewrite stream_run_cons. destruct (stream_step e w) as [r w1] eqn:Hstep. cbn [snd].
    pose proof (stream_step_moves e w r w1 (proj1 Hw) Hstep) as Hmoves.
    destruct (moves_calls _ _ _ Hmoves) as (Hg1 & calls1 & Ht1 & Hc1).
    destruct (IH w1 (moves_ok _ _ _ Hmoves Hw)) as (Hg2 & calls2 & Ht2 & Hc2).
    split; [lia|]. exists (calls1 ++ calls2). split; [by rewrite Ht2, Ht1, <- app_assoc|].
    apply Forall_app. split; [done|]. by eapply for_requests_weaken.
Qed.

Lemma stream_run_quiet events : forall w, controller_ok w -> quiet w ->
  Forall (fun e => is_dispose e = false) events -> quiet (stream_run events w).
Proof.
  induction events as [|e events IH]; intros w Hw Hq Hd; [done|]. inversion Hd as [|? ? He Hes]; subst.
  cbn. destruct (stream_step e w) as [r w1] eqn:Hstep. cbn.
  pose proof (stream_step_moves e w r w1 (proj1 Hw) Hstep) as Hmoves. rewrite He in Hmoves.
  apply IH; [by eapply moves_ok| |done].
  clear -Hmoves Hq. induction Hmoves as [w|w1 w2 w3 Hm _ IH']; [done|]. apply IH'. by eapply move_quiet.
Qed.

(** What overtakes the current request. *)
Definition overtakes (e : stream_event T) : bool :=
  match e with Send _ _ _ | Stop | Dispose => true | _ => false end.

Lemma open_source_generation gen request starts w :
  generation (open_source gen request starts w).2 = generation w.
Proof.
  unfold open_source. destruct (negb _); [done|]. unfold io_bind, io_modify. cbn [fst snd].
  change (setStreaming true _) with (add_source gen request w).
  destruct starts; [done|]. unfold handleError. destruct (listening _ _) as [s|]; [|done].
  unfold io_bind at 1, io_modify at 1. unfold io_bind.
  destruct (callback_result (Failed (Some (length (opened w))) (requestGeneration s) (request_of s) (JStr STREAM_START_ERROR))
              (onError (request_of s) (JStr STREAM_START_ERROR) None)
              (complete_source (length (opened w)) (add_source gen request w))) as (r1 & c1 & ->).
  destruct r1 as [[]|]; [|done]. unfold io_modify. cbn [snd].
  destruct (closeActive_same (length (opened w))
    (put_client c1 (say (Failed (Some (length (opened w))) (requestGeneration s) (request_of s) (JStr STREAM_START_ERROR))
       (complete_source (length (opened w)) (add_source gen request w))))) as (-> & _). done.
Qed.

Lemma overtake_generation e w :
  overtakes e = true -> generation (stream_step e w).2 = S (generation w).
Proof.
  assert (Hl : forall b, generation (cancel b w) = S (generation w))
    by (intros b; unfold cancel; change (close (active w) _) with (leave w);
        destruct b; apply (leave_fields w)).
  destruct e as [request given starts| | | | | | | |]; try done; intros _; try apply Hl.
  cbn [stream_step]. unfold send, io_bind, io_modify. cbn [fst snd].
  change (close (active w) _) with (leave w).
  destruct given; [rewrite open_source_generation|]; apply (leave_fields w).
Qed.
End Moves.

(** ** The main theorems *)

Section Theorems.
Context {T C : Type} `{StreamClient T C}.

(** *** What the callbacks keep *)

(** A property of the client that every callback keeps. *)
Record kept_by_callbacks (P : C -> Prop) : Prop := {
  kept_update : forall r type chunk c, P c -> P (onUpdate r type chunk c).2;
  kept_complete : forall r c, P c -> P (onComplete r c).2;
  kept_error : forall r m code c, P c -> P (onError r m code c).2;
  kept_served : forall r by_ c, P c -> P (onServedBy r by_ c).2
}.

Section Kept.
Context (P : C -> Prop) (HP : kept_by_callbacks P).

(** A computation keeps the property. *)
Definition keeps (m : io (controller T C) unit) : Prop :=
  forall w, P (client w) -> P (client (m w).2).

Lemma keeps_bind m k : keeps m -> keeps k -> keeps (io_bind m (fun _ => k)).
Proof.
  intros Hm Hk w Hw. unfold io_bind. specialize (Hm w Hw). destruct (m w) as [[[]|] w']; [|done].
  by apply Hk.
Qed.

Lemma keeps_modify f : (forall w, client (f w) = client w) -> keeps (io_modify f).
Proof. intros Hf w Hw. cbn. by rewrite Hf. Qed.

Lemma keeps_callback c m : (forall x, P x -> P (m x).2) -> keeps (callback c m).
Proof.
  intros Hm w Hw. unfold callback, io_bind, io_modify, io_on. cbn [client say].
  specialize (Hm (client w) Hw). by destruct (m (client w)).
Qed.

Lemma close_client o (w : controller T C) : client (close o w) = client w.
Proof. by destruct o. Qed.

Lemma closeActive_client i (w : controller T C) : client (closeActiveSource i w) = client w.
Proof. unfold closeActiveSource. cbn. by destruct (decide _). Qed.

Lemma keeps_error i m code : keeps (handleError i m code).
Proof.
  intros w Hw. unfold handleError. destruct (listening i w) as [s|]; [|done].
  assert (Hk : keeps (io_modify (complete_source i) ;;
                      callback (Failed (Some i) (requestGeneration s) (request_of s) m)
                        (onError (request_of s) m code) ;;
                      io_modify (closeActiveSource i))%io).
  { apply keeps_bind; [by apply keeps_modify|]. apply keeps_bind.
    - apply keeps_callback, HP.
    - apply keeps_modify, closeActive_client. }
  by apply Hk.
Qed.

Lemma keeps_each i s us : keeps (io_each (deliver_update i s) us).
Proof.
  induction us as [|u us IH]; [by intros w Hw|]. cbn [io_each]. apply keeps_bind; [|done].
  apply keeps_callback. intros x. apply HP.
Qed.

Lemma keeps_open gen request starts : keeps (open_source gen request starts).
Proof.
  intros w Hw. unfold open_source. destruct (negb _); [done|].
  unfold io_bind, io_modify. cbn [fst snd]. destruct starts; [done|]. by apply keeps_error.
Qed.

Lemma stream_step_keeps e : keeps (stream_step e).
Proof.
  intros w Hw. destruct e as [request given starts|gen starts|gen message|i headers|i data|i rs data|i rs st| |];
    cbn [stream_step].
  - unfold send, io_bind, io_modify. cbn [fst snd].
    destruct given; [apply keeps_open|]; cbn; by rewrite close_client.
  - unfold headers_ready. destruct (awaited gen w); [|done].
    unfold io_bind, io_modify. cbn [fst snd]. by apply keeps_open.
  - unfold headers_failed. destruct (awaited gen w) as [r|]; [|done].
    unfold io_bind at 1, io_modify at 1. destruct (negb _); [done|].
    refine (keeps_callback _ _ _ _ _); [|done]. apply HP.
  - unfold on_open. destruct (opened w !! i) as [s|]; [|done]. destruct (negb _); [done|].
    destruct (servedByFromStreamHeaders headers); [|done]. refine (keeps_callback _ _ _ _ _); [|done]. apply HP.
  - unfold on_message. destruct (listening i w) as [s|]; [|done].
    destruct (isStreamDoneMessage _).
    + unfold io_bind, io_modify. cbn [fst snd]. refine (keeps_callback _ _ _ _ _); [apply HP|].
      by rewrite closeActive_client.
    + unfold io_catch, deliver_message. destruct (parseStreamMessageUpdates _) as [us|].
      * pose proof (keeps_each i s us w Hw) as Hu. destruct (io_each _ us w) as [[[]|] w']; [done|].
        by apply keeps_error.
      * by apply keeps_error.
  - unfold on_error. destruct (listening i w); [|done]. destruct (isStreamClosedReadyState rs); [done|].
    by apply keeps_error.
  - unfold on_ready_state. destruct (listening i w); [|done].
    destruct (getStreamReadyStateError rs st); [|done]. by apply keeps_error.
  - unfold cancel. cbn. by rewrite close_client.
  - unfold cancel. cbn. by rewrite close_client.
Qed.
End Kept.

(** A request whose headers are given opens its source at once. *)
Lemma send_started request (w : controller T C) :
  client (send request true true w).2 = client w
  /\ listening (length (opened w)) (send request true true w).2
     = Some {| requestGeneration := S (generation w); request_of := request; completed := false |}.
Proof.
  unfold send, io_bind, io_modify. cbn [fst snd]. change (close (active w) _) with (leave w).
  destruct (leave_fields w) as (_ & Hg & Ho & _ & _).
  unfold open_source. cbn [setStreaming say put_streaming generation]. rewrite Hg, Nat.eqb_refl. cbn [negb].
  unfold io_bind, io_modify. cbn [fst snd]. split; [by unfold leave, close; destruct (active w)|].
  apply listening_spec. rewrite isCurrent_spec. cbn -[leave].
  rewrite Ho, Hg, lookup_app_r, Nat.sub_diag by lia. done.
Qed.


(** After a new request, a stop or the disposal, no callback is made for a request
    from before, whatever the sources and promises left behind deliver. *)
Theorem overtaken_requests_are_silent (c : C) before e (after : list (stream_event T)) :
  overtakes e = true ->
  let w := stream_run before (createStreamRequestController c) in
  let w' := stream_run after (stream_step e w).2 in
  exists step_calls calls,
    trace (stream_step e w).2 = trace w ++ step_calls
    /\ trace w' = trace (stream_step e w).2 ++ calls
    /\ forall call g, call ∈ calls -> call_generation call = Some g -> (generation w < g)%nat.
Proof.
  intros He w w'. pose proof (stream_run_ok before _ (created_ok c)) as Hok. fold w in Hok.
  destruct (stream_step e w) as [r w1] eqn:Hstep. cbn [snd] in *.
  pose proof (stream_step_moves e w r w1 (proj1 Hok) Hstep) as Hmoves.
  destruct (moves_calls _ _ _ Hmoves) as (_ & step_calls & Ht1 & _).
  destruct (stream_run_calls after w1 (moves_ok _ _ _ Hmoves Hok)) as (_ & calls & Ht2 & Hcalls).
  exists step_calls, calls. split_and!; [done|done|].
  pose proof (overtake_generation e w He) as Hgen. rewrite Hstep in Hgen. cbn in Hgen. rewrite Hgen in Hcalls.
  intros call g Hin Hg. unfold for_requests_from in Hcalls. rewrite Forall_forall in Hcalls. specialize (Hcalls call Hin g Hg). lia.
Qed.

(** Updates of a client that does not throw. *)
Lemma deliver_all i s updates : forall w : controller T C,
  opened w !! i = Some s ->
  (forall u c, (onUpdate (request_of s) u.1 u.2 c).1 = Some tt) ->
  exists c',
    io_each (deliver_update i s) updates w
    = (Some tt, {| active := active w; generation := generation w; opened := opened w;
                   awaiting := awaiting w; streaming := streaming w; client := c';
                   trace := trace w ++ map (fun u => Updated i (requestGeneration s) (request_of s) u.1 u.2) updates |}).
Proof.
  induction updates as [|u us IH]; intros w Hs Hu; cbn [io_each map].
  - exists (client w). rewrite app_nil_r. by destruct w.
  - unfold io_bind at 1. unfold deliver_update at 1. unfold callback, io_bind, io_modify, io_on. cbn [client say].
    pose proof (Hu u (client w)) as Hc. destruct (onUpdate (request_of s) u.1 u.2 (client w)) as [r c1].
    cbn in Hc. subst r.
    destruct (IH (put_client c1 (say (Updated i (requestGeneration s) (request_of s) u.1 u.2) w)) Hs Hu) as (c2 & Hrest).
    exists c2. etrans; [exact Hrest|]. cbn. by rewrite <- app_assoc.
Qed.

(** A message that does not end the stream, and its updates. *)
Definition message_of (data : jsstr) (updates : list (StreamChunkType * jsval)) : Prop :=
  isStreamDoneMessage data = false /\ parseStreamMessageUpdates data = Some updates.

(** The controller after updates of a listening source. *)
Definition updated_to (i : nat) (s : stream_source T) (updates : list (StreamChunkType * jsval))
    (w w' : controller T C) : Prop :=
  active w' = active w /\ generation w' = generation w /\ opened w' = opened w
  /\ trace w' = trace w ++ map (fun u => Updated i (requestGeneration s) (request_of s) u.1 u.2) updates.

Lemma on_messages i s datas updates : forall w : controller T C,
  listening i w = Some s -> Forall2 message_of datas updates ->
  (forall u c, (onUpdate (request_of s) u.1 u.2 c).1 = Some tt) ->
  updated_to i s (concat updates) w
    (stream_run (map (fun d => SourceMessage i (Some d)) datas) w).
Proof.
  intros w Hl Hdatas Hu. revert w Hl.
  induction Hdatas as [|d us datas updates [Hnot Hparse] _ IH]; intros w Hl.
  - unfold updated_to. cbn. by rewrite app_nil_r.
  - cbn [map]. rewrite stream_run_cons.
    pose proof Hl as (Hs & Hcur & Hdone)%listening_spec.
    destruct (deliver_all i s us w Hs Hu) as (c' & Hdel).
    assert (Hstep : (stream_step (SourceMessage i (Some d)) w).2
      = {| active := active w; generation := generation w; opened := opened w;
           awaiting := awaiting w; streaming := streaming w; client := c';
           trace := trace w ++ map (fun u => Updated i (requestGeneration s) (request_of s) u.1 u.2) us |}).
    { cbn [stream_step]. unfold on_message. rewrite Hl.
      cbv beta iota delta [default from_option Datatypes.id]. rewrite Hnot. unfold io_catch, deliver_message.
      by rewrite Hparse, Hdel. }
    rewrite Hstep. match goal with |- context [stream_run _ ?x] => specialize (IH x) end.
    destruct IH as (H1 & H2 & H3 & H4); [apply listening_spec; by split_and!|].
    split_and!; try done. rewrite H4. cbn [trace concat]. by rewrite map_app, <- app_assoc.
Qed.

Lemma on_done i s (w : controller T C) :
  listening i w = Some s ->
  exists c', (on_message i (Some STREAM_DONE_MESSAGE) w).2
    = put_client c' (say (Completed i (requestGeneration s) (request_of s))
                       (closeActiveSource i (complete_source i w))).
Proof.
  intros Hl. unfold on_message. rewrite Hl.
  change (isStreamDoneMessage (default [] (Some STREAM_DONE_MESSAGE))) with true. cbn iota.
  unfold io_bind, io_modify. cbn [fst snd].
  destruct (callback_result (Completed i (requestGeneration s) (request_of s)) (onComplete (request_of s))
              (closeActiveSource i (complete_source i w))) as (r1 & c1 & ->).
  by exists c1.
Qed.

(** A stream that ends well: the client hears the updates of every message, in
    order, then the source is closed, and then the client hears the end; nothing is
    active afterwards. *)
Theorem stream_delivers (w : controller T C) i s datas updates :
  listening i w = Some s -> Forall2 message_of datas updates ->
  (forall u c, (onUpdate (request_of s) u.1 u.2 c).1 = Some tt) ->
  let w' := stream_run (map (fun d => SourceMessage i (Some d)) datas
                        ++ [SourceMessage i (Some STREAM_DONE_MESSAGE)]) w in
  trace w' = trace w
    ++ map (fun u => Updated i (requestGeneration s) (request_of s) u.1 u.2) (concat updates)
    ++ [CloseSource i; SetStreaming false; Completed i (requestGeneration s) (request_of s)]
  /\ active w' = None /\ streaming w' = false.
Proof.
  intros Hl Hdatas Hu w'. subst w'. unfold stream_run. rewrite fold_left_app.
  fold (stream_run (map (fun d => SourceMessage i (Some d)) datas) w).
  destruct (on_messages i s datas updates w Hl Hdatas Hu) as (Ha & Hg & Ho & Ht).
  set (w1 := stream_run _ w) in *. cbn [fold_left].
  apply listening_spec in Hl as (Hs & Hcur & Hdone).
  assert (Hl1 : listening i w1 = Some s).
  { apply listening_spec. rewrite Ho. split_and!; [done| |done].
    apply isCurrent_spec in Hcur as [? ?]. apply isCurrent_spec. by rewrite Hg, Ha. }
  destruct (on_done i s w1 Hl1) as (c1 & Hstep). cbn [stream_step]. rewrite Hstep.
  apply isCurrent_spec in Hcur as [Hgen Hact].
  rewrite closeActive_fields by (cbn; congruence). cbn. rewrite Ht. by rewrite <- !app_assoc.
Qed.
End Theorems.

(** ** A client that collects what it hears *)

Definition collector : StreamClient nat (list jsval) := {|
  onUpdate := fun _ _ chunk => io_modify (fun heard => heard ++ [chunk]);
  onComplete := fun _ => io_ret tt;
  onError := fun _ message _ => io_modify (fun heard => heard ++ [message]);
  onServedBy := fun _ _ => io_ret tt
|}.

(** The data of a message that brings [text]: a chunk with one choice. *)
Definition content_data (text : string) : jsstr :=
  let q s := json_quote (js s) in
  js "{" ++ q "choices"%string ++ js ":[{" ++ q "delta"%string ++ js ":{"
    ++ q "content"%string ++ js ":" ++ q text ++ js "}}]}".

Example content_data_read :
  parseStreamMessageUpdates (content_data "Hello") = Some [(ContentChunk, JStr (js "Hello"))].
Proof. vm_compute. reflexivity. Qed.

Lemma overtaken_requests_are_silent_witness :
  overtakes (T := nat) Stop = true /\
  let w := stream_run (H := collector) [Send 7%nat true true] (createStreamRequestController []) in
  let w' := stream_run (H := collector)
              [SourceMessage 0%nat (Some (content_data "late")); SourceError 0%nat None None]
              (stream_step (H := collector) Stop w).2 in
  exists step_calls calls,
    trace (stream_step (H := collector) Stop w).2 = trace w ++ step_calls
    /\ trace w' = trace (stream_step (H := collector) Stop w).2 ++ calls
    /\ forall call g, call ∈ calls -> call_generation call = Some g -> (generation w < g)%nat.
Proof.
  split; [reflexivity|].
  exact (overtaken_requests_are_silent (H := collector) [] [Send 7%nat true true] Stop
           [SourceMessage 0%nat (Some (content_data "late")); SourceError 0%nat None None] eq_refl).
Defined.

Lemma stream_delivers_witness :
  let w := stream_run (H := collector) [Send 7%nat true true] (createStreamRequestController []) in
  let s := {| requestGeneration := 1; request_of := 7%nat; completed := false |} in
  let w' := stream_run (H := collector)
              [SourceMessage 0%nat (Some (content_data "Hel")); SourceMessage 0%nat (Some (content_data "lo"));
               SourceMessage 0%nat (Some STREAM_DONE_MESSAGE)] w in
  trace w' = trace w
    ++ [Updated 0 1 7%nat ContentChunk (JStr (js "Hel")); Updated 0 1 7%nat ContentChunk (JStr (js "lo"));
        CloseSource 0; SetStreaming false; Completed 0 1 7%nat]
  /\ active w' = None /\ streaming w' = false.
Proof.
  exact (stream_delivers (H := collector)
           (stream_run (H := collector) [Send 7%nat true true] (createStreamRequestController []))
           0 {| requestGeneration := 1; request_of := 7%nat; completed := false |}
           [content_data "Hel"; content_data "lo"]
           [[(ContentChunk, JStr (js "Hel"))]; [(ContentChunk, JStr (js "lo"))]]
           eq_refl
           ltac:(repeat constructor; vm_compute; reflexivity)
           ltac:(reflexivity)).
Defined.
