(* ===== verification/ChatHandler.v ===== *)
(** * Sending and receiving in the playground ([hooks/use-chat-handler.ts])

    The handler between the conversation and the stream controller: it collects
    streamed chunks and flushes them every 50 ms into the last message, ends
    messages, and discards what belongs to an overtaken request.  It is the
    controller's client.  A state update given to React is a value of [updater]:
    React runs it when it renders, or at once when no update waits; which of both,
    and what [Date.now()] returns, is part of the environment of an event. *)

From S2P Require Import Prelude JsString JsNumber JsValue PlaygroundMessages StreamRequest.

(** ** Updates given to React *)

(** What the calls of [Date.now()] of one updater return. *)
Record instants := { started_at : num; reasoned_at : num; completed_at : num }.

Inductive updater :=
| UReplace (messages : list Message)
| URemove (messageKey : jsstr)
| UFlush (gen : nat) (reasoning content : jsstr)
| UServed (gen : nat) (servedBy : jsstr)
| UComplete (gen : nat)
| UError (gen : nat) (error : jsstr) (code : option jsstr) (title : jsstr)
| UMissingKey
| UResponse (gen : nat) (choices : list ChatCompletionChoice) (servedBy : option jsstr)
| UStop (gen : nat).

Definition flush_chunks (reasoning content : jsstr) (now : instants) (message : Message) : Message :=
  let message := if nonempty reasoning
                 then applyStreamingChunk message ReasoningChunk reasoning (started_at now) (reasoned_at now)
                 else message in
  if nonempty content
  then applyStreamingChunk message ContentChunk content (started_at now) (reasoned_at now)
  else message.

Definition finish_message (now : instants) (message : Message) : Message :=
  if isAssistantMessageFinal message then message
  else completeAssistantMessage message (started_at now) (reasoned_at now) (completed_at now).

Definition stop_message (now : instants) (message : Message) : Message :=
  if isAssistantMessagePending message
  then completeAssistantMessage message (started_at now) (reasoned_at now) (completed_at now)
  else message.

Definition respond_message (choices : list ChatCompletionChoice) (servedBy : option jsstr)
    (now : instants) (message : Message) : Message :=
  match applyChatCompletionResponse message choices (started_at now) (reasoned_at now) (completed_at now) with
  | None => message
  | Some m => match servedBy with
              | Some s => if nonempty s then with_served_by m s else m
              | None => m
              end
  end.

(** Run an updater; [current] is [requestGenerationRef.current] at that moment. *)
Definition run_updater (current : nat) (now : instants) (u : updater) (prev : list Message)
    : list Message :=
  let guarded gen (next : list Message) := if (gen =? current)%nat then next else prev in
  match u with
  | UReplace messages => messages
  | URemove messageKey => removeMessageByKey prev messageKey
  | UFlush gen reasoning content =>
      guarded gen (updateLastAssistantMessage prev (flush_chunks reasoning content now))
  | UServed gen servedBy =>
      guarded gen (updateLastAssistantMessage prev (fun message => with_served_by message servedBy))
  | UComplete gen => guarded gen (updateLastAssistantMessage prev (finish_message now))
  | UError gen error code title =>
      guarded gen (updateAssistantMessageWithError prev error code title (completed_at now))
  | UMissingKey =>
      updateAssistantMessageWithError prev MISSING_CLIENT_KEY None API_REQUEST_ERROR (completed_at now)
  | UResponse gen choices servedBy =>
      guarded gen (updateLastAssistantMessage prev (respond_message choices servedBy now))
  | UStop gen => guarded gen (updateLastAssistantMessage prev (stop_message now))
  end.

(** ** The handler's state *)

Record PendingStreamChunks := {
  p_generation : nat;
  p_content : jsstr;
  p_reasoning : jsstr
}.

(** A request without streaming: its generation and its abort signal. *)
Record plain_request := { plain_generation : nat; aborted : bool }.

Record chat := {
  requestGenerationRef : nat;
  pendingStreamChunksRef : PendingStreamChunks;
  streamFlushTimerRef : option nat;
  abortControllerRef : option nat;
  plain_requests : list plain_request;
  isRequesting : bool;
  messages : list Message;
  updates : list updater;
  (* the environment of the running event *)
  eager : bool;
  now : instants
}.

Section Updates.
Implicit Types s : chat.

Definition set_generation (g : nat) s : chat :=
  {| requestGenerationRef := g; pendingStreamChunksRef := pendingStreamChunksRef s;
     streamFlushTimerRef := streamFlushTimerRef s; abortControllerRef := abortControllerRef s;
     plain_requests := plain_requests s; isRequesting := isRequesting s; messages := messages s;
     updates := updates s; eager := eager s; now := now s |}.

Definition set_pending (p : PendingStreamChunks) s : chat :=
  {| requestGenerationRef := requestGenerationRef s; pendingStreamChunksRef := p;
     streamFlushTimerRef := streamFlushTimerRef s; abortControllerRef := abortControllerRef s;
     plain_requests := plain_requests s; isRequesting := isRequesting s; messages := messages s;
     updates := updates s; eager := eager s; now := now s |}.

Definition set_timer (t : option nat) s : chat :=
  {| requestGenerationRef := requestGenerationRef s; pendingStreamChunksRef := pendingStreamChunksRef s;
     streamFlushTimerRef := t; abortControllerRef := abortControllerRef s;
     plain_requests := plain_requests s; isRequesting := isRequesting s; messages := messages s;
     updates := updates s; eager := eager s; now := now s |}.

Definition set_abort (a : option nat) s : chat :=
  {| requestGenerationRef := requestGenerationRef s; pendingStreamChunksRef := pendingStreamChunksRef s;
     streamFlushTimerRef := streamFlushTimerRef s; abortControllerRef := a;
     plain_requests := plain_requests s; isRequesting := isRequesting s; messages := messages s;
     updates := updates s; eager := eager s; now := now s |}.

Definition set_plain (rs : list plain_request) s : chat :=
  {| requestGenerationRef := requestGenerationRef s; pendingStreamChunksRef := pendingStreamChunksRef s;
     streamFlushTimerRef := streamFlushTimerRef s; abortControllerRef := abortControllerRef s;
     plain_requests := rs; isRequesting := isRequesting s; messages := messages s;
     updates := updates s; eager := eager s; now := now s |}.

Definition setIsRequesting (b : bool) s : chat :=
  {| requestGenerationRef := requestGenerationRef s; pendingStreamChunksRef := pendingStreamChunksRef s;
     streamFlushTimerRef := streamFlushTimerRef s; abortControllerRef := abortControllerRef s;
     plain_requests := plain_requests s; isRequesting := b; messages := messages s;
     updates := updates s; eager := eager s; now := now s |}.

Definition set_messages (ms : list Message) (us : list updater) s : chat :=
  {| requestGenerationRef := requestGenerationRef s; pendingStreamChunksRef := pendingStreamChunksRef s;
     streamFlushTimerRef := streamFlushTimerRef s; abortControllerRef := abortControllerRef s;
     plain_requests := plain_requests s; isRequesting := isRequesting s; messages := ms;
     updates := us; eager := eager s; now := now s |}.

Definition set_environment (eager : bool) (now : instants) s : chat :=
  {| requestGenerationRef := requestGenerationRef s; pendingStreamChunksRef := pendingStreamChunksRef s;
     streamFlushTimerRef := streamFlushTimerRef s; abortControllerRef := abortControllerRef s;
     plain_requests := plain_requests s; isRequesting := isRequesting s; messages := messages s;
     updates := updates s; eager := eager; now := now |}.
End Updates.

(** [onMessageUpdate(u)]: at once, when React does so and nothing waits, or queued. *)
Definition onMessageUpdate (u : updater) (s : chat) : chat :=
  match updates s with
  | [] =>
      if eager s then set_messages (run_updater (requestGenerationRef s) (now s) u (messages s)) [] s
      else set_messages (messages s) [u] s
  | us => set_messages (messages s) (us ++ [u]) s
  end.

(** React renders: the waiting updates run in order, each at its own instants. *)
Fixpoint run_updates (current : nat) (clock : nat -> instants) (us : list updater)
    (ms : list Message) : list Message :=
  match us with
  | [] => ms
  | u :: us' => run_updates current (fun n => clock (S n)) us' (run_updater current (clock 0%nat) u ms)
  end.

Definition render (clock : nat -> instants) (s : chat) : chat :=
  set_messages (run_updates (requestGenerationRef s) clock (updates s) (messages s)) [] s.

(** ** Chunks *)

(** [mergePendingStreamChunk]; [None] when [nextChunk.startsWith] is not a function. *)
Definition mergePendingStreamChunk (currentChunk : jsstr) (nextChunk : jsval) : option jsstr :=
  if negb (nonempty currentChunk) then Some (string_of_val nextChunk)
  else match nextChunk with
       | JStr next => Some (if negb (starts_with currentChunk next) then currentChunk ++ next else next)
       | _ => None
       end.

Definition no_chunks (generation : nat) : PendingStreamChunks :=
  {| p_generation := generation; p_content := []; p_reasoning := [] |}.

Definition discardPendingStreamUpdates (generation : nat) (s : chat) : chat :=
  set_pending (no_chunks generation) (set_timer None s).

Definition flushStreamUpdates (generation : nat) (s : chat) : chat :=
  if negb (generation =? requestGenerationRef s)%nat then s
  else
    let s := set_timer None s in
    let pendingChunks := pendingStreamChunksRef s in
    if negb (p_generation pendingChunks =? generation)%nat then s
    else if negb (nonempty (p_reasoning pendingChunks)) && negb (nonempty (p_content pendingChunks)) then s
    else onMessageUpdate (UFlush generation (p_reasoning pendingChunks) (p_content pendingChunks))
           (set_pending (no_chunks generation) s).

Definition scheduleStreamFlush (generation : nat) (s : chat) : chat :=
  if negb (generation =? requestGenerationRef s)%nat then s
  else match streamFlushTimerRef s with
       | Some _ => s
       | None => set_timer (Some generation) s
       end.

Definition put_chunk (type : StreamChunkType) (c : jsstr) (p : PendingStreamChunks) : PendingStreamChunks :=
  match type with
  | ReasoningChunk => {| p_generation := p_generation p; p_content := p_content p; p_reasoning := c |}
  | ContentChunk => {| p_generation := p_generation p; p_content := c; p_reasoning := p_reasoning p |}
  end.

Definition get_chunk (type : StreamChunkType) (p : PendingStreamChunks) : jsstr :=
  match type with ReasoningChunk => p_reasoning p | ContentChunk => p_content p end.

Definition handleStreamUpdate (generation : nat) (type : StreamChunkType) (chunk : jsval)
    : io chat unit := fun s =>
  if negb (generation =? requestGenerationRef s)%nat then io_ret tt s
  else if negb (p_generation (pendingStreamChunksRef s) =? generation)%nat then io_ret tt s
  else
    match mergePendingStreamChunk (get_chunk type (pendingStreamChunksRef s)) chunk with
    | None => io_throw s
    | Some merged =>
        io_ret tt (scheduleStreamFlush generation
                     (set_pending (put_chunk type merged (pendingStreamChunksRef s)) s))
    end.

Definition handleServedBy (generation : nat) (servedBy : jsstr) (s : chat) : chat :=
  if negb (generation =? requestGenerationRef s)%nat then s
  else onMessageUpdate (UServed generation servedBy) s.

Definition handleStreamComplete (generation : nat) (s : chat) : chat :=
  if negb (generation =? requestGenerationRef s)%nat then s
  else onMessageUpdate (UComplete generation) (setIsRequesting false (flushStreamUpdates generation s)).

(** ** Errors *)

Definition KNOWN_ERROR_MESSAGES : list jsstr :=
  [API_REQUEST_ERROR; NETWORK_ERROR; PARSE_ERROR; STREAM_START_ERROR; CONNECTION_CLOSED;
   INTERRUPTED; MISSING_CLIENT_KEY].

Section Handler.
(** [t]: the translation of a text. *)
Context (t : jsstr -> jsstr).

(** [None]: an error that is not a text has no [endsWith]. *)
Definition getDisplayError (error : jsval) : option jsstr :=
  match error with
  | JStr error =>
      let suffix := js ": " ++ CONNECTION_CLOSED in
      Some (if includes_str KNOWN_ERROR_MESSAGES error then t error
            else if ends_with suffix error
                 then take (length error - length CONNECTION_CLOSED) error ++ t CONNECTION_CLOSED
                 else error)
  | _ => None
  end.

(** A code that is not a text is stored as it is; only texts are told apart here. *)
Definition code_text (code : option jsval) : option jsstr := string_of_val <$> code.

Definition handleStreamError (generation : nat) (error : jsval) (errorCode : option jsval)
    : io chat unit := fun s =>
  if negb (generation =? requestGenerationRef s)%nat then io_ret tt s
  else
    let s := setIsRequesting false (flushStreamUpdates generation s) in
    match getDisplayError error with
    | None => io_throw s
    | Some displayError =>
        io_ret tt (onMessageUpdate
                     (UError generation displayError (code_text errorCode) (t API_REQUEST_ERROR)) s)
    end.

(** The handler is the client of the stream controller. *)
#[export] Instance chat_client : StreamClient nat chat := {
  onUpdate := handleStreamUpdate;
  onComplete := fun g => io_modify (handleStreamComplete g);
  onError := handleStreamError;
  onServedBy := fun g servedBy => io_modify (handleServedBy g servedBy)
}.

(** ** Sending and stopping *)

Definition playground := controller nat chat.

Definition on_chat (f : chat -> chat) (w : playground) : playground := put_client (f (client w)) w.

(** [abortControllerRef.current?.abort()] *)
Definition abort_current (s : chat) : chat :=
  match abortControllerRef s with
  | Some i => set_plain (alter (fun r => {| plain_generation := plain_generation r; aborted := true |}) i
                           (plain_requests s)) s
  | None => s
  end.

(** The handler's part of [sendStreamingChat], up to the request. *)
Definition begin_streaming (generation : nat) (s : chat) : chat :=
  setIsRequesting true
    (discardPendingStreamUpdates generation
       (set_abort None (abort_current (set_generation generation s)))).

(** The payload goes to the source; [starts] is false when [stream()] throws. *)
Definition sendStreamingChat (starts : bool) : io playground unit := fun w =>
  let generation := S (requestGenerationRef (client w)) in
  send generation true starts (on_chat (begin_streaming generation) w).

(** Up to the awaited answer. *)
Definition sendNonStreamingChat (w : playground) : playground :=
  let generation := S (requestGenerationRef (client w)) in
  let w := cancel true (on_chat (set_generation generation) w) in
  on_chat (fun s =>
    let s := abort_current (discardPendingStreamUpdates generation s) in
    let s := set_plain (plain_requests s ++ [{| plain_generation := generation; aborted := false |}])
               (set_abort (Some (length (plain_requests s))) s) in
    setIsRequesting true s) w.

(** What the awaited request delivers. *)
Inductive answer :=
| Answered (choices : list ChatCompletionChoice) (servedBy : option jsstr)
| Refused (error : jsval).

Definition finally_plain (generation : nat) (s : chat) : chat :=
  if (requestGenerationRef s =? generation)%nat then setIsRequesting false (set_abort None s) else s.

Definition plain_answer (i : nat) (a : answer) : io chat unit := fun s =>
  match plain_requests s !! i with
  | None => io_ret tt s
  | Some r =>
      let generation := plain_generation r in
      if aborted r || negb (requestGenerationRef s =? generation)%nat
      then io_ret tt (finally_plain generation s)
      else
        let '(result, s) :=
          match a with
          | Answered choices servedBy =>
              if negb (hasChatCompletionChoice choices)
              then handleStreamError generation (JStr API_REQUEST_ERROR) None s
              else io_ret tt (onMessageUpdate (UResponse generation choices servedBy) s)
          | Refused error =>
              let details := parseRequestErrorDetails error in
              handleStreamError generation (sd_message details) (sd_code details) s
          end in
        (result, finally_plain generation s)
  end.

Definition sendChat (hasClientKey streamed starts : bool) : io playground unit := fun w =>
  if negb hasClientKey then
    io_ret tt (on_chat (fun s => onMessageUpdate UMissingKey
                          (set_generation (S (requestGenerationRef s)) s)) w)
  else if streamed then sendStreamingChat starts w
  else io_ret tt (sendNonStreamingChat w).

Definition stopGeneration (w : playground) : playground :=
  let stoppedGeneration := requestGenerationRef (client w) in
  let idleGeneration := S stoppedGeneration in
  let w := on_chat (fun s => discardPendingStreamUpdates idleGeneration
                      (set_generation idleGeneration (flushStreamUpdates stoppedGeneration s))) w in
  let w := cancel true w in
  on_chat (fun s => onMessageUpdate (UStop idleGeneration)
             (setIsRequesting false (set_abort None (abort_current s)))) w.

(** The effect's clean-up, with that of the stream hook.  The cleared timer stays in
    its reference; no timer can fire, and nothing is sent afterwards. *)
Definition unmount (w : playground) : playground :=
  cancel false (on_chat (fun s =>
    set_abort None (abort_current (set_timer None (set_generation (S (requestGenerationRef s)) s)))) w).

(** ** The conversation ([use-playground-conversation.ts]) *)

(** [updateMessages(next); sendChat(next)] *)
Definition update_and_send (next : list Message) (hasClientKey streamed starts : bool)
    : io playground unit := fun w =>
  sendChat hasClientKey streamed starts (on_chat (onMessageUpdate (UReplace next)) w).

(** ** Events *)

Inductive chat_event :=
| SendChat (next : list Message) (hasClientKey streamed starts : bool)
| StopGeneration
| DeleteMessage (messageKey : jsstr)
| FlushTimer
| PlainAnswer (i : nat) (a : answer)
| Stream (e : stream_event nat)
| Render (clock : nat -> instants)
| Unmount.

(** The events of the sources; [send], [stop] and [dispose] are the handler's to call. *)
Definition from_source (e : stream_event nat) : bool :=
  match e with Send _ _ _ | Stop | Dispose => false | _ => true end.

Definition flush_timer (s : chat) : chat :=
  match streamFlushTimerRef s with Some g => flushStreamUpdates g s | None => s end.

Definition chat_step (e : chat_event) : io playground unit := fun w =>
  match e with
  | SendChat next hasClientKey streamed starts => update_and_send next hasClientKey streamed starts w
  | StopGeneration => io_ret tt (stopGeneration w)
  | DeleteMessage messageKey => io_ret tt (on_chat (onMessageUpdate (URemove messageKey)) w)
  | FlushTimer => io_ret tt (on_chat flush_timer w)
  | PlainAnswer i a => io_on client put_client (plain_answer i a) w
  | Stream e => if from_source e then stream_step e w else io_ret tt w
  | Render clock => io_ret tt (on_chat (render clock) w)
  | Unmount => io_ret tt (unmount w)
  end.

(** An event in an environment: whether React runs a first update at once, and the clock. *)
Definition chat_event_in (e : bool * instants * chat_event) (w : playground) : playground :=
  let '(eager, now, ev) := e in (chat_step ev (on_chat (set_environment eager now) w)).2.

Definition chat_run (events : list (bool * instants * chat_event)) (w : playground) : playground :=
  fold_left (fun w e => chat_event_in e w) events w.

(** [isGenerating] *)
Definition isGenerating (w : playground) : bool := streaming w || isRequesting (client w).
End Handler.

(** ** Updates that wait *)

Lemma update_last_assistant init m f :
  from m = ASSISTANT -> updateLastAssistantMessage (init ++ [m]) f = init ++ [f m].
Proof.
  intros Hm. unfold updateLastAssistantMessage. rewrite last_snoc, decide_True by done.
  rewrite length_app. cbn. rewrite Nat.add_sub, take_app_length. done.
Qed.

Lemma run_updates_app current us us' : forall clock ms,
  run_updates current clock (us ++ us') ms
  = run_updates current (fun n => clock (length us + n)%nat) us' (run_updates current clock us ms).
Proof. induction us as [|u us IH]; intros clock ms; cbn; [done|]. by rewrite IH. Qed.

(** The messages that the waiting updates start from, and these updates: what waits
    before a replacement of the messages does not count. *)
Definition settles (s : chat) (ms : list Message) (us : list updater) : Prop :=
  (messages s = ms /\ updates s = us)
  \/ exists old, updates s = old ++ UReplace ms :: us.

Lemma settles_render s ms us clock :
  settles s ms us ->
  exists clock', messages (render clock s) = run_updates (requestGenerationRef s) clock' us ms
                 /\ updates (render clock s) = [].
Proof.
  intros [[<- <-]|[old Hold]]; cbn.
  - by exists clock.
  - rewrite Hold, run_updates_app. cbn. by eexists.
Qed.

(** A further update waits, or runs at once when nothing waits. *)
Lemma settles_update s ms us u :
  settles s ms us ->
  settles (onMessageUpdate u s) ms (us ++ [u])
  \/ (us = [] /\ settles (onMessageUpdate u s) (run_updater (requestGenerationRef s) (now s) u ms) []).
Proof.
  unfold settles, onMessageUpdate. intros [[Hms Hus]|[old Hold]].
  - destruct (updates s) as [|u' us'] eqn:Hq.
    + subst. destruct (eager s); [right; split; [done|]; by left|]. left. by left.
    + left. left. by subst.
  - destruct (updates s) as [|u' us'] eqn:Hq; [by destruct old|]. left. right. exists old. cbn.
    rewrite app_comm_cons, Hold. by rewrite <- app_assoc.
Qed.

Lemma onMessageUpdate_refs u s :
  requestGenerationRef (onMessageUpdate u s) = requestGenerationRef s
  /\ pendingStreamChunksRef (onMessageUpdate u s) = pendingStreamChunksRef s
  /\ streamFlushTimerRef (onMessageUpdate u s) = streamFlushTimerRef s
  /\ plain_requests (onMessageUpdate u s) = plain_requests s
  /\ isRequesting (onMessageUpdate u s) = isRequesting s.
Proof. unfold onMessageUpdate. by destruct (updates s), (eager s). Qed.

(** ** Receiving a stream *)

Definition nonempty_chunks (chunks : list jsstr) : Prop := Forall (fun c => c <> []) chunks.

Lemma concat_nil_chunks chunks : nonempty_chunks chunks -> concat chunks = [] -> chunks = [].
Proof. destruct 1 as [|c cs Hc _]; [done|]. cbn. intros [? _]%app_nil. done. Qed.

(** The update that flushes these chunks, or one that shows none. *)
Definition update_of (g : nat) (u : updater) (group : list jsstr * list jsstr) : Prop :=
  u = UFlush g (concat group.1) (concat group.2)
  \/ (exists servedBy, u = UServed g servedBy) /\ group = ([], []).

Lemma shows_served m contents reasonings servedBy :
  shows m contents reasonings -> shows (with_served_by m servedBy) contents reasonings.
Proof. done. Qed.

(** Chunks that can still be told from snapshots: what is shown, what is added, and
    what may come. *)
Definition fresh_chunks (shown added : list jsstr) : Prop :=
  nonempty_chunks added
  /\ (concat shown <> [] -> added <> [] -> starts_with (concat shown) (concat added) = false).

Lemma flush_shows now m contents reasonings rs cs :
  shows m contents reasonings -> fresh_chunks reasonings rs -> fresh_chunks contents cs ->
  shows (flush_chunks (concat rs) (concat cs) now m) (contents ++ cs) (reasonings ++ rs).
Proof.
  intros Hm [Hrs Hr] [Hcs Hc]. unfold flush_chunks.
  assert (Hm1 : shows (if nonempty (concat rs)
                       then applyStreamingChunk m ReasoningChunk (concat rs) (started_at now) (reasoned_at now)
                       else m) contents (reasonings ++ rs)).
  { destruct (nonempty (concat rs)) eqn:Hne.
    - assert (rs <> []) by (intros ->; discriminate). apply shows_reasoning; [done|done|].
      intros Hshown. by apply Hr.
    - rewrite (concat_nil_chunks rs) by (done || by destruct (concat rs)). by rewrite app_nil_r. }
  destruct (nonempty (concat cs)) eqn:Hne.
  - assert (cs <> []) by (intros ->; discriminate). apply shows_content; [done|].
    intros Hshown. by apply Hc.
  - rewrite (concat_nil_chunks cs) by (done || by destruct (concat cs)). by rewrite app_nil_r.
Qed.

Lemma run_update_of g now u rs cs init m contents reasonings :
  update_of g u (rs, cs) -> shows m contents reasonings ->
  fresh_chunks reasonings rs -> fresh_chunks contents cs ->
  exists m', run_updater g now u (init ++ [m]) = init ++ [m']
             /\ shows m' (contents ++ cs) (reasonings ++ rs).
Proof.
  intros Hu Hm Hr Hc. assert (Hf : from m = ASSISTANT) by apply Hm.
  destruct Hu as [->|[[by_ ->] [= -> ->]]]; cbn [run_updater fst snd];
    rewrite Nat.eqb_refl, update_last_assistant by done; eexists; (split; [done|]).
  - by apply flush_shows.
  - rewrite !app_nil_r. by apply shows_served.
Qed.

Lemma no_restart_fresh shown added after :
  nonempty_chunks (shown ++ added ++ after) -> no_restart (shown ++ added ++ after) ->
  fresh_chunks shown added.
Proof.
  unfold nonempty_chunks. rewrite !Forall_app. intros (_ & Hadd & _) Hno. split; [done|].
  intros Hshown Hne. by apply (Hno [] shown added after).
Qed.

(** Running all of them. *)
Lemma run_updates_shows g init us groups : Forall2 (update_of g) us groups ->
  forall clock m contents reasonings content_rest reasoning_rest,
  shows m contents reasonings ->
  nonempty_chunks (contents ++ concat groups.*2 ++ content_rest) ->
  nonempty_chunks (reasonings ++ concat groups.*1 ++ reasoning_rest) ->
  no_restart (contents ++ concat groups.*2 ++ content_rest) ->
  no_restart (reasonings ++ concat groups.*1 ++ reasoning_rest) ->
  exists m', run_updates g clock us (init ++ [m]) = init ++ [m']
             /\ shows m' (contents ++ concat groups.*2) (reasonings ++ concat groups.*1).
Proof.
  induction 1 as [|u [rs cs] us groups Hu _ IH]; intros clock m contents reasonings crest rrest Hm Hc Hr Hnc Hnr.
  - exists m. cbn. by rewrite !app_nil_r.
  - cbn [fmap list_fmap concat fst snd] in *. rewrite <- !app_assoc in Hc, Hr, Hnc, Hnr.
    destruct (run_update_of g (clock 0%nat) u rs cs init m contents reasonings Hu Hm) as (m1 & Hrun & Hm1);
      [by eapply no_restart_fresh|by eapply no_restart_fresh|].
    destruct (IH (fun n => clock (S n)) m1 (contents ++ cs) (reasonings ++ rs) crest rrest Hm1) as (m2 & Hrest & Hm2);
      rewrite <- ?app_assoc; try done.
    exists m2. cbn [run_updates]. rewrite Hrun. split; [done|]. by rewrite !app_assoc.
Qed.

(** Chunks that the code cannot take for snapshots. *)
Definition tellable (chunks : list jsstr) : Prop := nonempty_chunks chunks /\ no_restart chunks.

Lemma tellable_prefix chunks more : tellable (chunks ++ more) -> tellable chunks.
Proof.
  intros [[Hne _]%Forall_app Hno]. split; [done|].
  intros before run next after -> Hrun Hnext.
  apply (Hno before run next (after ++ more)); [|done|done]. by rewrite <- !app_assoc.
Qed.

Lemma tellable_fresh shown added after : tellable (shown ++ added ++ after) -> fresh_chunks shown added.
Proof. intros [Hne Hno]. by eapply no_restart_fresh. Qed.

(** What is shown and what waits to be shown. *)
Definition shown_and_waiting (g : nat) (init : list Message) (s : chat)
    (contents reasonings : list jsstr) : Prop :=
  exists us groups m shown_c shown_r,
    settles s (init ++ [m]) us /\ Forall2 (update_of g) us groups /\ shows m shown_c shown_r
    /\ contents = shown_c ++ concat groups.*2 /\ reasonings = shown_r ++ concat groups.*1.

(** With the chunks that are not flushed yet. *)
Definition receiving (g : nat) (init : list Message) (s : chat) (contents reasonings : list jsstr) : Prop :=
  requestGenerationRef s = g /\ p_generation (pendingStreamChunksRef s) = g
  /\ exists flushed_c flushed_r pend_c pend_r,
       shown_and_waiting g init s flushed_c flushed_r
       /\ p_content (pendingStreamChunksRef s) = concat pend_c
       /\ p_reasoning (pendingStreamChunksRef s) = concat pend_r
       /\ contents = flushed_c ++ pend_c /\ reasonings = flushed_r ++ pend_r.

(** Only the messages, the waiting updates and the generation matter. *)
Lemma shown_and_waiting_same g init s s' contents reasonings :
  messages s' = messages s -> updates s' = updates s ->
  shown_and_waiting g init s contents reasonings -> shown_and_waiting g init s' contents reasonings.
Proof.
  intros Hm Hu (us & groups & m & sc & sr & Hset & Hrest). exists us, groups, m, sc, sr.
  split; [|done]. unfold settles in *. by rewrite Hm, Hu.
Qed.

Lemma shown_update g init s u rs cs contents reasonings :
  requestGenerationRef s = g -> update_of g u (rs, cs) ->
  tellable (contents ++ cs) -> tellable (reasonings ++ rs) ->
  shown_and_waiting g init s contents reasonings ->
  shown_and_waiting g init (onMessageUpdate u s) (contents ++ cs) (reasonings ++ rs).
Proof.
  intros Hg Hu Hc Hr (us & groups & m & sc & sr & Hset & Hgroups & Hm & -> & ->).
  destruct (settles_update s (init ++ [m]) us u Hset) as [Hset'|[-> Hset']].
  - exists (us ++ [u]), (groups ++ [(rs, cs)]), m, sc, sr.
    split_and!; [done|by apply Forall2_app; [|constructor]|done| |];
      rewrite !fmap_app, concat_app; cbn; by rewrite app_nil_r, <- app_assoc.
  - inversion Hgroups; subst. cbn in Hc, Hr. rewrite !app_nil_r in Hc, Hr.
    destruct (run_update_of (requestGenerationRef s) (now s) u rs cs init m sc sr Hu Hm) as (m' & Hrun & Hm').
    { apply (tellable_fresh sr rs []). by rewrite app_nil_r. }
    { apply (tellable_fresh sc cs []). by rewrite app_nil_r. }
    rewrite Hrun in Hset'. exists [], [], m', (sc ++ cs), (sr ++ rs). cbn. rewrite !app_nil_r.
    by split_and!.
Qed.

Lemma shown_render g init s clock contents reasonings :
  requestGenerationRef s = g -> tellable contents -> tellable reasonings ->
  shown_and_waiting g init s contents reasonings ->
  exists m, messages (render clock s) = init ++ [m] /\ updates (render clock s) = []
            /\ shows m contents reasonings.
Proof.
  intros Hg [Hc Hnc] [Hr Hnr] (us & groups & m & sc & sr & Hset & Hgroups & Hm & -> & ->).
  destruct (settles_render s (init ++ [m]) us clock Hset) as (clock' & -> & ->). rewrite Hg.
  destruct (run_updates_shows g init us groups Hgroups clock' m sc sr [] [] Hm) as (m' & -> & Hm');
    rewrite ?app_nil_r; try done.
  by exists m'.
Qed.

Lemma tellable_suffix_nil chunks pend : tellable (chunks ++ pend) -> concat pend = [] -> pend = [].
Proof. intros [[_ Hp]%Forall_app _]. by apply concat_nil_chunks. Qed.

Lemma flush_receiving g init s contents reasonings :
  tellable contents -> tellable reasonings ->
  receiving g init s contents reasonings ->
  shown_and_waiting g init (flushStreamUpdates g s) contents reasonings
  /\ receiving g init (flushStreamUpdates g s) contents reasonings.
Proof.
  intros Hc Hr (Hg & Hp & fc & fr & pc & pr & Hshown & Hpc & Hpr & -> & ->).
  assert (Hsame : shown_and_waiting g init (flushStreamUpdates g s) (fc ++ pc) (fr ++ pr)
                  /\ requestGenerationRef (flushStreamUpdates g s) = g
                  /\ pendingStreamChunksRef (flushStreamUpdates g s) = no_chunks g).
  { unfold flushStreamUpdates. rewrite Hg, Nat.eqb_refl. cbn [negb set_timer pendingStreamChunksRef].
    rewrite Hp, Nat.eqb_refl. cbn [negb].
    destruct (negb (nonempty (p_reasoning _)) && _) eqn:Hempty.
    - apply andb_prop in Hempty as [Her Hec]. apply nonempty_false in Her, Hec.
      rewrite Hpr in Her. rewrite Hpc in Hec.
      rewrite (tellable_suffix_nil _ _ Hr Her), (tellable_suffix_nil _ _ Hc Hec), !app_nil_r.
      split_and!; [by eapply shown_and_waiting_same; [| |exact Hshown]|done|].
      cbn. destruct (pendingStreamChunksRef s) as [pg pcc prr]. cbn in *. unfold no_chunks. congruence.
    - match goal with |- context [onMessageUpdate ?u ?x] =>
        destruct (onMessageUpdate_refs u x) as (-> & -> & _) end.
      split_and!; [|done|done]. apply shown_update; try done.
      left. cbn. by rewrite Hpc, Hpr. }
  destruct Hsame as (Hs & Hg' & Hp'). split; [done|]. split; [done|]. rewrite Hp'. split; [done|].
  exists (fc ++ pc), (fr ++ pr), [], []. by rewrite !app_nil_r.
Qed.

Lemma receiving_timer g init s timer contents reasonings :
  receiving g init s contents reasonings -> receiving g init (set_timer timer s) contents reasonings.
Proof.
  intros (Hg & Hp & fc & fr & pc & pr & Hshown & Hrest). split; [done|]. split; [done|].
  exists fc, fr, pc, pr. split; [|done]. by eapply shown_and_waiting_same; [| |exact Hshown].
Qed.

Lemma receiving_schedule g init s contents reasonings :
  receiving g init s contents reasonings ->
  receiving g init (scheduleStreamFlush g s) contents reasonings.
Proof.
  intros H. unfold scheduleStreamFlush. destruct (negb _); [done|].
  destruct (streamFlushTimerRef s); [done|]. by apply receiving_timer.
Qed.

(** Merging keeps the chunks in a row. *)
Lemma merge_tellable flushed pend chunk :
  tellable ((flushed ++ pend) ++ [chunk]) ->
  mergePendingStreamChunk (concat pend) (JStr chunk) = Some (concat (pend ++ [chunk])).
Proof.
  intros [Hne Hno]. unfold mergePendingStreamChunk. rewrite concat_app. cbn. rewrite app_nil_r.
  destruct (nonempty (concat pend)) eqn:Hp; cbn [negb].
  - assert (Hsw : starts_with (concat pend) (concat [chunk]) = false).
    { apply (Hno flushed pend [chunk] []); [by rewrite <- app_assoc| |done]. by destruct (concat pend). }
    cbn in Hsw. rewrite app_nil_r in Hsw. by rewrite Hsw.
  - destruct (concat pend); [done|discriminate].
Qed.

(** The chunks of one kind in a list of updates. *)
Definition of_kind (k : StreamChunkType) (updates : list (StreamChunkType * jsstr)) : list jsstr :=
  map snd (List.filter (fun u => match k, u.1 with
                                 | ReasoningChunk, ReasoningChunk | ContentChunk, ContentChunk => true
                                 | _, _ => false
                                 end) updates).

Lemma receive_chunk g init s type chunk contents reasonings :
  tellable (contents ++ of_kind ContentChunk [(type, chunk)]) ->
  tellable (reasonings ++ of_kind ReasoningChunk [(type, chunk)]) ->
  receiving g init s contents reasonings ->
  exists s', handleStreamUpdate g type (JStr chunk) s = (Some tt, s')
    /\ receiving g init s' (contents ++ of_kind ContentChunk [(type, chunk)])
         (reasonings ++ of_kind ReasoningChunk [(type, chunk)]).
Proof.
  intros Hc Hr (Hg & Hp & fc & fr & pc & pr & Hshown & Hpc & Hpr & -> & ->).
  unfold handleStreamUpdate. rewrite Hg, Nat.eqb_refl, Hp, Nat.eqb_refl. cbn [negb].
  destruct type; cbn [of_kind get_chunk List.filter map fst snd] in *.
  - rewrite Hpr, (merge_tellable fr) by done. eexists. split; [done|]. apply receiving_schedule.
    split; [done|]. split; [done|]. exists fc, fr, pc, (pr ++ [chunk]).
    split; [by eapply shown_and_waiting_same; [| |exact Hshown]|]. cbn. rewrite app_nil_r, <- app_assoc. done.
  - rewrite Hpc, (merge_tellable fc) by done. eexists. split; [done|]. apply receiving_schedule.
    split; [done|]. split; [done|]. exists fc, fr, (pc ++ [chunk]), pr.
    split; [by eapply shown_and_waiting_same; [| |exact Hshown]|]. cbn. rewrite app_nil_r, <- app_assoc. done.
Qed.

Lemma receive_render g init s clock contents reasonings :
  tellable contents -> tellable reasonings ->
  receiving g init s contents reasonings -> receiving g init (render clock s) contents reasonings.
Proof.
  intros Hc Hr (Hg & Hp & fc & fr & pc & pr & Hshown & Hpc & Hpr & -> & ->).
  split; [done|]. split; [done|]. exists fc, fr, pc, pr. split; [|done].
  destruct (shown_render g init s clock fc fr Hg) as (m & Hms & Hus & Hm); [by eapply tellable_prefix..|done|].
  exists [], [], m, fc, fr. cbn. rewrite !app_nil_r. split_and!; try done. by left.
Qed.

Lemma receive_served g init s servedBy contents reasonings :
  tellable contents -> tellable reasonings ->
  receiving g init s contents reasonings ->
  receiving g init (handleServedBy g servedBy s) contents reasonings.
Proof.
  intros Hc Hr (Hg & Hp & fc & fr & pc & pr & Hshown & Hpc & Hpr & -> & ->).
  unfold handleServedBy. rewrite Hg, Nat.eqb_refl. cbn [negb].
  destruct (onMessageUpdate_refs (UServed g servedBy) s) as (Hg' & Hp' & _).
  split; [by rewrite Hg'|]. rewrite Hp'. split; [done|]. exists fc, fr, pc, pr. split; [|done].
  pose proof (shown_update g init s (UServed g servedBy) [] [] fc fr Hg) as Hu.
  rewrite !app_nil_r in Hu. apply Hu; [|by eapply tellable_prefix..|done].
  right. split; [by eexists|done].
Qed.

(** *** Events while a stream is received *)

Definition chunk_updates (us : list (StreamChunkType * jsstr)) : list (StreamChunkType * jsval) :=
  map (fun u => (u.1, JStr u.2)) us.

(** The events that may happen, in any order, with the chunks they bring: messages of
    the source, its headers, the timer, rendering, and anything from other sources. *)
Inductive receives (i : nat) : chat_event -> list (StreamChunkType * jsstr) -> Prop :=
| receives_message data us :
    isStreamDoneMessage data = false -> parseStreamMessageUpdates data = Some (chunk_updates us) ->
    receives i (Stream (SourceMessage i (Some data))) us
| receives_open headers : receives i (Stream (SourceOpen i headers)) []
| receives_timer : receives i FlushTimer []
| receives_render clock : receives i (Render clock) []
| receives_other_message j data : j <> i -> receives i (Stream (SourceMessage j data)) []
| receives_other_error j rs data : j <> i -> receives i (Stream (SourceError j rs data)) []
| receives_other_state j rs st : j <> i -> receives i (Stream (SourceReadyState j rs st)) []
| receives_other_open j headers : j <> i -> receives i (Stream (SourceOpen j headers)) [].

(** A list of them, each in its environment, with all the chunks. *)
Inductive received (i : nat) :
    list (bool * instants * chat_event) -> list (StreamChunkType * jsstr) -> Prop :=
| received_none : received i [] []
| received_one env now e events us more :
    receives i e us -> received i events more ->
    received i ((env, now, e) :: events) (us ++ more).

Section Receiving.
Context (t : jsstr -> jsstr).

Definition receiving_at (i g : nat) (init : list Message) (w : playground)
    (contents reasonings : list jsstr) : Prop :=
  exists src, listening i w = Some src /\ request_of src = g
              /\ receiving g init (client w) contents reasonings.

Lemma receiving_environment g init env now s contents reasonings :
  receiving g init s contents reasonings -> receiving g init (set_environment env now s) contents reasonings.
Proof.
  intros (Hg & Hp & fc & fr & pc & pr & Hshown & Hrest). split; [done|]. split; [done|].
  exists fc, fr, pc, pr. split; [|done]. by eapply shown_and_waiting_same; [| |exact Hshown].
Qed.

Lemma of_kind_cons k u us : of_kind k (u :: us) = of_kind k [u] ++ of_kind k us.
Proof. unfold of_kind. cbn. by destruct k, u as [[|] c]. Qed.

Lemma of_kind_app k us us' : of_kind k (us ++ us') = of_kind k us ++ of_kind k us'.
Proof. unfold of_kind. by rewrite List.filter_app, map_app. Qed.

#[local] Existing Instance chat_client.

Lemma deliver_receives i s init us : forall (w : playground) contents reasonings,
  listening i w = Some s ->
  tellable (contents ++ of_kind ContentChunk us) -> tellable (reasonings ++ of_kind ReasoningChunk us) ->
  receiving (request_of s) init (client w) contents reasonings ->
  exists w', io_each (deliver_update (H := chat_client t) i s) (chunk_updates us) w = (Some tt, w')
    /\ listening i w' = Some s
    /\ receiving (request_of s) init (client w') (contents ++ of_kind ContentChunk us)
         (reasonings ++ of_kind ReasoningChunk us).
Proof.
  induction us as [|[type chunk] us IH]; intros w contents reasonings Hl Hc Hr Hrec; cbn [chunk_updates map io_each].
  - exists w. cbn. rewrite !app_nil_r. done.
  - rewrite of_kind_cons in Hc, Hr |- *. rewrite (of_kind_cons ReasoningChunk).
    rewrite app_assoc in Hc, Hr.
    destruct (receive_chunk (request_of s) init (client w) type chunk contents reasonings) as (c' & Hup & Hrec');
      [by eapply tellable_prefix..|done|].
    unfold io_bind at 1. unfold deliver_update at 1, callback, io_bind at 1, io_modify at 1, io_on at 1.
    cbn [fst snd onUpdate chat_client client say]. rewrite Hup.
    destruct (IH (put_client c' (say (Updated i (requestGeneration s) (request_of s) type (JStr chunk)) w))
                (contents ++ of_kind ContentChunk [(type, chunk)])
                (reasonings ++ of_kind ReasoningChunk [(type, chunk)]))
      as (w' & Hrest & Hl' & Hrec''); [by apply listening_spec in Hl; apply listening_spec|done|done|done|].
    exists w'. split; [exact Hrest|]. split; [done|]. by rewrite !app_assoc.
Qed.

Lemma not_listening i j (w : playground) s : listening i w = Some s -> j <> i -> listening j w = None.
Proof.
  intros (_ & [_ Ha]%isCurrent_spec & _)%listening_spec Hne.
  destruct (listening j w) as [s'|] eqn:Hj; [|done].
  apply listening_spec in Hj as (_ & [_ Ha']%isCurrent_spec & _). congruence.
Qed.

Lemma receives_step i g init w e us env now contents reasonings :
  receiving_at i g init w contents reasonings -> receives i e us ->
  tellable (contents ++ of_kind ContentChunk us) -> tellable (reasonings ++ of_kind ReasoningChunk us) ->
  receiving_at i g init (chat_event_in t (env, now, e) w)
    (contents ++ of_kind ContentChunk us) (reasonings ++ of_kind ReasoningChunk us).
Proof.
  intros (src & Hl & <- & Hrec) He Hc Hr.
  unfold chat_event_in. set (w0 := on_chat (set_environment env now) w).
  assert (Hl0 : listening i w0 = Some src) by by (apply listening_spec in Hl; apply listening_spec).
  assert (Hrec0 : receiving (request_of src) init (client w0) contents reasonings)
    by by apply receiving_environment.
  clearbody w0. clear w Hl Hrec.
  assert (Hsame : us = [] -> forall c', receiving (request_of src) init c' contents reasonings ->
                  receiving_at i (request_of src) init (put_client c' w0)
                    (contents ++ of_kind ContentChunk us) (reasonings ++ of_kind ReasoningChunk us)).
  { intros -> c' Hrec'. exists src. cbn. rewrite !app_nil_r.
    split; [by apply listening_spec in Hl0; apply listening_spec|done]. }
  assert (Hidle : us = [] -> receiving_at i (request_of src) init w0
                    (contents ++ of_kind ContentChunk us) (reasonings ++ of_kind ReasoningChunk us)).
  { intros ->. exists src. cbn. by rewrite !app_nil_r. }
  destruct He as [data us Hnot Hparse|headers| |clock|j data Hj|j rs data Hj|j rs st Hj|j headers Hj];
    cbn [chat_step from_source stream_step].
  - destruct (deliver_receives i src init us w0 contents reasonings Hl0 Hc Hr Hrec0) as (w' & Hdel & Hl' & Hrec').
    unfold on_message. rewrite Hl0. cbv beta iota delta [default from_option Datatypes.id]. rewrite Hnot.
    unfold io_catch, deliver_message. rewrite Hparse, Hdel. by exists src.
  - cbn in Hc, Hr. rewrite app_nil_r in Hc, Hr.
    pose proof Hl0 as (Hs & Hcur & _)%listening_spec. unfold on_open. rewrite Hs, Hcur. cbn [negb].
    destruct (servedByFromStreamHeaders headers) as [by_|]; [|by apply Hidle].
    unfold callback, io_bind, io_modify, io_on. cbn [fst snd onServedBy chat_client].
    exists src. cbn. rewrite !app_nil_r. split; [by apply listening_spec in Hl0; apply listening_spec|].
    split; [done|]. by apply receive_served.
  - cbn in Hc, Hr. rewrite app_nil_r in Hc, Hr. apply (Hsame eq_refl).
    unfold flush_timer. destruct (streamFlushTimerRef (client w0)) as [g'|]; [|done].
    destruct (Nat.eqb_spec g' (request_of src)) as [->|Hne]; [by apply flush_receiving|].
    unfold flushStreamUpdates. destruct Hrec0 as (Hg & Hrest). rewrite Hg.
    apply Nat.eqb_neq in Hne. rewrite Hne. by split.
  - cbn in Hc, Hr. rewrite app_nil_r in Hc, Hr. apply (Hsame eq_refl). by apply receive_render.
  - unfold on_message. rewrite (not_listening i j w0 src) by done. by apply Hidle.
  - unfold on_error. rewrite (not_listening i j w0 src) by done. by apply Hidle.
  - unfold on_ready_state. rewrite (not_listening i j w0 src) by done. by apply Hidle.
  - unfold on_open. destruct (opened w0 !! j) as [s'|]; [|by apply Hidle].
    destruct (isCurrent j s' w0) eqn:Hcur; [|by apply Hidle].
    apply isCurrent_spec in Hcur as [_ Ha]. apply listening_spec in Hl0 as (_ & [_ Ha']%isCurrent_spec & _).
    congruence.
Qed.

Lemma received_run i g init events us : received i events us ->
  forall w contents reasonings,
  receiving_at i g init w contents reasonings ->
  tellable (contents ++ of_kind ContentChunk us) -> tellable (reasonings ++ of_kind ReasoningChunk us) ->
  receiving_at i g init (chat_run t events w)
    (contents ++ of_kind ContentChunk us) (reasonings ++ of_kind ReasoningChunk us).
Proof.
  induction 1 as [|env now e events us more He _ IH]; intros w contents reasonings Hw Hc Hr.
  - cbn. by rewrite !app_nil_r.
  - rewrite !of_kind_app in *. rewrite !app_assoc in *.
    change (chat_run t ((env, now, e) :: events) w) with (chat_run t events (chat_event_in t (env, now, e) w)).
    apply IH; [|done|done]. apply receives_step; [done|done|by eapply tellable_prefix..].
Qed.
End Receiving.

(** *** The end of a stream *)

Lemma finish_pending m now :
  isAssistantMessagePending m = true ->
  finish_message now m = completeAssistantMessage m (started_at now) (reasoned_at now) (completed_at now).
Proof.
  unfold finish_message, isAssistantMessageFinal, isAssistantMessagePending.
  rewrite orb_true_iff, !bool_decide_eq_true. by intros [->| ->].
Qed.

Lemma run_complete g now init m contents reasonings :
  shows m contents reasonings ->
  run_updater g now (UComplete g) (init ++ [m])
  = init ++ [completeAssistantMessage m (started_at now) (reasoned_at now) (completed_at now)].
Proof.
  intros Hm. cbn [run_updater]. rewrite Nat.eqb_refl, update_last_assistant by apply Hm.
  by rewrite finish_pending by apply Hm.
Qed.

(** Once rendered, the last message is the completed one. *)
Lemma complete_rendered g init s clock contents reasonings :
  requestGenerationRef s = g -> tellable contents -> tellable reasonings ->
  shown_and_waiting g init s contents reasonings ->
  exists m now,
    messages (render clock (onMessageUpdate (UComplete g) s))
    = init ++ [completeAssistantMessage m (started_at now) (reasoned_at now) (completed_at now)]
    /\ shows m contents reasonings.
Proof.
  intros Hg [Hc Hnc] [Hr Hnr] (us & groups & m & sc & sr & Hset & Hgroups & Hm & -> & ->).
  destruct (onMessageUpdate_refs (UComplete g) s) as (Hg' & _). rewrite Hg in Hg'.
  destruct (settles_update s (init ++ [m]) us (UComplete g) Hset) as [Hset'|[-> Hset']].
  - destruct (settles_render _ _ _ clock Hset') as (clock' & -> & _). rewrite Hg', run_updates_app.
    destruct (run_updates_shows g init us groups Hgroups clock' m sc sr [] [] Hm) as (m' & -> & Hm');
      rewrite ?app_nil_r; try done.
    cbn [run_updates]. rewrite (run_complete g _ init m' _ _ Hm'). by exists m', (clock' (length us + 0)%nat).
  - inversion Hgroups; subst. rewrite (run_complete _ _ init m _ _ Hm) in Hset'.
    destruct (settles_render _ _ _ clock Hset') as (clock' & -> & _). cbn [run_updates].
    exists m, (now s). split; [done|]. cbn. by rewrite !app_nil_r.
Qed.

(** The answer that these chunks make. *)
Definition answers_with (m : Message) (contents reasonings : list jsstr) : Prop :=
  let text := concat contents in
  let parsed := parseThinkTags text in
  from m = ASSISTANT /\ status m = Some COMPLETE /\ getMessageContent m = visibleContent parsed
  /\ (includes OPEN_TAG text = false -> reasoning_text m = concat reasonings)
  /\ (reasonings = [] -> parsed_reasoning parsed <> [] -> reasoning_text m = parsed_reasoning parsed).

Section Transcript.
Context (t : jsstr -> jsstr).
#[local] Existing Instance chat_client.

Lemma done_step i w src env now :
  listening i w = Some src ->
  client (chat_event_in t (env, now, Stream (SourceMessage i (Some STREAM_DONE_MESSAGE))) w)
    = handleStreamComplete (request_of src) (set_environment env now (client w))
  /\ streaming (chat_event_in t (env, now, Stream (SourceMessage i (Some STREAM_DONE_MESSAGE))) w) = false.
Proof.
  intros Hl. unfold chat_event_in. cbn [chat_step from_source stream_step].
  assert (Hl0 : listening i (on_chat (set_environment env now) w) = Some src)
    by by (apply listening_spec in Hl; apply listening_spec).
  unfold on_message. rewrite Hl0.
  change (isStreamDoneMessage (default [] (Some STREAM_DONE_MESSAGE))) with true. cbn iota.
  unfold callback, io_bind, io_modify, io_on. cbn [fst snd onComplete chat_client].
  apply listening_spec in Hl as (_ & [_ Ha]%isCurrent_spec & _).
  by rewrite closeActive_fields.
Qed.

Lemma render_step env now clock (w : playground) :
  client (chat_event_in t (env, now, Render clock) w) = render clock (set_environment env now (client w))
  /\ streaming (chat_event_in t (env, now, Render clock) w) = streaming w.
Proof. done. Qed.

Lemma complete_shown g init s contents reasonings :
  tellable contents -> tellable reasonings -> receiving g init s contents reasonings ->
  exists s1, handleStreamComplete g s = onMessageUpdate (UComplete g) s1
    /\ requestGenerationRef s1 = g /\ isRequesting s1 = false
    /\ shown_and_waiting g init s1 contents reasonings.
Proof.
  intros Hc Hr Hrec. destruct (flush_receiving g init s contents reasonings Hc Hr Hrec) as (Hshown & (Hg & _)).
  unfold handleStreamComplete. destruct Hrec as (Hg0 & _). rewrite Hg0, Nat.eqb_refl. cbn [negb].
  exists (setIsRequesting false (flushStreamUpdates g s)). by split_and!.
Qed.

Lemma done_rendered i g init w contents reasonings env now env' now' clock :
  receiving_at i g init w contents reasonings -> tellable contents -> tellable reasonings ->
  let w' := chat_run t [(env, now, Stream (SourceMessage i (Some STREAM_DONE_MESSAGE)));
                        (env', now', Render clock)] w in
  (exists m, messages (client w') = init ++ [m] /\ answers_with m contents reasonings)
  /\ isGenerating w' = false.
Proof.
  intros (src & Hl & <- & Hrec) Hc Hr w'. subst w'. unfold chat_run. cbn [fold_left].
  destruct (done_step i w src env now Hl) as (Hclient & Hstream).
  set (w1 := chat_event_in t (env, now, _) w) in *.
  unfold isGenerating. destruct (render_step env' now' clock w1) as (-> & ->).
  apply (receiving_environment _ _ env now) in Hrec.
  destruct (complete_shown _ _ _ _ _ Hc Hr Hrec) as (s1 & Hdone & Hg & Hreq & Hshown).
  rewrite Hclient, Hdone, Hstream.
  destruct (complete_rendered (request_of src) init s1 clock contents reasonings Hg Hc Hr Hshown)
    as (m & at_ & Hms & Hm).
  destruct (onMessageUpdate_refs (UComplete (request_of src)) s1) as (_ & _ & _ & _ & Hreq').
  split; [|cbn -[onMessageUpdate]; by rewrite Hreq'].
  eexists. split; [exact Hms|].
  destruct (shows_completed m contents reasonings (started_at at_) (reasoned_at at_) (completed_at at_) Hm)
    as (H1 & H2 & H3 & H4 & H5). by split_and!.
Qed.

(** *** The start of a stream *)

Lemma settles_replace next s : settles (onMessageUpdate (UReplace next) s) next [].
Proof.
  unfold settles, onMessageUpdate. destruct (updates s) as [|u us]; [destruct (eager s)|].
  - by left.
  - right. by exists [].
  - right. by exists (u :: us).
Qed.

Lemma begin_streaming_fields g s :
  requestGenerationRef (begin_streaming g s) = g
  /\ pendingStreamChunksRef (begin_streaming g s) = no_chunks g
  /\ messages (begin_streaming g s) = messages s /\ updates (begin_streaming g s) = updates s.
Proof. unfold begin_streaming, abort_current. cbn. by destruct (abortControllerRef s). Qed.

Lemma begin_receiving init m0 g s :
  from m0 = ASSISTANT -> status m0 = Some LOADING -> getMessageContent m0 = [] -> reasoning m0 = None ->
  settles s (init ++ [m0]) [] -> receiving g init (begin_streaming g s) [] [].
Proof.
  intros Hf Hs Hc Hr Hset. destruct (begin_streaming_fields g s) as (Hg & Hp & Hm & Hu).
  split; [done|]. rewrite Hp. split; [done|]. exists [], [], [], []. split; [|done].
  exists [], [], m0, [], []. split; [unfold settles in *; by rewrite Hm, Hu|].
  split; [constructor|]. split; [|done]. unfold shows, isAssistantMessagePending. rewrite Hs.
  split_and!; try done. intros _. unfold reasoning_text. by rewrite Hr.
Qed.

Lemma send_receiving init m0 w env now :
  from m0 = ASSISTANT -> status m0 = Some LOADING -> getMessageContent m0 = [] -> reasoning m0 = None ->
  exists g, receiving_at (length (opened w)) g init
              (chat_event_in t (env, now, SendChat (init ++ [m0]) true true true) w) [] [].
Proof.
  intros Hf Hs Hc Hr.
  pose (w1 := on_chat (onMessageUpdate (UReplace (init ++ [m0]))) (on_chat (set_environment env now) w)).
  pose (g := S (requestGenerationRef (client w1))).
  destruct (send_started (H := chat_client t) g (on_chat (begin_streaming g) w1)) as (Hclient & Hl).
  exists g. eexists. split; [exact Hl|]. split; [done|].
  apply (eq_ind_r (fun c => receiving g init c [] [])
           (begin_receiving init m0 g (client w1) Hf Hs Hc Hr (settles_replace _ _)) Hclient).
Qed.

Lemma chat_run_app events events' w : chat_run t (events ++ events') w = chat_run t events' (chat_run t events w).
Proof. apply fold_left_app. Qed.

(** A streamed answer, from any state. *)
Lemma stream_answered init m0 w events us env now env1 now1 env2 now2 clock :
  from m0 = ASSISTANT -> status m0 = Some LOADING -> getMessageContent m0 = [] -> reasoning m0 = None ->
  received (length (opened w)) events us ->
  tellable (of_kind ContentChunk us) -> tellable (of_kind ReasoningChunk us) ->
  let w' := chat_run t
    ((env, now, SendChat (init ++ [m0]) true true true) :: events
     ++ [(env1, now1, Stream (SourceMessage (length (opened w)) (Some STREAM_DONE_MESSAGE)));
         (env2, now2, Render clock)]) w in
  (exists m, messages (client w') = init ++ [m]
             /\ answers_with m (of_kind ContentChunk us) (of_kind ReasoningChunk us))
  /\ isGenerating w' = false.
Proof.
  intros Hf Hs Hc Hr Hevents Hcs Hrs w'. subst w'.
  destruct (send_receiving init m0 w env now Hf Hs Hc Hr) as (g & Hstart).
  rewrite app_comm_cons, chat_run_app. eapply done_rendered; [|done|done].
  exact (received_run t _ g init events us Hevents _ [] [] Hstart Hcs Hrs).
Qed.
End Transcript.

(** ** Stopping *)

Section Stopping.
Context (t : jsstr -> jsstr).
#[local] Existing Instance chat_client.

(** The generations handed out are not newer than the handler's. *)
Definition plain_well (s : chat) : Prop :=
  Forall (fun r => (plain_generation r <= requestGenerationRef s)%nat) (plain_requests s).

Definition playground_ok (w : playground) : Prop := controller_ok w /\ plain_well (client w).

(** Nothing can happen to the messages any more. *)
Definition at_rest (w : playground) : Prop :=
  active w = None /\ streaming w = false
  /\ Forall (fun p => (p.1 < generation w)%nat) (awaiting w)
  /\ Forall (fun r => (plain_generation r < requestGenerationRef (client w))%nat) (plain_requests (client w))
  /\ streamFlushTimerRef (client w) = None /\ isRequesting (client w) = false /\ updates (client w) = [].

(** Events that no user causes. *)
Definition passive (e : chat_event) : bool :=
  match e with Stream _ | FlushTimer | PlainAnswer _ _ | Render _ => true | _ => false end.

Lemma rest_not_listening (w : playground) i : active w = None -> listening i w = None.
Proof.
  intros Ha. destruct (listening i w) as [s|] eqn:Hl; [|done].
  apply listening_spec in Hl as (_ & [_ ?]%isCurrent_spec & _). congruence.
Qed.

Lemma rest_settle gen (w : playground) : at_rest w -> at_rest (settle gen w).
Proof.
  intros (Ha & Hs & Haw & Hrest). split_and!; try done; try apply Hrest.
  cbn. rewrite Forall_forall in *. intros p Hp. apply list_elem_of_In, filter_In in Hp as [Hp _].
  apply Haw. by apply list_elem_of_In.
Qed.

Lemma rest_awaited gen (w : playground) r : at_rest w -> awaited gen w = Some r -> generation w <> gen.
Proof.
  intros (_ & _ & Haw & _) Hr%awaited_in. rewrite Forall_forall in Haw. specialize (Haw _ Hr). cbn in Haw. lia.
Qed.

(** A stream event only settles promises. *)
Lemma rest_stream (w : playground) e :
  at_rest w -> from_source e = true ->
  (stream_step (H := chat_client t) e w).2 = w
  \/ exists gen, (stream_step (H := chat_client t) e w).2 = settle gen w.
Proof.
  intros Hw He. pose proof Hw as (Ha & _).
  destruct e as [request given starts|gen starts|gen message|i headers|i data|i rs data|i rs st| |];
    try discriminate He; cbn [stream_step].
  - unfold headers_ready. destruct (awaited gen w) as [r|] eqn:Hr; [|by left]. right. exists gen.
    apply (rest_awaited _ _ _ Hw), Nat.eqb_neq in Hr.
    unfold io_bind, io_modify, open_source. cbn. by rewrite Hr.
  - unfold headers_failed. destruct (awaited gen w) as [r|] eqn:Hr; [|by left]. right. exists gen.
    apply (rest_awaited _ _ _ Hw), Nat.eqb_neq in Hr.
    unfold io_bind at 1, io_modify at 1. cbn [generation settle put_awaiting]. by rewrite Hr.
  - left. unfold on_open. destruct (opened w !! i) as [s|]; [|done].
    unfold isCurrent. rewrite Ha, (bool_decide_eq_false_2 (None = Some i)), andb_false_r by done. done.
  - left. unfold on_message. by rewrite (rest_not_listening w i Ha).
  - left. unfold on_error. by rewrite (rest_not_listening w i Ha).
  - left. unfold on_ready_state. by rewrite (rest_not_listening w i Ha).
Qed.

Lemma rest_environment env now (w : playground) : at_rest w -> at_rest (on_chat (set_environment env now) w).
Proof. done. Qed.

Lemma rest_plain i a (w : playground) :
  at_rest w -> (plain_answer t i a (client w)).2 = client w.
Proof.
  intros (_ & _ & _ & Hp & _). unfold plain_answer.
  destruct (plain_requests (client w) !! i) as [r|] eqn:Hr; [|done].
  rewrite Forall_lookup in Hp. specialize (Hp i r Hr). cbn in Hp.
  assert (Hne : (requestGenerationRef (client w) =? plain_generation r)%nat = false)
    by (apply Nat.eqb_neq; lia).
  rewrite Hne, orb_true_r. unfold finally_plain. cbn. by rewrite Hne.
Qed.

Lemma rest_step env now e (w : playground) :
  at_rest w -> passive e = true ->
  at_rest (chat_event_in t (env, now, e) w)
  /\ messages (client (chat_event_in t (env, now, e) w)) = messages (client w).
Proof.
  intros Hw He. apply (rest_environment env now) in Hw.
  unfold chat_event_in. change (messages (client w)) with (messages (client (on_chat (set_environment env now) w))).
  set (w0 := on_chat _ w) in *. clearbody w0. clear w.
  destruct e as [| | | |i a|e|clock|]; try discriminate He; cbn [chat_step].
  - assert (Hsame : on_chat flush_timer w0 = w0).
    { unfold on_chat, flush_timer. destruct Hw as (_ & _ & _ & _ & Ht & _). rewrite Ht. by destruct w0. }
    unfold io_ret. cbn [snd]. by rewrite Hsame.
  - unfold io_on. pose proof (rest_plain i a w0 Hw) as Hp. destruct (plain_answer t i a (client w0)) as [r c].
    cbn in Hp |- *. subst c. by destruct w0.
  - destruct (from_source e) eqn:Hsrc; cbn iota; [|done].
    match goal with |- at_rest ?x /\ _ =>
      assert (Hx : x = w0 \/ exists gen, x = settle gen w0) by exact (rest_stream w0 e Hw Hsrc) end.
    destruct Hx as [->|[gen ->]]; [done|]. split; [by apply rest_settle|done].
  - unfold io_ret. cbn [snd]. destruct Hw as (? & ? & ? & ? & ? & ? & Hu). split.
    + split_and!; done.
    + cbn. by rewrite Hu.
Qed.

(** *** The invariant *)

Lemma plain_kept (g : nat) (rs : list plain_request) :
  kept_by_callbacks (H := chat_client t) (fun s => requestGenerationRef s = g /\ plain_requests s = rs).
Proof.
  assert (Hup : forall u s, requestGenerationRef s = g /\ plain_requests s = rs ->
            requestGenerationRef (onMessageUpdate u s) = g /\ plain_requests (onMessageUpdate u s) = rs).
  { intros u s [<- <-]. by destruct (onMessageUpdate_refs u s) as (-> & _ & _ & -> & _). }
  assert (Hfl : forall g' s, requestGenerationRef s = g /\ plain_requests s = rs ->
            requestGenerationRef (flushStreamUpdates g' s) = g /\ plain_requests (flushStreamUpdates g' s) = rs).
  { intros g' s Hs. unfold flushStreamUpdates. repeat (destruct (negb _) || destruct (_ && _)); try done.
    all: by apply Hup. }
  split; cbn.
  - intros r ty ch s Hs. unfold handleStreamUpdate. destruct (negb _); [done|]. destruct (negb _); [done|].
    destruct (mergePendingStreamChunk _ _); [|done]. unfold scheduleStreamFlush. cbn.
    destruct (negb _); [done|]. by destruct (streamFlushTimerRef s).
  - intros r s Hs. unfold handleStreamComplete. destruct (negb _); [done|]. apply Hup.
    by destruct (Hfl r s Hs).
  - intros r m code s Hs. unfold handleStreamError. destruct (negb _); [done|].
    destruct (getDisplayError t m); [apply Hup|]; by destruct (Hfl r s Hs).
  - intros r by_ s Hs. unfold handleServedBy. destruct (negb _); [done|]. by apply Hup.
Qed.

(** A change that keeps the requests and does not go back. *)
Lemma plain_same (s s' : chat) :
  plain_requests s' = plain_requests s -> (requestGenerationRef s <= requestGenerationRef s')%nat ->
  plain_well s -> plain_well s'.
Proof.
  unfold plain_well. intros -> Hle H. eapply Forall_impl; [exact H|]. cbn. lia.
Qed.

Lemma plain_abort s : plain_well s -> plain_well (abort_current s).
Proof.
  unfold abort_current. destruct (abortControllerRef s) as [i|]; [|done].
  intros H. unfold plain_well in *. cbn. rewrite Forall_lookup in *. intros j r.
  rewrite list_lookup_alter. destruct (decide _) as [<-|_]; [|by apply H].
  destruct (plain_requests s !! i) as [r0|] eqn:Hr; [|done]. intros [= <-]. by apply (H i r0).
Qed.

Lemma abort_generation s : requestGenerationRef (abort_current s) = requestGenerationRef s.
Proof. unfold abort_current. by destruct (abortControllerRef s). Qed.

Lemma plain_update u s : plain_well s -> plain_well (onMessageUpdate u s).
Proof.
  destruct (onMessageUpdate_refs u s) as (Hg & _ & _ & Hp & _).
  apply plain_same; [done|by rewrite Hg].
Qed.

Lemma plain_flush g s : plain_well s -> plain_well (flushStreamUpdates g s).
Proof.
  unfold flushStreamUpdates. destruct (negb _); [done|]. destruct (negb _); [done|].
  destruct (_ && _); [done|]. intros H. by apply plain_update.
Qed.

(** The controller part of an event of a source, or of the handler's calls. *)
Lemma stream_ok e (w : playground) :
  playground_ok w -> playground_ok (stream_step (H := chat_client t) e w).2.
Proof.
  intros [Hc Hp]. split.
  - destruct (stream_step e w) as [r w'] eqn:Hstep. eapply moves_ok; [|exact Hc].
    eapply stream_step_moves; [|exact Hstep]. by destruct Hc.
  - destruct (stream_step_keeps _ (plain_kept (requestGenerationRef (client w)) (plain_requests (client w)))
                e w (conj eq_refl eq_refl)) as (Hg & Hr).
    unfold plain_well. by rewrite Hg, Hr.
Qed.

Lemma on_chat_ok f (w : playground) :
  (plain_well (client w) -> plain_well (f (client w))) -> playground_ok w -> playground_ok (on_chat f w).
Proof. intros Hf [Hc Hp]. split; [exact Hc|by apply Hf]. Qed.

Lemma cancel_ok b (w : playground) : playground_ok w -> playground_ok (cancel b w).
Proof.
  destruct b; [exact (stream_ok Stop w)|exact (stream_ok Dispose w)].
Qed.

Lemma send_chat_ok hasKey streamed starts (w : playground) :
  playground_ok w -> playground_ok (sendChat t hasKey streamed starts w).2.
Proof.
  intros Hw. unfold sendChat. destruct hasKey; cbn [negb].
  2: { apply on_chat_ok; [|done]. intros Hp. apply plain_update. eapply plain_same; [| |exact Hp]; cbn; [done|lia]. }
  destruct streamed.
  - unfold sendStreamingChat. apply (stream_ok (Send _ true starts)). apply on_chat_ok; [|done].
    intros Hp. set (s := client w) in *.
    assert (Hp1 : plain_well (set_generation (S (requestGenerationRef s)) s))
      by (eapply plain_same; [| |exact Hp]; cbn; [done|lia]).
    exact (plain_abort _ Hp1).
  - unfold io_ret, sendNonStreamingChat. cbn [snd].
    apply on_chat_ok.
    + cbv zeta. set (s := discardPendingStreamUpdates _ _). intros Hp.
      assert (Hs : plain_well s) by done. apply plain_abort in Hs.
      unfold plain_well in *. cbn [plain_requests setIsRequesting set_plain set_abort]. rewrite Forall_app.
      cbn [requestGenerationRef setIsRequesting set_plain set_abort]. split; [done|].
      constructor; [|done]. cbn. rewrite abort_generation. subst s. cbn. by rewrite close_client.
    + apply cancel_ok, on_chat_ok; [|done]. apply plain_same; cbn; [done|lia].
Qed.

Lemma stop_ok (w : playground) : playground_ok w -> playground_ok (stopGeneration w).
Proof.
  intros Hw. unfold stopGeneration. apply on_chat_ok; [|apply cancel_ok, on_chat_ok; [|done]].
  - intros Hp. apply plain_update. exact (plain_abort _ Hp).
  - intros Hp. eapply plain_same; [| |apply (plain_flush (requestGenerationRef (client w))), Hp]; [done|].
    cbn. unfold flushStreamUpdates. rewrite Nat.eqb_refl. cbn [negb].
    destruct (negb _); [cbn; lia|]. destruct (_ && _); [cbn; lia|].
    match goal with |- context [onMessageUpdate ?u ?x] => destruct (onMessageUpdate_refs u x) as (-> & _) end.
    cbn. lia.
Qed.

Lemma plain_answer_ok i a s : plain_well s -> plain_well (plain_answer t i a s).2.
Proof.
  intros Hp. unfold plain_answer. destruct (plain_requests s !! i) as [r|]; [|done].
  assert (Hfin : forall g x, plain_well x -> plain_well (finally_plain g x))
    by (intros g x Hx; unfold finally_plain; by destruct (_ =? _)%nat).
  assert (Herr : forall g m code, plain_well (handleStreamError t g m code s).2).
  { intros g m code.
    destruct (kept_error _ (plain_kept (requestGenerationRef s) (plain_requests s)) g m code s (conj eq_refl eq_refl))
      as (Hg & Hr). cbn in Hg, Hr. unfold plain_well. by rewrite Hg, Hr. }
  destruct (_ || _); [by apply Hfin|].
  destruct a as [choices by_|error].
  - destruct (negb _).
    + pose proof (Herr (plain_generation r) (JStr API_REQUEST_ERROR) None) as He.
      destruct (handleStreamError t _ _ _ s) as [res x]. by apply Hfin.
    + unfold io_ret. cbn [snd]. by apply Hfin, plain_update.
  - pose proof (Herr (plain_generation r) (sd_message (parseRequestErrorDetails error))
                  (sd_code (parseRequestErrorDetails error))) as He.
    destruct (handleStreamError t _ _ _ s) as [res x]. by apply Hfin.
Qed.

Lemma chat_event_ok e (w : playground) : playground_ok w -> playground_ok (chat_event_in t e w).
Proof.
  destruct e as [[env now] e]. intros Hw. unfold chat_event_in.
  assert (Hw0 : playground_ok (on_chat (set_environment env now) w)) by (by apply on_chat_ok).
  set (w0 := on_chat _ w) in *. clearbody w0. clear w Hw.
  destruct e as [next key streamed starts| |k| |i a|e|clock|]; cbn [chat_step].
  - apply send_chat_ok, on_chat_ok; [|done]. apply plain_update.
  - by apply stop_ok.
  - apply on_chat_ok; [|done]. apply plain_update.
  - apply on_chat_ok; [|done]. intros Hp. unfold flush_timer.
    destruct (streamFlushTimerRef _); [by apply plain_flush|done].
  - unfold io_on. pose proof (on_chat_ok (fun s => (plain_answer t i a s).2) w0 (plain_answer_ok i a _)) as Ha.
    unfold on_chat in Ha. destruct (plain_answer t i a (client w0)) as [r c]. by apply Ha.
  - destruct (from_source e); [by apply stream_ok|done].
  - apply on_chat_ok; [|done]. by apply plain_same.
  - apply cancel_ok, on_chat_ok; [|done]. intros Hp.
    apply plain_abort. eapply plain_same; [| |exact Hp]; cbn; [done|lia].
Qed.

Lemma chat_run_ok events : forall w : playground, playground_ok w -> playground_ok (chat_run t events w).
Proof.
  induction events as [|e events IH]; intros w Hw; [done|].
  change (playground_ok (chat_run t events (chat_event_in t e w))). by apply IH, chat_event_ok.
Qed.

(** *** The stop itself *)

Lemma last_update_last ms f m :
  last (updateLastAssistantMessage ms f) = Some m -> from m = ASSISTANT ->
  exists m0, m = f m0 \/ (from m0 <> ASSISTANT /\ m = m0).
Proof.
  unfold updateLastAssistantMessage. destruct (last ms) as [m0|] eqn:Hl.
  - destruct (decide _).
    + rewrite last_snoc. intros [= <-] _. exists m0. by left.
    + rewrite Hl. intros [= <-] _. exists m0. by right.
  - rewrite Hl. done.
Qed.

(** After the stop's update the last answer is not pending. *)
Lemma run_stop_settled g now ms m :
  last (run_updater g now (UStop g) ms) = Some m -> from m = ASSISTANT ->
  isAssistantMessagePending m = false.
Proof.
  cbn [run_updater]. rewrite Nat.eqb_refl. intros Hl Hf.
  destruct (last_update_last _ _ _ Hl Hf) as (m0 & [->|[Hne ->]]); [|done].
  unfold stop_message. destruct (isAssistantMessagePending m0) eqn:Hp; [|done].
  destruct (completeAssistantMessage_spec m0 (started_at now) (reasoned_at now) (completed_at now))
    as (_ & _ & Hs & _).
  unfold isAssistantMessagePending. by rewrite Hs.
Qed.

Lemma stop_rendered g s clock m :
  requestGenerationRef s = g ->
  last (messages (render clock (onMessageUpdate (UStop g) s))) = Some m -> from m = ASSISTANT ->
  isAssistantMessagePending m = false.
Proof.
  intros Hg. destruct (onMessageUpdate_refs (UStop g) s) as (Hg' & _).
  destruct (settles_update s (messages s) (updates s) (UStop g)) as [Hset|[Hnil Hset]]; [by left| |].
  - destruct (settles_render _ _ _ clock Hset) as (clock' & -> & _).
    rewrite Hg', Hg, run_updates_app. cbn [run_updates]. apply run_stop_settled.
  - destruct (settles_render _ _ _ clock Hset) as (clock' & -> & _). cbn [run_updates].
    rewrite Hg. apply run_stop_settled.
Qed.

(** The handler's state once the stop has run, but for its update. *)
Definition stopped_chat (s : chat) : chat :=
  setIsRequesting false (set_abort None (abort_current
    (discardPendingStreamUpdates (S (requestGenerationRef s))
       (set_generation (S (requestGenerationRef s)) (flushStreamUpdates (requestGenerationRef s) s))))).

Lemma stopped_chat_fields s :
  plain_well s ->
  requestGenerationRef (stopped_chat s) = S (requestGenerationRef s)
  /\ Forall (fun r => (plain_generation r < S (requestGenerationRef s))%nat) (plain_requests (stopped_chat s))
  /\ streamFlushTimerRef (stopped_chat s) = None /\ isRequesting (stopped_chat s) = false.
Proof.
  intros Hp. unfold stopped_chat. set (g := requestGenerationRef s).
  set (s1 := discardPendingStreamUpdates _ _).
  assert (Hp1 : Forall (fun r => (plain_generation r <= g)%nat) (plain_requests s1)).
  { change (plain_requests s1) with (plain_requests (flushStreamUpdates g s)).
    pose proof (plain_flush g s Hp) as Hf. unfold plain_well in Hf.
    assert (Hg : requestGenerationRef (flushStreamUpdates g s) = g).
    { unfold flushStreamUpdates. destruct (negb _); [done|]. destruct (negb _); [done|].
      destruct (_ && _); [done|]. by apply onMessageUpdate_refs. }
    by rewrite Hg in Hf. }
  assert (Hp2 : plain_well (set_generation g s1)) by done.
  apply plain_abort in Hp2. split_and!.
  - cbn. by rewrite abort_generation.
  - unfold plain_well in Hp2. rewrite abort_generation in Hp2. cbn [requestGenerationRef set_generation] in Hp2.
    unfold abort_current in *. cbn in Hp2 |- *. destruct (abortControllerRef (flushStreamUpdates g s));
      cbn in Hp2 |- *; (eapply Forall_impl; [exact Hp2|]); cbn; lia.
  - cbn. unfold abort_current. by destruct (abortControllerRef s1).
  - done.
Qed.

Lemma stop_event env now (w : playground) :
  playground_ok w ->
  let w1 := chat_event_in t (env, now, StopGeneration) w in
  let s := stopped_chat (set_environment env now (client w)) in
  client w1 = onMessageUpdate (UStop (requestGenerationRef s)) s
  /\ active w1 = None /\ streaming w1 = false
  /\ Forall (fun p => (p.1 < generation w1)%nat) (awaiting w1).
Proof.
  intros [[[Haw _] _] Hp] w1 s. subst w1. unfold chat_event_in. cbn [chat_step]. unfold io_ret, stopGeneration. cbn [snd].
  set (s0 := set_environment env now (client w)) in *.
  destruct (stopped_chat_fields s0 Hp) as (Hg & _). subst s. rewrite Hg.
  unfold cancel. set (w0 := on_chat (fun _ => discardPendingStreamUpdates _ _) _).
  change (close (active w0) _) with (leave w0). destruct (leave_fields w0) as (Ha & Hgen & _ & Hawait & _).
  split_and!.
  - unfold on_chat at 1. cbn [client put_client]. f_equal. unfold stopped_chat.
    assert (Hc : client (setStreaming false (leave w0)) = client w0) by (cbn; apply close_client).
    by rewrite Hc.
  - exact Ha.
  - done.
  - change (Forall (fun p => (p.1 < generation (leave w0))%nat) (awaiting (leave w0))).
    rewrite Hgen, Hawait. eapply Forall_impl; [exact Haw|]. cbn. lia.
Qed.

Lemma render_rest env now clock (v : playground) :
  active v = None -> streaming v = false ->
  Forall (fun p => (p.1 < generation v)%nat) (awaiting v) ->
  Forall (fun r => (plain_generation r < requestGenerationRef (client v))%nat) (plain_requests (client v)) ->
  streamFlushTimerRef (client v) = None -> isRequesting (client v) = false ->
  at_rest (chat_event_in t (env, now, Render clock) v).
Proof. intros H1 H2 H3 H4 H5 H6. exact (conj H1 (conj H2 (conj H3 (conj H4 (conj H5 (conj H6 eq_refl)))))). Qed.

Lemma stop_shown env now clock (v : playground) s m :
  client v = onMessageUpdate (UStop (requestGenerationRef s)) s ->
  last (messages (client (chat_event_in t (env, now, Render clock) v))) = Some m -> from m = ASSISTANT ->
  isAssistantMessagePending m = false.
Proof.
  intros Hv. destruct (render_step t env now clock v) as (-> & _). rewrite Hv.
  exact (stop_rendered (requestGenerationRef s) s clock m eq_refl).
Qed.

(** C16. The stop button.  From any state, once the stop is rendered nothing is
    generating and the last answer is not pending; and then no event of a source, of
    a timer, of a promise or of rendering changes a message. *)
Theorem stop_is_final (c : chat) before env now env' now' clock after :
  plain_requests c = [] ->
  Forall (fun e => passive e.2 = true) after ->
  let w := chat_run t before (createStreamRequestController c) in
  let w1 := chat_run t [(env, now, StopGeneration); (env', now', Render clock)] w in
  let w2 := chat_run t after w1 in
  (forall m, last (messages (client w1)) = Some m -> from m = ASSISTANT -> isAssistantMessagePending m = false)
  /\ messages (client w2) = messages (client w1)
  /\ isGenerating w1 = false /\ isGenerating w2 = false.
Proof.
  intros Hc Hafter w w1 w2.
  assert (Hok : playground_ok w).
  { apply chat_run_ok. split; [apply created_ok|]. unfold plain_well. cbn. by rewrite Hc. }
  destruct (stop_event env now w Hok) as (Hclient & Ha & Hs & Haw). clearbody w.
  set (s := stopped_chat (set_environment env now (client w))) in *.
  destruct (stopped_chat_fields (set_environment env now (client w)) (proj2 Hok)) as (Hg & Hp & Ht & Hreq).
  fold s in Hg, Hp, Ht, Hreq.
  set (v := chat_event_in t (env, now, StopGeneration) w) in *.
  assert (Hw1 : w1 = chat_event_in t (env', now', Render clock) v) by done.
  destruct (onMessageUpdate_refs (UStop (requestGenerationRef s)) s) as (Eg & _ & Et & Ep & Er).
  assert (Hrest : at_rest w1).
  { rewrite <- Hclient in Eg, Et, Ep, Er. rewrite Hg in Eg. rewrite Ht in Et. rewrite Hreq in Er.
    rewrite <- Ep in Hp. rewrite Hw1. apply render_rest; try done. by rewrite Eg. }
  assert (Hlater : forall events u, at_rest u -> Forall (fun e => passive e.2 = true) events ->
            messages (client (chat_run t events u)) = messages (client u) /\ at_rest (chat_run t events u)).
  { induction events as [|[[env0 now0] e] events IH]; intros u Hu Hes; [done|].
    inversion Hes as [|? ? He Hes']; subst. destruct (rest_step env0 now0 e u Hu He) as (Hu' & Hm).
    change (chat_run t ((env0, now0, e) :: events) u) with (chat_run t events (chat_event_in t (env0, now0, e) u)).
    destruct (IH _ Hu' Hes') as (-> & ?). by rewrite Hm. }
  assert (Hquiet : forall u, at_rest u -> isGenerating u = false)
    by (intros u (_ & H1 & _ & _ & _ & H2 & _); unfold isGenerating; by rewrite H1, H2).
  destruct (Hlater after w1 Hrest Hafter) as (Hm2 & Hrest2).
  split_and!; [|exact Hm2|by apply Hquiet..].
  intros m. rewrite Hw1. by apply (stop_shown env' now' clock v s m).
Qed.
End Stopping.

(** ** The hypotheses hold *)

Definition no_instants : instants := {| started_at := zero; reasoned_at := zero; completed_at := zero |}.

Definition idle_chat (ms : list Message) : chat :=
  {| requestGenerationRef := 0; pendingStreamChunksRef := no_chunks 0; streamFlushTimerRef := None;
     abortControllerRef := None; plain_requests := []; isRequesting := false; messages := ms;
     updates := []; eager := false; now := no_instants |}.

Definition question : Message := createUserMessage (js "k0") (js "v0") (js "Hi?") zero.
Definition loading : Message := createLoadingAssistantMessage (js "k1") (js "v1") zero.

(** Two chunks, a flush between them, and React rendering in between. *)
Definition sample_events : list (bool * instants * chat_event) :=
  [(true, no_instants, Stream (SourceMessage 0 (Some (content_data "Hel"))));
   (true, no_instants, FlushTimer);
   (true, no_instants, Render (fun _ => no_instants));
   (false, no_instants, Stream (SourceMessage 0 (Some (content_data "lo"))))].

Lemma stop_is_final_witness :
  let before := (false, no_instants, SendChat [question; loading] true true true) :: sample_events in
  let after := [(true, no_instants, Stream (SourceMessage 0 (Some (content_data " again"))));
                (true, no_instants, FlushTimer)] in
  let w := chat_run Datatypes.id before (createStreamRequestController (idle_chat [])) in
  let w1 := chat_run Datatypes.id
    [(false, no_instants, StopGeneration); (false, no_instants, Render (fun _ => no_instants))] w in
  let w2 := chat_run Datatypes.id after w1 in
  (forall m, last (messages (client w1)) = Some m -> from m = ASSISTANT -> isAssistantMessagePending m = false)
  /\ messages (client w2) = messages (client w1)
  /\ isGenerating w1 = false /\ isGenerating w2 = false.
Proof.
  exact (stop_is_final Datatypes.id (idle_chat [])
           ((false, no_instants, SendChat [question; loading] true true true) :: sample_events)
           false no_instants false no_instants (fun _ => no_instants)
           [(true, no_instants, Stream (SourceMessage 0 (Some (content_data " again"))));
            (true, no_instants, FlushTimer)]
           eq_refl ltac:(repeat constructor)).
Defined.

(** ** Where a stop loses text *)

(** A stop flushes the chunks received, but its own change of generation reaches React
    first when the flush has to wait: the text of the last 50 ms is lost. *)
Example stop_drops_chunks :
  let run eager := chat_run Datatypes.id
    [(false, no_instants, SendChat [question; loading] true true true);
     (false, no_instants, Render (fun _ => no_instants));
     (true, no_instants, Stream (SourceMessage 0 (Some (content_data "Hello"))));
     (eager, no_instants, StopGeneration);
     (eager, no_instants, Render (fun _ => no_instants))]
    (createStreamRequestController (idle_chat [])) in
  (getMessageContent <$> messages (client (run true)),
   getMessageContent <$> messages (client (run false)))
  = ([js "Hi?"; js "Hello"], [js "Hi?"; []]).
Proof. vm_compute. reflexivity. Qed.
