(* ===== verification/Conversation.v ===== *)
(** * The conversation ([hooks/use-playground-conversation.ts])

    What the user does with the messages: sending, regenerating, editing and
    deleting.  Each handler runs on the messages of the render it belongs to, sets
    the key of the edited message, and updates the messages and the chat handler. *)

From S2P Require Import Prelude JsString JsNumber JsValue PlaygroundMessages StreamRequest ChatHandler.

(** ** Handlers *)

Inductive conversation_event :=
| HandleSendMessage (text : jsstr)
| HandleRegenerateMessage (message : Message)
| HandleEditMessage (message : Message)
| HandleEditOpenChange (open : bool)
| ApplyEdit (newContent : jsstr) (shouldSubmit : bool)
| HandleDeleteMessage (message : Message).

(** The identifiers and the instant that a handler draws. *)
Record drawn := { user_ids : fresh_ids; assistant_ids : fresh_ids; submitted : num }.

(** What a handler asks of [updateMessages] and [sendChat]. *)
Inductive request :=
| NoRequest
| UpdateMessages (next : list Message)
| UpdateAndSend (next : list Message)
| RemoveMessage (messageKey : jsstr).

(** [updateMessages(next); sendChat(next)], where there is something to send. *)
Definition send_if_some (next : option (list Message)) : request :=
  match next with Some next => UpdateAndSend next | None => NoRequest end.

(** A handler: the edited message's key and the request it makes. *)
Definition conversation_step (shown : list Message) (d : drawn) (editingMessageKey : option jsstr)
    (e : conversation_event) : option jsstr * request :=
  match e with
  | HandleSendMessage text =>
      (editingMessageKey,
       UpdateAndSend (appendUserMessagePair shown text (user_ids d) (assistant_ids d) (submitted d)))
  | HandleRegenerateMessage message =>
      (editingMessageKey,
       send_if_some (createRegeneratedMessages shown (key message) (assistant_ids d) (submitted d)))
  | HandleEditMessage message => (Some (key message), NoRequest)
  | HandleEditOpenChange open => (if open then editingMessageKey else None, NoRequest)
  | ApplyEdit newContent shouldSubmit =>
      match editingMessageKey with
      | None => (editingMessageKey, NoRequest)
      | Some k =>
          if negb (nonempty k) then (editingMessageKey, NoRequest)
          else
            match applyMessageEdit shown k newContent shouldSubmit (assistant_ids d) (submitted d) with
            | None => (editingMessageKey, NoRequest)
            | Some result =>
                (None, if shouldSend result then UpdateAndSend (edited_messages result)
                       else UpdateMessages (edited_messages result))
            end
      end
  | HandleDeleteMessage message => (editingMessageKey, RemoveMessage (key message))
  end.

(** The request carried out by the chat handler. *)
Definition carry_out (t : jsstr -> jsstr) (r : request) (hasClientKey streamed starts : bool)
    : io playground unit :=
  match r with
  | NoRequest => io_ret tt
  | UpdateMessages next => io_modify (on_chat (onMessageUpdate (UReplace next)))
  | UpdateAndSend next => update_and_send t next hasClientKey streamed starts
  | RemoveMessage messageKey => io_modify (on_chat (onMessageUpdate (URemove messageKey)))
  end.

(** ** What is asked *)

(** The first message with a key, and the messages around it. *)
Definition first_with_key (shown : list Message) (k : jsstr) (before : list Message) (m : Message)
    (after : list Message) : Prop :=
  shown = before ++ m :: after /\ key m = k /\ Forall (fun m' => key m' <> k) before.

(** The messages that the model is asked to answer. *)
Inductive asks (shown : list Message) (d : drawn) :
    option jsstr -> conversation_event -> list Message -> Prop :=
| asks_text editing text :
    asks shown d editing (HandleSendMessage text)
      (shown ++ [createUserMessage (message_id (user_ids d)) (version_id (user_ids d)) text (submitted d)])
| asks_again editing message before m after :
    first_with_key shown (key message) before m after ->
    asks shown d editing (HandleRegenerateMessage message)
      (before ++ if decide (from m = USER) then [m] else [])
| asks_edited k content before m after :
    k <> [] -> first_with_key shown k before m after -> from m = USER ->
    asks shown d (Some k) (ApplyEdit content true)
      (before ++ [with_created (updateCurrentVersionContent m content) (Some (submitted d))]).

(** ** Finding a message *)

Lemma find_key_some shown k i m :
  find_key shown k = Some (i, m) <->
  exists before after, first_with_key shown k before m after /\ i = length before.
Proof.
  split.
  - revert i. induction shown as [|x shown IH]; cbn [find_key]; intros i; [done|].
    destruct (str_eqb_spec (key x) k) as [Hk|Hk].
    + intros [= <- <-]. by exists [], shown.
    + destruct (find_key shown k) as [[j y]|]; [|done]. intros [= <- ->].
      destruct (IH j eq_refl) as (before & after & (-> & Hy & Hbefore) & ->).
      exists (x :: before), after. split; [|done]. split_and!; [done|done|by constructor].
  - intros (before & after & (-> & Hk & Hbefore) & ->).
    induction Hbefore as [|x before Hx _ IH]; cbn [app find_key length].
    + by rewrite (proj2 (str_eqb_eq (key m) k) Hk).
    + by rewrite (proj2 (str_eqb_neq (key x) k) Hx), IH.
Qed.

Lemma take_before {A} (before : list A) m after : take (length before) (before ++ m :: after) = before.
Proof. apply take_app_length. Qed.

Lemma take_through {A} (before : list A) m after :
  take (length before + 1) (before ++ m :: after) = before ++ [m].
Proof.
  change (before ++ m :: after) with (before ++ [m] ++ after). rewrite app_assoc.
  replace (length before + 1)%nat with (length (before ++ [m])) by (rewrite length_app; cbn; lia).
  apply take_app_length.
Qed.

Lemma edit_before k content submit at_ before :
  Forall (fun m' => key m' <> k) before -> map (edit_message k content submit at_) before = before.
Proof.
  induction 1 as [|x before Hx _ IH]; [done|]. cbn [map]. unfold edit_message at 1.
  by rewrite (proj2 (str_eqb_neq (key x) k) Hx), IH.
Qed.

Section Asked.
Context (shown : list Message) (d : drawn).

Lemma regenerated k next :
  createRegeneratedMessages shown k (assistant_ids d) (submitted d) = Some next <->
  exists before m after, first_with_key shown k before m after
    /\ next = (before ++ if decide (from m = USER) then [m] else [])
              ++ [loading_message (assistant_ids d) (submitted d)].
Proof.
  unfold createRegeneratedMessages. split.
  - destruct (find_key shown k) as [[i m]|] eqn:Hf; [|done]. intros [= <-].
    apply find_key_some in Hf as (before & after & Hfirst & ->). exists before, m, after.
    split; [done|]. destruct Hfirst as (-> & _). rewrite take_before, take_through.
    destruct (decide _); by rewrite ?app_nil_r.
  - intros (before & m & after & Hfirst & ->).
    assert (Hf : find_key shown k = Some (length before, m)) by (apply find_key_some; eauto).
    rewrite Hf. f_equal. destruct Hfirst as (-> & _). rewrite take_before, take_through.
    destruct (decide _); by rewrite ?app_nil_r.
Qed.

Lemma edited k content next :
  (exists result, applyMessageEdit shown k content true (assistant_ids d) (submitted d) = Some result
                  /\ shouldSend result = true /\ edited_messages result = next) <->
  exists before m after, first_with_key shown k before m after /\ from m = USER
    /\ next = (before ++ [with_created (updateCurrentVersionContent m content) (Some (submitted d))])
              ++ [loading_message (assistant_ids d) (submitted d)].
Proof.
  assert (Hres : forall before m after, first_with_key shown k before m after ->
    take (length before + 1) (map (edit_message k content true (submitted d)) shown)
    = before ++ [with_created (updateCurrentVersionContent m content) (Some (submitted d))]).
  { intros before m after (-> & Hk & Hbefore). rewrite map_app, edit_before by done. cbn [map].
    rewrite take_through. unfold edit_message. by rewrite (proj2 (str_eqb_eq (key m) k) Hk). }
  unfold applyMessageEdit. cbn [negb orb]. split.
  - intros (result & Hr & Hsend & <-). destruct (find_key shown k) as [[i m]|] eqn:Hf; [|done].
    apply find_key_some in Hf as (before & after & Hfirst & ->). exists before, m, after.
    destruct (bool_decide_reflect (from m = USER)) as [Hm|Hm]; injection Hr as <-; [|discriminate Hsend].
    split_and!; [done|done|]. cbn [edited_messages]. by rewrite (Hres _ _ _ Hfirst).
  - intros (before & m & after & Hfirst & Hm & ->).
    assert (Hf : find_key shown k = Some (length before, m)) by (apply find_key_some; eauto).
    rewrite Hf. eexists. split; [done|]. rewrite (bool_decide_eq_true_2 _ Hm). cbn [negb shouldSend edited_messages].
    by rewrite (Hres _ _ _ Hfirst).
Qed.

(** A handler sends exactly what [asks] says, before a placeholder for the answer. *)
Lemma sends_iff editing e next :
  (conversation_step shown d editing e).2 = UpdateAndSend next <->
  exists init, asks shown d editing e init
               /\ next = init ++ [loading_message (assistant_ids d) (submitted d)].
Proof.
  destruct e as [text|message|message|open|content submit|message]; cbn [conversation_step snd].
  - unfold appendUserMessagePair. split.
    + intros [= <-]. eexists. split; [constructor|]. by rewrite <- app_assoc.
    + intros (init & Hasks & ->). inversion Hasks; subst. by rewrite <- app_assoc.
  - pose proof (regenerated (key message) next) as Hre. unfold send_if_some. split.
    + destruct (createRegeneratedMessages _ _ _ _) as [next'|]; [|done]. intros [= ->].
      destruct (proj1 Hre eq_refl) as (before & m & after & Hfirst & ->).
      eexists. split; [by econstructor|done].
    + intros (init & Hasks & ->). inversion Hasks; subst. rewrite (proj2 Hre); [done|by eauto].
  - split; [done|]. intros (init & Hasks & _). inversion Hasks.
  - split; [done|]. intros (init & Hasks & _). inversion Hasks.
  - split.
    + destruct editing as [k|]; [|done]. destruct (nonempty k) eqn:Hk; [|done]. cbn [negb].
      pose proof (edited k content next) as Hed.
      destruct submit.
      * destruct (applyMessageEdit _ _ _ _ _ _) as [result|]; [|done]. cbn [snd].
        destruct (shouldSend result) eqn:Hs; [|done]. intros [= <-].
        destruct (proj1 Hed) as (before & m & after & Hfirst & Hm & Hnext); [by eauto|].
        eexists. split; [|exact Hnext]. econstructor; [by destruct k|done|done].
      * unfold applyMessageEdit. by destruct (find_key shown k) as [[i m]|].
    + intros (init & Hasks & ->). inversion Hasks as [| |k ? before m after Hk Hfirst Hm]; subst.
      destruct (proj2 (edited k content _) (ex_intro _ before (ex_intro _ m (ex_intro _ after
                  (conj Hfirst (conj Hm eq_refl)))))) as (result & -> & Hs & Hnext).
      destruct k as [|c k]; [done|]. cbn [nonempty negb snd]. by rewrite Hs, Hnext.
  - split; [done|]. intros (init & Hasks & _). inversion Hasks.
Qed.
End Asked.

(** ** The main theorems *)

(** What the user asks reaches the model as it should: a handler sends exactly when
    it is a new text, a regeneration of a message shown, or the submitted edit of a
    user's message shown, and then the messages up to that point with a placeholder
    for the answer; the request to the model holds the valid ones of these messages
    in order, without the placeholder. *)
Theorem conversation_asks shown d editing e next config enabled :
  ((conversation_step shown d editing e).2 = UpdateAndSend next <->
   exists init, asks shown d editing e init
                /\ next = init ++ [loading_message (assistant_ids d) (submitted d)])
  /\ forall init, req_messages (buildChatCompletionPayload
                     (init ++ [loading_message (assistant_ids d) (submitted d)]) config enabled)
                  = map formatMessageForAPI (List.filter isValidMessage init).
Proof.
  split; [apply sends_iff|]. intros init. unfold buildChatCompletionPayload. cbn [req_messages].
  rewrite List.filter_app, map_app. cbn. apply app_nil_r.
Qed.


(** ** The hypotheses hold *)

Definition sample_ids : drawn :=
  {| user_ids := {| message_id := js "k0"; version_id := js "v0" |};
     assistant_ids := {| message_id := js "k1"; version_id := js "v1" |}; submitted := zero |}.

