(* ===== verification/PlaygroundStorage.v ===== *)
(** * Storage of the playground ([features/playground/lib/storage/])

    What the playground keeps in the browser: its configuration, the enabled
    parameters and the messages in [localStorage], the client key in
    [sessionStorage]; and the hook that loads the messages and saves them a while
    after the last change ([hooks/use-playground-state.ts]).

    The schemas are readers of values: unknown fields are dropped, a field of
    another type refuses the value.  Whether a storage is available and accepts a
    text, the translations and the clock are arguments. *)

From S2P Require Import Prelude JsString JsNumber JsValue JsJson JsonRoundtrip Regex PlaygroundMessages.
Local Open Scope io_scope.

(** ** The schemas ([storage-schema.ts]) *)

Definition STORAGE_VERSION : num := num_of_Z 1.
Definition MAX_STORED_MESSAGES : nat := 100.
Definition MAX_STORED_MESSAGES_BYTES : N := 1048576.
Definition MAX_LOADED_MESSAGES_CHARS : N := 120000.
Definition MAX_LOADED_MESSAGE_CHARS : N := 40000.

(** *** Readers of fields *)

Definition reader (A : Type) : Type := jsval -> option A.

Definition read_string : reader jsstr := fun v => match v with JStr s => Some s | _ => None end.
Definition read_number : reader num := fun v =>
  match v with JNum n => if is_finite n then Some n else None | _ => None end.
Definition read_boolean : reader bool := fun v => match v with JBool b => Some b | _ => None end.
Definition read_nullable {A} (r : reader A) : reader (option A) := fun v =>
  match v with JNull => Some None | _ => Some <$> r v end.
Definition read_enum {A} (options : list (string * A)) : reader A := fun v =>
  match v with
  | JStr s => snd <$> List.find (fun o => js o.1 === s) options
  | _ => None
  end.

(** All elements of an array. *)
Fixpoint read_all {A} (r : reader A) (l : list jsval) : option (list A) :=
  match l with
  | [] => Some []
  | v :: l => x ← r v; xs ← read_all r l; Some (x :: xs)
  end.
Definition read_array {A} (r : reader A) : reader (list A) := fun v =>
  match v with JArr l => read_all r l | _ => None end.

Definition required {A} (r : reader A) (v : jsval) (k : string) : option A := r (prop v (js k)).
Definition optional_field {A} (r : reader A) (v : jsval) (k : string) : option (option A) :=
  match prop v (js k) with JUndefined => Some None | x => Some <$> r x end.

Definition when_object {A} (r : reader A) : reader A := fun v =>
  match v with JObj _ => r v | _ => None end.

(** *** Written fields; an absent one is left out by [JSON.stringify] *)

Definition present (fields : list (string * option jsval)) : list (jsstr * jsval) :=
  flat_map (fun kv => match kv.2 with Some v => [(js kv.1, v)] | None => [] end) fields.

Definition nullable {A} (f : A -> jsval) (o : option A) : jsval :=
  match o with Some a => f a | None => JNull end.

(** *** Configuration *)

(** [Partial<PlaygroundConfig>] *)
Record StoredConfig := {
  s_model : option jsstr;
  s_clientKey : option jsstr;
  s_temperature : option num;
  s_top_p : option num;
  s_max_tokens : option num;
  s_frequency_penalty : option num;
  s_presence_penalty : option num;
  s_seed : option (option num);
  s_stream : option bool
}.

Definition empty_config : StoredConfig := {|
  s_model := None; s_clientKey := None; s_temperature := None; s_top_p := None; s_max_tokens := None;
  s_frequency_penalty := None; s_presence_penalty := None; s_seed := None; s_stream := None |}.

Definition playgroundConfigSchema : reader StoredConfig := when_object (fun v =>
  a ← optional_field read_string v "model";
  b ← optional_field read_string v "clientKey";
  c ← optional_field read_number v "temperature";
  d ← optional_field read_number v "top_p";
  e ← optional_field read_number v "max_tokens";
  f ← optional_field read_number v "frequency_penalty";
  g ← optional_field read_number v "presence_penalty";
  h ← optional_field (read_nullable read_number) v "seed";
  i ← optional_field read_boolean v "stream";
  Some {| s_model := a; s_clientKey := b; s_temperature := c; s_top_p := d; s_max_tokens := e;
          s_frequency_penalty := f; s_presence_penalty := g; s_seed := h; s_stream := i |}).

(** The fields of a configuration, with the given client key. *)
Definition config_fields (c : StoredConfig) (clientKey : option jsstr) : list (string * option jsval) :=
  [("model", JStr <$> s_model c); ("clientKey", JStr <$> clientKey); ("temperature", JNum <$> s_temperature c);
   ("top_p", JNum <$> s_top_p c); ("max_tokens", JNum <$> s_max_tokens c);
   ("frequency_penalty", JNum <$> s_frequency_penalty c);
   ("presence_penalty", JNum <$> s_presence_penalty c); ("seed", nullable JNum <$> s_seed c);
   ("stream", JBool <$> s_stream c)]%string.

Definition config_value (c : StoredConfig) : jsval := JObj (present (config_fields c (s_clientKey c))).
(** What is persisted: all but the client key. *)
Definition persisted_value (c : StoredConfig) : jsval := JObj (present (config_fields c None)).

Definition with_client_key (c : StoredConfig) (k : option jsstr) : StoredConfig := {|
  s_model := s_model c; s_clientKey := k; s_temperature := s_temperature c; s_top_p := s_top_p c;
  s_max_tokens := s_max_tokens c; s_frequency_penalty := s_frequency_penalty c;
  s_presence_penalty := s_presence_penalty c; s_seed := s_seed c; s_stream := s_stream c |}.

(** *** Enabled parameters *)

(** [Partial<ParameterEnabled>] *)
Record StoredParameters := {
  p_temperature : option bool;
  p_top_p : option bool;
  p_max_tokens : option bool;
  p_frequency_penalty : option bool;
  p_presence_penalty : option bool;
  p_seed : option bool
}.

Definition no_parameters : StoredParameters := {|
  p_temperature := None; p_top_p := None; p_max_tokens := None; p_frequency_penalty := None;
  p_presence_penalty := None; p_seed := None |}.

Definition parameterEnabledSchema : reader StoredParameters := when_object (fun v =>
  a ← optional_field read_boolean v "temperature";
  b ← optional_field read_boolean v "top_p";
  c ← optional_field read_boolean v "max_tokens";
  d ← optional_field read_boolean v "frequency_penalty";
  e ← optional_field read_boolean v "presence_penalty";
  f ← optional_field read_boolean v "seed";
  Some {| p_temperature := a; p_top_p := b; p_max_tokens := c; p_frequency_penalty := d;
          p_presence_penalty := e; p_seed := f |}).

Definition parameters_value (p : StoredParameters) : jsval :=
  JObj (present
    [("temperature", JBool <$> p_temperature p); ("top_p", JBool <$> p_top_p p);
     ("max_tokens", JBool <$> p_max_tokens p); ("frequency_penalty", JBool <$> p_frequency_penalty p);
     ("presence_penalty", JBool <$> p_presence_penalty p); ("seed", JBool <$> p_seed p)]%string).

(** *** Messages *)

Definition messageRoleSchema : reader MessageRole :=
  read_enum [("user", USER); ("assistant", ASSISTANT); ("system", SYSTEM)]%string.
Definition messageStatusSchema : reader MessageStatus :=
  read_enum [("loading", LOADING); ("streaming", STREAMING); ("complete", COMPLETE); ("error", ERROR)]%string.

Definition role_value (r : MessageRole) : jsval :=
  JStr (js match r with USER => "user" | ASSISTANT => "assistant" | SYSTEM => "system" end).
Definition status_value (s : MessageStatus) : jsval :=
  JStr (js match s with LOADING => "loading" | STREAMING => "streaming" | COMPLETE => "complete"
           | ERROR => "error" end).

Definition messageVersionSchema : reader MessageVersion := when_object (fun v =>
  a ← required read_string v "id"; b ← required read_string v "content"; Some {| id := a; content := b |}).
Definition version_value (v : MessageVersion) : jsval :=
  JObj [(js "id", JStr (id v)); (js "content", JStr (content v))].

Definition sourceSchema : reader source := when_object (fun v =>
  a ← required read_string v "href"; b ← required read_string v "title"; Some {| href := a; title := b |}).
Definition source_value (s : source) : jsval :=
  JObj [(js "href", JStr (href s)); (js "title", JStr (title s))].

Definition reasoningSchema : reader message_reasoning := when_object (fun v =>
  a ← required read_string v "content"; b ← required read_number v "duration";
  c ← optional_field read_number v "startedAt"; d ← optional_field read_number v "completedAt";
  e ← optional_field read_number v "durationMs";
  Some {| r_content := a; r_duration := b; r_startedAt := c; r_completedAt := d; r_durationMs := e |}).
Definition reasoning_value (r : message_reasoning) : jsval :=
  JObj (present
    [("content", Some (JStr (r_content r))); ("duration", Some (JNum (r_duration r)));
     ("startedAt", JNum <$> r_startedAt r); ("completedAt", JNum <$> r_completedAt r);
     ("durationMs", JNum <$> r_durationMs r)]%string).

Definition versionsSchema : reader (list MessageVersion) := fun v =>
  vs ← read_array messageVersionSchema v; match vs with [] => None | _ => Some vs end.

Definition messageSchema : reader Message := when_object (fun v =>
  key_ ← required read_string v "key"; from_ ← required messageRoleSchema v "from";
  versions_ ← required versionsSchema v "versions";
  created ← optional_field read_number v "createdAt"; started ← optional_field read_number v "startedAt";
  completed ← optional_field read_number v "completedAt"; duration ← optional_field read_number v "durationMs";
  sources_ ← optional_field (read_array sourceSchema) v "sources";
  reasoning_ ← optional_field reasoningSchema v "reasoning";
  streaming ← optional_field read_boolean v "isReasoningStreaming";
  reasoned ← optional_field read_boolean v "isReasoningComplete";
  complete ← optional_field read_boolean v "isContentComplete";
  status_ ← optional_field messageStatusSchema v "status";
  code ← optional_field (read_nullable read_string) v "errorCode";
  served ← optional_field read_string v "servedBy";
  Some {| key := key_; from := from_; versions := versions_; createdAt := created; startedAt := started;
          completedAt := completed; durationMs := duration; sources := sources_; reasoning := reasoning_;
          isReasoningStreaming := streaming; isReasoningComplete := reasoned; isContentComplete := complete;
          status := status_; errorCode := code; servedBy := served |}).

Definition message_value (m : Message) : jsval :=
  JObj (present
    [("key", Some (JStr (key m))); ("from", Some (role_value (from m)));
     ("versions", Some (JArr (map version_value (versions m))));
     ("createdAt", JNum <$> createdAt m); ("startedAt", JNum <$> startedAt m);
     ("completedAt", JNum <$> completedAt m); ("durationMs", JNum <$> durationMs m);
     ("sources", (fun l => JArr (map source_value l)) <$> sources m);
     ("reasoning", reasoning_value <$> reasoning m);
     ("isReasoningStreaming", JBool <$> isReasoningStreaming m);
     ("isReasoningComplete", JBool <$> isReasoningComplete m);
     ("isContentComplete", JBool <$> isContentComplete m); ("status", status_value <$> status m);
     ("errorCode", nullable JStr <$> errorCode m); ("servedBy", JStr <$> servedBy m)]%string).

Definition messagesSchema : reader (list Message) := read_array messageSchema.
Definition messages_value (ms : list Message) : jsval := JArr (map message_value ms).

(** ** The browser's storages *)

Record browser := { local : gmap jsstr jsstr; session : gmap jsstr jsstr }.

Definition CONFIG_KEY : jsstr := js "pbr_playground_config".
Definition MESSAGES_KEY : jsstr := js "pbr_playground_messages".
Definition PARAMETER_ENABLED_KEY : jsstr := js "pbr_playground_parameter_enabled".
Definition CLIENT_KEY : jsstr := js "pbr_playground_client_key".

Definition put_local (f : gmap jsstr jsstr -> gmap jsstr jsstr) (b : browser) : browser :=
  {| local := f (local b); session := session b |}.
Definition put_session (f : gmap jsstr jsstr -> gmap jsstr jsstr) (b : browser) : browser :=
  {| local := local b; session := f (session b) |}.

(** Whether each storage can be used at all, and whether [localStorage] has room for
    a text under a key; every use throws otherwise. *)
Record platform := {
  local_available : bool;
  session_available : bool;
  local_accepts : jsstr -> jsstr -> bool;
  session_accepts : jsstr -> jsstr -> bool
}.

(** The [{ version, data }] that is stored. *)
Definition envelope (data : jsval) : jsval :=
  JObj [(js "version", JNum STORAGE_VERSION); (js "data", data)].

(** ['version' in value && 'data' in value] of an object or array. *)
Definition unwrapStoredValue (value : jsval) : jsval :=
  match value with
  | JObj fs => if has_key fs (js "version") && has_key fs (js "data") then prop value (js "data") else value
  | _ => value
  end.

Section Platform.
Context (p : platform).

Definition when_available (ok : bool) : io browser unit := if ok then io_ret tt else io_throw.

Definition local_getItem (k : jsstr) : io browser (option jsstr) :=
  when_available (local_available p);; io_gets (fun b => local b !! k).
Definition local_setItem (k t : jsstr) : io browser unit :=
  when_available (local_available p && local_accepts p k t);; io_modify (put_local <[k := t]>).
Definition local_removeItem (k : jsstr) : io browser unit :=
  when_available (local_available p);; io_modify (put_local (delete k)).

Definition session_getItem (k : jsstr) : io browser (option jsstr) :=
  when_available (session_available p);; io_gets (fun b => session b !! k).
Definition session_setItem (k t : jsstr) : io browser unit :=
  when_available (session_available p && session_accepts p k t);; io_modify (put_session <[k := t]>).
Definition session_removeItem (k : jsstr) : io browser unit :=
  when_available (session_available p);; io_modify (put_session (delete k)).

(** A result that is missing is an exception. *)
Definition or_throw {A} (o : option A) : io browser A :=
  match o with Some a => io_ret a | None => io_throw end.

(** [None] is [null]. *)
Definition readStoredValue (k : jsstr) : io browser (option jsval) :=
  saved <- local_getItem k;;
  match saved with
  | Some s => if nonempty s then v <- or_throw (json_parse s);; io_ret (Some v) else io_ret None
  | None => io_ret None
  end.

Definition readStoredMessagesValue : io browser (option jsval) :=
  saved <- local_getItem MESSAGES_KEY;;
  match saved with
  | Some s =>
      if nonempty s then
        if (MAX_STORED_MESSAGES_BYTES <? N.of_nat (length s))%N
        then local_removeItem MESSAGES_KEY;; io_ret None
        else v <- or_throw (json_parse s);; io_ret (Some v)
      else io_ret None
  | None => io_ret None
  end.

Definition writeStoredValue (k : jsstr) (data : jsval) : io browser unit :=
  local_setItem k (default [] (json_stringify (envelope data))).

Definition readSessionClientKey : io browser (option jsstr) :=
  io_catch (session_getItem CLIENT_KEY) (io_ret None).

Definition writeSessionClientKey (clientKey : option jsstr) : io browser unit :=
  io_catch
    (match clientKey with
     | Some k => if nonempty k then session_setItem CLIENT_KEY k else session_removeItem CLIENT_KEY
     | None => session_removeItem CLIENT_KEY
     end)
    (io_ret tt).

(** ** Configuration *)

(** A stored value that is falsy counts as absent. *)
Definition if_truthy {A} (saved : option jsval) (absent : A) (read : jsval -> io browser A) : io browser A :=
  match saved with
  | Some v => if truthy v then read v else io_ret absent
  | None => io_ret absent
  end.

Definition loadConfig : io browser StoredConfig :=
  io_catch
    (saved <- readStoredValue CONFIG_KEY;;
     parsed <- if_truthy saved empty_config (fun v => or_throw (playgroundConfigSchema (unwrapStoredValue v)));;
     (if nonempty (default [] (s_clientKey parsed))
      then writeStoredValue CONFIG_KEY (persisted_value parsed) else io_ret tt);;
     sessionClientKey <- readSessionClientKey;;
     io_ret (with_client_key parsed (Some (default [] sessionClientKey))))
    (io_ret empty_config).

Definition saveConfig (config : StoredConfig) : io browser unit :=
  io_catch
    (parsed <- or_throw (playgroundConfigSchema (config_value config));;
     writeStoredValue CONFIG_KEY (persisted_value parsed);;
     writeSessionClientKey (s_clientKey parsed))
    (io_ret tt).

Definition loadParameterEnabled : io browser StoredParameters :=
  io_catch
    (saved <- readStoredValue PARAMETER_ENABLED_KEY;;
     if_truthy saved no_parameters (fun v => or_throw (parameterEnabledSchema (unwrapStoredValue v))))
    (io_ret no_parameters).

Definition saveParameterEnabled (parameterEnabled : StoredParameters) : io browser unit :=
  io_catch
    (parsed <- or_throw (parameterEnabledSchema (parameters_value parameterEnabled));;
     writeStoredValue PARAMETER_ENABLED_KEY (parameters_value parsed))
    (io_ret tt).
End Platform.

(** ** Messages that are loaded *)

(** The last [n] elements; [xs.slice(-n)] for a positive [n]. *)
Definition last_n {A} (n : nat) (xs : list A) : list A := drop (length xs - n) xs.

Definition trimMessages (messages : list Message) : list Message :=
  if (length messages <=? MAX_STORED_MESSAGES)%nat then messages else last_n MAX_STORED_MESSAGES messages.

Definition text_length (s : jsstr) : N := N.of_nat (length s).

Definition getMessageSize (message : Message) : N :=
  fold_left (fun total v => total + text_length (content v))%N (versions message) 0%N
  + default 0%N ((fun r => text_length (r_content r)) <$> reasoning message).

Definition TRUNCATED_CONTENT_SUFFIX : jsstr := [10%N; 10%N] ++ js "[...]".
Definition MIN_PREFIX_COLLAPSE_LENGTH : N := 2000.
Definition MIN_REPEATED_SECTION_COUNT : nat := 3.

Definition truncateText (text : jsstr) (maxLength : N) : jsstr :=
  if (text_length text <=? maxLength)%N then text
  else if (maxLength <=? text_length TRUNCATED_CONTENT_SUFFIX)%N then take (N.to_nat maxLength) text
  else take (N.to_nat (maxLength - text_length TRUNCATED_CONTENT_SUFFIX)) text ++ TRUNCATED_CONTENT_SUFFIX.

(** [#{2,6}\s+\d+\.\s+.+]; the greedy end of the line satisfies [$]. *)
Definition SECTION_HEADING_LINE_PATTERN : regex :=
  let hash := RSet (N.eqb (ch "#")) in
  RSeqs [hash; hash; ROpt (RSeq hash (ROpt (RSeq hash (ROpt (RSeq hash (ROpt hash))))));
         RPlus (RSet is_space); RPlus (RSet is_digit); RSet (N.eqb (ch ".")); RPlus (RSet is_space); RPlus RDot].

Record SectionOccurrence := { heading : jsstr; index : nat }.

(** The matches from position [pos] on; [line_start]: whether [^] holds there. *)
Fixpoint occurrences_from (fuel : nat) (line_start : bool) (pos : nat) (text : jsstr) : list SectionOccurrence :=
  match fuel with
  | O => []
  | S fuel =>
      match text with
      | [] => []
      | c :: rest =>
          match if line_start
                then rmatch SECTION_HEADING_LINE_PATTERN text [] (fun rest _ => Some (length text - length rest)%nat)
                else None with
          | Some n =>
              {| heading := take n text; index := pos |}
              :: occurrences_from fuel false (pos + n) (drop n text)
          | None => occurrences_from fuel (is_line_terminator c) (S pos) rest
          end
      end
  end.

Definition getSectionOccurrences (text : jsstr) : list SectionOccurrence :=
  occurrences_from (length text) true 0 text.

Definition getHeadingCounts (occurrences : list SectionOccurrence) : gmap jsstr nat :=
  fold_left (fun counts o => <[heading o := (default 0 (counts !! heading o) + 1)%nat]> counts) occurrences ∅.

Definition findLastRepeatedSectionRunStart (text : jsstr) : option nat :=
  let occurrences := getSectionOccurrences text in
  let headingCounts := getHeadingCounts occurrences in
  let '(_, lastRepeatedIndexes) :=
    fold_left (fun (acc : list jsstr * list nat) o =>
      let '(seenHeadings, indexes) := acc in
      let count := default 0%nat (headingCounts !! heading o) in
      if (count <? MIN_REPEATED_SECTION_COUNT)%nat || includes_str seenHeadings (heading o) then acc
      else (heading o :: seenHeadings, indexes ++ [index o])) (rev occurrences) ([], []) in
  match lastRepeatedIndexes with
  | [] => None
  | i :: later => Some (fold_left Nat.min later i)
  end.

Definition collapseRepeatedSectionSnapshots (text : jsstr) : jsstr :=
  if (text_length text <? MIN_PREFIX_COLLAPSE_LENGTH)%N then text
  else match findLastRepeatedSectionRunStart text with
       | None => text
       | Some lastRepeatedRunStart => drop lastRepeatedRunStart text
       end.

(** What the clock says while a message is brought to its end. *)
Record clock := { started_at : num; reasoned_at : num; completed_at : num }.

Definition load_version (version : MessageVersion) : MessageVersion :=
  {| id := id version;
     content := truncateText (collapseRepeatedSectionSnapshots (content version)) MAX_LOADED_MESSAGE_CHARS |}.

Definition version_changes (version : MessageVersion) : bool :=
  (collapseRepeatedSectionSnapshots (content version) !== content version)
  || (content (load_version version) !== content version).

Definition load_reasoning (r : message_reasoning) : message_reasoning :=
  reasoning_content r (truncateText (r_content r) MAX_LOADED_MESSAGE_CHARS).

Definition reasoning_changes (message : Message) : bool :=
  match reasoning message with
  | Some r => r_content (load_reasoning r) !== r_content r
  | None => false
  end.

(** [None]: the message itself. *)
Definition normalizeStoredMessageForLoad (now : clock) (message : Message) : option Message :=
  let changed := existsb version_changes (versions message) || reasoning_changes message in
  let normalized :=
    if changed
    then with_reasoning (with_versions message (map load_version (versions message)))
           (load_reasoning <$> reasoning message)
    else message in
  let hasReasoning := nonempty (trim (default [] (r_content <$> reasoning normalized))) in
  if negb (isAssistantMessagePending normalized) || negb (hasMessageContent normalized || hasReasoning)
  then if changed then Some normalized else None
  else
    let completedAt :=
      default (completed_at now)
        (option_or (completedAt normalized)
           (option_or (reasoning normalized ≫= r_completedAt)
              (option_or (startedAt normalized) (createdAt normalized)))) in
    Some (completeAssistantTiming
            (with_streaming
               (with_status (finalizeMessage normalized None (started_at now) (reasoned_at now)) COMPLETE)
               false) completedAt).

(** The loop from the last message: those kept, the oldest first. *)
Fixpoint trim_loop (newest_first : list Message) (totalSize : N) (result : list Message) : list Message :=
  match newest_first with
  | [] => result
  | message :: older =>
      let messageSize := getMessageSize message in
      if negb (length result =? 0)%nat && (MAX_LOADED_MESSAGES_CHARS <? totalSize + messageSize)%N then result
      else trim_loop older (totalSize + messageSize) (message :: result)
  end.

Definition trimMessagesByContentSize (messages : list Message) : list Message :=
  trim_loop (rev messages) 0 [].

(** ** Loading and saving messages *)

Section Messages.
Context (p : platform) (t : jsstr -> jsstr).

Definition saveMessages (messages : list Message) : io browser unit :=
  io_catch
    (parsed <- or_throw (messagesSchema (messages_value (trimMessages messages)));;
     writeStoredValue p MESSAGES_KEY (messages_value parsed))
    (io_ret tt).

(** The messages shown for the stored ones: [now i] is the clock of the [i]-th. *)
Definition loaded_messages (now : nat -> clock) (sanitized_at : clock) (parsed : list Message) : list Message :=
  let normalized := imap (fun i m => default m (normalizeStoredMessageForLoad (now i) m)) parsed in
  sanitizeMessagesOnLoad t (trimMessagesByContentSize (trimMessages normalized))
    (started_at sanitized_at) (reasoned_at sanitized_at) (completed_at sanitized_at).

(** The list is always saved again, since [trimMessagesByContentSize] returns a new
    array. *)
Definition loadMessages (now : nat -> clock) (sanitized_at : clock) : io browser (option (list Message)) :=
  io_catch
    (saved <- readStoredMessagesValue p;;
     if_truthy saved None (fun v =>
       parsed <- or_throw (messagesSchema (unwrapStoredValue v));;
       let sanitized := loaded_messages now sanitized_at parsed in
       (saveMessages sanitized;; io_ret (Some sanitized))))
    (io_ret None).

Definition clearPlaygroundData : io browser unit :=
  io_catch
    (local_removeItem p CONFIG_KEY;; local_removeItem p PARAMETER_ENABLED_KEY;; local_removeItem p MESSAGES_KEY)
    (io_ret tt).
End Messages.

(** ** The hook ([use-playground-state.ts]) *)

(** [Partial] values over defaults. *)
Definition DEFAULT_CONFIG : PlaygroundConfig := {|
  model := js "gpt-4o"; clientKey := []; temperature := ndiv (num_of_Z 7) (num_of_Z 10);
  top_p := num_of_Z 1; max_tokens := num_of_Z 4096; frequency_penalty := zero; presence_penalty := zero;
  seed := None; stream := true |}.

Definition DEFAULT_PARAMETER_ENABLED : ParameterEnabled := {|
  use_temperature := true; use_top_p := true; use_max_tokens := false; use_frequency_penalty := true;
  use_presence_penalty := true; use_seed := false |}.

(** [{ ...d, ...c }] *)
Definition config_over (d : PlaygroundConfig) (c : StoredConfig) : PlaygroundConfig := {|
  model := default (model d) (s_model c); clientKey := default (clientKey d) (s_clientKey c);
  temperature := default (temperature d) (s_temperature c); top_p := default (top_p d) (s_top_p c);
  max_tokens := default (max_tokens d) (s_max_tokens c);
  frequency_penalty := default (frequency_penalty d) (s_frequency_penalty c);
  presence_penalty := default (presence_penalty d) (s_presence_penalty c);
  seed := default (seed d) (s_seed c); stream := default (stream d) (s_stream c) |}.

Definition parameters_over (d : ParameterEnabled) (c : StoredParameters) : ParameterEnabled := {|
  use_temperature := default (use_temperature d) (p_temperature c);
  use_top_p := default (use_top_p d) (p_top_p c);
  use_max_tokens := default (use_max_tokens d) (p_max_tokens c);
  use_frequency_penalty := default (use_frequency_penalty d) (p_frequency_penalty c);
  use_presence_penalty := default (use_presence_penalty d) (p_presence_penalty c);
  use_seed := default (use_seed d) (p_seed c) |}.

(** A whole configuration, given where a partial one is expected. *)
Definition all_fields (c : PlaygroundConfig) : StoredConfig := {|
  s_model := Some (model c); s_clientKey := Some (clientKey c); s_temperature := Some (temperature c);
  s_top_p := Some (top_p c); s_max_tokens := Some (max_tokens c);
  s_frequency_penalty := Some (frequency_penalty c); s_presence_penalty := Some (presence_penalty c);
  s_seed := Some (seed c); s_stream := Some (stream c) |}.

Definition all_parameters (c : ParameterEnabled) : StoredParameters := {|
  p_temperature := Some (use_temperature c); p_top_p := Some (use_top_p c);
  p_max_tokens := Some (use_max_tokens c); p_frequency_penalty := Some (use_frequency_penalty c);
  p_presence_penalty := Some (use_presence_penalty c); p_seed := Some (use_seed c) |}.

Definition getInitialPlaygroundConfig (p : platform) : io browser PlaygroundConfig :=
  c <- loadConfig p;; io_ret (config_over DEFAULT_CONFIG c).

Definition getInitialParameterEnabled (p : platform) : io browser ParameterEnabled :=
  c <- loadParameterEnabled p;; io_ret (parameters_over DEFAULT_PARAMETER_ENABLED c).

Definition getInitialMessages (p : platform) (t : jsstr -> jsstr) (now : nat -> clock) (sanitized_at : clock)
    : io browser (list Message) :=
  ms <- loadMessages p t now sanitized_at;; io_ret (default [] ms).

Inductive MessageStateUpdater :=
| NewMessages (messages : list Message)
| UpdateWith (update : list Message -> list Message).

Definition applyMessageStateUpdate (previousMessages : list Message) (updater : MessageStateUpdater)
    : list Message :=
  match updater with NewMessages messages => messages | UpdateWith update => update previousMessages end.

(** The state of the component: its messages, the references that survive renders,
    whether the saving timer runs, whether it was unmounted, and the storages. *)
Record hook_state := {
  config : PlaygroundConfig;
  parameterEnabled : ParameterEnabled;
  messages : list Message;
  isLoadingMessages : bool;
  latestMessages : list Message;
  hasLoadedMessages : bool;
  loading_timer : bool;
  messagesSaveTimer : bool;
  unmounted : bool;
  store : browser
}.

(** An update that React runs, a timer, or the end of the component. *)
Inductive hook_event :=
| LoadTimer (now : nat -> clock) (sanitized_at : clock)
| UpdateMessages (updater : MessageStateUpdater)
| SaveTimer
| UpdateConfig (change : PlaygroundConfig -> PlaygroundConfig)
| UpdateParameterEnabled (change : ParameterEnabled -> ParameterEnabled)
| ResetConfig
| Unmount.

Section Hook.
Context (p : platform) (t : jsstr -> jsstr).

Definition run_store {A} (m : io browser A) (s : hook_state) : option A * hook_state :=
  let '(a, b) := m (store s) in
  (a, {| config := config s; parameterEnabled := parameterEnabled s; messages := messages s;
         isLoadingMessages := isLoadingMessages s; latestMessages := latestMessages s;
         hasLoadedMessages := hasLoadedMessages s; loading_timer := loading_timer s;
         messagesSaveTimer := messagesSaveTimer s; unmounted := unmounted s; store := b |}).

Definition with_settings (c : PlaygroundConfig) (e : ParameterEnabled) (s : hook_state) : hook_state :=
  {| config := c; parameterEnabled := e; messages := messages s;
     isLoadingMessages := isLoadingMessages s; latestMessages := latestMessages s;
     hasLoadedMessages := hasLoadedMessages s; loading_timer := loading_timer s;
     messagesSaveTimer := messagesSaveTimer s; unmounted := unmounted s; store := store s |}.

Definition with_messages (ms latest : list Message) (loading loaded timer saving : bool) (s : hook_state)
    : hook_state :=
  {| config := config s; parameterEnabled := parameterEnabled s; messages := ms;
     isLoadingMessages := loading; latestMessages := latest; hasLoadedMessages := loaded;
     loading_timer := timer; messagesSaveTimer := saving; unmounted := unmounted s; store := store s |}.

(** [persistMessages] and the new state of [updateMessages]. *)
Definition update_messages (updater : MessageStateUpdater) (s : hook_state) : hook_state :=
  let newMessages := applyMessageStateUpdate (messages s) updater in
  with_messages newMessages newMessages (isLoadingMessages s) (hasLoadedMessages s) (loading_timer s)
    (hasLoadedMessages s || messagesSaveTimer s) s.

Definition load_timer (now : nat -> clock) (sanitized_at : clock) (s : hook_state) : hook_state :=
  if negb (loading_timer s) then s
  else
    let '(loaded, s) := run_store (loadMessages p t now sanitized_at) s in
    let loadedMessages := default [] (default None loaded) in
    if unmounted s then
      with_messages (messages s) (latestMessages s) (isLoadingMessages s) (hasLoadedMessages s) false
        (messagesSaveTimer s) s
    else with_messages loadedMessages loadedMessages false true false (messagesSaveTimer s) s.

(** The timer is cleared before the messages are saved. *)
Definition save_latest (s : hook_state) : hook_state :=
  if messagesSaveTimer s then
    (run_store (saveMessages p (latestMessages s))
       (with_messages (messages s) (latestMessages s) (isLoadingMessages s) (hasLoadedMessages s)
          (loading_timer s) false s)).2
  else s.

Definition unmount (s : hook_state) : hook_state :=
  let s := save_latest s in
  {| config := config s; parameterEnabled := parameterEnabled s; messages := messages s;
     isLoadingMessages := isLoadingMessages s; latestMessages := latestMessages s;
     hasLoadedMessages := hasLoadedMessages s; loading_timer := loading_timer s;
     messagesSaveTimer := messagesSaveTimer s; unmounted := true; store := store s |}.

Definition updateConfig (change : PlaygroundConfig -> PlaygroundConfig) (s : hook_state) : hook_state :=
  let updated := change (config s) in
  with_settings updated (parameterEnabled s) (run_store (saveConfig p (all_fields updated)) s).2.

Definition updateParameterEnabled (change : ParameterEnabled -> ParameterEnabled) (s : hook_state) : hook_state :=
  let updated := change (parameterEnabled s) in
  with_settings (config s) updated (run_store (saveParameterEnabled p (all_parameters updated)) s).2.

Definition resetConfig (s : hook_state) : hook_state :=
  let s := with_settings DEFAULT_CONFIG DEFAULT_PARAMETER_ENABLED s in
  (run_store (saveParameterEnabled p (all_parameters DEFAULT_PARAMETER_ENABLED))
     (run_store (saveConfig p (all_fields DEFAULT_CONFIG)) s).2).2.

(** After the component is unmounted only its loading timer may still fire. *)
Definition hook_step (s : hook_state) (e : hook_event) : hook_state :=
  if unmounted s then
    match e with LoadTimer now sanitized_at => load_timer now sanitized_at s | _ => s end
  else
    match e with
    | LoadTimer now sanitized_at => load_timer now sanitized_at s
    | UpdateMessages updater => update_messages updater s
    | SaveTimer => save_latest s
    | UpdateConfig change => updateConfig change s
    | UpdateParameterEnabled change => updateParameterEnabled change s
    | ResetConfig => resetConfig s
    | Unmount => unmount s
    end.

(** The first render, on what the storages hold. *)
Definition initial_hook (b : browser) : hook_state :=
  let '(c, b) := getInitialPlaygroundConfig p b in
  let '(e, b) := getInitialParameterEnabled p b in
  {| config := default DEFAULT_CONFIG c; parameterEnabled := default DEFAULT_PARAMETER_ENABLED e;
     messages := []; isLoadingMessages := true; latestMessages := []; hasLoadedMessages := false;
     loading_timer := true; messagesSaveTimer := false; unmounted := false; store := b |}.
End Hook.
