(* ===== verification/PlaygroundSaved.v ===== *)
(** * What the playground stores ([features/playground/lib/storage/])

    Proofs about [PlaygroundStorage]: written values are read back by the schemas, the
    configuration and the messages that are saved are the ones that are loaded, the
    client key stays out of [localStorage], the loaded messages are bounded, and
    every change made after loading is saved. *)

From S2P Require Import Prelude JsString JsNumber JsValue JsJson JsonRoundtrip PlaygroundMessages PlaygroundStorage.
Local Open Scope io_scope.

(** ** Fields *)

(** The field that a list of written fields has for a key. *)
Fixpoint written_field (fields : list (string * option jsval)) (k : jsstr) : option jsval :=
  match fields with
  | [] => None
  | (k', o) :: fields => if js k' === k then o else written_field fields k
  end.

Definition distinct_fields (fields : list (string * option jsval)) : bool :=
  plain_keys (map (fun kv => js kv.1) fields).

Lemma present_keys fields : map fst (present fields) `sublist_of` map (fun kv => js kv.1) fields.
Proof.
  induction fields as [|[k [v|]] fields IH]; [constructor|..]; cbn; by constructor.
Qed.

Lemma NoDup_plain ks : plain_keys ks = true -> NoDup ks.
Proof. unfold plain_keys. by intros [_ H%bool_decide_eq_true%NoDup_keys]%andb_prop. Qed.

Lemma assoc_present fields k : distinct_fields fields = true ->
  assoc (present fields) k = written_field fields k.
Proof.
  intros Hd%NoDup_plain. induction fields as [|[k' o] fields IH]; [done|]. cbn [map fst] in Hd.
  apply NoDup_cons in Hd as [Hnew Hd]. cbn [written_field].
  assert (Hrest : js k' = k -> assoc (present fields) k = None).
  { intros <-. apply assoc_not_key. intros Hin. apply Hnew. by apply (elem_of_sublist _ _ _ Hin (present_keys fields)). }
  destruct o as [v|]; cbn [present flat_map app snd fst].
  - rewrite assoc_cons. destruct (_ === k); [done|by apply IH].
  - destruct (str_eqb_spec (js k') k) as [Heq|_]; [by apply Hrest|by apply IH].
Qed.

(** Keys that are left out do not disturb the order. *)
Lemma in_order_present fields : distinct_fields fields = true -> in_order (present fields).
Proof.
  intros Hd. apply in_order_plain. unfold plain_keys. apply andb_true_intro.
  pose proof (present_keys fields) as Hsub. split.
  - unfold distinct_fields, plain_keys in Hd. apply andb_prop in Hd as [Hd _].
    rewrite forallb_forall in *. intros k Hk%list_elem_of_In. apply Hd, list_elem_of_In.
    by apply (elem_of_sublist _ _ _ Hk Hsub).
  - apply bool_decide_eq_true, dedupe_from_id; [|set_solver].
    apply (sublist_NoDup _ (map (fun kv => js kv.1) fields)); [by apply NoDup_plain|done].
Qed.

(** What a reader makes of what was written. *)
Definition reads_written {A} (r : reader A) (f : A -> jsval) (a : A) : Prop :=
  r (f a) = Some a /\ f a <> JUndefined.

Lemma written_string s : reads_written read_string JStr s.
Proof. done. Qed.
Lemma written_boolean b : reads_written read_boolean JBool b.
Proof. done. Qed.
Lemma written_number n : numbers_read_back (JNum n) = true -> reads_written read_number JNum n.
Proof.
  intros Hn%numbers_read_back_num%reads_back_finite. unfold reads_written, read_number. by rewrite Hn.
Qed.
Lemma written_nullable {A} (r : reader A) f o : (forall a, f a <> JNull) ->
  (forall a, o = Some a -> reads_written r f a) -> reads_written (read_nullable r) (nullable f) o.
Proof.
  intros Hnull Ho. unfold reads_written, read_nullable, nullable. destruct o as [a|]; [|done].
  destruct (Ho a eq_refl) as [Hr Hu]. split; [|done]. specialize (Hnull a). destruct (f a); try done; by rewrite Hr.
Qed.

(** An optional field is read back. *)
Lemma optional_back {A} (r : reader A) f v k o : prop v (js k) = match o with Some a => f a | None => JUndefined end ->
  (forall a, o = Some a -> reads_written r f a) -> optional_field r v k = Some o.
Proof.
  intros Hp Ho. unfold optional_field. rewrite Hp. destruct o as [a|]; [|done].
  destruct (Ho a eq_refl) as [Hr Hu]. destruct (f a); [done|by rewrite Hr..].
Qed.

Lemma read_all_map {A} (r : reader A) (f : A -> jsval) l :
  Forall (fun a => r (f a) = Some a) l -> read_all r (map f l) = Some l.
Proof. induction 1 as [|a l Ha _ IH]; cbn; [done|]. by rewrite Ha, IH. Qed.

(** ** Written values are read back *)

Lemma required_back {A} (r : reader A) f v k a : prop v (js k) = f a -> r (f a) = Some a -> required r v k = Some a.
Proof. unfold required. by intros ->. Qed.

(** The numbers of written fields. *)
Definition number_back (o : option num) : Prop := forall n, o = Some n -> numbers_read_back (JNum n) = true.

Lemma optional_number v k o : prop v (js k) = match o with Some a => JNum a | None => JUndefined end ->
  number_back o -> optional_field read_number v k = Some o.
Proof. intros Hp Ho. apply (optional_back _ JNum); [done|]. intros n Hn. by apply written_number, Ho. Qed.

Lemma optional_string v k o : prop v (js k) = match o with Some a => JStr a | None => JUndefined end ->
  optional_field read_string v k = Some o.
Proof. intros Hp. by apply (optional_back _ JStr). Qed.

Lemma optional_boolean v k o : prop v (js k) = match o with Some a => JBool a | None => JUndefined end ->
  optional_field read_boolean v k = Some o.
Proof. intros Hp. by apply (optional_back _ JBool). Qed.

(** A property of written fields. *)
Lemma prop_present fields k : distinct_fields fields = true ->
  prop (JObj (present fields)) (js k) = default JUndefined (written_field fields (js k)).
Proof. intros Hd. unfold prop, own. by rewrite assoc_present. Qed.

Ltac property :=
  rewrite prop_present by reflexivity; cbn [written_field];
  repeat match goal with |- context [js ?a === js ?b] =>
    let c := eval vm_compute in (js a === js b) in change (js a === js b) with c; cbv iota end;
  try match goal with |- context [_ <$> ?o] => by destruct o end; try done.

Definition config_numbers (c : StoredConfig) : Prop :=
  number_back (s_temperature c) /\ number_back (s_top_p c) /\ number_back (s_max_tokens c)
  /\ number_back (s_frequency_penalty c) /\ number_back (s_presence_penalty c)
  /\ (forall n, s_seed c = Some (Some n) -> numbers_read_back (JNum n) = true).

Lemma config_back_fields c key_ : config_numbers c ->
  playgroundConfigSchema (JObj (present (config_fields c key_))) = Some (with_client_key c key_).
Proof.
  intros (Ht & Hp & Hm & Hf & Hpp & Hs). unfold playgroundConfigSchema, when_object, config_fields.
  rewrite (optional_string _ "model" (s_model c)) by (property || done). cbn [mbind option_bind].
  rewrite (optional_string _ "clientKey" (key_)) by (property || done). cbn [mbind option_bind].
  rewrite (optional_number _ "temperature" (s_temperature c)) by (property || done). cbn [mbind option_bind].
  rewrite (optional_number _ "top_p" (s_top_p c)) by (property || done). cbn [mbind option_bind].
  rewrite (optional_number _ "max_tokens" (s_max_tokens c)) by (property || done). cbn [mbind option_bind].
  rewrite (optional_number _ "frequency_penalty" (s_frequency_penalty c)) by (property || done). cbn [mbind option_bind].
  rewrite (optional_number _ "presence_penalty" (s_presence_penalty c)) by (property || done). cbn [mbind option_bind].
  rewrite (optional_back (read_nullable read_number) (nullable JNum) _ "seed" (s_seed c));
    [|property|intros o Ho; apply written_nullable; [done|intros n ->; apply written_number; by apply Hs]].
  cbn [mbind option_bind]. by rewrite (optional_boolean _ "stream" (s_stream c)) by property.
Qed.

Lemma parameters_back ps : parameterEnabledSchema (parameters_value ps) = Some ps.
Proof.
  unfold parameterEnabledSchema, when_object, parameters_value.
  rewrite (optional_boolean _ "temperature" (p_temperature ps)) by property. cbn [mbind option_bind].
  rewrite (optional_boolean _ "top_p" (p_top_p ps)) by property. cbn [mbind option_bind].
  rewrite (optional_boolean _ "max_tokens" (p_max_tokens ps)) by property. cbn [mbind option_bind].
  rewrite (optional_boolean _ "frequency_penalty" (p_frequency_penalty ps)) by property. cbn [mbind option_bind].
  rewrite (optional_boolean _ "presence_penalty" (p_presence_penalty ps)) by property. cbn [mbind option_bind].
  rewrite (optional_boolean _ "seed" (p_seed ps)) by property. by destruct ps.
Qed.

Lemma version_back v : messageVersionSchema (version_value v) = Some v.
Proof. by destruct v. Qed.

Lemma source_back s : sourceSchema (source_value s) = Some s.
Proof. by destruct s. Qed.

Lemma role_back r : messageRoleSchema (role_value r) = Some r.
Proof. by destruct r. Qed.

Lemma status_back s : messageStatusSchema (status_value s) = Some s.
Proof. by destruct s. Qed.

Definition reasoning_numbers (r : message_reasoning) : Prop :=
  numbers_read_back (JNum (r_duration r)) = true /\ number_back (r_startedAt r)
  /\ number_back (r_completedAt r) /\ number_back (r_durationMs r).

Lemma reasoning_back r : reasoning_numbers r -> reasoningSchema (reasoning_value r) = Some r.
Proof.
  intros (Hd & Hs & Hc & Hm). unfold reasoningSchema, when_object, reasoning_value.
  rewrite (required_back read_string JStr _ "content" (r_content r)) by (property || done). cbn [mbind option_bind].
  rewrite (required_back read_number JNum _ "duration" (r_duration r)); [|property|by apply written_number]. cbn [mbind option_bind].
  rewrite (optional_number _ "startedAt" (r_startedAt r)) by (property || done). cbn [mbind option_bind].
  rewrite (optional_number _ "completedAt" (r_completedAt r)) by (property || done). cbn [mbind option_bind].
  rewrite (optional_number _ "durationMs" (r_durationMs r)) by (property || done). by destruct r.
Qed.

Definition message_numbers (m : Message) : Prop :=
  number_back (createdAt m) /\ number_back (startedAt m) /\ number_back (completedAt m)
  /\ number_back (durationMs m) /\ forall r, reasoning m = Some r -> reasoning_numbers r.

Lemma message_back m : message_numbers m -> versions m <> [] -> messageSchema (message_value m) = Some m.
Proof.
  intros (Hcr & Hst & Hco & Hdu & Hre) Hv. unfold messageSchema, when_object, message_value.
  rewrite (required_back read_string JStr _ "key" (key m)) by (property || done). cbn [mbind option_bind].
  rewrite (required_back messageRoleSchema role_value _ "from" (from m)); [|property|apply role_back].
  cbn [mbind option_bind].
  assert (Hvs : versionsSchema (JArr (map version_value (versions m))) = Some (versions m)).
  { unfold versionsSchema, read_array. rewrite read_all_map by (apply Forall_forall; intros; apply version_back).
    cbn [mbind option_bind]. by destruct (versions m). }
  rewrite (required_back versionsSchema (fun vs => JArr (map version_value vs)) _ "versions" (versions m));
    [|property|done]. cbn [mbind option_bind].
  rewrite (optional_number _ "createdAt" (createdAt m)) by (property || done). cbn [mbind option_bind].
  rewrite (optional_number _ "startedAt" (startedAt m)) by (property || done). cbn [mbind option_bind].
  rewrite (optional_number _ "completedAt" (completedAt m)) by (property || done). cbn [mbind option_bind].
  rewrite (optional_number _ "durationMs" (durationMs m)) by (property || done). cbn [mbind option_bind].
  rewrite (optional_back (read_array sourceSchema) (fun l => JArr (map source_value l)) _ "sources" (sources m));
    [|property|intros l _; split; [|done]; by apply read_all_map, Forall_forall; intros; apply source_back].
  cbn [mbind option_bind].
  rewrite (optional_back reasoningSchema reasoning_value _ "reasoning" (reasoning m));
    [|property|intros r Hr; split; [by apply reasoning_back, Hre|done]]. cbn [mbind option_bind].
  rewrite (optional_boolean _ "isReasoningStreaming" (isReasoningStreaming m)) by property. cbn [mbind option_bind].
  rewrite (optional_boolean _ "isReasoningComplete" (isReasoningComplete m)) by property. cbn [mbind option_bind].
  rewrite (optional_boolean _ "isContentComplete" (isContentComplete m)) by property. cbn [mbind option_bind].
  rewrite (optional_back messageStatusSchema status_value _ "status" (status m));
    [|property|intros st _; split; [apply status_back|done]]. cbn [mbind option_bind].
  rewrite (optional_back (read_nullable read_string) (nullable JStr) _ "errorCode" (errorCode m));
    [|property|intros o _; by apply written_nullable]. cbn [mbind option_bind].
  rewrite (optional_string _ "servedBy" (servedBy m)) by property. by destruct m.
Qed.

Lemma messages_back ms : Forall message_numbers ms -> Forall (fun m => versions m <> []) ms ->
  messagesSchema (messages_value ms) = Some ms.
Proof.
  intros Hn Hv. apply read_all_map. rewrite Forall_forall in *. intros m Hm.
  by apply message_back; [apply Hn|apply Hv].
Qed.

(** ** Stored values *)

Lemma Forall_present (P : jsval -> Prop) fields :
  Forall (fun kv => forall v, kv.2 = Some v -> P v) fields -> Forall (fun kv => P kv.2) (present fields).
Proof.
  induction 1 as [|[k [v|]] fields Hv _ IH]; cbn; [constructor|..]; [|done]. constructor; [by apply Hv|done].
Qed.

Lemma storable_present fields : distinct_fields fields = true ->
  Forall (fun kv => forall v, kv.2 = Some v -> storable v) fields -> storable (JObj (present fields)).
Proof. intros Hd Hv. constructor; [by apply in_order_present|by apply Forall_present]. Qed.

Lemma storable_back n : numbers_read_back (JNum n) = true -> storable (JNum n).
Proof. intros Hn. constructor. by apply numbers_read_back_num. Qed.

Lemma storable_some {A} (f : A -> jsval) o v : (forall a, storable (f a)) -> f <$> o = Some v -> storable v.
Proof. intros Hf. destruct o; [|done]. by intros [= <-]. Qed.

Lemma storable_number_option o v : number_back o -> JNum <$> o = Some v -> storable v.
Proof. intros Ho. destruct o as [n|]; [|done]. intros [= <-]. by apply storable_back, Ho. Qed.

(** The fields that are absent or simple, one by one. *)
Ltac each_written :=
  repeat (apply Forall_cons_2;
    [cbn [snd]; intros ? ?;
     first [by eapply storable_number_option; [|eassumption]
           | by eapply storable_some; [|eassumption]; intros; constructor | idtac] |]);
  try apply Forall_nil_2.

Lemma storable_persisted c : config_numbers c -> storable (persisted_value c).
Proof.
  intros (Ht & Hp & Hm & Hf & Hpp & Hs). apply storable_present; [reflexivity|]. unfold config_fields.
  each_written. destruct (s_seed c) as [[n|]|]; simplify_eq/=; [by apply storable_back, Hs|constructor].
Qed.

Lemma storable_reasoning r : reasoning_numbers r -> storable (reasoning_value r).
Proof.
  intros (Hd & Hs & Hc & Hm). apply storable_present; [reflexivity|]. each_written; simplify_eq; [constructor|].
  by apply storable_back.
Qed.

Lemma storable_version v : storable (version_value v).
Proof. apply storable_literal; [by vm_compute|]. each_field. Qed.

Lemma storable_source s : storable (source_value s).
Proof. apply storable_literal; [by vm_compute|]. each_field. Qed.

Lemma storable_map {A} (f : A -> jsval) l : (forall a, a ∈ l -> storable (f a)) -> storable (JArr (map f l)).
Proof.
  intros Hf. constructor. induction l as [|a l IH]; cbn; constructor; [apply Hf; set_solver|apply IH].
  intros x Hx. apply Hf. set_solver.
Qed.

Lemma storable_message m : message_numbers m -> storable (message_value m).
Proof.
  intros (Hcr & Hst & Hco & Hdu & Hre). apply storable_present; [reflexivity|]. each_written; try simplify_eq.
  - constructor.
  - constructor.
  - apply storable_map. intros v _. apply storable_version.
  - destruct (sources m) as [l|]; [|done]. simplify_eq/=. apply storable_map. intros s _. apply storable_source.
  - destruct (reasoning m) as [r|] eqn:Hr; [|done]. simplify_eq/=. by apply storable_reasoning, Hre.
  - destruct (errorCode m) as [[code|]|]; simplify_eq/=; constructor.
Qed.

Lemma storable_messages ms : Forall message_numbers ms -> storable (messages_value ms).
Proof. intros Hn. apply storable_map. intros m Hm. apply storable_message. rewrite Forall_forall in Hn. by apply Hn. Qed.

Lemma storable_envelope data : storable data -> storable (envelope data).
Proof. intros Hd. apply storable_literal; [by vm_compute|]. each_field. Qed.

Lemma unwrap_envelope data : unwrapStoredValue (envelope data) = data.
Proof. reflexivity. Qed.

(** The text of an envelope. *)
Definition stored_text_for (data : jsval) : jsstr := default [] (json_stringify (envelope data)).

Lemma stored_text_parse data : storable data ->
  json_parse (stored_text_for data) = Some (envelope data) /\ nonempty (stored_text_for data) = true.
Proof.
  intros Hd%storable_envelope. unfold stored_text_for. destruct (storable_prints _ [] [] Hd) as (t & Ht).
  assert (Hs : json_stringify (envelope data) = Some t) by by rewrite <- json_stringify_no_gap.
  rewrite Hs. split; [by apply (json_parse_stringify _ t Hd)|].
  by destruct (printed_start _ _ _ _ Hd Ht) as (c & rest & -> & _).
Qed.

(** A platform whose storages work. *)
Definition works (p : platform) : Prop :=
  local_available p = true /\ session_available p = true
  /\ (forall k t, local_accepts p k t = true) /\ (forall k t, session_accepts p k t = true).

Lemma write_accepted p k data b : local_available p = true -> local_accepts p k (stored_text_for data) = true ->
  writeStoredValue p k data b = (Some tt, put_local <[k := stored_text_for data]> b).
Proof.
  unfold stored_text_for, writeStoredValue, local_setItem, when_available. by intros -> ->.
Qed.

Lemma write_works p k data b : works p ->
  writeStoredValue p k data b = (Some tt, put_local <[k := stored_text_for data]> b).
Proof.
  intros (Hl & _ & Ha & _). by apply write_accepted.
Qed.

Lemma read_works p k data b : works p -> storable data -> local b !! k = Some (stored_text_for data) ->
  readStoredValue p k b = (Some (Some (envelope data)), b).
Proof.
  intros (Hl & _) Hd Hb. destruct (stored_text_parse data Hd) as (Hp & Hne).
  unfold readStoredValue, local_getItem, when_available, io_bind, io_ret, io_gets. by rewrite Hl, Hb, Hne, Hp.
Qed.

(** ** Configuration *)

Lemma config_saved p c b : works p -> config_numbers c ->
  saveConfig p c b
  = (Some tt,
     (if nonempty (default [] (s_clientKey c))
      then put_session <[CLIENT_KEY := default [] (s_clientKey c)]> else put_session (delete CLIENT_KEY))
       (put_local <[CONFIG_KEY := stored_text_for (persisted_value c)]> b)).
Proof.
  intros Hp Hc. unfold saveConfig, config_value. rewrite config_back_fields by done.
  unfold io_catch, io_bind at 1, or_throw, io_ret at 1. unfold io_bind at 1. rewrite write_works by done.
  destruct Hp as (_ & Hs & _ & Ha). unfold writeSessionClientKey, session_setItem, session_removeItem, when_available.
  rewrite Hs. cbn [with_client_key s_clientKey andb].
  destruct (s_clientKey c) as [k|]; cbn [default from_option Datatypes.id nonempty]; [|done].
  destruct k as [|x k]; cbn [nonempty]; [done|]. unfold io_catch, io_bind, io_ret, io_modify. by rewrite Ha.
Qed.

Lemma all_fields_over c d : config_over d (all_fields c) = c.
Proof. by destruct c. Qed.

Lemma load_read p c b : works p -> config_numbers c ->
  local b !! CONFIG_KEY = Some (stored_text_for (persisted_value c)) ->
  loadConfig p b = (Some (with_client_key c (Some (default [] (session b !! CLIENT_KEY)))), b).
Proof.
  intros Hp Hc Hb. unfold loadConfig, io_catch, io_bind at 1.
  rewrite (read_works p CONFIG_KEY (persisted_value c) b Hp (storable_persisted c Hc) Hb).
  unfold if_truthy. change (truthy (envelope (persisted_value c))) with true. cbv iota.
  rewrite unwrap_envelope. unfold persisted_value. rewrite config_back_fields by done.
  unfold or_throw, io_bind, io_ret. cbn [with_client_key s_clientKey default from_option Datatypes.id nonempty].
  unfold readSessionClientKey, io_catch, session_getItem, when_available, io_bind, io_ret, io_gets.
  destruct Hp as (_ & Hs & _). by rewrite Hs.
Qed.

Lemma saved_parts p c b : works p -> config_numbers c ->
  local (saveConfig p c b).2 !! CONFIG_KEY = Some (stored_text_for (persisted_value c))
  /\ default [] (session (saveConfig p c b).2 !! CLIENT_KEY) = default [] (s_clientKey c).
Proof.
  intros Hp Hc. rewrite config_saved by done. cbn [snd]. generalize (stored_text_for (persisted_value c)) as t.
  intros t. destruct (default [] (s_clientKey c)) as [|x k]; unfold put_session, put_local; cbn [nonempty local session].
  - by rewrite lookup_insert_eq, lookup_delete_eq.
  - by rewrite !lookup_insert_eq.
Qed.

(** A configuration that is saved is the one that the next visit starts with, client
    key included. *)
Theorem config_restored p c b : works p -> config_numbers (all_fields c) ->
  let saved := (saveConfig p (all_fields c) b).2 in
  getInitialPlaygroundConfig p saved = (Some c, saved).
Proof.
  intros Hp Hc. destruct (saved_parts p (all_fields c) b Hp Hc) as (Hlocal & Hsession). revert Hlocal Hsession.
  generalize (saveConfig p (all_fields c) b).2 as saved. intros saved Hlocal Hsession. cbv zeta.
  unfold getInitialPlaygroundConfig, io_bind. rewrite (load_read p (all_fields c) saved) by done.
  unfold io_ret. rewrite Hsession. do 2 f_equal. by destruct c.
Qed.

(** ** The client key stays out of [localStorage] *)

(** A text that holds a configuration without a client key. *)
Definition keyless (t : jsstr) : Prop := exists c, t = stored_text_for (persisted_value c).

(** The client key that the stored text still holds. *)
Definition stored_key (t : jsstr) : option jsstr :=
  match json_parse t with
  | Some v =>
      if truthy v then
        match playgroundConfigSchema (unwrapStoredValue v) with
        | Some c => if nonempty (default [] (s_clientKey c)) then s_clientKey c else None
        | None => None
        end
      else None
  | None => None
  end.

(** A write of the configuration may fail. *)
Definition may_refuse (p : platform) : Prop :=
  local_available p = false \/ exists t, local_accepts p CONFIG_KEY t = false.

(** What an operation may do to the stored configuration. *)
Definition writes_keyless {A} (m : io browser A) : Prop := forall b a b', m b = (a, b') ->
  local b' !! CONFIG_KEY = local b !! CONFIG_KEY
  \/ local b' !! CONFIG_KEY = None \/ exists t, local b' !! CONFIG_KEY = Some t /\ keyless t.

Lemma keyless_ret {A} (a : A) : writes_keyless (io_ret a).
Proof. intros b a' b' [= <- <-]. by left. Qed.

Lemma keyless_throw {A} : writes_keyless (@io_throw browser A).
Proof. intros b a' b' [= <- <-]. by left. Qed.

Lemma keyless_gets {A} (f : browser -> A) : writes_keyless (io_gets f).
Proof. intros b a' b' [= <- <-]. by left. Qed.

Lemma keyless_or_throw {A} (o : option A) : writes_keyless (or_throw o).
Proof. destruct o; [apply keyless_ret|apply keyless_throw]. Qed.

Lemma keyless_session f : writes_keyless (io_modify (put_session f)).
Proof. intros b a' b' [= <- <-]. by left. Qed.

Lemma keyless_bind {A B} (m : io browser A) (k : A -> io browser B) :
  writes_keyless m -> (forall a, writes_keyless (k a)) -> writes_keyless (io_bind m k).
Proof.
  intros Hm Hk b a b'. unfold io_bind. destruct (m b) as [[x|] b1] eqn:H1.
  - intros H2. destruct (Hm _ _ _ H1) as [Heq|H], (Hk x _ _ _ H2) as [Heq'|H']; rewrite ?Heq', ?Heq; auto.
  - intros [= <- <-]. by apply (Hm b None).
Qed.

Lemma keyless_catch {A} (m h : io browser A) : writes_keyless m -> writes_keyless h -> writes_keyless (io_catch m h).
Proof.
  intros Hm Hh b a b'. unfold io_catch. destruct (m b) as [[x|] b1] eqn:H1.
  - intros [= <- <-]. by apply (Hm b (Some x)).
  - intros H2. destruct (Hm _ _ _ H1) as [Heq|H], (Hh _ _ _ H2) as [Heq'|H']; rewrite ?Heq', ?Heq; auto.
Qed.

Create HintDb keyless discriminated.
#[local] Hint Resolve keyless_ret keyless_throw keyless_gets keyless_or_throw keyless_session : keyless.
#[local] Hint Extern 1 (writes_keyless (io_bind _ _)) => apply keyless_bind; [|intros ?] : keyless.
#[local] Hint Extern 1 (writes_keyless (io_catch _ _)) => apply keyless_catch : keyless.
#[local] Hint Extern 2 (writes_keyless (match ?x with _ => _ end)) => destruct x : keyless.
#[local] Hint Extern 2 (writes_keyless (when_available _)) => unfold when_available : keyless.

Lemma keyless_local f : (forall m : gmap jsstr jsstr, f m !! CONFIG_KEY = m !! CONFIG_KEY) ->
  writes_keyless (io_modify (put_local f)).
Proof. intros Hf b a' b' [= <- <-]. left. apply Hf. Qed.

Lemma CONFIG_KEY_other (k : jsstr) : str_eqb k CONFIG_KEY = false -> k <> CONFIG_KEY.
Proof. by intros H%str_eqb_neq. Qed.

Lemma keyless_write_other p k data : str_eqb k CONFIG_KEY = false -> writes_keyless (writeStoredValue p k data).
Proof.
  intros Hk%CONFIG_KEY_other. unfold writeStoredValue, local_setItem. apply keyless_bind; [auto with keyless|].
  intros _. apply keyless_local. intros m. by apply lookup_insert_ne.
Qed.

Lemma keyless_set t : keyless t -> writes_keyless (io_modify (put_local <[CONFIG_KEY := t]>)).
Proof.
  intros Ht b a' b' [= <- <-]. right. right. exists t. split; [apply lookup_insert_eq|done].
Qed.

Lemma keyless_write_config p c : writes_keyless (writeStoredValue p CONFIG_KEY (persisted_value c)).
Proof.
  unfold writeStoredValue, local_setItem. apply keyless_bind; [auto with keyless|].
  intros _. apply keyless_set. by exists c.
Qed.

Lemma keyless_remove p k : writes_keyless (local_removeItem p k).
Proof.
  unfold local_removeItem. apply keyless_bind; [auto with keyless|]. intros _ b a' b' [= <- <-]. cbn [put_local local].
  destruct (decide (k = CONFIG_KEY)) as [->|Hk]; [right; left; apply lookup_delete_eq|left; by apply lookup_delete_ne].
Qed.

Lemma keyless_read p k : writes_keyless (readStoredValue p k).
Proof. unfold readStoredValue, local_getItem. auto 10 with keyless. Qed.

Lemma keyless_saveConfig p c : writes_keyless (saveConfig p c).
Proof.
  unfold saveConfig. apply keyless_catch; [|auto with keyless]. apply keyless_bind; [auto with keyless|].
  intros parsed. apply keyless_bind; [apply keyless_write_config|]. intros _.
  unfold writeSessionClientKey, session_setItem, session_removeItem. auto 10 with keyless.
Qed.

Lemma keyless_loadConfig p : writes_keyless (loadConfig p).
Proof.
  unfold loadConfig. apply keyless_catch; [|auto with keyless]. apply keyless_bind; [apply keyless_read|].
  intros saved. apply keyless_bind; [unfold if_truthy; auto 10 with keyless|]. intros parsed.
  apply keyless_bind; [destruct (nonempty _); [apply keyless_write_config|auto with keyless]|]. intros _.
  apply keyless_bind; [unfold readSessionClientKey, session_getItem; auto 10 with keyless|auto with keyless].
Qed.

Lemma keyless_loadParameters p : writes_keyless (loadParameterEnabled p).
Proof.
  unfold loadParameterEnabled. apply keyless_catch; [|auto with keyless]. apply keyless_bind; [apply keyless_read|].
  intros saved. unfold if_truthy. auto 10 with keyless.
Qed.

Lemma keyless_saveParameters p ps : writes_keyless (saveParameterEnabled p ps).
Proof.
  unfold saveParameterEnabled. apply keyless_catch; [|auto with keyless]. apply keyless_bind; [auto with keyless|].
  intros parsed. by apply keyless_write_other.
Qed.

Lemma keyless_saveMessages p ms : writes_keyless (saveMessages p ms).
Proof.
  unfold saveMessages. apply keyless_catch; [|auto with keyless]. apply keyless_bind; [auto with keyless|].
  intros parsed. by apply keyless_write_other.
Qed.

Lemma keyless_loadMessages p t now at_ : writes_keyless (loadMessages p t now at_).
Proof.
  unfold loadMessages. apply keyless_catch; [|auto with keyless]. apply keyless_bind.
  - unfold readStoredMessagesValue, local_getItem. apply keyless_bind; [auto 10 with keyless|].
    intros [s|]; [|auto with keyless]. destruct (nonempty s); [|auto with keyless].
    destruct (_ <? _)%N; [|auto with keyless]. apply keyless_bind; [apply keyless_remove|auto with keyless].
  - intros saved. unfold if_truthy. destruct saved as [v|]; [|auto with keyless].
    destruct (truthy v); [|auto with keyless]. apply keyless_bind; [auto with keyless|]. intros parsed.
    apply keyless_bind; [apply keyless_saveMessages|auto with keyless].
Qed.

(** Reading the session's key never fails and changes nothing. *)
Lemma session_read p b : exists x, readSessionClientKey p b = (Some x, b).
Proof.
  unfold readSessionClientKey, io_catch, session_getItem, when_available, io_bind, io_ret, io_throw, io_gets.
  destruct (session_available p); by eexists.
Qed.

(** After the first load the stored text is as written by the program, or the one that
    was there and holds no key that could be moved. *)
Lemma first_load_keyless p b t : local (loadConfig p b).2 !! CONFIG_KEY = Some t ->
  keyless t \/ (local b !! CONFIG_KEY = Some t /\ (stored_key t = None \/ may_refuse p)).
Proof.
  intros Ht. destruct (local_available p) eqn:Hav.
  2: { right. assert (Hb : (loadConfig p b).2 = b).
       { unfold loadConfig, io_catch, io_bind at 1, readStoredValue, local_getItem, when_available, io_bind.
         by rewrite Hav. }
       rewrite Hb in Ht. split; [done|]. right. by left. }
  destruct (loadConfig p b) as [o b'] eqn:Hload. cbn [snd] in Ht.
  destruct (keyless_loadConfig p b o b' Hload) as [Heq|[Hnone|(t' & Ht' & Hk)]]; [|congruence|left; congruence].
  rewrite Heq in Ht. destruct (stored_key t) as [k|] eqn:Hkey; [|by right; auto].
  unfold stored_key in Hkey. destruct (json_parse t) as [v|] eqn:Hv; [|done]. destruct (truthy v) eqn:Htr; [|done].
  destruct (playgroundConfigSchema _) as [c|] eqn:Hc; [|done]. destruct (nonempty _) eqn:Hne; [|done].
  destruct (local_accepts p CONFIG_KEY (stored_text_for (persisted_value c))) eqn:Hacc.
  2: { right. split; [done|]. right. right. by eexists. }
  left. assert (Hb' : local b' !! CONFIG_KEY = Some (stored_text_for (persisted_value c))).
  { revert Hload. unfold loadConfig, io_catch, io_bind at 1, readStoredValue, local_getItem, when_available,
      io_bind at 1 2, io_ret, io_gets. rewrite Hav, Ht, (json_parse_nonempty t v Hv), Hv.
    unfold or_throw at 1, io_bind at 1 2. unfold if_truthy, io_ret. rewrite Htr, Hc. unfold or_throw, io_bind at 1, io_ret.
    rewrite Hne, (write_accepted p CONFIG_KEY _ b Hav Hacc).
    generalize (stored_text_for (persisted_value c)) as written. intros written.
    destruct (session_read p (put_local <[CONFIG_KEY:=written]> b)) as (x & Hx).
    unfold io_bind. rewrite Hx. intros [= _ <-]. apply lookup_insert_eq. }
  exists c. congruence.
Qed.

Section Key_free.
Context (p : platform) (t : jsstr -> jsstr) (old : browser).

(** What a stored text under the key of the configuration may be. *)
Definition key_free (o : option jsstr) : Prop := forall text, o = Some text ->
  keyless text \/ (local old !! CONFIG_KEY = Some text /\ (stored_key text = None \/ may_refuse p)).

Lemma key_free_op {A} (m : io browser A) b : writes_keyless m ->
  key_free (local b !! CONFIG_KEY) -> key_free (local (m b).2 !! CONFIG_KEY).
Proof.
  intros Hm Hb. destruct (m b) as [a b'] eqn:H. cbn [snd].
  destruct (Hm b a b' H) as [->|[->|(text & -> & Hk)]]; [done|done|]. intros text' [= <-]. by left.
Qed.

Lemma key_free_run {A} (m : io browser A) s : writes_keyless m ->
  key_free (local (store s) !! CONFIG_KEY) -> key_free (local (store (run_store m s).2) !! CONFIG_KEY).
Proof.
  intros Hm Hs. pose proof (key_free_op m (store s) Hm Hs) as H. unfold run_store. by destruct (m (store s)).
Qed.

Lemma key_free_save s : key_free (local (store s) !! CONFIG_KEY) ->
  key_free (local (store (save_latest p s)) !! CONFIG_KEY).
Proof.
  intros Hs. unfold save_latest. destruct (messagesSaveTimer s); [|done].
  by apply key_free_run; [apply keyless_saveMessages|].
Qed.

Lemma key_free_step s e : key_free (local (store s) !! CONFIG_KEY) ->
  key_free (local (store (hook_step p t s e)) !! CONFIG_KEY).
Proof.
  intros Hs.
  assert (Hload : forall now at_, key_free (local (store (load_timer p t now at_ s)) !! CONFIG_KEY)).
  { intros now at_. unfold load_timer. destruct (negb _); [done|].
    pose proof (key_free_run (loadMessages p t now at_) s (keyless_loadMessages p t now at_) Hs) as H.
    destruct (run_store _ s) as [loaded s']. cbn [snd] in H. by destruct (unmounted s'). }
  unfold hook_step. destruct (unmounted s); [by destruct e|]. destruct e as [now at_|f| |f|f| |]; [done|done|..].
  - by apply key_free_save.
  - unfold updateConfig. cbn [store with_settings]. by apply key_free_run; [apply keyless_saveConfig|].
  - unfold updateParameterEnabled. cbn [store with_settings]. by apply key_free_run; [apply keyless_saveParameters|].
  - unfold resetConfig. apply key_free_run; [apply keyless_saveParameters|].
    by apply key_free_run; [apply keyless_saveConfig|].
  - unfold unmount. cbn [store]. by apply key_free_save.
Qed.

Lemma key_free_initial : key_free (local (store (initial_hook p old)) !! CONFIG_KEY).
Proof.
  assert (H : key_free (local (loadConfig p old).2 !! CONFIG_KEY)) by (intros text; apply first_load_keyless).
  unfold initial_hook, getInitialPlaygroundConfig, io_bind at 1.
  destruct (loadConfig p old) as [[c|] b]; cbn [snd] in H; unfold io_ret;
    (unfold getInitialParameterEnabled, io_bind at 1;
     pose proof (key_free_op (loadParameterEnabled p) b (keyless_loadParameters p) H) as H';
     destruct (loadParameterEnabled p b) as [[ps|] b']; exact H').
Qed.
End Key_free.

(** C25. Whatever the user does, the configuration in [localStorage] has no client key: it
    is what the program writes, without one, or a text from before that holds none
    that could be moved. *)
Theorem client_key_stays_in_session p t old es text :
  local (store (fold_left (hook_step p t) es (initial_hook p old))) !! CONFIG_KEY = Some text ->
  keyless text \/ (local old !! CONFIG_KEY = Some text /\ (stored_key text = None \/ may_refuse p)).
Proof.
  assert (Hall : forall s, key_free p old (local (store s) !! CONFIG_KEY) ->
            key_free p old (local (store (fold_left (hook_step p t) es s)) !! CONFIG_KEY)).
  { induction es as [|e es IH]; intros s Hs; [done|]. cbn [fold_left]. by apply IH, key_free_step. }
  apply Hall, key_free_initial.
Qed.

(** ** Messages *)

Definition total_size (ms : list Message) : N := fold_right (fun m n => getMessageSize m + n)%N 0%N ms.

Lemma total_size_cons m ms : total_size (m :: ms) = (getMessageSize m + total_size ms)%N.
Proof. done. Qed.

(** The loop keeps the newest messages while they fit, but always one. *)
Lemma trim_loop_spec newest_first : forall result,
  exists older newer,
    newest_first = newer ++ older
    /\ trim_loop newest_first (total_size result) result = rev newer ++ result
    /\ ((length (newer ++ result) <= 1)%nat \/ (length newer = 0)%nat
        \/ (total_size (rev newer ++ result) <= MAX_LOADED_MESSAGES_CHARS)%N)
    /\ (newer = [] -> older = [] \/ (0 < length result)%nat)
    /\ match older with
       | [] => True
       | m :: _ => (MAX_LOADED_MESSAGES_CHARS < total_size (m :: rev newer ++ result))%N
       end.
Proof.
  induction newest_first as [|m ms IH]; intros result.
  - exists [], []. split_and!; cbn; auto.
  - cbn [trim_loop]. destruct (negb (length result =? 0)%nat && _) eqn:Hfull.
    + apply andb_prop in Hfull as [Hne%negb_true_iff%Nat.eqb_neq Hbig%N.ltb_lt].
      exists (m :: ms), []. split_and!; cbn [rev app length]; auto; [intros _; right; lia|].
      rewrite total_size_cons. lia.
    + replace (total_size result + getMessageSize m)%N with (total_size (m :: result)) by (rewrite total_size_cons; lia).
      destruct (IH (m :: result)) as (older & newer & -> & -> & Hfit & _ & Hnext).
      exists older, (m :: newer). cbn [rev]. rewrite <- app_assoc. cbn [app].
      split_and!; [done|done| |done|done].
      destruct Hfit as [Hone|[Hnone|Hfit]]; [left|..|by right; right].
      * cbn [length] in *. rewrite length_app in *. cbn [length] in *. lia.
      * destruct newer; [|done]. cbn [rev app length].
        apply andb_false_iff in Hfull as [Hempty%negb_false_iff%Nat.eqb_eq|Hfits%N.ltb_ge].
        -- left. lia.
        -- right. right. cbn [rev app]. rewrite total_size_cons. lia.
Qed.

Lemma trim_by_size ms :
  exists older newer,
    ms = older ++ newer /\ trimMessagesByContentSize ms = newer
    /\ (newer = [] -> older = [])
    /\ ((length newer <= 1)%nat \/ (total_size newer <= MAX_LOADED_MESSAGES_CHARS)%N)
    /\ match last older with
       | None => True
       | Some m => (MAX_LOADED_MESSAGES_CHARS < total_size (m :: newer))%N
       end.
Proof.
  destruct (trim_loop_spec (rev ms) []) as (older & newer & Hms & Hloop & Hfit & Hone & Hnext).
  exists (rev older), (rev newer). rewrite ?app_nil_r in Hloop, Hfit, Hnext.
  assert (Hall : ms = rev older ++ rev newer) by (rewrite <- rev_app_distr, <- Hms; by rewrite rev_involutive).
  split_and!; [done|exact Hloop|..].
  - intros Hnil. destruct newer as [|x newer]; [|by apply (f_equal length) in Hnil; rewrite length_rev in Hnil].
    destruct (Hone eq_refl) as [->|Hbad]; [done|cbn in Hbad; lia].
  - rewrite length_rev. destruct Hfit as [Hf|[Hf|Hf]]; [left; lia|left; lia|]. right. by rewrite app_nil_r in Hf.
  - destruct older as [|m older]; [done|]. cbn [rev]. by rewrite last_snoc.
Qed.

Lemma trimMessages_drop ms : exists older newer,
  ms = older ++ newer /\ trimMessages ms = newer /\ (length newer <= MAX_STORED_MESSAGES)%nat
  /\ (older = [] \/ length newer = MAX_STORED_MESSAGES).
Proof.
  unfold trimMessages, last_n. destruct (Nat.leb_spec (length ms) MAX_STORED_MESSAGES).
  - exists [], ms. auto.
  - exists (take (length ms - MAX_STORED_MESSAGES) ms), (drop (length ms - MAX_STORED_MESSAGES) ms).
    rewrite take_drop, length_drop. split_and!; [done|done|lia|right; lia].
Qed.

(** The messages shown after a reload are the most recent ones: at most a hundred, as
    many as fit the limit of their sizes but at least the last; and of these only
    the last pending one is brought to an end. *)
Theorem loaded_messages_recent t now at_ parsed :
  let normalized := imap (fun i m => default m (normalizeStoredMessageForLoad (now i) m)) parsed in
  exists older kept,
    normalized = older ++ kept
    /\ (kept = [] -> parsed = [])
    /\ (length kept <= MAX_STORED_MESSAGES)%nat
    /\ ((length kept <= 1)%nat \/ (total_size kept <= MAX_LOADED_MESSAGES_CHARS)%N)
    /\ match last older with
       | None => True
       | Some m => length kept = MAX_STORED_MESSAGES \/ (MAX_LOADED_MESSAGES_CHARS < total_size (m :: kept))%N
       end
    /\ loaded_messages t now at_ parsed
       = sanitizeMessagesOnLoad t kept (started_at at_) (reasoned_at at_) (completed_at at_).
Proof.
  intros normalized.
  destruct (trimMessages_drop normalized) as (o1 & n1 & H1 & Ht & Hlen & Ho).
  destruct (trim_by_size n1) as (o2 & n2 & H2 & Hs & Hnil & Hsize & Hnext).
  exists (o1 ++ o2), n2. rewrite H1, H2, app_assoc. split_and!; [done|..|done| |].
  - intros ->. specialize (Hnil eq_refl). subst o2 n1.
    rewrite H2 in Ho, H1. destruct Ho as [->|Ho]; [|by unfold MAX_STORED_MESSAGES in Ho].
    assert (Hn : length normalized = 0%nat) by by rewrite H1. unfold normalized in Hn. rewrite length_imap in Hn.
    by destruct parsed.
  - rewrite H2, length_app in Hlen. lia.
  - destruct o2 as [|m o2]; [|].
    2: { rewrite last_app. destruct (last (m :: o2)) as [x|] eqn:Hl; [by right|by apply last_None in Hl]. }
    rewrite app_nil_r. cbn [app] in H2. subst n2. destruct Ho as [->|Ho]; [done|]. destruct (last o1); [by left|done].
  - unfold loaded_messages. fold normalized. by rewrite Ht, Hs.
Qed.

Lemma total_size_app a b : total_size (a ++ b) = (total_size a + total_size b)%N.
Proof. induction a as [|m a IH]; cbn [app]; [done|]. rewrite !total_size_cons, IH. lia. Qed.

Lemma trim_by_size_all ms : (total_size ms <= MAX_LOADED_MESSAGES_CHARS)%N -> trimMessagesByContentSize ms = ms.
Proof.
  intros Hfit. destruct (trim_by_size ms) as (older & newer & Hms & -> & _ & _ & Hnext).
  destruct (last older) as [m|] eqn:Hl; [|by apply last_None in Hl; subst older]. exfalso.
  apply last_Some in Hl as (front & ->). rewrite Hms, !total_size_app in Hfit. rewrite total_size_cons in Hnext.
  change (total_size [m]) with (getMessageSize m + 0)%N in Hfit. lia.
Qed.

(** A finished message that loading leaves alone. *)
Definition quiet (m : Message) : bool :=
  negb (isAssistantMessagePending m) && negb (existsb version_changes (versions m) || reasoning_changes m).

Lemma quiet_normal now m : quiet m = true -> normalizeStoredMessageForLoad now m = None.
Proof.
  unfold quiet, normalizeStoredMessageForLoad. intros [Hp Hc%negb_true_iff]%andb_prop. rewrite Hc. cbv zeta iota.
  by rewrite Hp.
Qed.

Lemma no_pending ms : Forall (fun m => isAssistantMessagePending m = false) ms -> last_pending ms = None.
Proof.
  induction 1 as [|m ms Hm _ IH]; [done|]. cbn [last_pending]. rewrite IH. unfold isPendingAssistantMessage.
  by rewrite Hm, andb_false_r.
Qed.

Lemma loaded_quiet t now at_ ms : Forall (fun m => quiet m = true) ms -> (length ms <= MAX_STORED_MESSAGES)%nat ->
  (total_size ms <= MAX_LOADED_MESSAGES_CHARS)%N -> loaded_messages t now at_ ms = ms.
Proof.
  intros Hq Hlen Hsize. unfold loaded_messages.
  assert (Hn : imap (fun i m => default m (normalizeStoredMessageForLoad (now i) m)) ms = ms).
  { clear Hlen Hsize. revert now. induction Hq as [|m ms Hm _ IH]; intros now; [done|]. cbn [imap].
    rewrite quiet_normal by done. cbn [default from_option Datatypes.id]. f_equal. apply (IH (now ∘ S)). }
  rewrite Hn. unfold trimMessages. rewrite (proj2 (Nat.leb_le _ _) Hlen), trim_by_size_all by done.
  unfold sanitizeMessagesOnLoad. rewrite no_pending; [done|]. eapply Forall_impl; [exact Hq|].
  intros m [Hp%negb_true_iff _]%andb_prop. exact Hp.
Qed.

(** What saving writes. *)
Lemma messages_saved p ms b : works p -> Forall message_numbers ms -> Forall (fun m => versions m <> []) ms ->
  (length ms <= MAX_STORED_MESSAGES)%nat ->
  saveMessages p ms b = (Some tt, put_local <[MESSAGES_KEY := stored_text_for (messages_value ms)]> b).
Proof.
  intros Hp Hn Hv Hlen. unfold saveMessages, trimMessages. rewrite (proj2 (Nat.leb_le _ _) Hlen).
  rewrite messages_back by done. unfold io_catch, io_bind, or_throw, io_ret. by rewrite write_works.
Qed.


(** ** Every change is saved *)

(** The text that saving messages writes; [None] when it writes nothing. *)
Definition message_text (p : platform) (ms : list Message) : option jsstr :=
  match messagesSchema (messages_value (trimMessages ms)) with
  | Some parsed =>
      let text := stored_text_for (messages_value parsed) in
      if local_available p && local_accepts p MESSAGES_KEY text then Some text else None
  | None => None
  end.

(** The store holds the messages, as far as the platform can store them. *)
Definition holds (p : platform) (ms : list Message) (b : browser) : Prop :=
  forall text, message_text p ms = Some text -> local b !! MESSAGES_KEY = Some text.

Lemma saveMessages_spec p ms b :
  saveMessages p ms b
  = (Some tt, match message_text p ms with Some text => put_local <[MESSAGES_KEY := text]> b | None => b end).
Proof.
  unfold saveMessages, message_text, io_catch, io_bind at 1, or_throw. destruct (messagesSchema _) as [parsed|]; [|done].
  unfold io_ret at 1. change (writeStoredValue p MESSAGES_KEY (messages_value parsed) b)
    with (local_setItem p MESSAGES_KEY (stored_text_for (messages_value parsed)) b).
  generalize (stored_text_for (messages_value parsed)) as text. intros text. cbv zeta.
  unfold local_setItem, when_available. by destruct (_ && _).
Qed.

Lemma saved_holds p ms b : holds p ms (saveMessages p ms b).2.
Proof. intros text Ht. rewrite saveMessages_spec, Ht. apply lookup_insert_eq. Qed.

(** Operations on other keys. *)
Definition keeps_messages {A} (m : io browser A) : Prop :=
  forall b, local (m b).2 !! MESSAGES_KEY = local b !! MESSAGES_KEY.

Lemma messages_kept_bind {A B} (m : io browser A) (k : A -> io browser B) :
  keeps_messages m -> (forall a, keeps_messages (k a)) -> keeps_messages (io_bind m k).
Proof.
  intros Hm Hk b. specialize (Hm b). unfold io_bind. destruct (m b) as [[x|] b1]; cbn [snd] in *; [|done].
  by rewrite (Hk x b1).
Qed.

Lemma keeps_catch {A} (m h : io browser A) : keeps_messages m -> keeps_messages h -> keeps_messages (io_catch m h).
Proof.
  intros Hm Hh b. specialize (Hm b). unfold io_catch. destruct (m b) as [[x|] b1]; cbn [snd] in *; [done|].
  by rewrite (Hh b1).
Qed.

Lemma keeps_write p k data : str_eqb k MESSAGES_KEY = false -> keeps_messages (writeStoredValue p k data).
Proof.
  intros Hk%str_eqb_neq. unfold writeStoredValue, local_setItem, when_available. apply messages_kept_bind.
  - by destruct (_ && _).
  - intros _ b. by apply lookup_insert_ne.
Qed.

Lemma keeps_saveConfig p c : keeps_messages (saveConfig p c).
Proof.
  unfold saveConfig. apply keeps_catch; [|done]. apply messages_kept_bind; [by intros b; unfold or_throw; destruct (playgroundConfigSchema _)|].
  intros parsed. apply messages_kept_bind; [by apply keeps_write|]. intros _ b.
  unfold writeSessionClientKey, session_setItem, session_removeItem, when_available, io_catch, io_bind.
  destruct (s_clientKey parsed) as [k|]; [destruct (nonempty k)|];
    [destruct (session_available p && session_accepts p CLIENT_KEY k)|destruct (session_available p)..]; done.
Qed.

Lemma keeps_saveParameters p ps : keeps_messages (saveParameterEnabled p ps).
Proof.
  unfold saveParameterEnabled. apply keeps_catch; [|done]. apply messages_kept_bind; [by intros b; unfold or_throw; destruct (parameterEnabledSchema _)|].
  intros parsed. by apply keeps_write.
Qed.

Section Saving.
Context (p : platform) (t : jsstr -> jsstr).

(** After loading: the latest messages are those shown, and they wait for the timer or
    are in the store. *)
Definition saved_or_waiting (s : hook_state) : Prop :=
  loading_timer s = false /\ latestMessages s = messages s
  /\ ((messagesSaveTimer s = true /\ unmounted s = false) \/ holds p (messages s) (store s)).

Lemma run_store_fields {A} (m : io browser A) s :
  (run_store m s).2
  = {| config := config s; parameterEnabled := parameterEnabled s; messages := messages s;
       isLoadingMessages := isLoadingMessages s; latestMessages := latestMessages s;
       hasLoadedMessages := hasLoadedMessages s; loading_timer := loading_timer s;
       messagesSaveTimer := messagesSaveTimer s; unmounted := unmounted s; store := (m (store s)).2 |}.
Proof. unfold run_store. by destruct (m (store s)). Qed.

Lemma holds_kept {A} (m : io browser A) ms b : keeps_messages m -> holds p ms b -> holds p ms (m b).2.
Proof. intros Hm Hb text Ht. rewrite Hm. by apply Hb. Qed.

Lemma saved_step s e : hasLoadedMessages s = true -> saved_or_waiting s ->
  hasLoadedMessages (hook_step p t s e) = true /\ saved_or_waiting (hook_step p t s e).
Proof.
  intros Hloaded (Htimer & Hlatest & Hsaved).
  assert (Hload : forall now at_, load_timer p t now at_ s = s) by (intros; unfold load_timer; by rewrite Htimer).
  assert (Hsave : let s' := save_latest p s in
            hasLoadedMessages s' = true /\ loading_timer s' = false /\ latestMessages s' = messages s'
            /\ holds p (messages s') (store s')).
  { unfold save_latest. destruct (messagesSaveTimer s) eqn:Hm; cbv zeta.
    - rewrite run_store_fields. cbn. rewrite Hlatest. split_and!; try done. apply saved_holds.
    - by destruct Hsaved as [[Hbad _]|Hsaved]. }
  unfold saved_or_waiting. unfold hook_step. destruct (unmounted s) eqn:Hu.
  { assert (Hs : holds p (messages s) (store s)) by by destruct Hsaved as [[_ Hbad]|Hs].
    destruct e; rewrite ?Hload; split_and!; auto. }
  destruct e as [now at_|f| |f|f| |].
  - rewrite Hload. by rewrite Hu.
  - unfold update_messages. cbn. rewrite Hloaded, Hu. split_and!; auto.
  - destruct Hsave as (H1 & H2 & H3 & H4). auto.
  - unfold updateConfig. rewrite run_store_fields. cbn. rewrite Hu.
    split_and!; try done. destruct Hsaved as [[Hm _]|Hs]; [by left|right]. by apply holds_kept; [apply keeps_saveConfig|].
  - unfold updateParameterEnabled. rewrite run_store_fields. cbn. rewrite Hu.
    split_and!; try done. destruct Hsaved as [[Hm _]|Hs]; [by left|right]. by apply holds_kept; [apply keeps_saveParameters|].
  - unfold resetConfig. rewrite !run_store_fields. cbn [hasLoadedMessages loading_timer latestMessages messages
      messagesSaveTimer unmounted store with_settings]. rewrite Hu.
    split_and!; try done. destruct Hsaved as [[Hm _]|Hs]; [by left|right].
    apply holds_kept; [apply keeps_saveParameters|]. by apply holds_kept; [apply keeps_saveConfig|].
  - destruct Hsave as (H1 & H2 & H3 & H4). unfold unmount. cbn. auto.
Qed.

(** Loading happens once. *)
Lemma loaded_once es : forall s, (hasLoadedMessages s = true -> loading_timer s = false) ->
  let s' := fold_left (hook_step p t) es s in hasLoadedMessages s' = true -> loading_timer s' = false.
Proof.
  induction es as [|e es IH]; intros s Hs; [done|]. cbn [fold_left]. apply IH. unfold hook_step, load_timer.
  assert (Hsl : hasLoadedMessages (save_latest p s) = hasLoadedMessages s /\ loading_timer (save_latest p s) = loading_timer s).
  { unfold save_latest. destruct (messagesSaveTimer s); [|done]. by rewrite run_store_fields. }
  destruct Hsl as [Hl1 Hl2].
  destruct (unmounted s) eqn:Hu, e; try done; unfold updateConfig, updateParameterEnabled, resetConfig, unmount;
    rewrite ?run_store_fields; cbn [hasLoadedMessages loading_timer with_settings]; rewrite ?Hl1, ?Hl2; try done;
    destruct (negb (loading_timer s)); try done; destruct (run_store _ s) as [loaded s']; by destruct (unmounted s').
Qed.
End Saving.

(** C27. A change made after the messages were loaded waits for the timer or is in the
    store, whatever happens next; so it is in the store once the timer fired or the
    component is gone. *)
Theorem changes_are_saved p t b before updater after :
  let s := fold_left (hook_step p t) before (initial_hook p b) in
  hasLoadedMessages s = true -> unmounted s = false ->
  let s' := fold_left (hook_step p t) (UpdateMessages updater :: after) s in
  (messagesSaveTimer s' = true /\ unmounted s' = false /\ latestMessages s' = messages s')
  \/ holds p (messages s') (store s').
Proof.
  intros s Hloaded Hu. cbn [fold_left].
  assert (Htimer : loading_timer s = false).
  { apply (loaded_once p t before (initial_hook p b)); [|done]. unfold initial_hook.
    destruct (getInitialPlaygroundConfig p b) as [c b1]. by destruct (getInitialParameterEnabled p b1). }
  assert (Hstart : hasLoadedMessages (hook_step p t s (UpdateMessages updater)) = true
                   /\ saved_or_waiting p (hook_step p t s (UpdateMessages updater))).
  { unfold hook_step. rewrite Hu. unfold update_messages, saved_or_waiting. cbn. rewrite Hloaded, Hu. split_and!; auto. }
  revert Hstart. generalize (hook_step p t s (UpdateMessages updater)) as s1. clear.
  induction after as [|e after IH]; intros s1 (Hl & Hs).
  - destruct Hs as (_ & Hlatest & [[Hm Hu]|Hs]); cbn [fold_left]; [left|right]; auto.
  - cbn [fold_left]. apply IH. by apply saved_step.
Qed.

(** ** Examples *)

Definition sample_platform : platform := {|
  local_available := true; session_available := true; local_accepts := fun _ _ => true;
  session_accepts := fun _ _ => true |}.

Lemma sample_works : works sample_platform.
Proof. done. Qed.

Definition untranslated (s : jsstr) : jsstr := s.

Definition empty_browser : browser := {| local := ∅; session := ∅ |}.

Definition sample_config : PlaygroundConfig := {|
  model := js "m"; clientKey := js "pbr-key"; temperature := ndiv (num_of_Z 7) (num_of_Z 10);
  top_p := num_of_Z 1; max_tokens := num_of_Z 4096; frequency_penalty := zero; presence_penalty := zero;
  seed := Some (num_of_Z 7); stream := true |}.

Lemma config_restored_witness :
  works sample_platform /\ config_numbers (all_fields sample_config)
  /\ (getInitialPlaygroundConfig sample_platform
        (saveConfig sample_platform (all_fields sample_config) empty_browser).2).1 = Some sample_config.
Proof.
  assert (Hc : config_numbers (all_fields sample_config)).
  { unfold config_numbers. split_and!; intros n Hn; injection Hn as <-; vm_compute; reflexivity. }
  split; [exact sample_works|split; [exact Hc|]].
  pose proof (config_restored sample_platform sample_config empty_browser sample_works Hc) as H.
  cbv zeta in H. rewrite H. reflexivity.
Defined.

(** A browser in which an earlier version left the client key. *)
Definition legacy_text : jsstr :=
  default [] (json_stringify (envelope (JObj [(js "model", JStr (js "m")); (js "clientKey", JStr (js "pbr-key"))]))).
Definition legacy_browser : browser := {| local := {[CONFIG_KEY := legacy_text]}; session := ∅ |}.

Definition legacy_rewritten : jsstr :=
  default [] (json_stringify (envelope (JObj [(js "model", JStr (js "m"))]))).

Lemma client_key_stays_in_session_witness :
  local (store (fold_left (hook_step sample_platform untranslated) [] (initial_hook sample_platform legacy_browser)))
    !! CONFIG_KEY = Some legacy_rewritten
  /\ (keyless legacy_rewritten
      \/ (local legacy_browser !! CONFIG_KEY = Some legacy_rewritten
          /\ (stored_key legacy_rewritten = None \/ may_refuse sample_platform))).
Proof.
  assert (H : local (store (fold_left (hook_step sample_platform untranslated) [] (initial_hook sample_platform legacy_browser)))
    !! CONFIG_KEY = Some legacy_rewritten) by (vm_compute; reflexivity).
  split; [exact H|]. exact (client_key_stays_in_session sample_platform untranslated legacy_browser [] legacy_rewritten H).
Defined.

Definition sample_message (name : string) (who : MessageRole) (text : jsstr) (st : option MessageStatus) : Message := {|
  key := js name; from := who; versions := [{| id := js "v"; content := text |}];
  createdAt := Some (num_of_Z 5); startedAt := None; completedAt := None; durationMs := None; sources := None;
  reasoning := None; isReasoningStreaming := None; isReasoningComplete := None; isContentComplete := None;
  status := st; errorCode := None; servedBy := None |}.

Definition sample_messages : list Message :=
  [sample_message "1" USER (js "hi") None; sample_message "2" ASSISTANT (js "hello") (Some COMPLETE)].

Definition sample_clock : clock := {| started_at := zero; reasoned_at := zero; completed_at := zero |}.


(** A hook that has loaded. *)
Definition loaded_hook : list hook_event := [LoadTimer (fun _ => sample_clock) sample_clock].

Lemma changes_are_saved_witness :
  hasLoadedMessages (fold_left (hook_step sample_platform untranslated) loaded_hook (initial_hook sample_platform empty_browser)) = true
  /\ let s' := fold_left (hook_step sample_platform untranslated)
                 (UpdateMessages (NewMessages sample_messages) :: [Unmount])
                 (fold_left (hook_step sample_platform untranslated) loaded_hook (initial_hook sample_platform empty_browser)) in
     messages s' = sample_messages /\ holds sample_platform (messages s') (store s').
Proof.
  split; [vm_compute; reflexivity|]. cbv zeta. split; [vm_compute; reflexivity|].
  destruct (changes_are_saved sample_platform untranslated empty_browser loaded_hook (NewMessages sample_messages) [Unmount]) as [(_ & Hu & _)|H].
  - vm_compute. reflexivity.
  - vm_compute. reflexivity.
  - exfalso. revert Hu. vm_compute. discriminate.
  - exact H.
Defined.

(** Collapsing repeated sections is not stable: each reload may drop more of a text. *)
Definition repeated_sections : jsstr :=
  let a := js "## 1. a" ++ [10%N] in let b := js "## 2. b" ++ [10%N] ++ repeat (ch "x") 1000 ++ [10%N] in
  a ++ a ++ a ++ b ++ b ++ b.

Example collapse_not_stable :
  let once := collapseRepeatedSectionSnapshots repeated_sections in
  length repeated_sections = 3051%nat /\ length once = 3035%nat
  /\ length (collapseRepeatedSectionSnapshots once) = 1009%nat.
Proof. vm_compute. repeat split; reflexivity. Qed.

(** Only the last empty pending answer is ended on loading; one before it stays. *)
Example earlier_pending_stays :
  let ms := [sample_message "1" ASSISTANT [] (Some LOADING); sample_message "2" USER (js "again") None;
             sample_message "3" ASSISTANT [] (Some LOADING)] in
  map status (loaded_messages untranslated (fun _ => sample_clock) sample_clock ms) = [Some LOADING; None; Some ERROR].
Proof. vm_compute. reflexivity. Qed.

(** A message sent before the stored ones are loaded is lost. *)
Example change_before_loading_lost :
  messages (fold_left (hook_step sample_platform untranslated)
              (UpdateMessages (UpdateWith (fun ms => ms ++ sample_messages)) :: loaded_hook)
              (initial_hook sample_platform empty_browser)) = [].
Proof. vm_compute. reflexivity. Qed.
