(* ===== verification/ServerError.v ===== *)
(** * Messages of server errors ([lib/server-error-message.ts],
      [lib/handle-server-error.ts])

    What the console says of a failure: the walk over an error, its causes and the
    payload of its response, and what is read of the objects found.  Errors are
    objects of a heap that may share parts and form cycles.  The translations and
    what the query library and axios recognise as cancelled are arguments. *)

From S2P Require Import Prelude JsString JsNumber.

(** ** Objects *)

Definition loc : Type := nat.

Inductive value :=
| VUndefined
| VNull
| VBool (b : bool)
| VNum (n : num)
| VStr (s : jsstr)
| VObj (l : loc).

(** An object: its properties, its elements if it is an array, whether it is an [Error], the truth of its property
    [safeServerErrorMessage], and whether axios or the query library calls it a
    cancellation. *)
Record object := {
  fields : list (jsstr * value);
  items : option (list value);
  is_error : bool;
  is_safe : bool;
  is_cancelled : bool
}.

Definition heap : Type := gmap loc object.

(** [o.key] *)
Fixpoint lookup_field (fs : list (jsstr * value)) (key : jsstr) : value :=
  match fs with
  | [] => VUndefined
  | (k, v) :: fs => if k === key then v else lookup_field fs key
  end.
Definition get_prop (o : object) (key : string) : value := lookup_field (fields o) (js key).

Definition truthy_value (v : value) : bool :=
  match v with
  | VUndefined | VNull => false
  | VBool b => b
  | VNum n => negb (num_eqb n zero || is_nan n)
  | VStr s => nonempty s
  | VObj _ => true
  end.

Definition serverErrorMessageKeys : list (jsstr * jsstr) :=
  [(js "AUTH_INTERNAL_ERROR", js "Please try again later.");
   (js "AUTH_SESSION_LIMIT",
    js "Too many active login sessions. On a device where you are already signed in, open Login sessions and use "
    ++ [8220%N] ++ js "Sign out other sessions" ++ [8221%N]
    ++ js " to revoke them. If you cannot access a signed-in device, reset your password to sign out all sessions.");
   (js "AUTH_SESSION_ISSUANCE_LIMIT",
    js "Too many login sessions were created recently. Please wait for the rolling window to pass, then try again.")].

Section Heap.
Context (h : heap) (t : jsstr -> jsstr).

(** [isRecord]: the object that a value is. *)
Definition isRecord (v : value) : option (loc * object) :=
  match v with VObj l => (fun o => (l, o)) <$> h !! l | _ => None end.

(** ** The walk *)

(** What is looked at after an object: the payload of its response, its cause and the
    error it carries. *)
Definition origins (o : object) : list value :=
  match isRecord (get_prop o "response") with
  | Some (_, response) => [get_prop response "data"]
  | None => []
  end ++ [get_prop o "cause"; get_prop o "error"].

Fixpoint sources_loop (fuel : nat) (pending : list value) (seen : list loc) (sources : list (loc * object))
    : option (list (loc * object)) :=
  match fuel with
  | O => None
  | S fuel =>
      match pending with
      | [] => Some sources
      | v :: pending =>
          match isRecord v with
          | Some (l, o) =>
              if bool_decide (l ∈ seen) then sources_loop fuel pending seen sources
              else sources_loop fuel (pending ++ origins o) (l :: seen) (sources ++ [(l, o)])
          | None => sources_loop fuel pending seen sources
          end
      end
  end.

(** Every object is walked once and adds at most three values. *)
Definition walk_fuel : nat := 3 * size h + 2.

Definition getServerErrorSources (v : value) : list (loc * object) :=
  default [] (sources_loop walk_fuel [v] [] []).

(** ** Keys, status, cancellation *)

(** The key of an object's code.  The table is looked up as an object, which also has
    the members of [Object.prototype]; codes of their names are left out. *)
Definition message_key (o : object) : option jsstr :=
  match get_prop o "code" with
  | VStr code => snd <$> List.find (fun kv => kv.1 === code) serverErrorMessageKeys
  | _ => None
  end.

(** The loop stops behind an object that is safe to show. *)
Fixpoint find_key_until_safe (sources : list (loc * object)) : option jsstr :=
  match sources with
  | [] => None
  | (_, o) :: sources =>
      match message_key o with
      | Some key => Some key
      | None => if is_safe o then None else find_key_until_safe sources
      end
  end.

Definition getServerErrorMessageKey (v : value) : option jsstr := find_key_until_safe (getServerErrorSources v).

(** [xs.find(f)] for a function that yields something. *)
Fixpoint first_some {A B} (f : A -> option B) (xs : list A) : option B :=
  match xs with [] => None | x :: xs => match f x with Some y => Some y | None => first_some f xs end end.

Definition own_status (o : object) : option num :=
  match match isRecord (get_prop o "response") with
        | Some (_, response) => get_prop response "status"
        | None => get_prop o "status"
        end with
  | VNum n => Some n
  | _ => None
  end.

Definition getServerErrorStatus (v : value) : option num :=
  first_some (fun s => own_status s.2) (getServerErrorSources v).

Definition isServerErrorCancelled (v : value) : bool :=
  existsb (fun s => is_cancelled s.2 || match get_prop s.2 "name" with VStr n => n === js "AbortError" | _ => false end)
    (getServerErrorSources v).

(** ** Messages *)

Definition ascii_lower (s : jsstr) : jsstr := map (fun c => if is_upper c then (c + 32)%N else c) s.

(** [/^\s*(?:<!doctype|<html[\s>])/i] *)
Definition is_html (s : jsstr) : bool :=
  let start := ascii_lower (trim_start s) in
  starts_with (js "<!doctype") start
  || (starts_with (js "<html") start
      && match drop 5 start with c :: _ => is_space c || (c =? ch ">")%N | [] => false end).

(** [None] is [undefined]. *)
Definition messageText (v : value) : option jsstr :=
  match v with
  | VStr s => if negb (nonempty (trim s)) || (trim s === js "success") || is_html s then None else Some s
  | _ => None
  end.

Definition SOMETHING_WRONG : jsstr := js "Something went wrong!".

(** [a || b] of texts that may be absent. *)
Definition some_text (a b : option jsstr) : option jsstr :=
  match a with Some s => if nonempty s then a else b | None => b end.

(** Whether a source is an [Error] or a wrapper with a response. *)
Definition isRawPayloadSource (o : object) : bool :=
  negb (is_error o || truthy_value (get_prop o "isAxiosError")
        || match isRecord (get_prop o "response") with Some _ => true | None => false end).

(** The message of a payload: its own, that of its error, or its title. *)
Definition payload_message (o : object) : option jsstr :=
  if isRawPayloadSource o then
    let detail :=
      match isRecord (get_prop o "error") with
      | Some (_, e) => messageText (get_prop e "message")
      | None => messageText (get_prop o "error")
      end in
    some_text (some_text (messageText (get_prop o "message")) detail) (messageText (get_prop o "title"))
  else None.

Definition find_safe (sources : list (loc * object)) : option (loc * object) :=
  List.find (fun s => is_safe s.2) sources.

Definition getServerErrorMessage (v : value) (fallback : option jsstr) : jsstr :=
  let sources := getServerErrorSources v in
  match find_safe sources with
  | Some (l, o) =>
      t (default SOMETHING_WRONG
           (some_text (some_text (some_text (getServerErrorMessageKey (VObj l)) (messageText (get_prop o "message")))
              fallback) (Some SOMETHING_WRONG)))
  | None =>
      match getServerErrorMessageKey v with
      | Some key => t key
      | None =>
          match first_some (fun s => payload_message s.2) sources with
          | Some message => message
          | None =>
              let status := getServerErrorStatus v in
              let status_is n := match status with Some m => num_eqb m (num_of_Z n) | None => false end in
              if status_is 304 then t (js "Content not modified!")
              else if status_is 204 then t (js "Content not found.")
              else
                match first_some (fun s => messageText (get_prop s.2 "message")) sources with
                | Some message => message
                | None =>
                    match messageText v with
                    | Some message => message
                    | None => default (t SOMETHING_WRONG) fallback
                    end
                end
          end
      end
  end.

(** ** Details *)

Record ServerErrorDetails := {
  message : jsstr;
  code : option jsstr;
  hint : option jsstr;
  details : option value
}.

Definition rawPayloadField (o : object) (field : string) : value :=
  match get_prop o field with
  | VUndefined =>
      match isRecord (get_prop o "error") with Some (_, e) => get_prop e field | None => VUndefined end
  | v => v
  end.

Definition rawPayloadStringField (sources : list (loc * object)) (field : string) : option jsstr :=
  first_some (fun s =>
    if isRawPayloadSource s.2 then
      match rawPayloadField s.2 field with
      | VStr v => if nonempty (trim v) then Some (trim v) else None
      | _ => None
      end
    else None) sources.

Definition rawPayloadDetails (sources : list (loc * object)) : option value :=
  first_some (fun s =>
    if isRawPayloadSource s.2 then
      match rawPayloadField s.2 "details" with VUndefined | VNull => None | v => Some v end
    else None) sources.

Definition getServerErrorDetails (v : value) (fallback : option jsstr) : ServerErrorDetails :=
  let sources := getServerErrorSources v in
  match find_safe sources with
  | Some (l, _) =>
      {| message := getServerErrorMessage (VObj l) fallback; code := None; hint := None; details := None |}
  | None =>
      {| message := getServerErrorMessage v fallback; code := rawPayloadStringField sources "code";
         hint := rawPayloadStringField sources "hint"; details := rawPayloadDetails sources |}
  end.

(** The new [Error] with its message and cause. *)
Definition createServerError (v : value) (fallback : option jsstr) : object :=
  {| fields := [(js "message", VStr (getServerErrorMessage v (Some (default [] fallback)))); (js "cause", v)];
     items := None; is_error := true; is_safe := false; is_cancelled := false |}.

(** ** Reporting ([handle-server-error.ts]) *)

Definition buildErrorDescription (details : ServerErrorDetails) : option jsstr :=
  let code_ := default [] (code details) in
  match hint details with
  | Some hint => if nonempty hint then Some (if nonempty code_ then hint ++ js " (" ++ code_ ++ js ")" else hint)
                 else code details
  | None => code details
  end.

(** The set [reportedErrors] after the call. *)
Definition markServerErrorHandled (error : value) (reportedErrors : gset loc) : gset loc :=
  list_to_set (map fst (getServerErrorSources error)) ∪ reportedErrors.

(** The toast shown, if any: a message and a description. *)
Definition handleServerError (error : value) (fallbackMessage : option jsstr)
    (presentation : option (jsstr * option jsstr)) (reportedErrors : gset loc)
    : option (jsstr * option jsstr) * gset loc :=
  if isServerErrorCancelled error then (None, reportedErrors)
  else
    let sources := getServerErrorSources error in
    let reported := existsb (fun s => bool_decide (s.1 ∈ reportedErrors)) sources in
    let marked := markServerErrorHandled error reportedErrors in
    if reported then (None, marked)
    else
      let details := getServerErrorDetails error fallbackMessage in
      let message_ :=
        match presentation with
        | Some (title, _) => if nonempty title then title else message details
        | None => message details
        end in
      let description :=
        match presentation with Some (_, Some d) => Some d | _ => buildErrorDescription details end in
      (Some (message_, match description with Some d => if nonempty d then Some d else None | None => None end), marked).
End Heap.

(** ** The walk finds what is reachable, once *)

Section Walk.
Context (h : heap).

Inductive reaches : value -> loc -> Prop :=
| reaches_here v l o : isRecord h v = Some (l, o) -> reaches v l
| reaches_later v l o w l' : isRecord h v = Some (l, o) -> w ∈ origins h o -> reaches w l' -> reaches v l'.

Lemma isRecord_inv v l o : isRecord h v = Some (l, o) -> v = VObj l /\ h !! l = Some o.
Proof. destruct v as [| | | | |l']; try done. cbn. destruct (h !! l') eqn:Hl; [|done]. by intros [= -> ->]. Qed.

Lemma origins_three o : (length (origins h o) <= 3)%nat.
Proof. unfold origins. destruct (isRecord h (get_prop o "response")) as [[l r]|]; cbn; lia. Qed.

(** The objects that are not walked yet. *)
Definition unseen (seen : list loc) : gset loc := dom h ∖ list_to_set seen.

Lemma unseen_less seen l o : h !! l = Some o -> l ∉ seen -> (size (unseen (l :: seen)) < size (unseen seen))%nat.
Proof.
  intros Hl%elem_of_dom_2 Hn. apply subset_size. unfold unseen. split; [set_solver|].
  intros Hsub. assert (l ∈ dom h ∖ list_to_set (l :: seen)) by (apply Hsub; set_solver). set_solver.
Qed.

Lemma loop_ends fuel : forall pending seen sources,
  (length pending + 3 * size (unseen seen) < fuel)%nat ->
  exists found, sources_loop h fuel pending seen sources = Some (sources ++ found).
Proof.
  induction fuel as [|fuel IH]; intros pending seen sources Hf; [lia|]. cbn [sources_loop].
  destruct pending as [|v pending]; [exists []; by rewrite app_nil_r|]. cbn [length] in Hf.
  destruct (isRecord h v) as [[l o]|] eqn:Hv; [|by apply IH; lia].
  apply isRecord_inv in Hv as (_ & Hl). case_bool_decide as Hseen; [by apply IH; lia|].
  pose proof (unseen_less seen l o Hl Hseen). pose proof (origins_three o).
  destruct (IH (pending ++ origins h o) (l :: seen) (sources ++ [(l, o)])) as (found & Hfound);
    [rewrite length_app; lia|]. exists ((l, o) :: found). by rewrite Hfound, <- app_assoc.
Qed.

(** A value whose object was walked, if it is one. *)
Definition walked (seen : list loc) (v : value) : Prop := forall l o, isRecord h v = Some (l, o) -> l ∈ seen.

Definition covered (pending : list value) (seen : list loc) (v : value) : Prop := v ∈ pending \/ walked seen v.

Definition walk_invariant (root : value) (pending : list value) (seen : list loc) (sources : list (loc * object))
    : Prop :=
  NoDup (map fst sources)
  /\ (forall l, l ∈ seen <-> l ∈ map fst sources)
  /\ (forall l o, (l, o) ∈ sources -> h !! l = Some o /\ reaches root l /\ forall w, w ∈ origins h o -> covered pending seen w)
  /\ covered pending seen root
  /\ (forall v l, v ∈ pending -> reaches v l -> reaches root l).

Lemma covered_next v pending seen seen' w more :
  (forall l, l ∈ seen -> l ∈ seen') -> walked seen' v -> covered (v :: pending) seen w -> covered (pending ++ more) seen' w.
Proof.
  unfold covered, walked. intros Hsub Hv [Hw|Hw]; [|right; intros l o H; by apply Hsub, (Hw l o)].
  apply elem_of_cons in Hw as [->|Hw]; [by right|left; set_solver].
Qed.

Lemma walk_step root v pending seen sources :
  walk_invariant root (v :: pending) seen sources ->
  match isRecord h v with
  | Some (l, o) =>
      if bool_decide (l ∈ seen) then walk_invariant root pending seen sources
      else walk_invariant root (pending ++ origins h o) (l :: seen) (sources ++ [(l, o)])
  | None => walk_invariant root pending seen sources
  end.
Proof.
  intros (Hnd & Hseen & Hsources & Hroot & Hpending).
  assert (Hskip : walked seen v -> walk_invariant root pending seen sources).
  { intros Hv. split_and!; [done|done| | |].
    - intros l o Hin. destruct (Hsources l o Hin) as (Hl & Hr & Hw). split_and!; [done|done|].
      intros w Hw'. rewrite <- (app_nil_r pending). by apply (covered_next v pending seen); [|done|apply Hw].
    - rewrite <- (app_nil_r pending). by apply (covered_next v pending seen).
    - intros w l Hw. apply Hpending. set_solver. }
  destruct (isRecord h v) as [[l o]|] eqn:Hv; [|apply Hskip; intros l o Hl; congruence].
  case_bool_decide as Hin; [apply Hskip; intros l' o' Hl'; congruence|].
  assert (Hreach : reaches root l) by (apply (Hpending v); [set_solver|by apply (reaches_here v l o)]).
  pose proof (isRecord_inv v l o Hv) as (_ & Hl).
  assert (Hnew : walked (l :: seen) v) by (intros l' o' Hl'; rewrite Hv in Hl'; injection Hl' as <- <-; set_solver).
  split_and!.
  - rewrite map_app. cbn [map fst]. apply NoDup_app. split_and!; [done| |apply NoDup_singleton].
    intros x Hx%Hseen Hx'. apply list_elem_of_singleton in Hx'. congruence.
  - intros x. rewrite map_app, elem_of_app, <- Hseen. cbn [map fst]. set_solver.
  - intros x ox [Hx|Hx]%elem_of_app.
    + destruct (Hsources x ox Hx) as (Hlx & Hr & Hw). split_and!; [done|done|].
      intros w Hw'. apply (covered_next v pending seen); [set_solver|done|by apply Hw].
    + apply list_elem_of_singleton in Hx. injection Hx as -> ->. split_and!; [done|done|].
      intros w Hw. left. set_solver.
  - apply (covered_next v pending seen); [set_solver|done|done].
  - intros w x [Hw|Hw]%elem_of_app Hr; [apply (Hpending w); [set_solver|done]|].
    apply (Hpending v); [set_solver|]. by apply (reaches_later v l o w).
Qed.

Lemma walk_done fuel : forall root pending seen sources found,
  walk_invariant root pending seen sources -> sources_loop h fuel pending seen sources = Some found ->
  exists seen', walk_invariant root [] seen' found.
Proof.
  induction fuel as [|fuel IH]; intros root pending seen sources found Hi; [done|]. cbn [sources_loop].
  destruct pending as [|v pending]; [intros [= <-]; by exists seen|]. apply walk_step in Hi.
  destruct (isRecord h v) as [[l o]|]; [|by apply IH]. by case_bool_decide; apply IH.
Qed.

Lemma closed_reaches seen sources v l :
  (forall l, l ∈ seen <-> l ∈ map fst sources) ->
  (forall l o, (l, o) ∈ sources -> h !! l = Some o /\ forall w, w ∈ origins h o -> walked seen w) ->
  walked seen v -> reaches v l -> l ∈ seen.
Proof.
  intros Hseen Hsources Hv Hr. induction Hr as [v l o H|v l o w l' H Hw _ IH]; [by apply (Hv l o)|].
  apply IH. specialize (Hv l o H). apply Hseen, list_elem_of_In, in_map_iff in Hv as ([x ox] & Hx & Hin). cbn in Hx.
  subst x. apply list_elem_of_In in Hin. destruct (Hsources l ox Hin) as (Hl & Hwalked).
  apply isRecord_inv in H as (_ & Hl'). rewrite Hl in Hl'. injection Hl' as ->. by apply Hwalked.
Qed.
End Walk.

Lemma unseen_all h : (size (unseen h []) <= size h)%nat.
Proof. unfold unseen. rewrite <- (size_dom (D := gset loc) h). apply subseteq_size. set_solver. Qed.

Lemma sources_found h v : exists found,
  getServerErrorSources h v = found /\ sources_loop h (walk_fuel h) [v] [] [] = Some found.
Proof.
  destruct (loop_ends h (walk_fuel h) [v] [] []) as (found & Hfound).
  { pose proof (unseen_all h). unfold walk_fuel. cbn [length]. lia. }
  exists found. unfold getServerErrorSources. by rewrite Hfound.
Qed.

Lemma walk_found h v : exists seen, walk_invariant h v [] seen (getServerErrorSources h v).
Proof.
  destruct (sources_found h v) as (found & -> & Hfound). refine (walk_done h _ v _ _ _ found _ Hfound).
  split_and!; [constructor|done|by intros l o Hin; inversion Hin| |].
  - left. set_solver.
  - intros w l Hw. apply list_elem_of_singleton in Hw. by subst w.
Qed.

Lemma source_object h v l o : (l, o) ∈ getServerErrorSources h v -> h !! l = Some o.
Proof. destruct (walk_found h v) as (seen & _ & _ & Hsources & _). intros Hin. by apply (Hsources l o). Qed.

(** C28. The walk ends, although errors may form cycles; it finds exactly the objects that
    responses, causes and errors lead to, each once. *)
Theorem getServerErrorSources_spec h v :
  sources_loop h (walk_fuel h) [v] [] [] = Some (getServerErrorSources h v)
  /\ NoDup (map fst (getServerErrorSources h v))
  /\ forall l o, (l, o) ∈ getServerErrorSources h v <-> h !! l = Some o /\ reaches h v l.
Proof.
  destruct (walk_found h v) as (seen & Hnd & Hseen & Hsources & Hroot & _).
  split_and!; [by destruct (sources_found h v) as (found & -> & Hfound)|done|]. intros l o.
  split; [intros Hin; by destruct (Hsources l o Hin) as (Hl & Hr & _)|]. intros (Hl & Hr).
  assert (Hclosed : forall w, covered h [] seen w -> walked h seen w) by (intros w [Hw|Hw]; [inversion Hw|done]).
  assert (Hin : l ∈ seen).
  { apply (closed_reaches h seen (getServerErrorSources h v) v l Hseen); [|by apply Hclosed|done].
    intros x ox Hx. destruct (Hsources x ox Hx) as (Hlx & _ & Hw). split; [done|]. intros w Hw'. by apply Hclosed, Hw. }
  apply Hseen, list_elem_of_In, in_map_iff in Hin as ([x ox] & Hx & Hin). cbn in Hx. subst x.
  apply list_elem_of_In in Hin. destruct (Hsources l ox Hin) as (Hlx & _). congruence.
Qed.

(** The object of a value is the first one that is found. *)
Lemma sources_first h l o : h !! l = Some o -> exists rest, getServerErrorSources h (VObj l) = (l, o) :: rest.
Proof.
  intros Hl. destruct (sources_found h (VObj l)) as (found & -> & Hfound). unfold walk_fuel in Hfound.
  assert (Hfuel : (3 * size h + 2 = S (S (3 * size h)))%nat) by lia. rewrite Hfuel in Hfound. clear Hfuel.
  remember (S (3 * size h)) as fuel eqn:Hfuel. cbn [sources_loop isRecord] in Hfound. rewrite Hl in Hfound.
  cbn [fmap option_fmap option_map] in Hfound. rewrite bool_decide_eq_false_2 in Hfound by set_solver.
  cbn [app] in Hfound.
  destruct (loop_ends h fuel (origins h o) [l] [(l, o)]) as (more & Hmore).
  { pose proof (unseen_less h [] l o Hl ltac:(set_solver)). pose proof (origins_three h o).
    pose proof (unseen_all h). lia. }
  rewrite Hmore in Hfound. injection Hfound as <-. by eexists.
Qed.

Lemma first_some_found {A B} (f : A -> option B) xs y : first_some f xs = Some y -> exists x, x ∈ xs /\ f x = Some y.
Proof.
  induction xs as [|x xs IH]; [done|]. cbn. destruct (f x) eqn:Hx.
  - intros [= <-]. exists x. split; [set_solver|done].
  - intros (x' & Hin & Hf)%IH. exists x'. split; [set_solver|done].
Qed.

(** C29. Of an error that is safe to show only its own code and message are shown, whatever
    is behind it; its details are only that message. *)
Theorem safe_error_hides_cause h t v fallback l o :
  find_safe (getServerErrorSources h v) = Some (l, o) ->
  let shown :=
    t (default SOMETHING_WRONG
         (some_text (some_text (some_text (message_key o) (messageText (get_prop o "message"))) fallback)
            (Some SOMETHING_WRONG))) in
  getServerErrorMessage h t v fallback = shown
  /\ getServerErrorDetails h t v fallback
     = {| message := shown; code := None; hint := None; details := None |}.
Proof.
  intros Hfind shown. pose proof Hfind as Hin. apply find_some in Hin as [Hin Hsafe]. cbn in Hsafe.
  apply list_elem_of_In, source_object in Hin as Hl.
  destruct (sources_first h l o Hl) as (rest & Hrest).
  assert (Hkey : getServerErrorMessageKey h (VObj l) = message_key o).
  { unfold getServerErrorMessageKey. rewrite Hrest. cbn [find_key_until_safe]. rewrite Hsafe.
    by destruct (message_key o). }
  assert (Hfirst : find_safe (getServerErrorSources h (VObj l)) = Some (l, o)).
  { rewrite Hrest. unfold find_safe. cbn. by rewrite Hsafe. }
  assert (Hshown : forall w, find_safe (getServerErrorSources h w) = Some (l, o) ->
                     getServerErrorMessage h t w fallback = shown).
  { intros w Hw. unfold getServerErrorMessage. by rewrite Hw, Hkey. }
  split; [by apply Hshown|]. unfold getServerErrorDetails. by rewrite Hfind, (Hshown _ Hfirst).
Qed.

(** A failure is shown once: an error that shares an object with one that was handled
    shows nothing. *)
Lemma failure_shown_once h t error error' l o fallback presentation reported :
  (l, o) ∈ getServerErrorSources h error -> (l, o) ∈ getServerErrorSources h error' ->
  isServerErrorCancelled h error = false ->
  fst (handleServerError h t error' fallback presentation
         (snd (handleServerError h t error fallback presentation reported))) = None.
Proof.
  intros Hl Hl' Hc. unfold handleServerError. rewrite Hc. destruct (isServerErrorCancelled h error'); [done|].
  assert (Hmarked : l ∈ markServerErrorHandled h error reported).
  { unfold markServerErrorHandled. apply elem_of_union_l, elem_of_list_to_set, list_elem_of_In, in_map_iff.
    exists (l, o). split; [done|by apply list_elem_of_In]. }
  assert (Hagain : existsb (fun s => bool_decide (s.1 ∈ markServerErrorHandled h error reported))
                     (getServerErrorSources h error') = true).
  { apply existsb_exists. exists (l, o). split; [by apply list_elem_of_In|]. by apply bool_decide_eq_true. }
  by destruct (existsb _ (getServerErrorSources h error)); cbn [snd]; rewrite Hagain.
Qed.

(** ** Examples *)

Definition plain_object (fs : list (string * value)) : object := {|
  fields := map (fun kv => (js kv.1, kv.2)) fs; items := None; is_error := false; is_safe := false; is_cancelled := false |}.

(** An error whose cause carries the payload of a response, and points back at it. *)
Definition sample_heap : heap :=
  {[ 0%nat := {| fields := [(js "message", VStr (js "boom")); (js "cause", VObj 1%nat)]; items := None; is_error := true;
                 is_safe := true; is_cancelled := false |};
     1%nat := plain_object [("response", VObj 2%nat); ("cause", VObj 0%nat)]%string;
     2%nat := plain_object [("status", VNum (num_of_Z 500)); ("data", VObj 3%nat)]%string;
     3%nat := plain_object [("message", VStr (js "secret")); ("code", VStr (js "AUTH_SESSION_LIMIT"))]%string ]}.

Example sample_sources : map fst (getServerErrorSources sample_heap (VObj 1%nat)) = [1; 3; 0]%nat.
Proof. vm_compute. reflexivity. Qed.

Lemma safe_error_hides_cause_witness :
  find_safe (getServerErrorSources sample_heap (VObj 1%nat))
  = Some (0%nat, {| fields := [(js "message", VStr (js "boom")); (js "cause", VObj 1%nat)]; items := None; is_error := true;
                    is_safe := true; is_cancelled := false |})
  /\ getServerErrorMessage sample_heap (fun s => s) (VObj 1%nat) None = js "boom".
Proof.
  assert (H : find_safe (getServerErrorSources sample_heap (VObj 1%nat))
    = Some (0%nat, {| fields := [(js "message", VStr (js "boom")); (js "cause", VObj 1%nat)]; items := None; is_error := true;
                      is_safe := true; is_cancelled := false |})) by (vm_compute; reflexivity).
  split; [exact H|].
  destruct (safe_error_hides_cause sample_heap (fun s => s) (VObj 1%nat) None _ _ H) as (Hm & _).
  rewrite Hm. vm_compute. reflexivity.
Defined.
