(* ===== verification/ChannelForm.v ===== *)
(** * The channel form ([features/channels/lib/channel-form.ts])

    A channel is stored with two JSON texts, [setting] and [settings]; the form edits
    their fields one by one.  Here are the checks of the form, the transformation of
    a channel into form values and of form values into the payloads that create or
    update a channel.  Form values that the code casts from parsed JSON keep their
    unknown shape ([jsval]); an absent optional text is [None].  The URL parser of
    the platform is an argument. *)

From S2P Require Import Prelude JsString JsNumber JsValue JsJson JsonRoundtrip AdvancedCustom.

(** ** Constants *)

Definition is_type (type : num) (id : Z) : bool := num_eqb type (num_of_Z id).
Definition type_in (types : list Z) (type : num) : bool := existsb (is_type type) types.

Definition CHANNEL_TYPE_ADVANCED_CUSTOM : Z := 58.
Definition CHANNEL_TYPE_NEW_API : Z := 60.
Definition CHANNEL_STATUS_ENABLED : num := num_of_Z 1.

Definition MODEL_FETCHABLE_TYPES : list Z :=
  [1; 4; 14; 17; 20; 23; 24; 25; 26; 27; 31; 34; 35; 40; 42; 43; 47; 48; 57; 58; 59; 60].
Definition FIELD_PASSTHROUGH_TYPES : list Z := [1; 14; 57; 58; 59; CHANNEL_TYPE_NEW_API].
Definition OPENAI_FIELD_PASSTHROUGH_TYPES : list Z := [1; 57; 58; 59; CHANNEL_TYPE_NEW_API].
Definition CLAUDE_FIELD_PASSTHROUGH_TYPES : list Z := [14; 58; 59; CHANNEL_TYPE_NEW_API].

(** [isChannelProtocol] *)
Definition isChannelProtocol (value : jsval) : bool :=
  existsb (fun p => strict_eq value (JStr (js p)))
    ["openai-chat"; "openai-responses"; "anthropic"; "gemini"]%string.

(** [s || d] on optional texts *)
Definition or_text (s : option jsstr) (d : jsstr) : jsstr :=
  match s with Some s => if nonempty s then s else d | None => d end.

(** [!s?.trim()] *)
Definition blank (s : option jsstr) : bool := negb (nonempty (trim (default [] s))).

(** ** HTTP protocol and shards *)

Definition HTTP_PROTOCOL_AUTO : jsstr := js "auto".
Definition HTTP_PROTOCOL_HTTP1 : jsstr := js "http1".
Definition MAX_HTTP2_CONNECTION_SHARDS : num := num_of_Z 8.

Definition normalizeHttpProtocol (value : jsval) : jsstr :=
  let normalized := to_lower (trim (string_of_val (js_or value (JStr [])))) in
  if normalized === HTTP_PROTOCOL_HTTP1 then HTTP_PROTOCOL_HTTP1 else HTTP_PROTOCOL_AUTO.

(** [a < b] and [a > b] of a value and a number. *)
Definition less_than (v : jsval) (n : num) : bool := num_ltb (to_number v) n.
Definition greater_than (v : jsval) (n : num) : bool := num_ltb n (to_number v).

Definition one : num := num_of_Z 1.

Definition normalizeHttp2ConnectionShards (value : jsval) : jsval :=
  if is_nullish value || (match value with JNum n => is_nan n | _ => false end)
     || strict_eq value (JNum zero) then JNum one
  else if less_than value one then JNum one
  else if greater_than value MAX_HTTP2_CONNECTION_SHARDS then JNum MAX_HTTP2_CONNECTION_SHARDS
  else value.

(** The shards that go with a protocol. *)
Definition shards_of (protocol : jsstr) (shards : jsval) : jsval :=
  if protocol === HTTP_PROTOCOL_HTTP1 then JNum one else normalizeHttp2ConnectionShards shards.

(** ** Checks of JSON fields *)

(** [None]: [JSON.parse] throws. *)
Definition parseOptionalJson (value : option jsstr) : option jsval :=
  if blank value then Some JUndefined else json_parse (default [] value).

Definition isJsonObjectValue (value : jsval) : bool :=
  match value with JObj _ => true | _ => false end.

(** A check of the parsed value that accepts an absent one, and fails where it throws. *)
Definition parsed_satisfies (check : jsval -> bool) (value : option jsstr) : bool :=
  match parseOptionalJson value with
  | Some JUndefined => true
  | Some parsed => check parsed
  | None => false
  end.

Definition isOptionalJsonObject (value : option jsstr) : bool :=
  parsed_satisfies isJsonObjectValue value.

Definition isOptionalModelMapping (value : option jsstr) : bool :=
  parsed_satisfies (fun parsed =>
    isJsonObjectValue parsed && forallb (fun kv => is_string kv.2) (entries parsed)) value.

Definition is_status_code (n : num) : bool :=
  is_integer n && num_leb (num_of_Z 100) n && num_leb n (num_of_Z 599).

Definition isOptionalStatusCodeMapping (value : option jsstr) : bool :=
  parsed_satisfies (fun parsed =>
    isJsonObjectValue parsed
    && forallb (fun kv => is_status_code (number_of_text kv.1) && is_status_code (to_number kv.2))
         (entries parsed)) value.

(** A property that is a text and not blank. *)
Definition has_text (v : jsval) (key : string) : bool :=
  match prop v (js key) with JStr s => nonempty (trim s) | _ => false end.

Definition isCodexCredential (value : option jsstr) : bool :=
  parsed_satisfies (fun parsed =>
    isJsonObjectValue parsed && has_text parsed "access_token" && has_text parsed "account_id") value.

Definition isVertexJsonKey (value : option jsstr) : bool :=
  parsed_satisfies (fun parsed =>
    match parsed with
    | JArr items => forallb isJsonObjectValue items
    | _ => isJsonObjectValue parsed
    end) value.

(** The result of [new URL(text)]; [None] when it throws. *)
Record url := { url_protocol : jsstr; url_host : jsstr; url_hostname : jsstr; url_port : jsstr }.
Definition url_parser : Type := jsstr -> option url.

Definition SUPPORTED_PROXY_PROTOCOLS : list jsstr :=
  [js "http:"; js "https:"; js "socks5:"; js "socks5h:"].

(** [s.search(/[/?#]/)] *)
Definition is_suffix_start (c : N) : bool := ((c =? ch "/") || (c =? ch "?") || (c =? ch "#"))%N.

Definition isOptionalProxyURL (new_URL : url_parser) (value : option jsstr) : bool :=
  let trimmedValue := trim (default [] value) in
  if negb (nonempty trimmedValue) then true
  else
    match index_of (js "://") trimmedValue with
    | None | Some O => false
    | Some schemeSeparatorIndex =>
        let authorityAndSuffix := drop (schemeSeparatorIndex + 3) trimmedValue in
        let suffix := drop_while (fun c => negb (is_suffix_start c)) authorityAndSuffix in
        if nonempty suffix && (suffix !== js "/") then false
        else
          match new_URL trimmedValue with
          | Some parsedURL =>
              includes_str SUPPORTED_PROXY_PROTOCOLS (url_protocol parsedURL)
              && nonempty (url_hostname parsedURL) && (url_port parsedURL !== js "0")
          | None => false
          end
    end.

(** ** Data *)

Record ChannelFormValues := {
  name : jsstr;
  type : num;
  base_url : option jsstr;
  key : jsstr;
  openai_organization : option jsstr;
  models : jsstr;
  model_mapping : option jsstr;
  test_model : option jsstr;
  auto_ban : option num;
  status : num;
  status_code_mapping : option jsstr;
  tag : option jsstr;
  remark : option jsstr;
  setting : option jsstr;
  param_override : option jsstr;
  header_override : option jsstr;
  settings : option jsstr;
  advanced_custom : option jsstr;
  other : option jsstr;
  multi_key_mode : option jsstr;
  multi_key_type : option jsstr;
  batch_add_set_key_prefix_2_name : option bool;
  key_mode : option jsstr;
  force_format : jsval;
  thinking_to_content : jsval;
  proxy : jsval;
  http_protocol : jsval;
  http2_connection_shards : jsval;
  pass_through_body_enabled : jsval;
  system_prompt : jsval;
  system_prompt_override : jsval;
  pbr_prices : option (list jsval);
  is_enterprise_account : option bool;
  vertex_key_type : jsval;
  aws_key_type : jsval;
  azure_responses_version : jsval;
  protocol : option jsstr;
  allow_service_tier : option bool;
  disable_store : option bool;
  allow_safety_identifier : option bool;
  allow_include_obfuscation : option bool;
  allow_inference_geo : option bool;
  allow_speed : option bool;
  claude_beta_query : option bool;
  upstream_model_update_check_enabled : option bool;
  upstream_model_update_auto_sync_enabled : option bool;
  upstream_model_update_ignored_models : option jsstr
}.

(** The fields of a channel that the form reads; [null] and absent are [None]. *)
Record Channel := {
  c_name : jsstr;
  c_type : num;
  c_base_url : option jsstr;
  c_openai_organization : option jsstr;
  c_models : jsstr;
  c_model_mapping : option jsstr;
  c_test_model : option jsstr;
  c_auto_ban : option num;
  c_status : num;
  c_status_code_mapping : option jsstr;
  c_tag : option jsstr;
  c_remark : jsstr;
  c_setting : option jsstr;
  c_param_override : option jsstr;
  c_header_override : option jsstr;
  c_settings : jsstr;
  c_other : jsstr;
  c_multi_key_mode : jsstr
}.

Definition no : jsval := JBool false.
Definition text (s : string) : jsval := JStr (js s).

Definition CHANNEL_FORM_DEFAULT_VALUES : ChannelFormValues := {|
  name := []; type := num_of_Z 1; base_url := Some []; key := []; openai_organization := Some [];
  models := []; model_mapping := Some []; test_model := Some []; auto_ban := Some (num_of_Z 1);
  status := CHANNEL_STATUS_ENABLED; status_code_mapping := Some []; tag := Some []; remark := Some [];
  setting := Some []; param_override := Some []; header_override := Some []; settings := Some (js "{}");
  advanced_custom := Some []; other := Some []; multi_key_mode := Some (js "single");
  multi_key_type := Some (js "random"); batch_add_set_key_prefix_2_name := Some false;
  key_mode := Some (js "append"); force_format := no; thinking_to_content := no; proxy := JStr [];
  http_protocol := JStr HTTP_PROTOCOL_AUTO; http2_connection_shards := JNum one;
  pass_through_body_enabled := no; system_prompt := JStr []; system_prompt_override := no;
  pbr_prices := Some []; is_enterprise_account := Some false; vertex_key_type := text "json";
  aws_key_type := text "ak_sk"; azure_responses_version := JStr []; protocol := None;
  allow_service_tier := Some false; disable_store := Some false; allow_safety_identifier := Some false;
  allow_include_obfuscation := Some false; allow_inference_geo := Some false; allow_speed := Some false;
  claude_beta_query := Some false; upstream_model_update_check_enabled := Some false;
  upstream_model_update_auto_sync_enabled := Some false; upstream_model_update_ignored_models := Some []
|}.

(** ** From a channel to the form *)

(** [stringifyAdvancedCustomConfig] *)
Definition stringifyAdvancedCustomConfig (config : jsval) : outcome type_error jsstr :=
  let? normalized := normalizeAdvancedCustomConfig config in
  Ret (default [] (json_stringify_gap (js "  ") [] normalized)).

(** [v.key || d] of a value that is not [null] or [undefined] *)
Definition field_or (v : jsval) (key : string) (d : jsval) : jsval := js_or (prop v (js key)) d.

(** [v.key === true] *)
Definition is_true (v : jsval) (key : string) : bool := strict_eq (prop v (js key)) (JBool true).

(** The parsed text of a field: [None] when absent, when parsing throws, or when
    reading a property of the result would. *)
Definition parsed_fields (text : option jsstr) : option jsval :=
  match text with
  | Some s =>
      if nonempty s then
        match json_parse s with
        | Some v => if is_nullish v then None else Some v
        | None => None
        end
      else None
  | None => None
  end.

Record extra_settings := {
  x_force_format : jsval;
  x_thinking_to_content : jsval;
  x_proxy : jsval;
  x_http_protocol : jsstr;
  x_http2_connection_shards : jsval;
  x_pass_through_body_enabled : jsval;
  x_system_prompt : jsval;
  x_system_prompt_override : jsval;
  x_pbr_prices : list jsval
}.

Definition extraSettings (setting : option jsstr) : extra_settings :=
  match parsed_fields setting with
  | None =>
      {| x_force_format := no; x_thinking_to_content := no; x_proxy := JStr [];
         x_http_protocol := HTTP_PROTOCOL_AUTO; x_http2_connection_shards := JNum one;
         x_pass_through_body_enabled := no; x_system_prompt := JStr [];
         x_system_prompt_override := no; x_pbr_prices := [] |}
  | Some parsed =>
      let protocol := normalizeHttpProtocol (prop parsed (js "http_protocol")) in
      {| x_force_format := field_or parsed "force_format" no;
         x_thinking_to_content := field_or parsed "thinking_to_content" no;
         x_proxy := field_or parsed "proxy" (JStr []);
         x_http_protocol := protocol;
         x_http2_connection_shards := shards_of protocol (prop parsed (js "http2_connection_shards"));
         x_pass_through_body_enabled := field_or parsed "pass_through_body_enabled" no;
         x_system_prompt := field_or parsed "system_prompt" (JStr []);
         x_system_prompt_override := field_or parsed "system_prompt_override" no;
         x_pbr_prices := match prop parsed (js "pbr_prices") with JArr items => items | _ => [] end |}
  end.

(** [Array.isArray(v.key) ? v.key.join(',') : ''] *)
Definition joined_list (v : jsval) (key : string) : jsstr :=
  match prop v (js key) with JArr items => string_of_val (JArr items) | _ => [] end.

(** The text of the configuration; nothing when it is absent or normalising throws. *)
Definition shown_advanced_custom (parsed : jsval) : jsstr :=
  let config := prop parsed (js "advanced_custom") in
  if truthy config then
    match stringifyAdvancedCustomConfig config with Ret s => s | _ => [] end
  else [].

Definition transformChannelToFormDefaults (channel : Channel) : ChannelFormValues :=
  let extra := extraSettings (c_setting channel) in
  let parsed := default (JObj []) (parsed_fields (Some (c_settings channel))) in
  {| name := c_name channel;
     type := c_type channel;
     base_url := Some (default [] (c_base_url channel));
     key := [];
     openai_organization := Some (default [] (c_openai_organization channel));
     models := c_models channel;
     model_mapping := Some (default [] (c_model_mapping channel));
     test_model := Some (default [] (c_test_model channel));
     auto_ban := Some (default one (c_auto_ban channel));
     status := c_status channel;
     status_code_mapping := Some (default [] (c_status_code_mapping channel));
     tag := Some (default [] (c_tag channel));
     remark := Some (c_remark channel);
     setting := Some (default [] (c_setting channel));
     param_override := Some (default [] (c_param_override channel));
     header_override := Some (default [] (c_header_override channel));
     settings := Some (or_text (Some (c_settings channel)) (js "{}"));
     advanced_custom := Some (shown_advanced_custom parsed);
     other := Some (c_other channel);
     multi_key_mode := Some (js "single");
     multi_key_type := Some (or_text (Some (c_multi_key_mode channel)) (js "random"));
     batch_add_set_key_prefix_2_name := Some false;
     key_mode := Some (js "append");
     force_format := x_force_format extra;
     thinking_to_content := x_thinking_to_content extra;
     proxy := x_proxy extra;
     http_protocol := JStr (x_http_protocol extra);
     http2_connection_shards := x_http2_connection_shards extra;
     pass_through_body_enabled := x_pass_through_body_enabled extra;
     system_prompt := x_system_prompt extra;
     system_prompt_override := x_system_prompt_override extra;
     pbr_prices := Some (x_pbr_prices extra);
     is_enterprise_account := Some (is_true parsed "openrouter_enterprise");
     vertex_key_type := field_or parsed "vertex_key_type" (text "json");
     aws_key_type := field_or parsed "aws_key_type" (text "ak_sk");
     azure_responses_version := field_or parsed "azure_responses_version" (JStr []);
     protocol := if isChannelProtocol (prop parsed (js "protocol"))
                 then Some (string_of_val (prop parsed (js "protocol"))) else None;
     allow_service_tier := Some (is_true parsed "allow_service_tier");
     disable_store := Some (is_true parsed "disable_store");
     allow_safety_identifier := Some (is_true parsed "allow_safety_identifier");
     allow_include_obfuscation := Some (is_true parsed "allow_include_obfuscation");
     allow_inference_geo := Some (is_true parsed "allow_inference_geo");
     allow_speed := Some (is_true parsed "allow_speed");
     claude_beta_query := Some (is_true parsed "claude_beta_query");
     upstream_model_update_check_enabled := Some (is_true parsed "upstream_model_update_check_enabled");
     upstream_model_update_auto_sync_enabled :=
       Some (is_true parsed "upstream_model_update_auto_sync_enabled");
     upstream_model_update_ignored_models :=
       Some (joined_list parsed "upstream_model_update_ignored_models") |}.

(** ** From the form to the stored texts *)

(** [item.key ?? 0] *)
Definition price_or_zero (item : jsval) (key : string) : jsval :=
  if is_nullish (prop item (js key)) then JNum zero else prop item (js key).

Definition is_undefined (v : jsval) : bool := match v with JUndefined => true | _ => false end.

Definition PRICE_FIELDS : list string := ["input"; "output"; "cache_read"; "cache_write"]%string.

(** The rows with a model and at least one price; reading the model of [null], or
    trimming one that is not a text, throws. *)
Definition channel_price (item : jsval) : outcome type_error (list jsval) :=
  let? model_ := get_field item (js "model") in
  let? model := str_trim model_ in
  Ret (if nonempty model && existsb (fun k => negb (is_undefined (prop item (js k)))) PRICE_FIELDS
       then [JObj ((js "model", JStr model) :: map (fun k => (js k, price_or_zero item k)) PRICE_FIELDS)]
       else []).

Definition channelPrices (prices : option (list jsval)) : outcome type_error (list jsval) :=
  let? rows := omapM channel_price (default [] prices) in Ret (concat rows).

(** The fields of the [setting] object. *)
Definition setting_object (formData : ChannelFormValues) : outcome type_error (list (jsstr * jsval)) :=
  let? proxy_ := trim_or_empty (proxy formData) in
  let? prices := channelPrices (pbr_prices formData) in
  let protocol := normalizeHttpProtocol (http_protocol formData) in
  let shards := shards_of protocol (http2_connection_shards formData) in
  Ret ([(js "force_format", js_or (force_format formData) no);
        (js "thinking_to_content", js_or (thinking_to_content formData) no);
        (js "proxy", JStr proxy_);
        (js "pass_through_body_enabled", js_or (pass_through_body_enabled formData) no);
        (js "system_prompt", js_or (system_prompt formData) (JStr []));
        (js "system_prompt_override", js_or (system_prompt_override formData) no)]
       ++ (match prices with [] => [] | _ => [(js "pbr_prices", JArr prices)] end)
       ++ (if protocol === HTTP_PROTOCOL_HTTP1 then [(js "http_protocol", JStr HTTP_PROTOCOL_HTTP1)]
           else if greater_than shards one then [(js "http2_connection_shards", shards)]
           else [])).

Definition buildSettingJSON (formData : ChannelFormValues) : outcome type_error jsstr :=
  let? fs := setting_object formData in Ret (default [] (json_stringify (JObj fs))).

(** *** The [settings] object *)

(** [obj.key = v]: [Some v]; [if (key in obj) delete obj.key]: [None]. *)
Definition edit : Type := jsstr * option jsval.

(** [if (cond) obj.key = v else if (key in obj) delete obj.key] *)
Definition edit_if (cond : bool) (key : string) (v : jsval) : edit :=
  (js key, if cond then Some v else None).

(** Primitive values have no properties: assigning one, or asking for one with
    [in], throws.  A named property of an array is not printed. *)
Definition apply_edit (obj : jsval) (e : edit) : outcome type_error jsval :=
  match obj, e.2 with
  | JObj fs, Some v => Ret (JObj (set_field fs e.1 v))
  | JObj fs, None => Ret (if has_key fs e.1 then JObj (delete_field fs e.1) else obj)
  | JArr _, _ => Ret obj
  | _, _ => Throw TypeError
  end.

Fixpoint apply_edits (obj : jsval) (es : list edit) : outcome type_error jsval :=
  match es with
  | [] => Ret obj
  | e :: es => let? obj := apply_edit obj e in apply_edits obj es
  end.

Definition is_some_true (b : option bool) : bool := match b with Some true => true | _ => false end.

Definition parse_ignored_models (s : option jsstr) : list jsstr :=
  dedupe (List.filter nonempty (map trim (split (ch ",") (default [] s)))).

Definition upstream_flags (formData : ChannelFormValues) : list edit :=
  let checked := is_some_true (upstream_model_update_check_enabled formData) in
  [(js "upstream_model_update_check_enabled", Some (JBool checked));
   (js "upstream_model_update_auto_sync_enabled",
    Some (JBool (checked && is_some_true (upstream_model_update_auto_sync_enabled formData))));
   (js "upstream_model_update_ignored_models",
    Some (JArr (map JStr (parse_ignored_models (upstream_model_update_ignored_models formData)))))].

(** The edits of the upstream model update; the last two depend on the object. *)
Definition upstream_edits (formData : ChannelFormValues) (settingsObj : jsval) : list edit :=
  if type_in MODEL_FETCHABLE_TYPES (type formData) then
    upstream_flags formData
    ++ (if negb (is_array (prop settingsObj (js "upstream_model_update_last_detected_models")))
           || negb (is_some_true (upstream_model_update_check_enabled formData))
        then [(js "upstream_model_update_last_detected_models", Some (JArr []))] else [])
    ++ (if negb (is_number (prop settingsObj (js "upstream_model_update_last_check_time")))
        then [(js "upstream_model_update_last_check_time", Some (JNum zero))] else [])
  else [].

Definition advanced_custom_edits (formData : ChannelFormValues) : list edit :=
  if is_type (type formData) CHANNEL_TYPE_ADVANCED_CUSTOM then
    match parseAdvancedCustomConfig (advanced_custom formData) with
    | Some config => [(js "advanced_custom", Some config)]
    | None => []
    end
  else [(js "advanced_custom", None)].

Definition type_edits (formData : ChannelFormValues) : list edit :=
  let has id := is_type (type formData) id in
  let openai := type_in OPENAI_FIELD_PASSTHROUGH_TYPES (type formData) in
  let claude := type_in CLAUDE_FIELD_PASSTHROUGH_TYPES (type formData) in
  let flag b := JBool (is_some_true b) in
  [ edit_if (has 41) "vertex_key_type" (js_or (vertex_key_type formData) (text "json"));
    edit_if (has 3 && truthy (azure_responses_version formData)) "azure_responses_version"
      (azure_responses_version formData);
    edit_if (match protocol formData with Some p => nonempty p | None => false end) "protocol"
      (JStr (default [] (protocol formData)));
    edit_if (has 20) "openrouter_enterprise" (flag (is_enterprise_account formData));
    edit_if (has 33) "aws_key_type" (js_or (aws_key_type formData) (text "ak_sk"));
    edit_if (type_in FIELD_PASSTHROUGH_TYPES (type formData)) "allow_service_tier"
      (flag (allow_service_tier formData));
    edit_if openai "disable_store" (flag (disable_store formData));
    edit_if openai "allow_safety_identifier" (flag (allow_safety_identifier formData));
    edit_if openai "allow_include_obfuscation" (flag (allow_include_obfuscation formData));
    edit_if (openai || claude) "allow_inference_geo" (flag (allow_inference_geo formData));
    edit_if claude "allow_speed" (flag (allow_speed formData));
    edit_if (has 14) "claude_beta_query" (flag (claude_beta_query formData)) ].

Definition settings_edits (formData : ChannelFormValues) (settingsObj : jsval) : list edit :=
  type_edits formData ++ upstream_edits formData settingsObj ++ advanced_custom_edits formData.

(** The object that the existing text holds; an empty one when it is absent, [{}],
    or not JSON. *)
Definition existing_settings (formData : ChannelFormValues) : jsval :=
  match settings formData with
  | Some s => if nonempty s && (s !== js "{}") then default (JObj []) (json_parse s) else JObj []
  | None => JObj []
  end.

Definition settings_object (formData : ChannelFormValues) : outcome type_error jsval :=
  apply_edits (existing_settings formData) (settings_edits formData (existing_settings formData)).

Definition buildSettingsJSON (formData : ChannelFormValues) : outcome type_error jsstr :=
  let? obj := settings_object formData in Ret (default [] (json_stringify obj)).

(** [String(value || '').trim().replace(/\/+$/, '')] *)
Definition normalizeBaseUrl (value : option jsstr) : jsstr :=
  rev (drop_while (N.eqb (ch "/")) (rev (trim (default [] value)))).

(** ** Payloads *)

(** [s || null] *)
Definition text_or_null (s : option jsstr) : jsval :=
  match s with Some s => if nonempty s then JStr s else JNull | None => JNull end.

(** Empty texts become [null]. *)
Definition empty_to_null (v : jsval) : jsval := match v with JStr [] => JNull | v => v end.

Definition clean_empty (fields : list (jsstr * jsval)) : list (jsstr * jsval) :=
  map (fun kv => (kv.1, empty_to_null kv.2)) fields.

Record CreatePayload := {
  mode : jsstr;
  payload_multi_key_mode : option jsstr;
  payload_set_prefix : option bool;
  channel : list (jsstr * jsval)
}.

Definition transformFormDataToCreatePayload (formData : ChannelFormValues)
    : outcome type_error CreatePayload :=
  let mode_ := or_text (multi_key_mode formData) (js "single") in
  let? setting_ := buildSettingJSON formData in
  let? settings_ := buildSettingsJSON formData in
  Ret {| mode := mode_;
         payload_multi_key_mode :=
           if mode_ === js "multi_to_single" then multi_key_type formData else None;
         payload_set_prefix :=
           if mode_ === js "batch" then batch_add_set_key_prefix_2_name formData else None;
         channel := clean_empty
           [(js "name", JStr (name formData));
            (js "type", JNum (type formData));
            (js "base_url", text_or_null (Some (normalizeBaseUrl (base_url formData))));
            (js "key", JStr (key formData));
            (js "openai_organization", text_or_null (openai_organization formData));
            (js "models", JStr (models formData));
            (js "group", JStr (js "default"));
            (js "model_mapping", text_or_null (model_mapping formData));
            (js "test_model", text_or_null (test_model formData));
            (js "auto_ban", JNum (default one (auto_ban formData)));
            (js "status", JNum (status formData));
            (js "status_code_mapping", text_or_null (status_code_mapping formData));
            (js "tag", text_or_null (tag formData));
            (js "remark", JStr (default [] (remark formData)));
            (js "setting", JStr setting_);
            (js "param_override", text_or_null (param_override formData));
            (js "header_override", text_or_null (header_override formData));
            (js "settings", JStr settings_);
            (js "other", JStr (default [] (other formData)))] |}.

(** The fields that are sent as explicit empty texts, so that an update clears them. *)
Definition cleared_fields (formData : ChannelFormValues) : list (jsstr * jsval) :=
  [(js "base_url", JStr (normalizeBaseUrl (base_url formData)));
   (js "openai_organization", JStr (default [] (openai_organization formData)));
   (js "test_model", JStr (default [] (test_model formData)));
   (js "tag", JStr (default [] (tag formData)));
   (js "remark", JStr (default [] (remark formData)));
   (js "model_mapping", JStr (default [] (model_mapping formData)));
   (js "status_code_mapping", JStr (default [] (status_code_mapping formData)));
   (js "param_override", JStr (default [] (param_override formData)));
   (js "header_override", JStr (default [] (header_override formData)))].

Definition set_fields (fields new : list (jsstr * jsval)) : list (jsstr * jsval) :=
  fold_left (fun fs kv => set_field fs kv.1 kv.2) new fields.

Definition transformFormDataToUpdatePayload (formData : ChannelFormValues) (channelId : num)
    : outcome type_error (list (jsstr * jsval)) :=
  let? setting_ := buildSettingJSON formData in
  let? settings_ := buildSettingsJSON formData in
  let payload :=
    [(js "id", JNum channelId);
     (js "name", JStr (name formData));
     (js "type", JNum (type formData));
     (js "base_url", text_or_null (Some (normalizeBaseUrl (base_url formData))));
     (js "openai_organization", text_or_null (openai_organization formData));
     (js "models", JStr (models formData));
     (js "group", JStr (js "default"));
     (js "model_mapping", text_or_null (model_mapping formData));
     (js "test_model", text_or_null (test_model formData));
     (js "auto_ban", JNum (default one (auto_ban formData)));
     (js "status_code_mapping", text_or_null (status_code_mapping formData));
     (js "tag", text_or_null (tag formData));
     (js "remark", JStr (default [] (remark formData)));
     (js "setting", JStr setting_);
     (js "param_override", text_or_null (param_override formData));
     (js "header_override", text_or_null (header_override formData));
     (js "settings", JStr settings_);
     (js "other", JStr (default [] (other formData)))]
    ++ (if nonempty (key formData) && nonempty (trim (key formData))
        then [(js "key", JStr (key formData))] else []) in
  Ret (set_fields (clean_empty payload) (cleared_fields formData)).

(** ** The schema *)

Definition issue : Type := jsstr * jsstr.

Definition issue_if (cond : bool) (path message : string) : list issue :=
  if cond then [(js path, js message)] else [].

Definition multi_key (formData : ChannelFormValues) : bool :=
  match multi_key_mode formData with
  | Some m => nonempty m && (m !== js "single")
  | None => false
  end.

Section Schema.
Context (new_URL : url_parser).

(** What the routes of a custom channel need of a URL: host and protocol. *)
Definition route_url (s : jsstr) : option (jsstr * jsstr) :=
  (fun u => (url_host u, url_protocol u)) <$> new_URL s.

Definition advanced_custom_issues (data : ChannelFormValues) : outcome type_error (list issue) :=
  if is_type (type data) CHANNEL_TYPE_ADVANCED_CUSTOM then
    let config := parseAdvancedCustomConfig (advanced_custom data) in
    let? error := validateAdvancedCustomConfig route_url config in
    let? relative := advancedCustomConfigUsesRelativeUpstreamPath config in
    let? listed := (if is_some_true (upstream_model_update_check_enabled data)
                    then hasValidAdvancedCustomModelListRoute route_url config else Ret true) in
    Ret ((match error with Some e => [(js "advanced_custom", message e)] | None => [] end)
         ++ issue_if (relative && blank (base_url data)) "base_url"
              "Base URL is required when an advanced route uses an upstream path"
         ++ issue_if (is_some_true (upstream_model_update_check_enabled data) && negb listed)
              "upstream_model_update_check_enabled"
              "OpenAI Models route is required to enable upstream model checks")
  else Ret [].

(** [?? 1] *)
Definition shards_or_one (data : ChannelFormValues) : jsval :=
  if is_nullish (http2_connection_shards data) then JNum one else http2_connection_shards data.

Definition is_text (v : jsval) (s : string) : bool := strict_eq v (JStr (js s)).

(** The issues of [superRefine]. *)
Definition superRefine (data : ChannelFormValues) : outcome type_error (list issue) :=
  let? custom := advanced_custom_issues data in
  let codex := is_type (type data) 57 in
  let vertex kind := is_type (type data) 41 && is_text (vertex_key_type data) kind in
  let given := nonempty (trim (key data)) in
  let protocol := normalizeHttpProtocol (http_protocol data) in
  let shards := shards_or_one data in
  Ret (issue_if (type_in [3; 8; 36; 45; CHANNEL_TYPE_NEW_API] (type data) && blank (base_url data))
         "base_url" "Base URL is required for this channel type"
       ++ custom
       ++ issue_if (type_in [3; 18; 21; 39; 41; 49] (type data) && blank (other data))
            "other" "This channel type requires additional configuration"
       ++ issue_if (codex && multi_key data) "multi_key_mode" "Codex channels do not support batch creation"
       ++ issue_if (codex && given && negb (isCodexCredential (Some (key data)))) "key"
            "Codex credential must be a JSON object with access_token and account_id"
       ++ issue_if (vertex "json"%string && given && negb (isVertexJsonKey (Some (key data)))) "key"
            "Vertex AI service account key must be valid JSON"
       ++ issue_if (vertex "api_key"%string && multi_key data) "multi_key_mode"
            "Vertex AI API Key mode does not support batch creation"
       ++ issue_if (less_than shards one || greater_than shards MAX_HTTP2_CONNECTION_SHARDS)
            "http2_connection_shards" "HTTP/2 connection shards must be between 1 and 8"
       ++ issue_if ((protocol === HTTP_PROTOCOL_HTTP1) && greater_than shards one)
            "http2_connection_shards" "HTTP/2 connection shards must be 1 when HTTP/1.1 is selected").

(** A value of an optional field with the type that the schema declares. *)
Definition optional (check : jsval -> bool) (v : jsval) : bool :=
  match v with JUndefined => true | v => check v end.

Definition one_of (options : list string) (v : jsval) : bool := existsb (is_text v) options.

Definition is_int (v : jsval) : bool := match v with JNum n => is_integer n | _ => false end.

Definition nonnegative (v : jsval) : bool :=
  match v with JNum n => is_finite n && num_leb zero n | _ => false end.

Definition is_price_row (v : jsval) : bool :=
  isJsonObjectValue v && is_string (prop v (js "model"))
  && forallb (fun k => optional nonnegative (prop v (js k))) PRICE_FIELDS.

Definition in_enum (options : list string) (v : option jsstr) : bool :=
  match v with Some s => one_of options (JStr s) | None => true end.

(** The declared types and the checks of the single fields. *)
Definition fields_accepted (data : ChannelFormValues) : bool :=
  nonempty (name data) && is_finite (type data) && num_leb zero (type data) && nonempty (models data)
  && isOptionalModelMapping (model_mapping data)
  && isOptionalStatusCodeMapping (status_code_mapping data)
  && (length (default [] (remark data)) <=? 255)%nat
  && isOptionalJsonObject (setting data) && isOptionalJsonObject (param_override data)
  && isOptionalJsonObject (header_override data) && isOptionalJsonObject (settings data)
  && in_enum ["single"; "batch"; "multi_to_single"]%string (multi_key_mode data)
  && in_enum ["random"; "polling"]%string (multi_key_type data)
  && in_enum ["append"; "replace"]%string (key_mode data)
  && forallb (optional is_boolean)
       [force_format data; thinking_to_content data; pass_through_body_enabled data;
        system_prompt_override data]
  && optional is_string (proxy data)
  && isOptionalProxyURL new_URL (match proxy data with JStr s => Some s | _ => None end)
  && optional (one_of ["auto"; "http1"]%string) (http_protocol data)
  && optional is_int (http2_connection_shards data)
  && optional is_string (system_prompt data)
  && forallb is_price_row (default [] (pbr_prices data))
  && optional (one_of ["json"; "api_key"]%string) (vertex_key_type data)
  && optional (one_of ["ak_sk"; "api_key"]%string) (aws_key_type data)
  && optional is_string (azure_responses_version data)
  && in_enum ["openai-chat"; "openai-responses"; "anthropic"; "gemini"]%string (protocol data).

(** [channelFormSchema] accepts the values. *)
Definition schema_accepts (data : ChannelFormValues) : outcome type_error bool :=
  let? issues := superRefine data in
  Ret (fields_accepted data && match issues with [] => true | _ => false end).
End Schema.

(** ** Helpers of the form *)

Definition validateJSON (value : jsstr) : bool :=
  negb (nonempty (trim value)) || (match json_parse value with Some _ => true | None => false end).

Definition validateModelMapping (value : jsstr) : bool :=
  negb (nonempty (trim value)) || validateJSON value.

Definition parseModels (models : jsstr) : list jsstr :=
  List.filter nonempty (map trim (split (ch ",") models)).

Definition formatModels (models : list jsstr) : jsstr := join (js ",") models.

(** ** Edits of an object *)

Definition edit_fields (fs : list (jsstr * jsval)) (e : edit) : list (jsstr * jsval) :=
  match e.2 with Some v => set_field fs e.1 v | None => delete_field fs e.1 end.

Lemma delete_absent {A} (fs : list (jsstr * A)) k : has_key fs k = false -> delete_field fs k = fs.
Proof.
  intros Hk%has_key_not_in. unfold delete_field. apply filter_all. apply Forall_forall.
  intros [k' v] Hin. cbn. apply negb_true_iff, str_eqb_neq. intros ->. apply Hk.
  apply list_elem_of_In, in_map_iff. exists (k, v). split; [done|]. by apply list_elem_of_In.
Qed.

Lemma apply_edits_object es : forall fs,
  apply_edits (JObj fs) es = Ret (JObj (fold_left edit_fields es fs)).
Proof.
  induction es as [|[k [v|]] es IH]; intros fs; [done| |]; cbn [apply_edits apply_edit fst snd obind fold_left].
  - apply IH.
  - unfold edit_fields at 2. cbn [fst snd]. destruct (has_key fs k) eqn:Hk; cbn [obind].
    + apply IH.
    + rewrite delete_absent by done. apply IH.
Qed.

Lemma assoc_edit_fields fs e k :
  assoc (edit_fields fs e) k = if e.1 === k then e.2 else assoc fs k.
Proof. unfold edit_fields. destruct e as [k' [v|]]; cbn; [apply assoc_set_field|apply assoc_delete_field]. Qed.

(** An edited field has the edited value, every other field the old one. *)
Lemma assoc_edits es k : NoDup (map fst es) -> forall fs,
  assoc (fold_left edit_fields es fs) k
  = match assoc es k with Some e => e | None => assoc fs k end.
Proof.
  induction es as [|[k' e] es IH]; intros Hnd fs; [done|]. cbn [map fst] in Hnd.
  apply NoDup_cons in Hnd as [Hnew Hnd]. cbn [fold_left]. rewrite IH, assoc_cons, assoc_edit_fields by done.
  cbn [fst snd]. destruct (str_eqb_spec k' k) as [->|_]; [|done]. by rewrite (assoc_not_key es k Hnew).
Qed.

Lemma assoc_unique {A} (fs : list (jsstr * A)) k v : NoDup (map fst fs) -> (k, v) ∈ fs -> assoc fs k = Some v.
Proof.
  induction fs as [|[k' v'] fs IH]; intros Hnd Hin; [inversion Hin|]. cbn [map fst] in Hnd.
  apply NoDup_cons in Hnd as [Hnew Hnd]. rewrite assoc_cons.
  apply elem_of_cons in Hin as [[= <- <-]|Hin]; [by rewrite str_eqb_refl|].
  destruct (str_eqb_spec k' k) as [->|_]; [|by apply IH]. destruct Hnew.
  apply list_elem_of_In, in_map_iff. exists (k, v). split; [done|]. by apply list_elem_of_In.
Qed.

Lemma replace_same {A} (fs : list (jsstr * A)) k v : assoc fs k = Some v -> replace_field fs k v = fs.
Proof.
  induction fs as [|[k' v'] fs IH]; [done|]. rewrite assoc_cons. cbn. destruct (str_eqb_spec k' k) as [->|_].
  - by intros [= ->].
  - intros H. by rewrite IH.
Qed.

(** Edits that are already made change nothing. *)
Lemma edits_done fs es : Forall (fun e : edit => assoc fs e.1 = e.2) es -> fold_left edit_fields es fs = fs.
Proof.
  induction 1 as [|[k [v|]] es He _ IH]; [done| |]; cbn [fold_left edit_fields fst snd] in *.
  - unfold set_field, has_key. by rewrite He, replace_same.
  - rewrite delete_absent; [done|]. unfold has_key. by rewrite He.
Qed.

Lemma Forall_assoc (P : jsval -> Prop) fs k v :
  Forall (fun kv => P kv.2) fs -> assoc fs k = Some v -> P v.
Proof. rewrite Forall_forall. intros H Hk%assoc_in. exact (H _ Hk). Qed.

Lemma storable_edits es : forall fs,
  storable (JObj fs) -> Forall (fun e : edit => match e.2 with Some v => storable v | None => True end) es ->
  storable (JObj (fold_left edit_fields es fs)).
Proof.
  induction es as [|[k [v|]] es IH]; intros fs Hfs Hes; [done| |]; inversion Hes; subst; cbn [fold_left];
    (apply IH; [|done]); inversion Hfs as [| | | | |? Ho Hall]; subst; constructor; cbn.
  - by apply in_order_set.
  - by apply Forall_set_field.
  - by apply in_order_delete.
  - by apply Forall_filter_list.
Qed.

(** The managed keys are distinct. *)
Lemma settings_edits_keys formData obj : NoDup (map fst (settings_edits formData obj)).
Proof.
  apply NoDup_keys. unfold settings_edits, upstream_edits, advanced_custom_edits.
  destruct (type_in MODEL_FETCHABLE_TYPES (type formData)), (is_type (type formData) CHANNEL_TYPE_ADVANCED_CUSTOM);
    [destruct (parseAdvancedCustomConfig _)|..|destruct (parseAdvancedCustomConfig _)|];
    try destruct (negb (is_array _) || _); try destruct (negb (is_number _)); vm_compute; reflexivity.
Qed.
