(* ===== verification/ChannelSave.v ===== *)
(** * Saving a channel and opening it again ([features/channels/lib/channel-form.ts])

    What the form of [ChannelForm] stores is read back by the form: the objects of
    [setting] and [settings] survive printing and parsing, the edits of an object
    that was saved before change nothing, and a saved form that is opened and saved
    again sends the same payload. *)

From S2P Require Import Prelude JsString JsNumber JsValue JsJson JsonRoundtrip AdvancedCustom ChannelForm.

(** ** Stored values *)

(** Absent, or something JSON holds. *)
Definition maybe_storable (v : jsval) : Prop := v = JUndefined \/ storable v.

Lemma prop_storable v k : storable v -> maybe_storable (prop v k).
Proof.
  intros Hv. unfold maybe_storable, prop, own. destruct v as [| | | | | |fs]; cbn; try by left.
  inversion Hv as [| | | | |? _ Hfs]; subst. destruct (assoc fs k) as [x|] eqn:Hx; [right|by left].
  cbn. by apply (Forall_assoc storable fs k x).
Qed.

Lemma js_or_storable v d : maybe_storable v -> storable d -> storable (js_or v d).
Proof. intros [->|Hv] Hd; unfold js_or; [done|]. by destruct (truthy v). Qed.

(** A route whose authentication the validation accepts. *)
Lemma storable_auth auth a : storable auth -> normalize_auth auth = Some a ->
  validateRouteAuth a = Ret None -> storable a.
Proof.
  unfold normalize_auth. destruct (truthy auth); [|done]. intros Hs [= <-] Hv.
  apply storable_literal; [by vm_compute|]. each_field.
  - destruct (prop_storable auth (js "type") Hs) as [Hu|]; [|done]. exfalso. revert Hv.
    unfold validateRouteAuth. cbn [truthy negb]. change (prop (JObj ((js "type", ?t) :: _)) (js "type")) with t.
    by rewrite Hu.
  - apply js_or_storable; [by apply prop_storable|constructor].
  - apply js_or_storable; [by apply prop_storable|constructor].
Qed.

Lemma storable_texts ms : storable (JArr (map JStr ms)).
Proof. constructor. induction ms; constructor; [constructor|done]. Qed.

Lemma storable_route i u c ms a : storable i -> storable c -> from_option storable True a ->
  storable (route_value i u c ms a).
Proof.
  intros Hi Hc Ha. assert (Hms : storable (JArr (map JStr ms))) by apply storable_texts.
  destruct ms as [|m ms], a as [a|]; apply storable_literal; try (by vm_compute); each_field.
Qed.

Section Stored_config.
Context (parse_url : jsstr -> option (jsstr * jsstr)).

(** What a turn of the validation accepts has an acceptable authentication. *)
Lemma check_route_auth index r s s' :
  check_route parse_url index r s = Ret (inr s') -> validateRouteAuth (prop r (js "auth")) = Ret None.
Proof.
  unfold check_route. intros H.
  repeat match goal with
         | H : obind _ _ = Ret _ |- _ => apply obind_Ret_inv in H as (? & ? & H)
         | H : (if ?b then _ else _) = Ret _ |- _ => destruct b; try discriminate H
         | H : match ?x with _ => _ end = Ret _ |- _ => destruct x eqn:?; try discriminate H
         end; congruence.
Qed.

Lemma check_routes_auth rs : forall index s,
  check_routes parse_url index rs s = Ret None ->
  Forall (fun r => validateRouteAuth (prop r (js "auth")) = Ret None) rs.
Proof.
  induction rs as [|r rs IH]; intros index s; cbn [check_routes]; [constructor|].
  intros (checked & Hr & H)%obind_Ret_inv. destruct checked as [m|s']; [done|].
  constructor; [by apply (check_route_auth index r s s')|by apply (IH (S index) s')].
Qed.

Lemma storable_normalized route r : storable route -> normalizeAdvancedCustomRoute route = Ret r ->
  validateRouteAuth (prop r (js "auth")) = Ret None -> storable r.
Proof.
  intros Hs. unfold normalizeAdvancedCustomRoute, get_field.
  destruct (is_nullish route); [done|]. cbn [obind].
  intros (u & _ & H)%obind_Ret_inv. apply obind_Ret_inv in H as (ms & _ & [= <-]).
  destruct (prop_route_value (js_or (prop route (js "incoming_path")) (JStr [])) u
    (js_or (prop route (js "converter")) (JStr (js "none"))) ms (normalize_auth (prop route (js "auth"))))
    as (_ & _ & _ & _ & ->).
  intros Hauth. apply storable_route.
  - apply js_or_storable; [by apply prop_storable|constructor].
  - apply js_or_storable; [by apply prop_storable|constructor].
  - destruct (normalize_auth _) as [a|] eqn:Ha; [|done]. cbn in Hauth |- *.
    destruct (prop_storable route (js "auth") Hs) as [Hu|Hp]; [by rewrite Hu in Ha|].
    by apply (storable_auth _ _ Hp Ha).
Qed.

(** A configuration that is parsed and accepted can be stored; it is in normal form. *)
Lemma parsed_config_storable t parsed config :
  json_parse t = Some parsed -> storable parsed -> parseAdvancedCustomConfig (Some t) = Some config ->
  validateAdvancedCustomConfig parse_url (Some config) = Ret None ->
  storable config /\ normalizeAdvancedCustomConfig config = Ret config /\ exists fs, config = JObj fs.
Proof.
  unfold parseAdvancedCustomConfig. intros Hparse Hs. destruct (negb _); [done|]. rewrite Hparse.
  destruct (_ || _); [done|]. unfold normalizeAdvancedCustomConfig at 1.
  destruct (normalized_routes parsed) as [rs| |] eqn:Hrs; [|done..]. cbn [obind]. intros [= <-] Hv.
  pose proof (normalized_routes_normal parsed rs Hrs) as Hnormal.
  pose proof (normalized_routes_fixed rs Hnormal) as Hfixed.
  unfold validateAdvancedCustomConfig in Hv. rewrite Hfixed in Hv. cbn [obind] in Hv.
  assert (Hauth : Forall (fun r => validateRouteAuth (prop r (js "auth")) = Ret None) rs)
    by (destruct rs; [discriminate Hv|by apply (check_routes_auth _ 0%nat initial_loop)]).
  split_and!; [|unfold normalizeAdvancedCustomConfig; by rewrite Hfixed|by eexists].
  apply storable_literal; [by vm_compute|]. each_field. constructor.
  clear Hfixed Hnormal Hv. unfold normalized_routes, get_field in Hrs.
  destruct (is_nullish parsed); [done|]. cbn [obind] in Hrs.
  destruct (prop_storable parsed (js "advanced_routes") Hs) as [Hu|Hr]; [rewrite Hu in Hrs; by injection Hrs as <-|].
  destruct (prop parsed (js "advanced_routes")) as [| | | | |items|]; try (injection Hrs as <-; constructor).
  inversion Hr as [| | | |? Hitems|]; subst. apply omapM_Ret in Hrs.
  induction Hrs as [|x r items rs Hx _ IH]; [constructor|]. inversion Hauth; inversion Hitems; subst.
  constructor; [by apply (storable_normalized x)|apply IH; [done|by constructor|done]].
Qed.
End Stored_config.

(** ** Saving and reopening *)

Lemma trim_elem c s : c ∈ trim s -> c ∈ s.
Proof.
  assert (Hd : forall p s, c ∈ drop_while p s -> c ∈ s).
  { intros p s'. rewrite <- (take_drop_while p s') at 2. set_solver. }
  assert (Hr : forall s, c ∈ rev s -> c ∈ s).
  { intros s'. rewrite !list_elem_of_In. apply in_rev. }
  intros H%Hr%Hd%Hr. by apply (Hd is_space).
Qed.

(** The list of models is read back from its text. *)
Lemma ignored_models_again s :
  parse_ignored_models (Some (string_of_val (JArr (map JStr (parse_ignored_models s))))) = parse_ignored_models s.
Proof.
  set (ms := parse_ignored_models s).
  assert (Hms : Forall (fun m => trim m = m /\ nonempty m = true /\ ch "," ∉ m) ms).
  { apply Forall_forall. intros m Hm. unfold ms, parse_ignored_models in Hm.
    apply elem_of_dedupe, list_elem_of_In, filter_In in Hm as [(p & <- & Hp)%in_map_iff Hne].
    split_and!; [apply trim_idemp|done|]. intros Hc%trim_elem.
    by apply (split_no_sep (ch ",") (default [] s) p); [apply list_elem_of_In|]. }
  assert (Htext : string_of_val (JArr (map JStr ms)) = join [ch ","] ms).
  { cbn [string_of_val]. rewrite map_map. cbn. f_equal. apply map_id. }
  rewrite Htext. unfold parse_ignored_models at 1. cbn [default from_option Datatypes.id].
  assert (Hnd : dedupe ms = ms) by apply dedupe_idemp. clearbody ms. clear Htext s.
  destruct ms as [|m ms'] eqn:Heq; [by vm_compute|]. rewrite <- Heq in *.
  rewrite split_join; [|by subst|eapply Forall_impl; [exact Hms|]; by intros x (_ & _ & ?)].
  assert (Hid : List.filter nonempty (map trim ms) = ms).
  { clear Hnd Heq. induction Hms as [|x l (Hx & Hne & _) _ IH]; [done|]. cbn [map List.filter].
    by rewrite Hx, Hne, IH. }
  by rewrite Hid.
Qed.

(** A form value that holds a text. *)
Definition typed (check : jsval -> bool) (v : jsval) : Prop := v = JUndefined \/ check v = true.

Lemma optional_typed check v : optional check v = true -> typed check v.
Proof. unfold typed. destruct v; (by left) || (by right). Qed.

Lemma edit_if_ext cond k v v' : (cond = true -> v = v') -> edit_if cond k v = edit_if cond k v'.
Proof. unfold edit_if. destruct cond; [|done]. by intros ->. Qed.

Lemma strict_eq_bool b : strict_eq (JBool b) (JBool true) = b.
Proof. by destruct b. Qed.

Section Reopened.
Context (data : ChannelFormValues) (old : jsval) (gs : list (jsstr * jsval)) (c : Channel).
Context (Hgs : forall k, assoc gs k = match assoc (settings_edits data old) k with
                                      | Some e => e
                                      | None => own old k
                                      end).
Context (Htype : c_type c = type data) (Hparsed : parsed_fields (Some (c_settings c)) = Some (JObj gs)).

Let data' := transformChannelToFormDefaults c.

Lemma Hedited k e : (k, e) ∈ settings_edits data old -> assoc gs k = e.
Proof. intros He. by rewrite Hgs, (assoc_unique _ k e (settings_edits_keys data old) He). Qed.

Lemma reopened_type : type data' = type data.
Proof. exact Htype. Qed.

Lemma reopened_prop k e : (js k, e) ∈ settings_edits data old -> prop (JObj gs) (js k) = default JUndefined e.
Proof. intros He. unfold prop, own. by rewrite (Hedited _ _ He). Qed.

Lemma reopened_fields : default (JObj []) (parsed_fields (Some (c_settings c))) = JObj gs.
Proof. by rewrite Hparsed. Qed.

Lemma in_type_edits e : e ∈ type_edits data -> e ∈ settings_edits data old.
Proof. unfold settings_edits. rewrite elem_of_app. by left. Qed.

(** A flag is read back as it was written. *)
Lemma flag_again cond k b : edit_if cond k (JBool (is_some_true b)) ∈ type_edits data ->
  edit_if cond k (JBool (is_some_true (Some (is_true (JObj gs) k)))) = edit_if cond k (JBool (is_some_true b)).
Proof.
  intros Hin%in_type_edits. apply edit_if_ext. intros ->. unfold is_true.
  rewrite (reopened_prop _ _ Hin). cbn [edit_if default from_option Datatypes.id]. rewrite strict_eq_bool.
  by destruct (is_some_true b).
Qed.

(** A text with a default is read back as it was written. *)
Lemma option_again cond k v d : truthy d = true -> edit_if cond k (js_or v d) ∈ type_edits data ->
  edit_if cond k (js_or (field_or (JObj gs) k d) d) = edit_if cond k (js_or v d).
Proof.
  intros Hd Hin%in_type_edits. apply edit_if_ext. intros ->. unfold field_or.
  rewrite (reopened_prop _ _ Hin). cbn [edit_if default from_option Datatypes.id].
  by rewrite !(js_or_self (js_or _ _)) by (repeat apply js_or_truthy; done).
Qed.

Lemma type_edits_again : in_enum ["openai-chat"; "openai-responses"; "anthropic"; "gemini"]%string (protocol data) = true ->
  type_edits data' = type_edits data.
Proof.
  intros Hprotocol.
  assert (Hin : forall e, e ∈ type_edits data -> e ∈ type_edits data) by done.
  unfold type_edits at 1. rewrite reopened_type. subst data'. cbn [vertex_key_type azure_responses_version protocol
    is_enterprise_account aws_key_type allow_service_tier disable_store allow_safety_identifier
    allow_include_obfuscation allow_inference_geo allow_speed claude_beta_query transformChannelToFormDefaults].
  rewrite !reopened_fields.
  assert (Hmem : forall n e, type_edits data !! n = Some e -> e ∈ type_edits data)
    by (intros n e; apply list_elem_of_lookup_2).
  rewrite (option_again _ "vertex_key_type" (vertex_key_type data)) by (done || by apply (Hmem 0%nat)).
  rewrite (option_again _ "aws_key_type" (aws_key_type data)) by (done || by apply (Hmem 4%nat)).
  rewrite (flag_again _ "openrouter_enterprise" (is_enterprise_account data)) by by apply (Hmem 3%nat).
  rewrite (flag_again _ "allow_service_tier" (allow_service_tier data)) by by apply (Hmem 5%nat).
  rewrite (flag_again _ "disable_store" (disable_store data)) by by apply (Hmem 6%nat).
  rewrite (flag_again _ "allow_safety_identifier" (allow_safety_identifier data)) by by apply (Hmem 7%nat).
  rewrite (flag_again _ "allow_include_obfuscation" (allow_include_obfuscation data)) by by apply (Hmem 8%nat).
  rewrite (flag_again _ "allow_inference_geo" (allow_inference_geo data)) by by apply (Hmem 9%nat).
  rewrite (flag_again _ "allow_speed" (allow_speed data)) by by apply (Hmem 10%nat).
  rewrite (flag_again _ "claude_beta_query" (claude_beta_query data)) by by apply (Hmem 11%nat).
  pose proof (reopened_prop "azure_responses_version" _ (in_type_edits _ (Hmem 1%nat _ eq_refl))) as Hazure.
  pose proof (reopened_prop "protocol" _ (in_type_edits _ (Hmem 2%nat _ eq_refl))) as Hproto.
  unfold type_edits. f_equal. f_equal; [|f_equal].
  - unfold field_or. rewrite Hazure. unfold edit_if. destruct (is_type _ 3); cbn [andb]; [|done].
    destruct (truthy (azure_responses_version data)) eqn:Ht; [|done]. cbn [default from_option Datatypes.id].
    rewrite js_or_self by done. by rewrite Ht.
  - rewrite Hproto. unfold edit_if. destruct (protocol data) as [p|] eqn:Hp; [|done].
    destruct (nonempty p) eqn:Hne; [|done]. cbn [default from_option Datatypes.id].
    assert (Hch : isChannelProtocol (JStr p) = true).
    { unfold in_enum, one_of, is_text in Hprotocol. exact Hprotocol. }
    rewrite Hch. cbn [string_of_val]. by rewrite Hne.
Qed.

Lemma type_edits_done : in_enum ["openai-chat"; "openai-responses"; "anthropic"; "gemini"]%string (protocol data) = true ->
  Forall (fun e : edit => assoc gs e.1 = e.2) (type_edits data').
Proof.
  intros Hp. rewrite type_edits_again by done. apply Forall_forall. intros [k e] He.
  by apply Hedited, in_type_edits.
Qed.

(** The fields that only some saves write. *)
Definition resets_detected : bool :=
  type_in MODEL_FETCHABLE_TYPES (type data)
  && (negb (is_array (prop old (js "upstream_model_update_last_detected_models")))
      || negb (is_some_true (upstream_model_update_check_enabled data))).

Definition resets_time : bool :=
  type_in MODEL_FETCHABLE_TYPES (type data)
  && negb (is_number (prop old (js "upstream_model_update_last_check_time"))).

Lemma detected_edit :
  assoc (settings_edits data old) (js "upstream_model_update_last_detected_models")
  = if resets_detected then Some (Some (JArr [])) else None.
Proof.
  unfold settings_edits, upstream_edits, advanced_custom_edits, resets_detected.
  destruct (type_in MODEL_FETCHABLE_TYPES (type data)), (is_type (type data) CHANNEL_TYPE_ADVANCED_CUSTOM);
    [destruct (parseAdvancedCustomConfig _)|..|destruct (parseAdvancedCustomConfig _)|];
    try destruct (negb (is_array _) || _); try destruct (negb (is_number _)); vm_compute; reflexivity.
Qed.

Lemma time_edit :
  assoc (settings_edits data old) (js "upstream_model_update_last_check_time")
  = if resets_time then Some (Some (JNum zero)) else None.
Proof.
  unfold settings_edits, upstream_edits, advanced_custom_edits, resets_time.
  destruct (type_in MODEL_FETCHABLE_TYPES (type data)), (is_type (type data) CHANNEL_TYPE_ADVANCED_CUSTOM);
    [destruct (parseAdvancedCustomConfig _)|..|destruct (parseAdvancedCustomConfig _)|];
    try destruct (negb (is_array _) || _); try destruct (negb (is_number _)); vm_compute; reflexivity.
Qed.

Lemma in_upstream_edits e : e ∈ upstream_edits data old -> e ∈ settings_edits data old.
Proof. unfold settings_edits. rewrite !elem_of_app. tauto. Qed.

(** The first three fields are read back as they were written. *)
Lemma upstream_flags_again : type_in MODEL_FETCHABLE_TYPES (type data) = true ->
  Forall (fun e : edit => assoc gs e.1 = e.2) (upstream_flags data)
  /\ upstream_flags data' = upstream_flags data
  /\ is_some_true (upstream_model_update_check_enabled data')
     = is_some_true (upstream_model_update_check_enabled data).
Proof.
  intros Hf.
  assert (Hall : Forall (fun e : edit => assoc gs e.1 = e.2) (upstream_flags data)).
  { apply Forall_forall. intros [k e] He. apply Hedited, in_upstream_edits. unfold upstream_edits.
    rewrite Hf, elem_of_app. by left. }
  split; [done|]. unfold upstream_flags in *. inversion Hall as [|? ? H0 Hall0]; subst.
  inversion Hall0 as [|? ? H1 Hall1]; subst. inversion Hall1 as [|? ? H2 _]; subst. clear Hall Hall0 Hall1.
  cbn [fst snd] in H0, H1, H2.
  set (checked := is_some_true (upstream_model_update_check_enabled data)) in *.
  set (synced := is_some_true (upstream_model_update_auto_sync_enabled data)) in *.
  assert (Hc : is_some_true (upstream_model_update_check_enabled data') = checked).
  { subst data'. cbn [upstream_model_update_check_enabled transformChannelToFormDefaults].
    rewrite reopened_fields. unfold is_true, prop, own. rewrite H0. cbn. by destruct checked. }
  assert (Hs : is_some_true (upstream_model_update_auto_sync_enabled data') = checked && synced).
  { subst data'. cbn [upstream_model_update_auto_sync_enabled transformChannelToFormDefaults].
    rewrite reopened_fields. unfold is_true, prop, own. rewrite H1. cbn. by destruct checked, synced. }
  assert (Hm : parse_ignored_models (upstream_model_update_ignored_models data')
               = parse_ignored_models (upstream_model_update_ignored_models data)).
  { subst data'. cbn [upstream_model_update_ignored_models transformChannelToFormDefaults].
    rewrite reopened_fields. unfold joined_list, prop, own. rewrite H2. apply ignored_models_again. }
  split; [|done]. rewrite Hc, Hs, Hm. by destruct checked.
Qed.

Lemma upstream_edits_done : Forall (fun e : edit => assoc gs e.1 = e.2) (upstream_edits data' (JObj gs)).
Proof.
  unfold upstream_edits. rewrite reopened_type.
  destruct (type_in MODEL_FETCHABLE_TYPES (type data)) eqn:Hf; [|constructor].
  destruct (upstream_flags_again Hf) as (Hall & -> & ->). rewrite !Forall_app. split_and!; [exact Hall| |].
  - destruct (_ || _) eqn:Hcond; [|constructor]. constructor; [|constructor]. cbn [fst snd].
    rewrite Hgs, detected_edit. destruct resets_detected eqn:Hr; [done|]. exfalso.
    unfold prop, own in Hcond. rewrite Hgs, detected_edit, Hr in Hcond. unfold resets_detected in Hr.
    rewrite Hf in Hr. cbn [andb] in Hr. unfold prop in Hr. congruence.
  - destruct (negb _) eqn:Hcond; [|constructor]. constructor; [|constructor]. cbn [fst snd].
    rewrite Hgs, time_edit. destruct resets_time eqn:Hr; [done|]. exfalso.
    unfold prop, own in Hcond. rewrite Hgs, time_edit, Hr in Hcond. unfold resets_time in Hr.
    rewrite Hf in Hr. cbn [andb] in Hr. unfold prop in Hr. congruence.
Qed.

(** The configuration of a custom channel is read back. *)
Lemma advanced_edits_done :
  (forall config, is_type (type data) CHANNEL_TYPE_ADVANCED_CUSTOM = true ->
     parseAdvancedCustomConfig (advanced_custom data) = Some config ->
     storable config /\ normalizeAdvancedCustomConfig config = Ret config /\ exists fs, config = JObj fs) ->
  (is_type (type data) CHANNEL_TYPE_ADVANCED_CUSTOM = true ->
     parseAdvancedCustomConfig (advanced_custom data) <> None) ->
  Forall (fun e : edit => assoc gs e.1 = e.2) (advanced_custom_edits data').
Proof.
  intros Hconfig Hsome. unfold advanced_custom_edits. rewrite reopened_type.
  assert (Hin : forall e, e ∈ advanced_custom_edits data -> e ∈ settings_edits data old)
    by (intros e; unfold settings_edits; rewrite !elem_of_app; tauto).
  unfold advanced_custom_edits in Hin.
  destruct (is_type (type data) CHANNEL_TYPE_ADVANCED_CUSTOM); [|repeat constructor; apply Hedited, Hin; by left].
  destruct (parseAdvancedCustomConfig (advanced_custom data)) as [config|] eqn:Hp; [|by destruct Hsome].
  destruct (Hconfig config eq_refl eq_refl) as (Hs & Hn & fs & Hfs).
  assert (He := Hedited _ _ (Hin _ ltac:(by left))).
  assert (Hagain : parseAdvancedCustomConfig (advanced_custom data') = Some config).
  { subst data'. cbn [advanced_custom transformChannelToFormDefaults]. rewrite reopened_fields.
    unfold shown_advanced_custom, prop, own. rewrite He. cbn [default from_option Datatypes.id].
    assert (Ht : truthy config = true) by by rewrite Hfs. rewrite Ht.
    unfold stringifyAdvancedCustomConfig. rewrite Hn. cbn [obind].
    destruct (storable_prints config (js "  ") [] Hs) as (text & Htext). rewrite Htext.
    cbn [default from_option Datatypes.id]. unfold parseAdvancedCustomConfig.
    rewrite (printed_not_blank config (js "  ") [] text Hs Htext). cbn [negb].
    rewrite (json_parse_stringify_gap config (js "  ") text Hs eq_refl Htext), Ht, Hn.
    by rewrite Hfs. }
  rewrite Hagain. repeat constructor. exact He.
Qed.
End Reopened.

(** ** The [setting] object *)

Lemma js_or_bool v : optional is_boolean v = true -> exists b, js_or v no = JBool b.
Proof. destruct v as [| |[]| | | |]; try done; intros _; by eexists. Qed.

Lemma js_or_text v : optional is_string v = true -> exists s, js_or v (JStr []) = JStr s.
Proof. destruct v as [| | | |[|c s]| |]; try done; intros _; by eexists. Qed.

Lemma trimmed_text v s : trim_or_empty v = Ret s -> trim s = s.
Proof.
  unfold trim_or_empty, str_trim. destruct v; cbn; try done; intros [= <-]; try done. apply trim_idemp.
Qed.

Lemma normal_protocol v : normalizeHttpProtocol v = HTTP_PROTOCOL_HTTP1 \/ normalizeHttpProtocol v = HTTP_PROTOCOL_AUTO.
Proof. unfold normalizeHttpProtocol. destruct (_ === _); [by left|by right]. Qed.

Lemma normal_shards_idemp v :
  normalizeHttp2ConnectionShards (normalizeHttp2ConnectionShards v) = normalizeHttp2ConnectionShards v.
Proof.
  unfold normalizeHttp2ConnectionShards at 2 3.
  destruct (_ || _) eqn:Hdefault; [by vm_compute|]. destruct (less_than v one) eqn:Hlow; [by vm_compute|].
  destruct (greater_than v MAX_HTTP2_CONNECTION_SHARDS) eqn:Hhigh; [by vm_compute|].
  unfold normalizeHttp2ConnectionShards. by rewrite Hdefault, Hlow, Hhigh.
Qed.

(** A row as it is stored. *)
Definition stored_row (r : jsval) : Prop := channel_price r = Ret [r].

Lemma price_given item k : is_nullish (price_or_zero item k) = false.
Proof. unfold price_or_zero. by destruct (is_nullish (prop item (js k))) eqn:H. Qed.

Lemma channel_price_stored item rows : channel_price item = Ret rows -> Forall stored_row rows.
Proof.
  unfold channel_price. intros (m & _ & H)%obind_Ret_inv. apply obind_Ret_inv in H as (model & Hmodel & [= <-]).
  destruct (nonempty model && _) eqn:Hkept; [|constructor]. apply andb_prop in Hkept as [Hne _].
  assert (Htrim : trim model = model).
  { unfold str_trim in Hmodel. destruct m; try done. injection Hmodel as <-. apply trim_idemp. }
  repeat constructor. unfold stored_row, channel_price. cbn [map PRICE_FIELDS].
  set (i := price_or_zero item "input"). set (o := price_or_zero item "output").
  set (r := price_or_zero item "cache_read"). set (w := price_or_zero item "cache_write").
  assert (Hi : is_nullish i = false) by apply price_given. assert (Ho : is_nullish o = false) by apply price_given.
  assert (Hr : is_nullish r = false) by apply price_given. assert (Hw : is_nullish w = false) by apply price_given.
  set (row := JObj _).
  change (get_field row (js "model")) with (@Ret type_error _ (JStr model)). cbn [obind str_trim]. rewrite Htrim, Hne.
  unfold price_or_zero. cbn [existsb PRICE_FIELDS].
  change (prop row (js "input")) with i. change (prop row (js "output")) with o.
  change (prop row (js "cache_read")) with r. change (prop row (js "cache_write")) with w.
  rewrite Hi, Ho, Hr, Hw. assert (Hu : is_undefined i = false) by by destruct i. by rewrite Hu.
Qed.

Lemma prices_stored prices rows : channelPrices prices = Ret rows -> channelPrices (Some rows) = Ret rows.
Proof.
  unfold channelPrices. intros (parts & Hparts & [= <-])%obind_Ret_inv. apply omapM_Ret in Hparts.
  cbn [default from_option Datatypes.id].
  assert (Hall : Forall stored_row (concat parts)).
  { clear -Hparts. induction Hparts as [|x y xs ys Hx _ IH]; cbn [concat]; [constructor|].
    apply Forall_app. split; [by apply (channel_price_stored x)|done]. }
  assert (Hrows : omapM channel_price (concat parts) = Ret (map (fun r => [r]) (concat parts))).
  { apply omapM_Ret. induction Hall; constructor; done. }
  rewrite Hrows. cbn [obind]. f_equal. clear. induction (concat parts); [done|]. cbn. by f_equal.
Qed.

(** The declared types that saving relies on. *)
Definition setting_typed (data : ChannelFormValues) : Prop :=
  Forall (fun v => optional is_boolean v = true)
    [force_format data; thinking_to_content data; pass_through_body_enabled data; system_prompt_override data]
  /\ optional is_string (system_prompt data) = true.

(** The [setting] object, whatever its values. *)
Definition setting_fields (ff tc p pt sp so : jsval) (prices : list jsval) (http1 : bool) (shards : jsval)
    : list (jsstr * jsval) :=
  [(js "force_format", ff); (js "thinking_to_content", tc); (js "proxy", p);
   (js "pass_through_body_enabled", pt); (js "system_prompt", sp); (js "system_prompt_override", so)]
  ++ (match prices with [] => [] | _ => [(js "pbr_prices", JArr prices)] end)
  ++ (if http1 then [(js "http_protocol", JStr HTTP_PROTOCOL_HTTP1)]
      else if greater_than shards one then [(js "http2_connection_shards", shards)] else []).

Section Setting_fields.
Context (ff tc p pt sp so : jsval) (prices : list jsval) (http1 : bool) (shards : jsval).
Let fs := setting_fields ff tc p pt sp so prices http1 shards.

Lemma setting_props :
  prop (JObj fs) (js "force_format") = ff /\ prop (JObj fs) (js "thinking_to_content") = tc
  /\ prop (JObj fs) (js "proxy") = p /\ prop (JObj fs) (js "pass_through_body_enabled") = pt
  /\ prop (JObj fs) (js "system_prompt") = sp /\ prop (JObj fs) (js "system_prompt_override") = so
  /\ prop (JObj fs) (js "pbr_prices") = match prices with [] => JUndefined | _ => JArr prices end
  /\ prop (JObj fs) (js "http_protocol") = (if http1 then JStr HTTP_PROTOCOL_HTTP1 else JUndefined)
  /\ prop (JObj fs) (js "http2_connection_shards")
     = if negb http1 && greater_than shards one then shards else JUndefined.
Proof.
  subst fs. unfold setting_fields.
  destruct prices as [|r rs], http1, (greater_than shards one); repeat split; reflexivity.
Qed.

Lemma setting_storable :
  Forall storable [ff; tc; p; pt; sp; so; JArr prices] ->
  (greater_than shards one = true -> storable shards) -> storable (JObj fs).
Proof.
  intros Hall Hshards. repeat (apply Forall_cons in Hall as [? Hall]). subst fs. unfold setting_fields.
  destruct prices as [|r rs], http1, (greater_than shards one);
    (apply storable_literal; [by vm_compute|]); each_field; by apply Hshards.
Qed.
End Setting_fields.

Lemma setting_object_fields data fs : setting_object data = Ret fs ->
  exists p prices,
    trim_or_empty (proxy data) = Ret p /\ channelPrices (pbr_prices data) = Ret prices
    /\ fs = setting_fields (js_or (force_format data) no) (js_or (thinking_to_content data) no) (JStr p)
              (js_or (pass_through_body_enabled data) no) (js_or (system_prompt data) (JStr []))
              (js_or (system_prompt_override data) no) prices
              (normalizeHttpProtocol (http_protocol data) === HTTP_PROTOCOL_HTTP1)
              (shards_of (normalizeHttpProtocol (http_protocol data)) (http2_connection_shards data)).
Proof.
  unfold setting_object. intros (p & Hp & H)%obind_Ret_inv. apply obind_Ret_inv in H as (prices & Hps & [= <-]).
  exists p, prices. by rewrite Hp, Hps.
Qed.

(** The form that is opened on the object stores it again. *)
Lemma setting_again data fs c : setting_object data = Ret fs -> parsed_fields (c_setting c) = Some (JObj fs) ->
  setting_object (transformChannelToFormDefaults c) = Ret fs.
Proof.
  intros Hset Hparsed. apply setting_object_fields in Hset as (p & prices & Hp & Hps & ->).
  set (http1 := normalizeHttpProtocol (http_protocol data) === HTTP_PROTOCOL_HTTP1) in *.
  set (shards := shards_of _ _) in *.
  destruct (setting_props (js_or (force_format data) no) (js_or (thinking_to_content data) no) (JStr p)
              (js_or (pass_through_body_enabled data) no) (js_or (system_prompt data) (JStr []))
              (js_or (system_prompt_override data) no) prices http1 shards)
    as (Hff & Htc & Hpr & Hpt & Hsp & Hso & Hpp & Hhp & Hsh).
  unfold setting_object. unfold transformChannelToFormDefaults. cbn [proxy pbr_prices http_protocol
    http2_connection_shards force_format thinking_to_content pass_through_body_enabled system_prompt
    system_prompt_override]. unfold extraSettings. rewrite Hparsed.
  cbn [x_proxy x_pbr_prices x_http_protocol x_http2_connection_shards x_force_format x_thinking_to_content
    x_pass_through_body_enabled x_system_prompt x_system_prompt_override].
  unfold field_or. rewrite Hff, Htc, Hpr, Hpt, Hsp, Hso, Hpp, Hhp, Hsh. rewrite !js_or_idemp by done.
  assert (Hproxy : trim_or_empty (js_or (JStr p) (JStr [])) = Ret p).
  { destruct p as [|x p']; [done|]. cbn [js_or truthy nonempty]. unfold js_or. cbn [truthy].
    unfold trim_or_empty, str_trim. cbn [is_nullish]. f_equal. by apply (trimmed_text (proxy data)). }
  rewrite Hproxy. cbn [obind].
  assert (Hprices : channelPrices (Some (match match prices with [] => JUndefined | _ => JArr prices end with
                                         | JArr items => items | _ => [] end)) = Ret prices).
  { destruct prices as [|r rs] eqn:Heq; [done|]. by apply (prices_stored (pbr_prices data)). }
  rewrite Hprices. cbn [obind]. f_equal. unfold setting_fields. f_equal. f_equal.
  assert (Hshards : http1 = false -> shards = normalizeHttp2ConnectionShards (http2_connection_shards data)).
  { subst http1 shards. unfold shards_of. by intros ->. }
  destruct http1; cbn [negb andb]; [by vm_compute|].
  assert (Hone : normalizeHttpProtocol (JStr (normalizeHttpProtocol JUndefined)) === HTTP_PROTOCOL_HTTP1 = false)
    by by vm_compute.
  rewrite Hone. unfold shards_of. rewrite Hone.
  change (normalizeHttpProtocol JUndefined === HTTP_PROTOCOL_HTTP1) with false. cbv iota.
  rewrite normal_shards_idemp. destruct (greater_than shards one) eqn:Hgt.
  - rewrite Hshards by done. rewrite normal_shards_idemp. by rewrite <- Hshards, Hgt.
  - change (greater_than (normalizeHttp2ConnectionShards JUndefined) one) with false. done.
Qed.

Lemma numbers_read_back_prop v k : numbers_read_back v = true -> numbers_read_back (prop v k) = true.
Proof.
  intros Hv. unfold prop, own. destruct v as [| | | | | |fs]; cbn; try done. cbn in Hv.
  destruct (assoc fs k) as [x|] eqn:Hx; [|done]. apply assoc_in in Hx. rewrite forallb_forall in Hv.
  by apply (Hv (k, x)), list_elem_of_In.
Qed.

Lemma storable_number n : numbers_read_back (JNum n) = true -> storable (JNum n).
Proof. intros Hn. constructor. by apply numbers_read_back_num. Qed.

Lemma storable_price item k : optional nonnegative (prop item (js k)) = true -> numbers_read_back item = true ->
  storable (price_or_zero item k).
Proof.
  intros Hopt Hitem%(numbers_read_back_prop _ (js k)). unfold price_or_zero.
  destruct (prop item (js k)) as [| | |n| | |]; try done; [|by apply storable_number].
  by apply storable_number.
Qed.

Lemma storable_rows item rows : is_price_row item = true -> numbers_read_back item = true ->
  channel_price item = Ret rows -> Forall storable rows.
Proof.
  unfold is_price_row, channel_price. intros [_ Hprices]%andb_prop Hitem.
  intros (m & _ & H)%obind_Ret_inv. apply obind_Ret_inv in H as (model & _ & [= <-]).
  destruct (nonempty model && _); [|constructor]. rewrite forallb_forall in Hprices.
  apply Forall_cons_2; [|constructor]. apply storable_literal; [by vm_compute|].
  cbn [map PRICE_FIELDS]. each_field; apply storable_price; try done; apply Hprices; cbn; tauto.
Qed.

Lemma storable_prices prices rows : forallb is_price_row (default [] prices) = true ->
  numbers_read_back (JArr (default [] prices)) = true -> channelPrices prices = Ret rows -> storable (JArr rows).
Proof.
  unfold channelPrices. intros Hrow Hnum (parts & Hparts & [= <-])%obind_Ret_inv. apply omapM_Ret in Hparts.
  constructor. cbn [numbers_read_back] in Hnum. revert Hrow Hnum.
  induction Hparts as [|x y xs ys Hx _ IH]; [constructor|]. cbn [forallb concat].
  intros [Hr Hrs]%andb_prop [Hn Hns]%andb_prop. apply Forall_app. split; [by apply (storable_rows x)|by apply IH].
Qed.

Lemma storable_shards v : optional is_int v = true -> numbers_read_back v = true ->
  storable (normalizeHttp2ConnectionShards v).
Proof.
  intros Hint Hnum. unfold normalizeHttp2ConnectionShards.
  destruct (_ || _) eqn:Hd; [by apply storable_number|]. destruct (less_than v one); [by apply storable_number|].
  destruct (greater_than v _); [by apply storable_number|].
  destruct v; try done; by apply storable_number.
Qed.

(** The object that an accepted form stores. *)
Lemma setting_stored data fs : setting_object data = Ret fs -> setting_typed data ->
  forallb is_price_row (default [] (pbr_prices data)) = true ->
  optional is_int (http2_connection_shards data) = true ->
  numbers_read_back (JArr (default [] (pbr_prices data))) = true ->
  numbers_read_back (http2_connection_shards data) = true -> storable (JObj fs).
Proof.
  intros Hset (Hbools & Hprompt) Hrows Hint Hprices Hshards.
  apply setting_object_fields in Hset as (p & prices & _ & Hps & ->).
  apply setting_storable.
  - repeat (apply Forall_cons in Hbools as [?%js_or_bool Hbools]).
    repeat match goal with H : exists b, js_or _ no = _ |- _ => destruct H as (? & ->) end.
    destruct (js_or_text _ Hprompt) as (s & ->). repeat (apply Forall_cons_2; [try (by constructor)|]); [|done].
    by apply (storable_prices (pbr_prices data)).
  - intros _. unfold shards_of. destruct (_ === _); [by apply storable_number|by apply storable_shards].
Qed.

(** ** The [settings] object *)

Lemma storable_option cond k v d : optional is_string v = true -> storable d ->
  match (edit_if cond k (js_or v d)).2 with Some v => storable v | None => True end.
Proof.
  intros Hv Hd. destruct cond; cbn; [|done]. apply js_or_storable; [|done].
  unfold maybe_storable. destruct v; try done; [by left|right; constructor].
Qed.

Lemma one_of_string options v : optional (one_of options) v = true -> optional is_string v = true.
Proof.
  destruct v; cbn; try done; unfold one_of; intros H; apply existsb_exists in H as (o & _ & Ho); done.
Qed.

Definition settings_typed (data : ChannelFormValues) : Prop :=
  optional is_string (vertex_key_type data) = true /\ optional is_string (aws_key_type data) = true
  /\ optional is_string (azure_responses_version data) = true.

Definition writes_storable (e : edit) : Prop := match e.2 with Some v => storable v | None => True end.

Lemma type_edits_storable data : settings_typed data -> Forall writes_storable (type_edits data).
Proof.
  intros (Hvertex & Haws & Hazure). unfold type_edits.
  assert (Hflag : forall cond k b, writes_storable (edit_if cond k (JBool (is_some_true b))))
    by (intros cond k b; unfold writes_storable; destruct cond; cbn; [constructor|done]).
  apply Forall_cons_2; [apply storable_option; [done|constructor]|]. apply Forall_cons_2.
  { unfold writes_storable, edit_if. destruct (_ && _) eqn:Ht; [|done]. cbn.
    apply andb_prop in Ht as [_ Ht]. destruct (azure_responses_version data); done || constructor. }
  apply Forall_cons_2; [unfold writes_storable, edit_if; destruct (protocol data) as [q|];
                                [destruct (nonempty q); cbn; [constructor|done]|done]|].
  apply Forall_cons_2; [apply Hflag|]. apply Forall_cons_2; [apply storable_option; [done|constructor]|].
  repeat (apply Forall_cons_2; [apply Hflag|]). constructor.
Qed.

Lemma upstream_edits_storable data obj : Forall writes_storable (upstream_edits data obj).
Proof.
  unfold upstream_edits. destruct (type_in _ _); [|constructor]. rewrite !Forall_app. split_and!.
  - unfold upstream_flags. repeat (apply Forall_cons_2; [unfold writes_storable; cbn; try constructor|]); [|done].
    induction (parse_ignored_models _); constructor; [constructor|done].
  - destruct (_ || _); [|constructor]. by repeat constructor.
  - destruct (negb _); [|constructor]. apply Forall_cons_2; [by apply storable_number|constructor].
Qed.

(** ** What an accepted form has *)

Section Accepted.
Context (new_URL : url_parser) (data : ChannelFormValues).
Context (Haccepted : schema_accepts new_URL data = Ret true).

Lemma accepted_parts : superRefine new_URL data = Ret [] /\ fields_accepted new_URL data = true.
Proof.
  unfold schema_accepts in Haccepted. apply obind_Ret_inv in Haccepted as (issues & Hi & [Hf Hn]%Ret_inj%andb_prop).
  by destruct issues.
Qed.

Lemma accepted_types : setting_typed data /\ settings_typed data
  /\ forallb is_price_row (default [] (pbr_prices data)) = true
  /\ optional is_int (http2_connection_shards data) = true
  /\ optional is_string (proxy data) = true /\ isOptionalJsonObject (settings data) = true
  /\ in_enum ["openai-chat"; "openai-responses"; "anthropic"; "gemini"]%string (protocol data) = true.
Proof.
  destruct accepted_parts as (_ & Hf). unfold fields_accepted in Hf.
  repeat match goal with H : _ && _ = true |- _ => apply andb_prop in H as [? ?] end.
  cbn [forallb] in *. repeat match goal with H : _ && _ = true |- _ => apply andb_prop in H as [? ?] end.
  unfold setting_typed, settings_typed. split_and!; try done.
  - by repeat constructor.
  - by eapply one_of_string.
  - by eapply one_of_string.
Qed.

Lemma accepted_config : is_type (type data) CHANNEL_TYPE_ADVANCED_CUSTOM = true ->
  exists config, parseAdvancedCustomConfig (advanced_custom data) = Some config
    /\ validateAdvancedCustomConfig (route_url new_URL) (Some config) = Ret None.
Proof.
  intros Ht. destruct accepted_parts as (Hs & _). unfold superRefine in Hs.
  apply obind_Ret_inv in Hs as (custom & Hc & [= Hnone]). unfold advanced_custom_issues in Hc. rewrite Ht in Hc.
  apply obind_Ret_inv in Hc as (error & He & Hc). apply obind_Ret_inv in Hc as (relative & _ & Hc).
  apply obind_Ret_inv in Hc as (listed & _ & [= <-]).
  assert (Hno : error = None).
  { destruct error as [e|]; [|done]. apply app_eq_nil in Hnone as [_ [Hnone _]%app_eq_nil].
    by apply app_eq_nil in Hnone as [Hnone _]. }
  subst error. destruct (parseAdvancedCustomConfig (advanced_custom data)) as [config|]; [|done]. by exists config.
Qed.
End Accepted.

(** The object that the stored text of an accepted form holds. *)
Lemma existing_object data : isOptionalJsonObject (settings data) = true ->
  exists fs, existing_settings data = JObj fs.
Proof.
  unfold isOptionalJsonObject, parsed_satisfies, parseOptionalJson, existing_settings, blank.
  destruct (settings data) as [s|]; [|by eexists]. cbn [default from_option Datatypes.id].
  destruct (nonempty s && (s !== js "{}")); [|by eexists].
  destruct (json_parse s) as [v|] eqn:Hv; [|by eexists]. cbn [default from_option Datatypes.id].
  rewrite (json_parse_not_blank s v Hv). cbn [negb]. pose proof (json_parse_present s v Hv).
  destruct v; try done. by eexists.
Qed.

(** The numbers of a form that is saved read back from their texts: the prices, the
    shards, and what the two texts hold that are parsed. *)
Definition numbers_kept (data : ChannelFormValues) : bool :=
  numbers_read_back (http2_connection_shards data)
  && numbers_read_back (JArr (default [] (pbr_prices data)))
  && numbers_read_back (existing_settings data)
  && numbers_read_back (default JUndefined (json_parse (default [] (advanced_custom data)))).

Lemma existing_storable data fs : existing_settings data = JObj fs ->
  numbers_read_back (JObj fs) = true -> storable (JObj fs).
Proof.
  assert (Hempty : storable (JObj [])) by (apply storable_literal; [by vm_compute|constructor]).
  unfold existing_settings. destruct (settings data) as [s|]; [|by intros [= <-]].
  destruct (nonempty s && (s !== js "{}")); [|by intros [= <-]].
  destruct (json_parse s) as [v|] eqn:Hv; [|by intros [= <-]]. cbn [default from_option Datatypes.id].
  intros ->. by apply (json_parse_storable s).
Qed.

(** The configuration of an accepted form can be stored. *)
Lemma config_stored data config : numbers_kept data = true ->
  parseAdvancedCustomConfig (advanced_custom data) = Some config ->
  forall parse_url, validateAdvancedCustomConfig parse_url (Some config) = Ret None ->
  storable config /\ normalizeAdvancedCustomConfig config = Ret config /\ exists fs, config = JObj fs.
Proof.
  intros [_ Hn]%andb_prop Hp parse_url Hv. destruct (advanced_custom data) as [t|]; [|done].
  cbn [default from_option Datatypes.id] in Hn. destruct (json_parse t) as [v|] eqn:Ht.
  - apply (parsed_config_storable parse_url t v); try done. by apply (json_parse_storable t).
  - unfold parseAdvancedCustomConfig in Hp. rewrite Ht in Hp. by destruct (negb _).
Qed.

(** ** The stored texts *)

Section Saved.
Context (new_URL : url_parser) (data : ChannelFormValues).
Context (Haccepted : schema_accepts new_URL data = Ret true) (Hnumbers : numbers_kept data = true).

Lemma saved_setting : exists fs, setting_object data = Ret fs /\ storable (JObj fs).
Proof.
  destruct (accepted_types new_URL data Haccepted) as (Htyped & _ & Hrows & Hint & Hproxy & _).
  unfold numbers_kept in Hnumbers. apply andb_prop in Hnumbers as [[[Hs Hp]%andb_prop _]%andb_prop _].
  assert (Hset : exists fs, setting_object data = Ret fs).
  { unfold setting_object, trim_or_empty, str_trim.
    assert (Hprices : exists rows, channelPrices (pbr_prices data) = Ret rows).
    { unfold channelPrices. clear -Hrows.
      assert (Hall : exists parts, omapM channel_price (default [] (pbr_prices data)) = Ret parts).
      { induction (default [] (pbr_prices data)) as [|r rs IH]; [by eexists|]. cbn [forallb] in Hrows.
        apply andb_prop in Hrows as [Hr (parts & Hparts)%IH]. cbn [omapM]. rewrite Hparts.
        unfold is_price_row in Hr. apply andb_prop in Hr as [[Ho Hm]%andb_prop _].
        unfold channel_price, get_field. destruct r as [| | | | | |fs]; try done. cbn [is_nullish obind].
        destruct (prop (JObj fs) (js "model")); try done. cbn [str_trim obind]. by eexists. }
      destruct Hall as (parts & ->). by eexists. }
    destruct Hprices as (rows & ->). destruct (proxy data); try done; by eexists. }
  destruct Hset as (fs & Hfs). exists fs. split; [done|]. by apply (setting_stored data).
Qed.

Lemma saved_settings : exists old gs,
  existing_settings data = JObj old /\ settings_object data = Ret (JObj gs) /\ storable (JObj gs)
  /\ forall k, assoc gs k = match assoc (settings_edits data (JObj old)) k with
                            | Some e => e
                            | None => assoc old k
                            end.
Proof.
  destruct (accepted_types new_URL data Haccepted) as (_ & Htyped & _ & _ & _ & Hobj & _).
  destruct (existing_object data Hobj) as (old & Hold).
  exists old, (fold_left edit_fields (settings_edits data (JObj old)) old).
  assert (Hnum : numbers_read_back (JObj old) = true).
  { unfold numbers_kept in Hnumbers. rewrite Hold in Hnumbers.
    by apply andb_prop in Hnumbers as [[_ Hn]%andb_prop _]. }
  split_and!; [done|unfold settings_object; rewrite Hold; apply apply_edits_object| |].
  - apply storable_edits; [by apply (existing_storable data)|]. unfold settings_edits.
    rewrite !Forall_app. split_and!; [by apply type_edits_storable|apply upstream_edits_storable|].
    unfold advanced_custom_edits. destruct (is_type _ _) eqn:Ht; [|by repeat constructor].
    destruct (accepted_config new_URL data Haccepted Ht) as (config & Hc & Hv). rewrite Hc.
    destruct (config_stored data config Hnumbers Hc _ Hv) as (Hs & _). by repeat constructor.
  - intros k. apply assoc_edits, settings_edits_keys.
Qed.
End Saved.

(** ** The form that is opened on what was saved *)

Lemma stored_text_of fs : storable (JObj fs) -> exists t, json_stringify (JObj fs) = Some t.
Proof. intros Hs. destruct (storable_prints _ [] [] Hs) as (t & Ht). exists t. by rewrite <- json_stringify_no_gap. Qed.

Lemma printed_fields fs t : storable (JObj fs) -> json_stringify (JObj fs) = Some t ->
  parsed_fields (Some t) = Some (JObj fs) /\ json_parse t = Some (JObj fs) /\ nonempty t = true.
Proof.
  intros Hs Ht. pose proof (json_parse_stringify _ t Hs Ht) as Hp.
  assert (Hne : nonempty t = true).
  { rewrite <- json_stringify_no_gap in Ht.
    by destruct (printed_start _ _ _ _ Hs Ht) as (c & rest & -> & _). }
  split_and!; [|done|done]. unfold parsed_fields. by rewrite Hne, Hp.
Qed.

Lemma reopened_setting data fs c : setting_object data = Ret fs -> storable (JObj fs) ->
  c_setting c = json_stringify (JObj fs) -> setting_object (transformChannelToFormDefaults c) = Ret fs.
Proof.
  intros Hset Hs Hc. apply (setting_again data); [done|]. rewrite Hc.
  destruct (stored_text_of fs Hs) as (t & Ht). rewrite Ht. by apply printed_fields.
Qed.

(** The edits of an opened form are already made. *)
Lemma reopened_settings new_URL data c old gs :
  schema_accepts new_URL data = Ret true -> numbers_kept data = true ->
  existing_settings data = JObj old -> storable (JObj gs) ->
  (forall k, assoc gs k = match assoc (settings_edits data (JObj old)) k with
                          | Some e => e
                          | None => assoc old k
                          end) ->
  c_type c = type data -> json_stringify (JObj gs) = Some (c_settings c) ->
  settings_object (transformChannelToFormDefaults c) = Ret (JObj gs).
Proof.
  intros Haccepted Hnumbers Hold Hs Hgs Htype Htext.
  destruct (accepted_types new_URL data Haccepted) as (_ & _ & _ & _ & _ & _ & Hprotocol).
  destruct (printed_fields gs (c_settings c) Hs Htext) as (Hparsed & Hparse & Hne).
  assert (Hexisting : existing_settings (transformChannelToFormDefaults c) = JObj gs).
  { unfold existing_settings. cbn [settings transformChannelToFormDefaults or_text]. rewrite Hne.
    destruct (str_eqb_spec (c_settings c) (js "{}")) as [Heq|_]; cbn [andb negb].
    - rewrite Heq in Hparse |- *. cbn. vm_compute in Hparse. by injection Hparse as <-.
    - by rewrite Hne, Hparse. }
  unfold settings_object. rewrite Hexisting, apply_edits_object. do 2 f_equal. apply edits_done.
  unfold settings_edits. rewrite !Forall_app. split_and!.
  - by apply (type_edits_done data (JObj old) gs c).
  - by apply (upstream_edits_done data (JObj old) gs c).
  - apply (advanced_edits_done data (JObj old) gs c); try done.
    + intros config Ht Hc. destruct (accepted_config new_URL data Haccepted Ht) as (config' & Hc' & Hv).
      rewrite Hc in Hc'. injection Hc' as <-. by apply (config_stored data config Hnumbers Hc _ Hv).
    + intros Ht Hnone. by destruct (accepted_config new_URL data Haccepted Ht) as (? & ? & _); congruence.
Qed.

(** ** The payload of an update *)

(** Whatever its values, the payload has these fields, in this order. *)
Lemma payload_shape id name_ type_ base org models_ mapping test ban code tag_ remark_ set param header sets other_
    (base' org' test' tag' remark' mapping' code' param' header' : jsval) rest :
  rest = [] \/ (exists k, rest = [(js "key", k)]) ->
  set_fields
    (clean_empty
       ([(js "id", id); (js "name", name_); (js "type", type_); (js "base_url", base);
         (js "openai_organization", org); (js "models", models_); (js "group", JStr (js "default"));
         (js "model_mapping", mapping); (js "test_model", test); (js "auto_ban", ban);
         (js "status_code_mapping", code); (js "tag", tag_); (js "remark", remark_); (js "setting", set);
         (js "param_override", param); (js "header_override", header); (js "settings", sets);
         (js "other", other_)] ++ rest))
    [(js "base_url", base'); (js "openai_organization", org'); (js "test_model", test'); (js "tag", tag');
     (js "remark", remark'); (js "model_mapping", mapping'); (js "status_code_mapping", code');
     (js "param_override", param'); (js "header_override", header')]
  = [(js "id", empty_to_null id); (js "name", empty_to_null name_); (js "type", empty_to_null type_); (js "base_url", base');
     (js "openai_organization", org'); (js "models", empty_to_null models_); (js "group", JStr (js "default"));
     (js "model_mapping", mapping'); (js "test_model", test'); (js "auto_ban", empty_to_null ban);
     (js "status_code_mapping", code'); (js "tag", tag'); (js "remark", remark'); (js "setting", empty_to_null set);
     (js "param_override", param'); (js "header_override", header'); (js "settings", empty_to_null sets);
     (js "other", empty_to_null other_)] ++ clean_empty rest.
Proof. intros [->|[k ->]]; reflexivity. Qed.

(** A stored text; the server may keep an empty one as [null]. *)
Definition stored_text (v : jsval) (s : option jsstr) : Prop :=
  match v with
  | JStr t => default [] s = t
  | JNull => default [] s = []
  | _ => False
  end.

(** The channel holds the fields of the payload. *)
Definition stores (payload : list (jsstr * jsval)) (c : Channel) : Prop :=
  Forall (fun kv => stored_text (prop (JObj payload) (js kv.1)) kv.2)
    [("name", Some (c_name c)); ("base_url", c_base_url c);
     ("openai_organization", c_openai_organization c); ("models", Some (c_models c));
     ("model_mapping", c_model_mapping c); ("test_model", c_test_model c);
     ("status_code_mapping", c_status_code_mapping c); ("tag", c_tag c); ("remark", Some (c_remark c));
     ("setting", c_setting c); ("param_override", c_param_override c);
     ("header_override", c_header_override c); ("settings", Some (c_settings c));
     ("other", Some (c_other c))]%string
  /\ prop (JObj payload) (js "type") = JNum (c_type c)
  /\ match c_auto_ban c with Some n => prop (JObj payload) (js "auto_ban") = JNum n | None => False end.

(** The payload of a form, given the two stored texts and the key. *)
Definition payload_of (id : num) (data : ChannelFormValues) (setting_ settings_ : jsstr)
    : list (jsstr * jsval) :=
  let kept s := JStr (default [] s) in
  [(js "id", JNum id); (js "name", empty_to_null (JStr (name data))); (js "type", JNum (type data));
   (js "base_url", JStr (normalizeBaseUrl (base_url data)));
   (js "openai_organization", kept (openai_organization data));
   (js "models", empty_to_null (JStr (models data))); (js "group", JStr (js "default"));
   (js "model_mapping", kept (model_mapping data)); (js "test_model", kept (test_model data));
   (js "auto_ban", JNum (default one (auto_ban data)));
   (js "status_code_mapping", kept (status_code_mapping data)); (js "tag", kept (tag data));
   (js "remark", kept (remark data)); (js "setting", empty_to_null (JStr setting_));
   (js "param_override", kept (param_override data)); (js "header_override", kept (header_override data));
   (js "settings", empty_to_null (JStr settings_)); (js "other", empty_to_null (kept (other data)))].

Definition key_field (data : ChannelFormValues) : list (jsstr * jsval) :=
  if nonempty (key data) && nonempty (trim (key data)) then [(js "key", JStr (key data))] else [].

Lemma update_payload_eq data id setting_ settings_ :
  buildSettingJSON data = Ret setting_ -> buildSettingsJSON data = Ret settings_ ->
  transformFormDataToUpdatePayload data id = Ret (payload_of id data setting_ settings_ ++ key_field data).
Proof.
  intros Hset Hsets. unfold transformFormDataToUpdatePayload. rewrite Hset, Hsets. cbn [obind]. cbv zeta. f_equal.
  unfold cleared_fields. rewrite payload_shape; [|unfold key_field; destruct (_ && _); [right; by eexists|by left]].
  unfold payload_of. cbn [empty_to_null]. f_equal.
  unfold key_field. destruct (nonempty (key data)) eqn:Hk, (nonempty (trim (key data))); try done.
  cbn [andb]. unfold clean_empty. cbn [map fst snd]. by destruct (key data).
Qed.

Lemma payload_without_key id data setting_ settings_ :
  delete_field (payload_of id data setting_ settings_ ++ key_field data) (js "key")
  = payload_of id data setting_ settings_.
Proof. unfold key_field. destruct (_ && _); reflexivity. Qed.

Lemma JNum_inj a b : JNum a = JNum b -> a = b.
Proof. by intros [= ->]. Qed.

Lemma stored_not_null s t : stored_text (empty_to_null (JStr s)) t -> default [] t = s.
Proof. by destruct s. Qed.

(** A channel that stores a payload is opened with the values of the form. *)
Lemma opened_payload id id' data setting_ settings_ c :
  nonempty setting_ = true ->
  normalizeBaseUrl (Some (normalizeBaseUrl (base_url data))) = normalizeBaseUrl (base_url data) ->
  stores (payload_of id data setting_ settings_ ++ key_field data) c ->
  c_setting c = Some setting_ /\ c_settings c = settings_ /\ c_type c = type data
  /\ payload_of id' (transformChannelToFormDefaults c) setting_ settings_
     = payload_of id' data setting_ settings_.
Proof.
  intros Hset Hurl (Htexts & Htype & Hban). rewrite !Forall_cons in Htexts. cbn [fst snd] in Htexts.
  destruct Htexts as (Hname & Hbase & Horg & Hmodels & Hmapping & Htest & Hcode & Htag & Hremark & Hsetting
    & Hparam & Hheader & Hsettings & Hother & _).
  apply (stored_not_null (name data) (Some (c_name c))) in Hname.
  apply (stored_not_null (models data) (Some (c_models c))) in Hmodels.
  apply (stored_not_null setting_ (c_setting c)) in Hsetting.
  apply (stored_not_null settings_ (Some (c_settings c))) in Hsettings.
  apply (stored_not_null (default [] (other data)) (Some (c_other c))) in Hother.
  assert (Htype' : JNum (type data) = JNum (c_type c)) by exact Htype. apply JNum_inj in Htype'.
  destruct (c_auto_ban c) as [ban|] eqn:Hcban; [|done].
  assert (Hban' : JNum (default one (auto_ban data)) = JNum ban) by exact Hban. apply JNum_inj in Hban'.
  assert (Hbase' : default [] (c_base_url c) = normalizeBaseUrl (base_url data)) by exact Hbase.
  assert (Horg' : default [] (c_openai_organization c) = default [] (openai_organization data)) by exact Horg.
  assert (Hmapping' : default [] (c_model_mapping c) = default [] (model_mapping data)) by exact Hmapping.
  assert (Htest' : default [] (c_test_model c) = default [] (test_model data)) by exact Htest.
  assert (Hcode' : default [] (c_status_code_mapping c) = default [] (status_code_mapping data)) by exact Hcode.
  assert (Htag' : default [] (c_tag c) = default [] (tag data)) by exact Htag.
  assert (Hremark' : c_remark c = default [] (remark data)) by exact Hremark.
  assert (Hparam' : default [] (c_param_override c) = default [] (param_override data)) by exact Hparam.
  assert (Hheader' : default [] (c_header_override c) = default [] (header_override data)) by exact Hheader.
  split_and!; [by destruct (c_setting c); [f_equal|subst setting_]|done|done|].
  unfold payload_of, transformChannelToFormDefaults. cbn [name type base_url openai_organization models
    model_mapping test_model auto_ban status_code_mapping tag remark param_override header_override other].
  rewrite Hcban. cbn [default from_option Datatypes.id] in *.
  by rewrite Hname, Hmodels, Hother, <- Htype', Hban', Hbase', Horg', Hmapping', Htest', Hcode', Htag', Hremark',
    Hparam', Hheader', Hurl.
Qed.


Definition type_is (id : Z) (type : num) : bool := is_type type id.

(** The fields that belong to some types of channel. *)
Definition TYPE_FIELDS : list (string * (num -> bool)) :=
  [("vertex_key_type", type_is 41); ("openrouter_enterprise", type_is 20); ("aws_key_type", type_is 33);
   ("allow_service_tier", type_in FIELD_PASSTHROUGH_TYPES);
   ("disable_store", type_in OPENAI_FIELD_PASSTHROUGH_TYPES);
   ("allow_safety_identifier", type_in OPENAI_FIELD_PASSTHROUGH_TYPES);
   ("allow_include_obfuscation", type_in OPENAI_FIELD_PASSTHROUGH_TYPES);
   ("allow_inference_geo",
    fun t => type_in OPENAI_FIELD_PASSTHROUGH_TYPES t || type_in CLAUDE_FIELD_PASSTHROUGH_TYPES t);
   ("allow_speed", type_in CLAUDE_FIELD_PASSTHROUGH_TYPES); ("claude_beta_query", type_is 14)]%string.

Definition MANAGED_FIELDS : list string :=
  map fst TYPE_FIELDS
  ++ ["azure_responses_version"; "protocol"; "upstream_model_update_check_enabled";
      "upstream_model_update_auto_sync_enabled"; "upstream_model_update_ignored_models";
      "upstream_model_update_last_detected_models"; "upstream_model_update_last_check_time";
      "advanced_custom"]%string.

Lemma in_settings_edits data obj e : e ∈ type_edits data -> e ∈ settings_edits data obj.
Proof. unfold settings_edits. rewrite elem_of_app. by left. Qed.

(** Only managed fields are edited. *)
Lemma edits_managed data obj : Forall (fun e : edit => e.1 ∈ map js MANAGED_FIELDS) (settings_edits data obj).
Proof.
  assert (Hin : forall e : edit, includes_str (map js MANAGED_FIELDS) e.1 = true -> e.1 ∈ map js MANAGED_FIELDS)
    by (intros e; apply includes_str_spec).
  eapply Forall_impl; [|exact Hin]. unfold settings_edits, upstream_edits, advanced_custom_edits, type_edits, edit_if.
  rewrite !Forall_app. split_and!.
  - repeat (apply Forall_cons_2; [reflexivity|]). constructor.
  - destruct (type_in MODEL_FETCHABLE_TYPES _); [|constructor]. destruct (_ || _), (negb _);
      cbn [app upstream_flags]; repeat (apply Forall_cons_2; [reflexivity|]); constructor.
  - destruct (is_type _ _); [destruct (parseAdvancedCustomConfig _)|];
      repeat (apply Forall_cons_2; [reflexivity|]); constructor.
Qed.


(** ** Examples *)

(** A platform whose parser knows one proxy. *)
Definition sample_URL : url_parser := fun s =>
  if s === js "http://proxy:8080"
  then Some {| url_protocol := js "http:"; url_host := js "proxy:8080"; url_hostname := js "proxy";
               url_port := js "8080" |}
  else None.

Definition object_text (fs : list (jsstr * jsval)) : jsstr := default [] (json_stringify (JObj fs)).

Definition sample_prices : list jsval :=
  [JObj [(js "model", text " m1 "); (js "input", JNum (num_of_Z 3))]; JObj [(js "model", text "m2")]].

(** A custom channel with settings of an earlier type, over two shards. *)
Definition sample_form : ChannelFormValues := {|
  name := js "n"; type := num_of_Z 58; base_url := Some (js " http://x/v1// "); key := js "sk";
  openai_organization := Some []; models := js "m1,m2"; model_mapping := None; test_model := Some [];
  auto_ban := None; status := CHANNEL_STATUS_ENABLED; status_code_mapping := Some []; tag := Some (js "t");
  remark := None; setting := Some []; param_override := Some (js "{}"); header_override := Some [];
  settings := Some (object_text [(js "vertex_key_type", text "json"); (js "custom", JNum (num_of_Z 7))]);
  advanced_custom := Some (object_text [(js "advanced_routes", JArr [sample_custom_route "/v1/rerank" []])]);
  other := None; multi_key_mode := None; multi_key_type := None; batch_add_set_key_prefix_2_name := None;
  key_mode := None; force_format := JBool true; thinking_to_content := JUndefined;
  proxy := text " http://proxy:8080"; http_protocol := text "auto";
  http2_connection_shards := JNum (num_of_Z 2); pass_through_body_enabled := JUndefined;
  system_prompt := JUndefined; system_prompt_override := JUndefined; pbr_prices := Some sample_prices;
  is_enterprise_account := Some true; vertex_key_type := JUndefined; aws_key_type := JUndefined;
  azure_responses_version := JUndefined; protocol := Some (js "anthropic"); allow_service_tier := Some true;
  disable_store := None; allow_safety_identifier := None; allow_include_obfuscation := None;
  allow_inference_geo := None; allow_speed := None; claude_beta_query := None;
  upstream_model_update_check_enabled := Some false; upstream_model_update_auto_sync_enabled := Some true;
  upstream_model_update_ignored_models := Some (js "b, a,b")
|}.

Definition sample_payload : list (jsstr * jsval) :=
  match transformFormDataToUpdatePayload sample_form one with Ret p => p | _ => [] end.

Definition payload_text (k : string) : jsstr := string_of_val (prop (JObj sample_payload) (js k)).

(** A channel as the server keeps it. *)
Definition sample_channel : Channel := {|
  c_name := js "n"; c_type := num_of_Z 58; c_base_url := Some (js "http://x/v1"); c_openai_organization := None;
  c_models := js "m1,m2"; c_model_mapping := None; c_test_model := Some []; c_auto_ban := Some one;
  c_status := num_of_Z 3; c_status_code_mapping := None; c_tag := Some (js "t"); c_remark := [];
  c_setting := Some (payload_text "setting"); c_param_override := Some (js "{}"); c_header_override := None;
  c_settings := payload_text "settings"; c_other := []; c_multi_key_mode := []
|}.



(** Trailing slashes are removed after the spaces, so a space before them stays: the
    base URL of the next save is another one. *)
Example base_url_not_stable :
  normalizeBaseUrl (Some (js "http://x /")) = js "http://x "
  /\ normalizeBaseUrl (Some (normalizeBaseUrl (Some (js "http://x /")))) = js "http://x".
Proof. vm_compute. split; reflexivity. Qed.

(** A status code may be any key and value that [Number] turns into one. *)
Example coerced_status_codes :
  isOptionalStatusCodeMapping (Some (object_text [(js "0x1F4", JArr [text " 502 "])])) = true.
Proof. vm_compute. reflexivity. Qed.
