(* ===== verification/ModelMapping.v ===== *)
(** * Models and their mapping ([features/channels/lib/model-mapping-validation.ts],
      [features/channels/lib/upstream-update-utils.ts])

    The list of models of a channel as text, the JSON object that maps models to
    upstream models, the models that one lacks of the other, and what the check for
    new upstream models left behind.  Then: how lists of models are read back, and
    that adding the missing models leaves none missing. *)

From S2P Require Import Prelude JsString JsNumber JsValue JsJson JsonRoundtrip.

(** ** Lists of models *)

Definition parseModelsString (modelsStr : jsstr) : list jsstr :=
  if nonempty modelsStr then List.filter nonempty (map trim (split (ch ",") modelsStr)) else [].

Definition formatModelsArray (models : list jsstr) : jsstr := join (js ",") (dedupe models).

(** Of a string; what is not a string gives the empty text. *)
Definition normalizeModelName (model : jsstr) : jsstr := trim model.

(** ** The mapping *)

(** [try { JSON.parse(s) }], when that is an object and neither [null] nor an array. *)
Definition parsed_mapping (s : jsstr) : option (list (jsstr * jsval)) :=
  match json_parse s with Some (JObj fs) => Some fs | _ => None end.

Definition extractMappingSourceModels (modelMapping : jsstr) : list jsstr :=
  let trimmed := trim modelMapping in
  if nonempty trimmed then
    match parsed_mapping trimmed with
    | Some parsed => dedupe (List.filter nonempty (map (fun kv => trim kv.1) parsed))
    | None => []
    end
  else [].

(** The text of a value, trimmed; of what is no text [undefined], which the filter drops. *)
Definition redirect_text (v : jsval) : jsstr := match v with JStr s => trim s | _ => [] end.

Definition extractRedirectModels (modelMapping : jsstr) : list jsstr :=
  let trimmed := trim modelMapping in
  if nonempty trimmed then
    match parsed_mapping trimmed with
    | Some parsed => dedupe (List.filter nonempty (map (fun kv => redirect_text kv.2) parsed))
    | None => []
    end
  else [].

Fixpoint same_models (current initial : list jsstr) : bool :=
  match current, initial with
  | [], [] => true
  | x :: current, y :: initial => (x === y) && same_models current initial
  | _, _ => false
  end.

Definition hasModelConfigChanged (currentModels : list jsstr) (currentModelMapping : jsstr)
    (initialModels : list jsstr) (initialModelMapping : jsstr) : bool :=
  if match initialModels with [] => negb (nonempty initialModelMapping) | _ => false end then true
  else if negb (same_models currentModels initialModels) then true
  else trim currentModelMapping !== trim initialModelMapping.

Definition findMissingModelsInMapping (modelMapping : jsstr) (currentModels : list jsstr) : list jsstr :=
  if negb (nonempty (trim modelMapping)) then []
  else
    match parsed_mapping modelMapping with
    | None => []
    | Some parsed =>
        let modelSet := map normalizeModelName currentModels in
        dedupe (List.filter (fun key => nonempty key && negb (includes_str modelSet key))
                  (map (fun kv => normalizeModelName kv.1) parsed))
    end.

(** [None] is [valid: true]. *)
Definition validateModelMappingJson (modelMapping : jsstr) : option jsstr :=
  if negb (nonempty (trim modelMapping)) then None
  else
    match json_parse modelMapping with
    | Some (JObj parsed) =>
        if existsb (fun kv => negb (is_string kv.2)) parsed then Some (js "Model mapping values must be strings")
        else None
    | Some _ => Some (js "Model mapping must be a valid JSON object")
    | None => Some (js "Model mapping must be valid JSON format")
    end.

Definition findExposedTargetModels (modelMapping : jsstr) (currentModels : list jsstr) : list jsstr :=
  let redirectModels := extractRedirectModels modelMapping in
  let modelSet := map normalizeModelName currentModels in
  List.filter (fun model => includes_str modelSet (normalizeModelName model)) redirectModels.

Record categories := {
  normalizedCurrentModels : list jsstr;
  normalizedRedirectModels : list jsstr;
  classificationSet : list jsstr;
  redirectOnlySet : list jsstr
}.

(** The sets in their order of insertion. *)
Definition categorizeModelsWithRedirect (currentModels redirectModels : list jsstr) : categories :=
  let current := dedupe (List.filter nonempty (map normalizeModelName currentModels)) in
  let redirect := dedupe (List.filter nonempty (map normalizeModelName redirectModels)) in
  {| normalizedCurrentModels := current;
     normalizedRedirectModels := redirect;
     classificationSet := dedupe (current ++ redirect);
     redirectOnlySet := dedupe (List.filter (fun m => negb (includes_str current m)) redirect) |}.

(** ** The check for upstream models *)

(** [String(model || '').trim()] *)
Definition model_text (model : jsval) : jsstr := trim (string_of_val (js_or model (JStr []))).

(** Of a value that is cast to a list: only lists have [map]. *)
Definition normalizeModelList (models : jsval) : outcome type_error (list jsstr) :=
  if truthy models then
    match models with
    | JArr items => Ret (dedupe (List.filter nonempty (map model_text items)))
    | _ => Throw TypeError
    end
  else Ret [].

Record upstream_meta := {
  enabled : bool;
  pendingAddModels : list jsstr;
  pendingRemoveModels : list jsstr
}.

Definition parseUpstreamUpdateMeta (settings : jsval) : outcome type_error upstream_meta :=
  let parsed :=
    match settings with
    | JObj _ => settings
    | JStr s => default JNull (json_parse s)
    | _ => JNull
    end in
  if negb (truthy parsed) || negb (is_typeof_object parsed)
  then Ret {| enabled := false; pendingAddModels := []; pendingRemoveModels := [] |}
  else
    let? add := normalizeModelList (prop parsed (js "upstream_model_update_last_detected_models")) in
    let? remove := normalizeModelList (prop parsed (js "upstream_model_update_last_removed_models")) in
    Ret {| enabled := strict_eq (prop parsed (js "upstream_model_update_check_enabled")) (JBool true);
           pendingAddModels := add; pendingRemoveModels := remove |}.

(** ** Lists of models are read back *)

(** A name that the text of a list can hold. *)
Definition plain_model (m : jsstr) : Prop := trim m = m /\ m <> [] /\ ch "," ∉ m.

Lemma plain_model_nonempty m : plain_model m -> nonempty m = true.
Proof. intros (_ & Hne & _). by destruct m. Qed.

Lemma parse_plain ms : Forall plain_model ms -> parseModelsString (join (js ",") ms) = ms.
Proof.
  intros Hms. unfold parseModelsString. destruct ms as [|m ms]; [done|].
  assert (Hne : nonempty (join (js ",") (m :: ms)) = true).
  { inversion_clear Hms as [|? ? Hm _]. apply plain_model_nonempty in Hm. destruct m as [|c m]; [done|]. by destruct ms. }
  rewrite Hne. change (js ",") with [ch ","]. rewrite split_join; [|done|].
  - rewrite (map_ext_in trim (fun m => m)), map_id.
    + apply filter_all. eapply Forall_impl; [exact Hms|]. apply plain_model_nonempty.
    + intros x Hx%list_elem_of_In. rewrite Forall_forall in Hms. by apply Hms in Hx as (Hx & _).
  - eapply Forall_impl; [exact Hms|]. by intros x (_ & _ & Hx).
Qed.

Lemma Forall_dedupe (P : jsstr -> Prop) xs : Forall P xs -> Forall P (dedupe xs).
Proof.
  rewrite !Forall_forall. intros H x. rewrite elem_of_dedupe. apply H.
Qed.

Lemma parse_format ms : Forall plain_model ms -> parseModelsString (formatModelsArray ms) = dedupe ms.
Proof. intros Hms. by apply parse_plain, Forall_dedupe. Qed.

Lemma elem_of_trim c s : c ∈ trim s -> c ∈ s.
Proof.
  intros Hin. destruct (trim_end_prefix (trim_start s)) as (t & Ht).
  rewrite <- (take_drop_while is_space s). apply elem_of_app. right. unfold trim in Hin.
  change (drop_while is_space s) with (trim_start s). rewrite Ht. apply elem_of_app. by left.
Qed.

Lemma parsed_models_plain s : Forall plain_model (parseModelsString s).
Proof.
  unfold parseModelsString. destruct (nonempty s); [|constructor]. apply Forall_forall.
  intros m (Hm & Hne)%in_filter. apply list_elem_of_In, in_map_iff in Hm as (p & <- & Hp).
  apply list_elem_of_In, split_no_sep in Hp. split_and!.
  - apply trim_idemp.
  - by destruct (trim p).
  - by intros Hin%elem_of_trim.
Qed.

(** Saving a list of models and reading it back keeps each model once. *)
Lemma models_normal_form s : parseModelsString (formatModelsArray (parseModelsString s)) = dedupe (parseModelsString s).
Proof. apply parse_format, parsed_models_plain. Qed.

Lemma trimmed_models s : map trim (parseModelsString s) = parseModelsString s.
Proof.
  rewrite <- (map_id (parseModelsString s)) at 2. apply map_ext_in. intros x Hx%list_elem_of_In.
  pose proof (parsed_models_plain s) as Hp. rewrite Forall_forall in Hp. by apply Hp in Hx as (Hx & _).
Qed.

(** ** Missing models *)

(** A key of a mapping names a model. *)
Definition source_model (mapping x : jsstr) : Prop :=
  x <> [] /\ exists fs kv, parsed_mapping mapping = Some fs /\ kv ∈ fs /\ trim kv.1 = x.

Lemma missing_model_spec mapping models x :
  x ∈ findMissingModelsInMapping mapping models <-> source_model mapping x /\ x ∉ map trim models.
Proof.
  unfold findMissingModelsInMapping, source_model.
  destruct (parsed_mapping mapping) as [fs|] eqn:Hp.
  2: { split; [intros Hx; by destruct (nonempty (trim mapping)); inversion Hx|].
       by intros ((_ & fs & kv & ? & _) & _). }
  assert (nonempty (trim mapping) = true) as ->.
  { unfold parsed_mapping in Hp. destruct (json_parse mapping) as [v|] eqn:Hj; [|done]. by apply json_parse_not_blank in Hj. }
  cbn [negb]. rewrite elem_of_dedupe, in_filter, andb_true_iff, negb_true_iff, includes_str_false.
  rewrite list_elem_of_In, in_map_iff. unfold normalizeModelName. split.
  - intros ((kv & <- & Hkv) & Hne & Hx). split; [|done]. split; [by destruct (trim kv.1)|].
    exists fs, kv. split_and!; [done|by apply list_elem_of_In|done].
  - intros ((Hne & fs' & kv & [= <-] & Hkv & <-) & Hx). split_and!; [|by destruct (trim kv.1)|done].
    exists kv. split; [done|by apply list_elem_of_In].
Qed.

Lemma missing_models_NoDup mapping models : NoDup (findMissingModelsInMapping mapping models).
Proof.
  unfold findMissingModelsInMapping. destruct (negb _); [constructor|].
  destruct (parsed_mapping mapping); [apply NoDup_dedupe|constructor].
Qed.

Lemma no_elements (xs : list jsstr) : (forall x, x ∉ xs) -> xs = [].
Proof. destruct xs as [|x xs]; [done|]. intros H. by destruct (H x); left. Qed.

Lemma missing_model_plain mapping models x : (forall x, source_model mapping x -> ch "," ∉ x) ->
  x ∈ findMissingModelsInMapping mapping models -> plain_model x.
Proof.
  intros Hcomma (Hx & _)%missing_model_spec. split_and!; [|by destruct Hx|by apply Hcomma].
  destruct Hx as (_ & fs & kv & _ & _ & <-). apply trim_idemp.
Qed.

(** Models joined by those that the mapping lacks are read back from their text, and
    then the mapping lacks none. *)
Lemma completed_models mapping s : (forall x, source_model mapping x -> ch "," ∉ x) ->
  let models := parseModelsString s in
  let updated := dedupe (models ++ findMissingModelsInMapping mapping models) in
  parseModelsString (formatModelsArray updated) = updated /\ findMissingModelsInMapping mapping updated = [].
Proof.
  intros Hcomma models updated.
  assert (Hplain : Forall plain_model updated).
  { apply Forall_dedupe, Forall_app. split; [apply parsed_models_plain|]. apply Forall_forall.
    intros x. by apply missing_model_plain. }
  split; [rewrite parse_format by done; apply dedupe_idemp|]. apply no_elements.
  intros x (Hx & Hnot)%missing_model_spec. apply Hnot. apply list_elem_of_In, in_map_iff. exists x.
  split; [by destruct Hx as (_ & fs & kv & _ & _ & <-); apply trim_idemp|].
  apply list_elem_of_In, elem_of_dedupe, elem_of_app.
  destruct (decide (x ∈ models)) as [Hin|Hin]; [by left|]. right. apply missing_model_spec. split; [done|].
  unfold models. by rewrite trimmed_models.
Qed.

(** ** Examples *)

(** A source model with a comma stays missing: its name is read as two. *)
Example comma_stays_missing :
  let mapping := js "{" ++ json_quote (js "a,b") ++ js ":" ++ json_quote (js "c") ++ js "}" in
  let updated := formatModelsArray (findMissingModelsInMapping mapping []) in
  findMissingModelsInMapping mapping (parseModelsString updated) = [js "a,b"].
Proof. vm_compute. reflexivity. Qed.
