(* ===== verification/ChannelList.v ===== *)
(** * The list of channels ([features/channels/lib/channel-utils.ts])

    Labels and badges, the protocol of a channel, keys and lists of models as text,
    relative times, what needs attention, and the rows of the list when channels are
    grouped by tag.  [Intl.RelativeTimeFormat] and the clock are arguments; balances,
    quotas and dates are formatted by the currency and date libraries and left out.
    Then: the grouping is the grouping by tag, and removing duplicate keys is stable. *)

From S2P Require Import Prelude JsString JsNumber JsValue JsJson ChannelForm ModelMapping.

(** ** Types, status, protocol *)

Definition getChannelTypeLabel (type : num) : jsstr := string_of_num type.

(** [table[n]] for a table with numeric keys *)
Definition lookup_number {A} (table : list (Z * A)) (n : num) : option A :=
  snd <$> List.find (fun row => is_type n row.1) table.

Definition TYPE_TO_ICON : list (Z * string) :=
  [(1, "OpenAI"); (6, "OpenAI"); (7, "OpenAI"); (8, "OpenAI"); (58, "NewAPI"); (59, "Sub2API"); (60, "NewAPI");
   (3, "Azure"); (14, "Claude"); (24, "Gemini"); (11, "Google"); (41, "Gemini"); (33, "Aws"); (39, "Cloudflare");
   (15, "Baidu"); (46, "Baidu"); (16, "Zhipu"); (26, "Zhipu"); (17, "Qwen"); (18, "Spark"); (23, "Hunyuan");
   (19, "Ai360"); (25, "Moonshot"); (31, "Yi"); (35, "Minimax"); (45, "Volcengine"); (4, "Ollama");
   (27, "Perplexity"); (34, "Cohere"); (42, "Mistral"); (43, "DeepSeek"); (48, "XAI"); (49, "Coze");
   (40, "SiliconCloud"); (44, "OpenAI"); (20, "OpenRouter"); (50, "Kling"); (51, "Jimeng"); (52, "Vidu");
   (36, "Suno"); (55, "OpenAI"); (54, "Doubao"); (56, "Replicate"); (37, "Dify"); (38, "Jina"); (22, "FastGPT");
   (47, "Xinference"); (53, "OpenAI"); (10, "OpenAI"); (21, "OpenAI"); (12, "OpenAI"); (13, "OpenAI");
   (9, "OpenAI")]%string.

Definition getChannelTypeIcon (type : num) : string := default "OpenAI"%string (lookup_number TYPE_TO_ICON type).

Definition hasChannelTypeIcon (type : num) : bool :=
  match lookup_number TYPE_TO_ICON type with Some _ => true | None => false end.

(** A variant and a label. *)
Definition badge : Type := string * string.

Definition CHANNEL_STATUS_CONFIG : list (Z * badge) :=
  [(0, ("neutral", "Unknown")); (1, ("success", "Enabled")); (2, ("danger", "Disabled"));
   (3, ("warning", "Auto Disabled"))]%string.
Definition MULTI_KEY_STATUS_CONFIG : list (Z * badge) :=
  [(1, ("success", "Enabled")); (2, ("neutral", "Manual Disabled")); (3, ("danger", "Auto Disabled"))]%string.

Definition getChannelStatusBadge (status : num) : badge :=
  default ("neutral", "Unknown")%string (lookup_number CHANNEL_STATUS_CONFIG status).
Definition getMultiKeyStatusBadge (status : num) : badge :=
  default ("success", "Enabled")%string (lookup_number MULTI_KEY_STATUS_CONFIG status).

Record protocol_option := { o_value : jsstr; o_type : Z; o_label : jsstr }.

Definition CHANNEL_PROTOCOL_OPTIONS : list protocol_option :=
  [{| o_value := js "openai-chat"; o_type := 1; o_label := js "OpenAI compatible (/v1/chat/completions)" |};
   {| o_value := js "openai-responses"; o_type := 1; o_label := js "OpenAI Responses (/v1/responses)" |};
   {| o_value := js "anthropic"; o_type := 14; o_label := js "Anthropic (/v1/messages)" |};
   {| o_value := js "gemini"; o_type := 24; o_label := js "Gemini (/v1beta/models/{model}:generateContent)" |}].

Definition CHANNEL_PROTOCOL_CUSTOM_VALUE : jsstr := js "custom".

(** The short label of a protocol. *)
Definition CHANNEL_PROTOCOL_PRESENTATION : list (jsstr * jsstr) :=
  [(js "openai-chat", js "OpenAI compatible"); (js "openai-responses", js "OpenAI Responses");
   (js "anthropic", js "Anthropic"); (js "gemini", js "Gemini"); (CHANNEL_PROTOCOL_CUSTOM_VALUE, js "Custom")].

(** The protocols of each adapter type. *)
Definition add_protocol (groups : list (Z * list jsstr)) (option : protocol_option) : list (Z * list jsstr) :=
  if existsb (fun g => g.1 =? o_type option) groups
  then map (fun g => if g.1 =? o_type option then (g.1, g.2 ++ [o_value option]) else g) groups
  else groups ++ [(o_type option, [o_value option])].

Definition PROTOCOLS_BY_ADAPTER_TYPE : list (Z * list jsstr) := fold_left add_protocol CHANNEL_PROTOCOL_OPTIONS [].

(** The settings are a value that was parsed from JSON; reading its protocol is guarded. *)
Definition getChannelProtocol (type : num) (otherSettings : jsval) : option jsstr :=
  if isChannelProtocol (prop otherSettings (js "protocol")) then Some (string_of_val (prop otherSettings (js "protocol")))
  else
    match lookup_number PROTOCOLS_BY_ADAPTER_TYPE type with
    | None | Some [] => None
    | Some [candidate] => Some candidate
    | Some _ => Some (js "openai-chat")
    end.

Definition getChannelProtocolLabelKey (protocol : option jsstr) : jsstr :=
  default [] (assoc CHANNEL_PROTOCOL_PRESENTATION (or_text protocol CHANNEL_PROTOCOL_CUSTOM_VALUE)).

Definition getChannelProtocolIconType (protocol : option jsstr) (fallbackType : num) : num :=
  match protocol with
  | Some protocol =>
      match List.find (fun item => o_value item === protocol) CHANNEL_PROTOCOL_OPTIONS with
      | Some item => num_of_Z (o_type item)
      | None => fallbackType
      end
  | None => fallbackType
  end.

Definition CHANNEL_PROTOCOL_FILTER_OPTIONS : list (jsstr * jsstr) :=
  map (fun option => (o_value option, getChannelProtocolLabelKey (Some (o_value option)))) CHANNEL_PROTOCOL_OPTIONS
  ++ [(CHANNEL_PROTOCOL_CUSTOM_VALUE, getChannelProtocolLabelKey None)].

(** ** Keys *)

(** The lines of a text that are not blank. *)
Definition key_lines (key : jsstr) : list jsstr := List.filter (fun k => nonempty (trim k)) (split 10%N key).

(** [s.slice(-n)] *)
Definition last_units (n : nat) (s : jsstr) : jsstr := drop (length s - n) s.

Definition formatChannelKey (key : jsstr) (isMultiKey : bool) : jsstr :=
  if negb (nonempty key) then []
  else if isMultiKey then string_of_N (N.of_nat (length (key_lines key))) ++ js " keys"
  else if (length key <=? 16)%nat then take 4 key ++ js "..." ++ last_units 4 key
  else take 8 key ++ js "..." ++ last_units 8 key.

Definition formatKeyPreview (key : jsstr) (maxLength : nat) : jsstr :=
  if negb (nonempty key) then []
  else if (length key <=? maxLength)%nat then key
  else take maxLength key ++ js "...".

Definition countKeys (key : jsstr) : nat := if negb (nonempty key) then 0%nat else length (key_lines key).

(** ** Texts *)

Definition parseModelsList (models : jsstr) : list jsstr :=
  if negb (nonempty models) then [] else List.filter nonempty (map trim (split (ch ",") models)).

Definition formatModelsString (models : list jsstr) : jsstr := join (js ",") models.

(** What was parsed is cast, so it may be any value. *)
Definition parseChannelSettings (settingStr : option jsstr) : jsval :=
  if negb (nonempty (default [] settingStr)) then JObj [] else default (JObj []) (json_parse (default [] settingStr)).

Definition parseChannelOtherSettings (settingsStr : option jsstr) : jsval :=
  if negb (nonempty (default [] settingsStr)) || (default [] settingsStr === js "{}") then JObj []
  else default (JObj []) (json_parse (default [] settingsStr)).

Definition validateChannelSettings (settings : jsstr) : bool :=
  if negb (nonempty settings) || negb (nonempty (trim settings)) then true
  else match json_parse settings with Some _ => true | None => false end.

Definition getBalanceVariant (balance : num) : string :=
  if num_eqb balance zero then "neutral"
  else if num_ltb balance (num_of_Z 1) then "danger"
  else if num_ltb balance (num_of_Z 10) then "warning"
  else "success".

(** [t] is absent or translates a text with a value; the values are texts here. *)
Definition formatResponseTime (timeMs : num) (t : option (jsstr -> jsstr -> jsstr)) : jsstr :=
  if num_eqb timeMs zero then match t with Some t => t (js "Not tested") [] | None => js "Not tested" end
  else if num_ltb timeMs (num_of_Z 1000) then
    match t with Some t => t (js "{{value}}ms") (string_of_num timeMs) | None => string_of_num timeMs ++ js "ms" end
  else
    let seconds := to_fixed 2 (ndiv timeMs (num_of_Z 1000)) in
    match t with Some t => t (js "{{value}}s") seconds | None => seconds ++ js "s" end.

Definition getResponseTimeConfig (timeMs : num) : badge :=
  (if num_eqb timeMs zero then ("neutral", "Not tested")
   else if num_leb timeMs (num_of_Z 500) then ("success", "Excellent")
   else if num_leb timeMs (num_of_Z 1000) then ("success", "Good")
   else if num_leb timeMs (num_of_Z 2000) then ("warning", "Fair")
   else ("danger", "Poor"))%string.

(** ** Relative times *)

Definition relative_unit (diffSec : num) : num * string :=
  let absSec := nabs diffSec in
  let at_ n := nround (ndiv diffSec (num_of_Z n)) in
  (if num_ltb absSec (num_of_Z 60) then (nround diffSec, "second")
   else if num_ltb absSec (num_of_Z 3600) then (at_ 60, "minute")
   else if num_ltb absSec (num_of_Z 86400) then (at_ 3600, "hour")
   else if num_ltb absSec (num_of_Z 2592000) then (at_ 86400, "day")
   else if num_ltb absSec (num_of_Z 31536000) then (at_ 2592000, "month")
   else (at_ 31536000, "year"))%string.

Definition is_cjk (c : N) : bool := ((0x4E00 <=? c) && (c <=? 0x9FFF))%N.

(** [s.replaceAll(/(\d)([\u4e00-\u9fff])/g, '$1 $2')]: no character is in both classes,
    so matches do not overlap. *)
Fixpoint space_digits (s : jsstr) : jsstr :=
  match s with
  | [] => []
  | a :: rest =>
      match rest with
      | b :: _ => if is_digit a && is_cjk b then a :: 32%N :: space_digits rest else a :: space_digits rest
      | [] => [a]
      end
  end.

(** [rtf] is the formatter of the locale, absent when its construction throws, and
    [language] the text of the locale; [now] is [Date.now()]. *)
Definition formatRelativeTime (timestamp now : num) (rtf : option (num -> string -> jsstr)) (language : option jsstr)
    : jsstr :=
  if num_eqb timestamp zero || is_nan timestamp then js "Never"
  else
    match rtf with
    | None => js "Unknown"
    | Some format =>
        let '(value, unit) := relative_unit (nsub timestamp (ndiv now (num_of_Z 1000))) in
        let formatted := format value unit in
        match language with
        | Some l => if starts_with (js "zh") l then space_digits formatted else formatted
        | None => formatted
        end
    end.

(** ** Channels *)

Record channel_info := {
  is_multi_key : bool;
  multi_key_size : num;
  multi_key_status_list : option (list (jsstr * num))
}.

(** The fields of a channel that the list reads. *)
Record channel := {
  r_id : num;
  r_type : num;
  r_key : jsstr;
  r_status : num;
  r_name : jsstr;
  r_response_time : num;
  r_balance : num;
  r_used_quota : num;
  r_models : jsstr;
  r_tag : option jsstr;
  r_channel_info : option channel_info;
  r_settings : option jsstr
}.

Definition isChannelEnabled (channel : channel) : bool := num_eqb (r_status channel) (num_of_Z 1).

Definition isMultiKeyChannel (channel : channel) : bool :=
  match r_channel_info channel with Some info => is_multi_key info | None => false end.

Definition getChannelProtocolFromChannel (channel : channel) : option jsstr :=
  getChannelProtocol (r_type channel) (parseChannelOtherSettings (r_settings channel)).

Definition validateChannelName (name : jsstr) : bool := (0 <? length (trim name))%nat.
Definition validateApiKey (key : jsstr) : bool := (0 <? length (trim key))%nat.
Definition validateModels (models : jsstr) : bool := (0 <? length (parseModelsList models))%nat.

Definition auto_disabled (channel : channel) : bool := num_eqb (r_status channel) (num_of_Z 3).

Definition low_balance (channel : channel) : bool :=
  num_ltb zero (r_balance channel) && num_ltb (r_balance channel) (num_of_Z 1).

Definition all_keys_disabled (channel : channel) : bool :=
  match r_channel_info channel with
  | Some info =>
      is_multi_key info
      && match multi_key_status_list info with
         | Some statuses => num_leb (multi_key_size info) (num_of_Z (Z.of_nat (length statuses)))
         | None => false
         end
  | None => false
  end.

Definition channelNeedsAttention (channel : channel) : bool :=
  if auto_disabled channel then true
  else if low_balance channel then true
  else if all_keys_disabled channel then true
  else false.

Definition getAttentionReason (channel : channel) : option string :=
  if auto_disabled channel then Some "Auto-disabled"%string
  else if low_balance channel then Some "Low balance"%string
  else if all_keys_disabled channel then Some "All keys disabled"%string
  else None.

(** ** Rows by tag *)

(** A row that stands for the channels of a tag.  Its key, identifier, tag and name are
    the tag; its type, balance, models and times are constants; the other fields are
    those of its first channel. *)
Record TagRow := {
  row_tag : jsstr;
  row_first : channel;
  row_status : option num;
  row_used_quota : num;
  row_response_time : num;
  children : list channel
}.

Inductive row := ChannelRow (c : channel) | Tagged (r : TagRow).

Definition isTagAggregateRow (r : row) : bool := match r with Tagged _ => true | ChannelRow _ => false end.

Definition getChannelTableRowId (r : row) : jsstr :=
  match r with
  | Tagged r => js "tag:" ++ row_tag r
  | ChannelRow c => js "channel:" ++ string_of_num (r_id c)
  end.

Definition tag_of (c : channel) : jsstr := default [] (r_tag c).

Definition new_row (c : channel) : TagRow := {|
  row_tag := tag_of c; row_first := c; row_status := None; row_used_quota := zero; row_response_time := zero;
  children := [] |}.

(** One channel joins the row of its tag. *)
Definition join_row (r : TagRow) (c : channel) : TagRow :=
  let childCount := S (length (children r)) in
  let count n := num_of_Z (Z.of_nat n) in
  {| row_tag := row_tag r;
     row_first := row_first r;
     row_status :=
       if num_eqb (r_status c) (num_of_Z 1) then Some (num_of_Z 1)
       else match row_status r with None => Some (r_status c) | status => status end;
     row_used_quota := nadd (row_used_quota r) (r_used_quota c);
     row_response_time :=
       ndiv (nadd (nmul (row_response_time r) (count (childCount - 1)%nat)) (r_response_time c)) (count childCount);
     children := children r ++ [c] |}.

(** The rows are shared by the map and the result; both are in the order of first use. *)
Definition aggregate_channel (rows : list TagRow) (c : channel) : list TagRow :=
  let rows := if existsb (fun r => row_tag r === tag_of c) rows then rows else rows ++ [new_row c] in
  map (fun r => if row_tag r === tag_of c then join_row r c else r) rows.

Definition aggregateChannelsByTag (channels : list channel) : list row :=
  map Tagged (fold_left aggregate_channel channels []).

(** ** Key management *)

Record dedup_result := {
  deduplicatedText : jsstr;
  beforeCount : nat;
  afterCount : nat;
  removedCount : nat
}.

Definition deduplicateKeys (keysText : jsstr) : dedup_result :=
  if negb (nonempty keysText) || negb (nonempty (trim keysText))
  then {| deduplicatedText := []; beforeCount := 0; afterCount := 0; removedCount := 0 |}
  else
    let keyLines := split 10%N keysText in
    let deduplicatedKeys := dedupe (List.filter nonempty (map trim keyLines)) in
    {| deduplicatedText := join [10%N] deduplicatedKeys;
       beforeCount := length keyLines;
       afterCount := length deduplicatedKeys;
       removedCount := (length keyLines - length deduplicatedKeys)%nat |}.

Definition TYPE_TO_KEY_PROMPT : list (Z * string) :=
  [(15, "Format: APIKey|SecretKey"); (18, "Format: APPID|APISecret|APIKey");
   (22, "Format: APIKey-AppId, e.g., fastgpt-0sp2gtvfdgyi4k30jwlgwf1i-64f335d84283f05518e9e041");
   (23, "Format: TokenHub API Key, or legacy AppId|SecretId|SecretKey"); (33, "Format: Ak|Sk|Region");
   (50, "Format: AccessKey|SecretKey (or just ApiKey if upstream is New API)");
   (51, "Format: Access Key ID|Secret Access Key");
   (57, "Paste Codex OAuth JSON credential (access_token / refresh_token / account_id)");
   (59, "Enter API key for this channel"); (60, "Enter API key for this channel")]%string.

Definition getKeyPromptForType (type : num) : string :=
  default "Enter API key for this channel"%string (lookup_number TYPE_TO_KEY_PROMPT type).

(** ** Grouping by tag *)

(** The channels of a tag. *)
Definition with_tag (tag : jsstr) (channels : list channel) : list channel :=
  List.filter (fun c => tag_of c === tag) channels.

(** Enabled if some channel is, else as the first. *)
Definition group_status (group : list channel) : option num :=
  if existsb isChannelEnabled group then Some (num_of_Z 1) else r_status <$> head group.

Definition row_of_group (channels : list channel) (r : TagRow) : Prop :=
  children r = with_tag (row_tag r) channels
  /\ head (children r) = Some (row_first r)
  /\ row_status r = group_status (children r)
  /\ row_used_quota r = fold_left nadd (map r_used_quota (children r)) zero.

Lemma includes_str_snoc xs y x : includes_str (xs ++ [y]) x = includes_str xs x || (y === x).
Proof.
  induction xs as [|z xs IH]; cbn [app].
  - change (includes_str [y] x) with ((y === x) || false). apply orb_false_r.
  - change ((z === x) || includes_str (xs ++ [y]) x = (z === x) || includes_str xs x || (y === x)).
    by rewrite IH, orb_assoc.
Qed.

Lemma dedupe_snoc xs x : dedupe (xs ++ [x]) = if includes_str xs x then dedupe xs else dedupe xs ++ [x].
Proof.
  unfold dedupe. assert (H : forall seen, dedupe_from seen (xs ++ [x])
    = if includes_str seen x || includes_str xs x then dedupe_from seen xs else dedupe_from seen xs ++ [x]).
  { induction xs as [|y xs IH]; intros seen; cbn [app dedupe_from].
    - by destruct (includes_str seen x).
    - change (includes_str (y :: xs) x) with ((y === x) || includes_str xs x).
      destruct (includes_str seen y) eqn:Hy; rewrite IH.
      + destruct (str_eqb_spec y x) as [->|]; [by rewrite Hy|by destruct (includes_str seen x)].
      + rewrite includes_str_snoc. by destruct (y === x), (includes_str seen x), (includes_str xs x). }
  apply (H []).
Qed.

Lemma with_tag_snoc tag channels c :
  with_tag tag (channels ++ [c]) = with_tag tag channels ++ (if tag_of c === tag then [c] else []).
Proof. unfold with_tag. rewrite List.filter_app. cbn [List.filter]. by destruct (tag_of c === tag). Qed.

Lemma group_status_snoc first group c :
  group_status ((first :: group) ++ [c])
  = if num_eqb (r_status c) (num_of_Z 1) then Some (num_of_Z 1) else group_status (first :: group).
Proof.
  unfold group_status. rewrite existsb_app. cbn [existsb]. rewrite orb_false_r. unfold isChannelEnabled at 3.
  destruct (num_eqb (r_status c) (num_of_Z 1)); [by rewrite orb_true_r|]. by rewrite orb_false_r.
Qed.

Lemma group_status_some first group : exists status, group_status (first :: group) = Some status.
Proof. unfold group_status. destruct (existsb _ _); by eexists. Qed.

(** A channel joins the row of its tag. *)
Lemma join_row_group channels r c : row_tag r = tag_of c -> row_of_group channels r ->
  row_of_group (channels ++ [c]) (join_row r c).
Proof.
  intros Htag (Hchildren & Hfirst & Hstatus & Hquota). unfold row_of_group. cbn [join_row row_tag children
    row_first row_status row_used_quota].
  rewrite with_tag_snoc, <- Hchildren, Htag, str_eqb_refl.
  destruct (children r) as [|first group] eqn:Hgroup; [done|]. split_and!; [done|exact Hfirst| |].
  - rewrite group_status_snoc, Hstatus. destruct (num_eqb (r_status c) (num_of_Z 1)); [done|].
    by destruct (group_status_some first group) as (status & ->).
  - rewrite map_app, fold_left_app, <- Hquota. done.
Qed.

(** A first channel of a tag makes a row. *)
Lemma new_row_group channels c : with_tag (tag_of c) channels = [] ->
  row_of_group (channels ++ [c]) (join_row (new_row c) c).
Proof.
  intros Hnone. unfold row_of_group. cbn [join_row new_row row_tag children row_first row_status row_used_quota app].
  rewrite with_tag_snoc, Hnone, str_eqb_refl. split_and!; [done|done| |done].
  unfold group_status. cbn [existsb head fmap option_fmap option_map]. rewrite orb_false_r. unfold isChannelEnabled.
  by destruct (num_eqb (r_status c) (num_of_Z 1)).
Qed.

Lemma other_row_group channels r c : (row_tag r === tag_of c) = false -> row_of_group channels r ->
  row_of_group (channels ++ [c]) r.
Proof.
  intros Htag Hr. unfold row_of_group. rewrite with_tag_snoc. rewrite str_eqb_sym in Htag. rewrite Htag.
  by rewrite app_nil_r.
Qed.

Lemma includes_tag rows tag : existsb (fun r => row_tag r === tag) rows = includes_str (map row_tag rows) tag.
Proof. induction rows as [|r rows IH]; [done|]. cbn [existsb map]. by rewrite IH. Qed.

Lemma no_tag_no_channels channels tag : includes_str (map tag_of channels) tag = false -> with_tag tag channels = [].
Proof.
  induction channels as [|c channels IH]; [done|]. cbn [map].
  change (includes_str (tag_of c :: map tag_of channels) tag) with ((tag_of c === tag) || includes_str (map tag_of channels) tag).
  intros (Hc & Hrest)%orb_false_iff. unfold with_tag. cbn [List.filter]. rewrite Hc. by apply IH.
Qed.

Lemma joined_tags rows c : map row_tag (map (fun r => if row_tag r === tag_of c then join_row r c else r) rows) = map row_tag rows.
Proof. rewrite map_map. apply map_ext. intros r. by destruct (row_tag r === tag_of c). Qed.

Lemma includes_dedupe xs x : includes_str (dedupe xs) x = includes_str xs x.
Proof. apply eq_true_iff_eq. by rewrite !includes_str_spec, elem_of_dedupe. Qed.

Lemma join_rows channels rows c : Forall (row_of_group channels) rows ->
  Forall (row_of_group (channels ++ [c])) (map (fun r => if row_tag r === tag_of c then join_row r c else r) rows).
Proof.
  intros Hrows. apply Forall_map. eapply Forall_impl; [exact Hrows|]. intros r Hr.
  destruct (row_tag r === tag_of c) eqn:Htag; [|by apply other_row_group].
  apply join_row_group; [by apply str_eqb_eq|done].
Qed.

Lemma aggregate_step channels rows c :
  map row_tag rows = dedupe (map tag_of channels) -> Forall (row_of_group channels) rows ->
  map row_tag (aggregate_channel rows c) = dedupe (map tag_of (channels ++ [c]))
  /\ Forall (row_of_group (channels ++ [c])) (aggregate_channel rows c).
Proof.
  intros Htags Hrows. unfold aggregate_channel. cbv zeta. rewrite includes_tag, Htags, includes_dedupe.
  rewrite map_app. cbn [map]. rewrite dedupe_snoc.
  destruct (includes_str (map tag_of channels) (tag_of c)) eqn:Hknown.
  - by rewrite joined_tags; split; [|apply join_rows].
  - rewrite joined_tags, map_app, Htags. split; [done|]. rewrite map_app. apply Forall_app.
    split; [by apply join_rows|]. cbn [map new_row row_tag]. rewrite str_eqb_refl. constructor; [|constructor].
    by apply new_row_group, no_tag_no_channels.
Qed.

Lemma aggregate_rows channels : let rows := fold_left aggregate_channel channels [] in
  map row_tag rows = dedupe (map tag_of channels) /\ Forall (row_of_group channels) rows.
Proof.
  induction channels as [|c channels IH] using rev_ind; [done|]. cbv zeta. rewrite fold_left_app. cbn [fold_left].
  destruct IH as (Htags & Hrows). by apply aggregate_step.
Qed.

(** The rows are those of the distinct tags, in the order of their first channels; each
    holds exactly the channels of its tag, is enabled if one of them is, and sums their
    used quota.  Their identifiers are distinct. *)
Theorem aggregateChannelsByTag_groups channels : exists rows,
  aggregateChannelsByTag channels = map Tagged rows
  /\ map row_tag rows = dedupe (map tag_of channels)
  /\ Forall (row_of_group channels) rows
  /\ NoDup (map getChannelTableRowId (map Tagged rows)).
Proof.
  exists (fold_left aggregate_channel channels []). destruct (aggregate_rows channels) as (Htags & Hrows).
  split_and!; [done|done|done|]. rewrite map_map.
  rewrite (map_ext _ (fun r => js "tag:" ++ row_tag r)) by done.
  rewrite <- (map_map row_tag (fun tag => js "tag:" ++ tag)), Htags.
  apply NoDup_fmap_2; [intros a b; apply app_inv_head|apply NoDup_dedupe].
Qed.

(** ** Duplicate keys *)

Lemma key_line_plain key k : k ∈ List.filter nonempty (map trim (split 10%N key)) -> trim k = k /\ k <> [] /\ 10%N ∉ k.
Proof.
  intros (Hk & Hne)%in_filter. apply list_elem_of_In, in_map_iff in Hk as (p & <- & Hp).
  apply list_elem_of_In, split_no_sep in Hp. split_and!; [apply trim_idemp|by destruct (trim p)|].
  by intros Hin%elem_of_trim.
Qed.

Lemma filter_trimmed ks : Forall (fun k => trim k = k /\ k <> [] /\ 10%N ∉ k) ks -> List.filter nonempty (map trim ks) = ks.
Proof.
  induction 1 as [|k ks (Hk & Hne & _) _ IH]; [done|]. cbn [map List.filter]. rewrite Hk, IH. by destruct k.
Qed.

Lemma join_not_blank sep k ks : trim k = k -> k <> [] ->
  nonempty (join sep (k :: ks)) = true /\ nonempty (trim (join sep (k :: ks))) = true.
Proof.
  destruct k as [|c k]; [done|]. intros Hk _. pose proof (trim_head _ _ _ Hk) as Hc.
  assert (Hin : c ∈ join sep ((c :: k) :: ks)) by (destruct ks; set_solver).
  split; [by destruct ks|by apply (elem_not_blank c)].
Qed.

Definition key_list (ks : list jsstr) : Prop := Forall (fun k => trim k = k /\ k <> [] /\ 10%N ∉ k) ks /\ dedupe ks = ks.

(** The text is that of distinct keys. *)
Lemma deduplicated_text key : exists ks, deduplicatedText (deduplicateKeys key) = join [10%N] ks /\ key_list ks.
Proof.
  unfold deduplicateKeys. destruct (_ || _); cbn [deduplicatedText]; [by exists []; split; [|split; [constructor|]]|].
  eexists. split; [reflexivity|]. split; [|apply dedupe_idemp].
  apply Forall_dedupe, Forall_forall. intros k. apply key_line_plain.
Qed.

Lemma deduplicate_key_list ks : key_list ks ->
  deduplicatedText (deduplicateKeys (join [10%N] ks)) = join [10%N] ks /\ removedCount (deduplicateKeys (join [10%N] ks)) = 0%nat.
Proof.
  intros (Hks & Hdedupe). destruct ks as [|k ks]; [done|].
  assert (Hk := Hks). apply Forall_cons_1 in Hk as ((Hk & Hne & _) & _). unfold deduplicateKeys.
  destruct (join_not_blank [10%N] k ks Hk Hne) as (-> & ->). cbn [negb orb deduplicatedText removedCount].
  rewrite split_join; [|done|by eapply Forall_impl; [exact Hks|]; intros ? (_ & _ & ?)].
  rewrite filter_trimmed, Hdedupe by done. split; [done|lia].
Qed.

(** Removing duplicate keys keeps each key once, in order, and leaves nothing to remove. *)
Lemma deduplicateKeys_stable key :
  let once := deduplicateKeys key in
  let again := deduplicateKeys (deduplicatedText once) in
  deduplicatedText again = deduplicatedText once /\ removedCount again = 0%nat.
Proof.
  cbv zeta. destruct (deduplicated_text key) as (ks & -> & Hks). by apply deduplicate_key_list.
Qed.

(** ** Attention, protocols *)

Lemma attention_has_reason c : channelNeedsAttention c = true <-> getAttentionReason c <> None.
Proof.
  unfold channelNeedsAttention, getAttentionReason. by destruct (auto_disabled c), (low_balance c), (all_keys_disabled c).
Qed.

Definition offered (protocol : option jsstr) : Prop :=
  (or_text protocol CHANNEL_PROTOCOL_CUSTOM_VALUE, getChannelProtocolLabelKey protocol) ∈ CHANNEL_PROTOCOL_FILTER_OPTIONS.

Lemma known_protocol_offered p : p ∈ map o_value CHANNEL_PROTOCOL_OPTIONS -> offered (Some p).
Proof.
  unfold offered, CHANNEL_PROTOCOL_FILTER_OPTIONS. intros Hp. apply elem_of_app. left.
  apply list_elem_of_In, in_map_iff in Hp as (o & <- & Ho). apply list_elem_of_In, in_map_iff. exists o. split; [|done].
  repeat (destruct Ho as [<-|Ho]; [reflexivity|]). destruct Ho.
Qed.

Lemma protocol_groups type candidates :
  lookup_number PROTOCOLS_BY_ADAPTER_TYPE type = Some candidates ->
  candidates = [js "openai-chat"; js "openai-responses"] \/ candidates = [js "anthropic"] \/ candidates = [js "gemini"].
Proof.
  unfold lookup_number. change PROTOCOLS_BY_ADAPTER_TYPE with
    [(1, [js "openai-chat"; js "openai-responses"]); (14, [js "anthropic"]); (24, [js "gemini"])].
  cbn [List.find fst]. destruct (is_type type 1); [intros [= <-]; by left|].
  destruct (is_type type 14); [intros [= <-]; by right; left|].
  destruct (is_type type 24); [intros [= <-]; by right; right|done].
Qed.

(** The filter offers the protocol of every channel, with the label the list shows. *)
Lemma protocol_offered type otherSettings : offered (getChannelProtocol type otherSettings).
Proof.
  unfold getChannelProtocol. destruct (isChannelProtocol _) eqn:Hp.
  - apply known_protocol_offered. unfold isChannelProtocol in Hp.
    apply existsb_exists in Hp as (p & Hin & Hp). apply strict_eq_str in Hp as ->. cbn [string_of_val].
    change (map o_value CHANNEL_PROTOCOL_OPTIONS)
      with (map js ["openai-chat"; "openai-responses"; "anthropic"; "gemini"]%string).
    by apply list_elem_of_In, in_map.
  - destruct (lookup_number PROTOCOLS_BY_ADAPTER_TYPE type) as [candidates|] eqn:Hc.
    + apply protocol_groups in Hc as [->|[->| ->]]; apply known_protocol_offered; set_solver.
    + unfold offered, CHANNEL_PROTOCOL_FILTER_OPTIONS. apply elem_of_app. right. by left.
Qed.

(** ** Examples *)

(** A key of at most eight units is shown in full. *)
Example short_key_shown : formatChannelKey (js "sk-12345") false = js "sk-1...2345".
Proof. reflexivity. Qed.

(** A line break at the end counts as a removed key. *)
Example blank_line_removed :
  removedCount (deduplicateKeys (js "sk-1" ++ [10%N])) = 1%nat
  /\ deduplicatedText (deduplicateKeys (js "sk-1" ++ [10%N])) = js "sk-1".
Proof. split; reflexivity. Qed.
