(* ===== verification/ChannelConfiguration.v ===== *)
(** * The configuration of a channel ([features/channels/lib/channel-configuration.ts],
      [features/channels/lib/channel-field-update.ts])

    The status of the blocks and sections of the channel form, and the delayed update
    of a number in the list.  What the schema of the form finds wrong is an argument:
    the fields of the issues of [channelFormSchema.safeParse].  Then: a section shows an
    error exactly when one of its fields has one, and a delayed update commits the last
    value once. *)

From S2P Require Import Prelude JsString JsNumber JsValue JsJson ChannelForm.

(** ** Sections and blocks *)

Inductive ChannelConfigurationSection := Connection | Routing | Prices | Request | Other.
Inductive ChannelConfigurationStatus := Idle | Configured | Ready | Error.

#[global] Instance section_eq_dec : EqDecision ChannelConfigurationSection.
Proof. solve_decision. Defined.
#[global] Instance status_eq_dec : EqDecision ChannelConfigurationStatus.
Proof. solve_decision. Defined.

Inductive ChannelConfigurationBlock :=
| modelMapping | routingStrategy | channelPrices | overrideRules | requestProcessing | fieldPassthrough
| extraSettings | upstreamModelDetection | internalNotes.

#[global] Instance block_eq_dec : EqDecision ChannelConfigurationBlock.
Proof. solve_decision. Defined.

Record block_row := { block : ChannelConfigurationBlock; section : ChannelConfigurationSection; fields : list jsstr }.

Definition block_of (block : ChannelConfigurationBlock) (section : ChannelConfigurationSection) (fields : list string)
    : block_row :=
  {| block := block; section := section; fields := map js fields |}.

Definition CONFIGURATION_BLOCKS : list block_row :=
  [block_of modelMapping Routing ["model_mapping"];
   block_of routingStrategy Routing ["test_model"; "auto_ban"];
   block_of channelPrices Prices ["pbr_prices"];
   block_of overrideRules Request ["status_code_mapping"; "param_override"; "header_override"];
   block_of requestProcessing Request
     ["force_format"; "thinking_to_content"; "pass_through_body_enabled"; "system_prompt"; "system_prompt_override"];
   block_of fieldPassthrough Request
     ["allow_service_tier"; "disable_store"; "allow_safety_identifier"; "allow_include_obfuscation";
      "allow_inference_geo"; "allow_speed"; "claude_beta_query"];
   block_of extraSettings Other ["proxy"; "http_protocol"; "http2_connection_shards"];
   block_of upstreamModelDetection Other
     ["upstream_model_update_check_enabled"; "upstream_model_update_auto_sync_enabled";
      "upstream_model_update_ignored_models"];
   block_of internalNotes Other ["tag"; "remark"]]%string.

Definition getChannelConfigurationSection (field : jsstr) : ChannelConfigurationSection :=
  match List.find (fun b => includes_str (fields b) field) CONFIGURATION_BLOCKS with
  | Some b => section b
  | None => Connection
  end.

(** ** What is configured *)

Definition hasConfiguredJson (value : option jsstr) : bool :=
  let trimmed := trim (default [] value) in
  if negb (nonempty trimmed) || (trimmed === js "null") then false
  else
    match json_parse trimmed with
    | Some (JArr l) => nonempty_list l
    | Some (JObj fs) => nonempty_list fs
    | _ => true
    end.

(** [a || b] where the first may be true, and the second may throw. *)
Definition or_else (a : bool) (b : outcome type_error bool) : outcome type_error bool := if a then Ret true else b.

(** The truth of [v?.trim()] *)
Definition has_trimmed (v : jsval) : outcome type_error bool :=
  let? s := trim_or_empty v in Ret (nonempty s).

Definition has_text_in (s : option jsstr) : bool := nonempty (trim (default [] s)).

Definition request_processing (values : ChannelFormValues) : outcome type_error bool :=
  or_else ((is_type (type values) 1 && truthy (force_format values)) || truthy (thinking_to_content values)
           || truthy (pass_through_body_enabled values))
    (let? prompt := has_trimmed (system_prompt values) in Ret (prompt || truthy (system_prompt_override values))).

Definition field_passthrough (values : ChannelFormValues) : bool :=
  let openaiPassthrough := type_in OPENAI_FIELD_PASSTHROUGH_TYPES (type values) in
  let claudePassthrough := type_in CLAUDE_FIELD_PASSTHROUGH_TYPES (type values) in
  ((openaiPassthrough || claudePassthrough)
   && (is_some_true (allow_service_tier values) || is_some_true (allow_inference_geo values)))
  || (openaiPassthrough
      && (is_some_true (disable_store values) || is_some_true (allow_safety_identifier values)
          || is_some_true (allow_include_obfuscation values)))
  || (claudePassthrough
      && (is_some_true (allow_speed values) || (is_type (type values) 14 && is_some_true (claude_beta_query values)))).

Definition extra_settings_configured (values : ChannelFormValues) : outcome type_error bool :=
  let? proxy_ := has_trimmed (proxy values) in
  Ret (proxy_
       || (truthy (http_protocol values) && negb (strict_eq (http_protocol values) (JStr (js "auto"))))
       || greater_than (shards_or_one values) one).

Definition configured_blocks (values : ChannelFormValues) : outcome type_error (ChannelConfigurationBlock -> bool) :=
  let? processing := request_processing values in
  let? extra := extra_settings_configured values in
  Ret (fun b =>
    match b with
    | modelMapping => hasConfiguredJson (model_mapping values)
    | routingStrategy => has_text_in (test_model values) || negb (num_eqb (default one (auto_ban values)) one)
    | channelPrices => nonempty_list (default [] (pbr_prices values))
    | overrideRules => hasConfiguredJson (status_code_mapping values) || hasConfiguredJson (param_override values)
                       || hasConfiguredJson (header_override values)
    | requestProcessing => processing
    | fieldPassthrough => field_passthrough values
    | extraSettings => extra
    | upstreamModelDetection =>
        type_in MODEL_FETCHABLE_TYPES (type values)
        && (is_some_true (upstream_model_update_check_enabled values)
            || is_some_true (upstream_model_update_auto_sync_enabled values)
            || has_text_in (upstream_model_update_ignored_models values))
    | internalNotes => has_text_in (tag values) || has_text_in (remark values)
    end).

(** ** Statuses *)

Definition statuses : Type := ChannelConfigurationSection -> ChannelConfigurationStatus.
Definition set_status (sections : statuses) (s : ChannelConfigurationSection) (status : ChannelConfigurationStatus)
    : statuses :=
  fun s' => if decide (s' = s) then status else sections s'.

Section State.
Context (errors : list jsstr) (configured : ChannelConfigurationBlock -> bool).

Definition has_error (b : block_row) : bool := existsb (includes_str errors) (fields b).

Definition block_status (b : block_row) : ChannelConfigurationStatus :=
  if has_error b then Error else if configured (block b) then Configured else Idle.

(** One round of the loop over the blocks. *)
Definition section_step (sections : statuses) (b : block_row) : statuses :=
  if has_error b || (negb (bool_decide (sections (section b) = Error)) && configured (block b))
  then set_status sections (section b) (block_status b)
  else sections.
End State.

Record configuration_state := {
  blocks : list (ChannelConfigurationBlock * ChannelConfigurationStatus);
  sections : statuses
}.

(** [errors] are the fields with an error, [issues] those that the schema objects to. *)
Definition getChannelConfigurationState (values : ChannelFormValues) (errors : list jsstr) (isEditing : bool)
    (issues : list jsstr) : outcome type_error configuration_state :=
  let? configured := configured_blocks values in
  let by_block := fold_left (section_step errors configured) CONFIGURATION_BLOCKS (fun _ => Idle) in
  let is_connection field := bool_decide (getChannelConfigurationSection field = Connection) in
  let connectionInvalid := existsb is_connection issues in
  let ready :=
    negb connectionInvalid && nonempty (trim (name values)) && num_ltb zero (type values)
    && nonempty (trim (models values)) && (isEditing || nonempty (trim (key values))) in
  let sections := if ready then set_status by_block Connection Ready else by_block in
  let sections := if existsb is_connection errors then set_status sections Connection Error else sections in
  Ret {| blocks := map (fun b => (block b, block_status errors configured b)) CONFIGURATION_BLOCKS;
         sections := sections |}.

(** ** The status of a section *)

Lemma fields_of_section :
  forallb (fun b => forallb (fun f => bool_decide (getChannelConfigurationSection f = section b)) (fields b)
                    && negb (bool_decide (section b = Connection))) CONFIGURATION_BLOCKS = true.
Proof. vm_compute. reflexivity. Qed.

Lemma field_section b f : b ∈ CONFIGURATION_BLOCKS -> f ∈ fields b -> getChannelConfigurationSection f = section b.
Proof.
  intros Hb Hf. pose proof fields_of_section as H. rewrite forallb_forall in H.
  apply list_elem_of_In in Hb, Hf. apply H, andb_prop in Hb as (Hfields & _).
  rewrite forallb_forall in Hfields. by apply Hfields, bool_decide_eq_true in Hf.
Qed.

Lemma no_connection_block b : b ∈ CONFIGURATION_BLOCKS -> section b <> Connection.
Proof.
  intros Hb. pose proof fields_of_section as H. rewrite forallb_forall in H.
  apply list_elem_of_In, H, andb_prop in Hb as (_ & Hb). by apply negb_true_iff, bool_decide_eq_false in Hb.
Qed.

(** A field outside the connection belongs to a block. *)
Lemma section_field f s : getChannelConfigurationSection f = s -> s <> Connection ->
  exists b, b ∈ CONFIGURATION_BLOCKS /\ section b = s /\ f ∈ fields b.
Proof.
  unfold getChannelConfigurationSection. destruct (List.find _ _) as [b|] eqn:Hfind; [|congruence].
  intros <- _. apply find_some in Hfind as (Hb & Hf). exists b.
  split_and!; [by apply list_elem_of_In|done|by apply includes_str_spec].
Qed.

Section Loop.
Context (errors : list jsstr) (configured : ChannelConfigurationBlock -> bool).

Definition of_section (s : ChannelConfigurationSection) (test : block_row -> bool) (bs : list block_row) : bool :=
  existsb (fun b => bool_decide (section b = s) && test b) bs.

(** Errors come first, then configured blocks. *)
Definition section_status (s : ChannelConfigurationSection) (bs : list block_row) : ChannelConfigurationStatus :=
  if of_section s (has_error errors) bs then Error
  else if of_section s (fun b => configured (block b)) bs then Configured else Idle.

Lemma of_section_snoc s test bs b :
  of_section s test (bs ++ [b]) = of_section s test bs || (bool_decide (section b = s) && test b).
Proof. unfold of_section. rewrite existsb_app. cbn [existsb]. by rewrite orb_false_r. Qed.

Lemma status_error s bs : bool_decide (section_status s bs = Error) = of_section s (has_error errors) bs.
Proof.
  unfold section_status. destruct (of_section s (has_error errors) bs); [done|].
  by destruct (of_section s (fun b => configured (block b)) bs).
Qed.

Lemma set_status_here (before : statuses) s status : set_status before s status s = status.
Proof. unfold set_status. by rewrite decide_True. Qed.

Lemma set_status_other (before : statuses) s s' status : s <> s' -> set_status before s status s' = before s'.
Proof. intros H. unfold set_status. by rewrite decide_False by congruence. Qed.

(** One round on the section of its block. *)
Lemma step_here (before : statuses) bs b : (forall s, before s = section_status s bs) ->
  section_step errors configured before b (section b) = section_status (section b) (bs ++ [b]).
Proof.
  intros Hbefore. unfold section_step, block_status. rewrite Hbefore, status_error.
  unfold section_status at 1. rewrite !of_section_snoc, bool_decide_eq_true_2 by done. cbn [andb].
  destruct (has_error errors b); cbn [orb]; [rewrite set_status_here; by rewrite orb_true_r|]. rewrite orb_false_r.
  destruct (of_section (section b) (has_error errors) bs) eqn:Herror; cbn [negb andb];
    [by rewrite Hbefore; unfold section_status; rewrite Herror|].
  destruct (configured (block b)); [rewrite set_status_here; by rewrite orb_true_r|]. rewrite orb_false_r, Hbefore.
  unfold section_status. by rewrite Herror.
Qed.

Lemma step_other (before : statuses) bs b s : (forall s, before s = section_status s bs) -> section b <> s ->
  section_step errors configured before b s = section_status s (bs ++ [b]).
Proof.
  intros Hbefore Hne. unfold section_step, section_status. rewrite !of_section_snoc, (bool_decide_eq_false_2 (section b = s)) by done.
  cbn [andb]. rewrite !orb_false_r.
  assert (Hs := Hbefore s). unfold section_status in Hs. rewrite <- Hs.
  destruct (_ || _); [by apply set_status_other|done].
Qed.

Lemma loop_status bs s :
  fold_left (section_step errors configured) bs (fun _ => Idle) s = section_status s bs.
Proof.
  revert s. induction bs as [|b bs IH] using rev_ind; intros s; [done|].
  rewrite fold_left_app. cbn [fold_left].
  destruct (decide (section b = s)) as [<-|Hne]; [by apply step_here|by apply step_other].
Qed.
End Loop.

Lemma section_status_cases errors configured s bs :
  (section_status errors configured s bs = Error <-> of_section s (has_error errors) bs = true)
  /\ (section_status errors configured s bs <> Error ->
      (section_status errors configured s bs = Configured <-> of_section s (fun b => configured (block b)) bs = true))
  /\ section_status errors configured s bs <> Ready.
Proof.
  unfold section_status. destruct (of_section s (has_error errors) bs); [done|].
  by destruct (of_section s (fun b => configured (block b)) bs).
Qed.

Definition has_connection_error (errors : list jsstr) : bool :=
  existsb (fun f => bool_decide (getChannelConfigurationSection f = Connection)) errors.

Lemma of_section_error errors s : s <> Connection ->
  of_section s (has_error errors) CONFIGURATION_BLOCKS = true
  <-> exists f, f ∈ errors /\ getChannelConfigurationSection f = s.
Proof.
  intros Hs. unfold of_section, has_error. rewrite existsb_exists. split.
  - intros (b & Hb & (Hsec & Herr)%andb_prop). apply bool_decide_eq_true in Hsec.
    apply existsb_exists in Herr as (f & Hf & Hin). apply includes_str_spec in Hin. exists f. split; [done|].
    rewrite <- Hsec. apply field_section; by apply list_elem_of_In.
  - intros (f & Hf & Hsec). destruct (section_field f s Hsec Hs) as (b & Hb & Hsb & Hfb). exists b.
    split; [by apply list_elem_of_In|]. rewrite bool_decide_eq_true_2 by done. apply existsb_exists. exists f.
    split; [by apply list_elem_of_In|by apply includes_str_spec].
Qed.

Lemma of_section_none test : of_section Connection test CONFIGURATION_BLOCKS = false.
Proof.
  unfold of_section. apply not_true_iff_false. rewrite existsb_exists. intros (b & Hb & (Hs & _)%andb_prop).
  apply bool_decide_eq_true in Hs. apply list_elem_of_In in Hb. by apply (no_connection_block b).
Qed.

Lemma of_section_configured (configured : ChannelConfigurationBlock -> bool) s :
  of_section s (fun b => configured (block b)) CONFIGURATION_BLOCKS = true
  <-> exists b, b ∈ CONFIGURATION_BLOCKS /\ section b = s /\ configured (block b) = true.
Proof.
  unfold of_section. rewrite existsb_exists. split.
  - intros (b & Hb & (Hs & Hc)%andb_prop). apply bool_decide_eq_true in Hs. exists b.
    split_and!; [by apply list_elem_of_In|done|done].
  - intros (b & Hb & Hs & Hc). exists b. rewrite bool_decide_eq_true_2 by done. by split; [apply list_elem_of_In|].
Qed.

Lemma connection_error errors : has_connection_error errors = true
  <-> exists f, f ∈ errors /\ getChannelConfigurationSection f = Connection.
Proof.
  unfold has_connection_error. rewrite existsb_exists. split; intros (f & Hf & Hc); exists f.
  - split; [by apply list_elem_of_In|by apply bool_decide_eq_true in Hc].
  - split; [by apply list_elem_of_In|by apply bool_decide_eq_true].
Qed.

(** The sections of a state: those of the blocks, and the verdict on the connection. *)
Lemma state_sections values errors isEditing issues state :
  getChannelConfigurationState values errors isEditing issues = Ret state ->
  exists configured, configured_blocks values = Ret configured
    /\ (forall s, s <> Connection -> sections state s = section_status errors configured s CONFIGURATION_BLOCKS)
    /\ (sections state Connection = Error <-> has_connection_error errors = true).
Proof.
  unfold getChannelConfigurationState. destruct (configured_blocks values) as [configured| |]; [|done..].
  cbn [obind]. cbv zeta. fold (has_connection_error errors). intros H%Ret_inj. exists configured. split; [done|].
  rewrite <- H. cbn [sections]. clear H.
  set (by_block := fold_left _ _ _). assert (Hby : forall s, by_block s = section_status errors configured s CONFIGURATION_BLOCKS)
    by apply loop_status. clearbody by_block.
  set (ready := (_ && _)). clearbody ready.
  assert (Hnone : by_block Connection = Idle) by (rewrite Hby; unfold section_status; by rewrite !of_section_none).
  split.
  - intros s Hs. rewrite <- Hby. destruct (has_connection_error errors), ready;
      rewrite ?set_status_other by done; done.
  - destruct (has_connection_error errors); [by rewrite set_status_here|].
    destruct ready; rewrite ?set_status_here, ?Hnone; done.
Qed.

(** A section shows an error exactly when one of its fields has one; only the connection
    can be ready, and any other section without an error is configured exactly when one
    of its blocks is. *)
Theorem configuration_sections values errors isEditing issues state :
  getChannelConfigurationState values errors isEditing issues = Ret state ->
  (forall s, sections state s = Error <-> exists f, f ∈ errors /\ getChannelConfigurationSection f = s)
  /\ (forall s, sections state s = Ready -> s = Connection)
  /\ exists configured, configured_blocks values = Ret configured
      /\ forall s, s <> Connection -> sections state s <> Error ->
         (sections state s = Configured
          <-> exists b, b ∈ CONFIGURATION_BLOCKS /\ section b = s /\ configured (block b) = true).
Proof.
  intros (configured & Hc & Hother & Hconnection)%state_sections. split_and!.
  - intros s. destruct (decide (s = Connection)) as [->|Hs]; [by rewrite Hconnection, connection_error|].
    rewrite Hother, <- (of_section_error errors s Hs) by done. apply section_status_cases.
  - intros s Hready. destruct (decide (s = Connection)) as [|Hs]; [done|]. rewrite Hother in Hready by done.
    by destruct (section_status_cases errors configured s CONFIGURATION_BLOCKS) as (_ & _ & ?).
  - exists configured. split; [done|]. intros s Hs Hnoerror. rewrite <- of_section_configured.
    rewrite Hother in * by done. by apply section_status_cases.
Qed.

(** ** Delayed updates ([channel-field-update.ts]) *)

(** The scheduler's variables, the timers of the platform that have not fired, and the
    values given to [onUpdate], the last one last. *)
Record scheduler := {
  timeoutId : option nat;
  pendingValue : option num;
  armed : list nat;
  next_timer : nat;
  updates : list num
}.

Definition initial_scheduler : scheduler :=
  {| timeoutId := None; pendingValue := None; armed := []; next_timer := 0; updates := [] |}.

Definition disarm (id : nat) (armed : list nat) : list nat := List.filter (fun i => negb (i =? id)%nat) armed.

Definition clearPendingTimer (s : scheduler) : scheduler :=
  match timeoutId s with
  | None => s
  | Some id => {| timeoutId := None; pendingValue := pendingValue s; armed := disarm id (armed s);
                  next_timer := next_timer s; updates := updates s |}
  end.

Definition commitPendingValue (s : scheduler) : scheduler :=
  let s := clearPendingTimer s in
  match pendingValue s with
  | None => s
  | Some value => {| timeoutId := timeoutId s; pendingValue := None; armed := armed s; next_timer := next_timer s;
                     updates := updates s ++ [value] |}
  end.

Definition schedule (value : num) (s : scheduler) : scheduler :=
  let s := clearPendingTimer s in
  {| timeoutId := Some (next_timer s); pendingValue := Some value; armed := armed s ++ [next_timer s];
     next_timer := S (next_timer s); updates := updates s |}.

(** A timer that fires is no longer armed. *)
Definition fire (id : nat) (s : scheduler) : scheduler :=
  if bool_decide (id ∈ armed s) then
    commitPendingValue {| timeoutId := timeoutId s; pendingValue := pendingValue s; armed := disarm id (armed s);
                          next_timer := next_timer s; updates := updates s |}
  else s.

Inductive update_event := Schedule (value : num) | Flush | Fire (id : nat).

Definition update_step (s : scheduler) (e : update_event) : scheduler :=
  match e with
  | Schedule value => schedule value s
  | Flush => commitPendingValue s
  | Fire id => fire id s
  end.

Definition update_run (es : list update_event) : scheduler := fold_left update_step es initial_scheduler.

Definition scheduled (es : list update_event) : list num :=
  omap (fun e => match e with Schedule value => Some value | _ => None end) es.

(** A value waits exactly while a timer is armed, and it is the only one. *)
Definition one_timer (s : scheduler) : Prop :=
  armed s = option_list (timeoutId s) /\ (timeoutId s = None <-> pendingValue s = None).

Definition given (s : scheduler) : list num := updates s ++ option_list (pendingValue s).

Lemma disarm_one id : disarm id [id] = [].
Proof. unfold disarm. cbn. by rewrite Nat.eqb_refl. Qed.

(** Either nothing waits, or one value with its timer. *)
Lemma one_timer_cases s : one_timer s ->
  (timeoutId s = None /\ pendingValue s = None /\ armed s = [])
  \/ exists id value, timeoutId s = Some id /\ pendingValue s = Some value /\ armed s = [id].
Proof.
  intros (Harmed & Hnone). destruct (timeoutId s) as [id|], (pendingValue s) as [value|].
  - right. by exists id, value.
  - by discriminate (proj2 Hnone eq_refl).
  - by discriminate (proj1 Hnone eq_refl).
  - by left.
Qed.

Lemma commit_spec s : one_timer s ->
  one_timer (commitPendingValue s) /\ given (commitPendingValue s) = given s /\ pendingValue (commitPendingValue s) = None.
Proof.
  intros Hs. destruct (one_timer_cases s Hs) as [(Ht & Hp & Ha)|(id & value & Ht & Hp & Ha)].
  all: unfold commitPendingValue, clearPendingTimer, one_timer, given; rewrite Ht; cbn; rewrite Hp; cbn.
  - by rewrite Ht, Hp, Ha.
  - by rewrite Ha, disarm_one, app_nil_r.
Qed.

Lemma fire_spec s id : one_timer s ->
  one_timer (fire id s) /\ given (fire id s) = given s /\ (armed s = [id] -> pendingValue (fire id s) = None).
Proof.
  intros Hs. unfold fire. destruct (one_timer_cases s Hs) as [(Ht & Hp & Ha)|(id' & value & Ht & Hp & Ha)]; rewrite Ha.
  - by rewrite bool_decide_eq_false_2 by set_solver.
  - case_bool_decide as Hid; [|split_and!; [done|done|intros [= ->]; set_solver]].
    apply list_elem_of_singleton in Hid as ->. rewrite disarm_one, Ht, Hp.
    unfold commitPendingValue, clearPendingTimer, one_timer, given. cbn. by rewrite Hp, app_nil_r.
Qed.

Lemma schedule_spec s value : one_timer s ->
  one_timer (schedule value s) /\ given (schedule value s) = updates s ++ [value].
Proof.
  intros Hs. destruct (one_timer_cases s Hs) as [(Ht & Hp & Ha)|(id & v & Ht & Hp & Ha)].
  all: unfold schedule, clearPendingTimer, one_timer, given; rewrite Ht; cbn [timeoutId pendingValue armed next_timer updates];
    rewrite Ha, ?disarm_one.
  all: done.
Qed.

Lemma update_run_spec es : let s := update_run es in
  one_timer s /\ sublist (given s) (scheduled es) /\ last (given s) = last (scheduled es).
Proof.
  induction es as [|e es IH] using rev_ind; [by split_and!|]. cbv zeta in *. unfold update_run in *.
  rewrite fold_left_app. cbn [fold_left]. set (s := fold_left _ es _) in *. clearbody s.
  destruct IH as (Hs & Hsub & Hlast). unfold scheduled in *. rewrite omap_app.
  destruct e as [value| |id]; cbn [update_step omap list_omap]; rewrite ?app_nil_r.
  - destruct (schedule_spec s value Hs) as (Hs' & ->). split_and!; [done| |by rewrite !last_snoc].
    apply sublist_app; [|done]. transitivity (given s); [|done]. apply sublist_inserts_r. done.
  - by destruct (commit_spec s Hs) as (Hs' & -> & _).
  - by destruct (fire_spec s id Hs) as (Hs' & -> & _).
Qed.

(** Whatever is scheduled, flushed or fired: the values committed, with the one that
    waits, are scheduled values in their order and each once; the last one scheduled is
    never lost; and a value waits exactly while one timer is armed, which commits it. *)
Theorem delayed_update es : let s := update_run es in
  sublist (given s) (scheduled es) /\ last (given s) = last (scheduled es)
  /\ ((pendingValue s = None /\ armed s = [])
      \/ exists id value, pendingValue s = Some value /\ armed s = [id]
           /\ updates (fire id s) = updates s ++ [value] /\ armed (fire id s) = []).
Proof.
  cbv zeta. destruct (update_run_spec es) as (Hs & Hsub & Hlast). set (s := update_run es) in *. clearbody s.
  split_and!; [done|done|]. destruct (one_timer_cases s Hs) as [(_ & Hp & Ha)|(id & value & Ht & Hp & Ha)]; [by left|].
  right. exists id, value. destruct (fire_spec s id Hs) as (Hs' & Hgiven & Hnone). specialize (Hnone Ha).
  split_and!; [done|done| |].
  - unfold given in Hgiven. by rewrite Hnone, Hp, app_nil_r in Hgiven.
  - destruct (one_timer_cases _ Hs') as [(_ & _ & ?)|(? & ? & _ & ? & _)]; [done|congruence].
Qed.

(** ** Examples *)

(** The field of the status codes is shown in the section of requests. *)
Example status_codes_in_request : getChannelConfigurationSection (js "status_code_mapping") = Request.
Proof. reflexivity. Qed.

Lemma configuration_sections_witness : exists state,
  getChannelConfigurationState CHANNEL_FORM_DEFAULT_VALUES [js "status_code_mapping"] false [] = Ret state
  /\ sections state Request = Error.
Proof.
  destruct (getChannelConfigurationState CHANNEL_FORM_DEFAULT_VALUES [js "status_code_mapping"] false [])
    as [state| |] eqn:Hstate; [|vm_compute in Hstate; discriminate Hstate..].
  exists state. split; [reflexivity|].
  destruct (configuration_sections CHANNEL_FORM_DEFAULT_VALUES [js "status_code_mapping"] false [] state Hstate) as (Herror & _).
  apply Herror. exists (js "status_code_mapping"). split; [by left|reflexivity].
Defined.
