(* ===== verification/ChannelDiscovery.v ===== *)
(** * Probing the models of a channel
      ([features/channels/hooks/use-channel-model-discovery.ts])

    The hook as a step function: a change of its properties, a fetch, an answer of the
    server, the timer of an automatic fetch, and unmounting, in any order.  The state
    updates of React are applied in order.  A request is any data; a server error is
    any value.  Then: what is shown as a success answers the request that is current. *)

From S2P Require Import Prelude JsString.

Section Discovery.
Context {request error : Type}.

Inductive discovery_status := Idle | Loading | Success | Failure | Stale.

#[global] Instance discovery_status_eq_dec : EqDecision discovery_status.
Proof. solve_decision. Defined.

Record discovery_props := { enabled : bool; request_ : request; autoFetch : bool }.

(** The state shown, the counter of requests, the properties, the requests that wait
    for an answer with their numbers, and whether the timer runs. *)
Record discovery := {
  status : discovery_status;
  models : list jsstr;
  failure : option error;
  sequence : nat;
  props : discovery_props;
  waiting : list (nat * request);
  timer : bool;
  mounted : bool
}.

Definition show (status_ : discovery_status) (models_ : list jsstr) (failure_ : option error) (s : discovery) : discovery :=
  {| status := status_; models := models_; failure := failure_; sequence := sequence s; props := props s;
     waiting := waiting s; timer := timer s; mounted := mounted s |}.

Definition next_sequence (s : discovery) : discovery :=
  {| status := status s; models := models s; failure := failure s; sequence := S (sequence s); props := props s;
     waiting := waiting s; timer := timer s; mounted := mounted s |}.

(** The update of the first effect. *)
Definition restart (s : discovery) : discovery :=
  match status s with
  | Idle => s
  | _ => if enabled (props s) then show Stale (models s) None s else show Idle [] None s
  end.

Definition wants_timer (p : discovery_props) : bool := enabled p && autoFetch p.

(** The first render runs both effects. *)
Definition mount (p : discovery_props) : discovery :=
  restart {| status := Idle; models := []; failure := None; sequence := 1; props := p; waiting := [];
             timer := wants_timer p; mounted := true |}.

(** Other properties: the cleanups of the effects, then the effects. *)
Definition change_props (p : discovery_props) (s : discovery) : discovery :=
  let s := next_sequence s in
  restart (next_sequence {| status := status s; models := models s; failure := failure s; sequence := sequence s;
                            props := p; waiting := waiting s; timer := wants_timer p; mounted := mounted s |}).

(** [autoFetch] alone restarts only the timer. *)
Definition change_auto (auto : bool) (s : discovery) : discovery :=
  let p := {| enabled := enabled (props s); request_ := request_ (props s); autoFetch := auto |} in
  {| status := status s; models := models s; failure := failure s; sequence := sequence s; props := p;
     waiting := waiting s; timer := wants_timer p; mounted := mounted s |}.

Definition fetch (s : discovery) : discovery :=
  if enabled (props s) then
    let s := next_sequence s in
    show Loading (models s) None
      {| status := status s; models := models s; failure := failure s; sequence := sequence s; props := props s;
         waiting := waiting s ++ [(sequence s, request_ (props s))]; timer := timer s; mounted := mounted s |}
  else s.

(** The answer to the waiting request of a number, used only if no other began since. *)
Definition answer (n : nat) (response : error + list jsstr) (s : discovery) : discovery :=
  if existsb (fun w => (w.1 =? n)%nat) (waiting s) then
    let s := {| status := status s; models := models s; failure := failure s; sequence := sequence s; props := props s;
                waiting := List.filter (fun w => negb (w.1 =? n)%nat) (waiting s); timer := timer s;
                mounted := mounted s |} in
    if negb (n =? sequence s)%nat then s
    else match response with
         | inr models_ => show Success models_ None s
         | inl e => show Failure (models s) (Some e) s
         end
  else s.

Inductive discovery_event :=
| ChangeProps (p : discovery_props)
| ChangeAuto (auto : bool)
| Fetch
| TimerFires
| Answer (n : nat) (response : error + list jsstr)
| Unmount.

Definition discovery_step (s : discovery) (e : discovery_event) : discovery :=
  match e with
  | ChangeProps p => if mounted s then change_props p s else s
  | ChangeAuto auto => if mounted s then change_auto auto s else s
  | Fetch => if mounted s then fetch s else s
  | TimerFires =>
      if timer s then
        fetch {| status := status s; models := models s; failure := failure s; sequence := sequence s; props := props s;
                 waiting := waiting s; timer := false; mounted := mounted s |}
      else s
  | Answer n response => answer n response s
  | Unmount =>
      let s := next_sequence s in
      {| status := status s; models := models s; failure := failure s; sequence := sequence s; props := props s;
         waiting := waiting s; timer := false; mounted := false |}
  end.

Definition discovery_run (p : discovery_props) (es : list discovery_event) : discovery :=
  fold_left discovery_step es (mount p).

(** ** A success answers the current request *)

(** Numbers are never reused, and the request of the current number is the current one. *)
Definition current_numbers (s : discovery) : Prop :=
  NoDup (map fst (waiting s))
  /\ forall n r, (n, r) ∈ waiting s ->
     (n <= sequence s)%nat /\ (n = sequence s -> r = request_ (props s) /\ enabled (props s) = true).

Lemma restart_kept s : waiting (restart s) = waiting s /\ sequence (restart s) = sequence s /\ props (restart s) = props s
  /\ (status (restart s) <> Success).
Proof. unfold restart. destruct (status s) eqn:Hs, (enabled (props s)); cbn; rewrite ?Hs; split_and!; done. Qed.

Lemma current_numbers_skip s s' : waiting s' = waiting s -> (sequence s < sequence s')%nat -> current_numbers s ->
  current_numbers s'.
Proof.
  intros Hw Hlt (Hnd & Hcur). unfold current_numbers. rewrite Hw. split; [done|]. intros n r Hin.
  destruct (Hcur n r Hin) as (Hle & _). split; [lia|]. intros ->. lia.
Qed.

Lemma fetch_numbers s : current_numbers s -> current_numbers (fetch s).
Proof.
  intros Hs. unfold fetch. destruct (enabled (props s)) eqn:He; [|done]. destruct Hs as (Hnd & Hcur).
  unfold current_numbers. cbn [waiting sequence props next_sequence show]. split.
  - rewrite map_app. apply NoDup_app. split_and!; [done| |apply NoDup_singleton].
    intros n Hn Hn'. apply list_elem_of_singleton in Hn'. cbn in Hn'. subst n.
    apply list_elem_of_In, in_map_iff in Hn as ([n r] & Hn & Hin). cbn in Hn. subst n.
    apply list_elem_of_In, Hcur in Hin as (Hle & _). lia.
  - intros n r [Hin|Hin]%elem_of_app.
    + apply Hcur in Hin as (Hle & _). split; [lia|]. intros ->. lia.
    + apply list_elem_of_singleton in Hin. injection Hin as -> ->. done.
Qed.

Lemma filter_NoDup {A B} (f : A -> B) (p : A -> bool) xs : NoDup (map f xs) -> NoDup (map f (List.filter p xs)).
Proof.
  induction xs as [|x xs IH]; [done|]. cbn [map List.filter]. intros (Hx & Hnd)%NoDup_cons.
  destruct (p x); [|by apply IH]. cbn [map]. apply NoDup_cons. split; [|by apply IH].
  intros Hin. apply Hx. apply list_elem_of_In, in_map_iff in Hin as (y & <- & Hy%filter_In).
  apply list_elem_of_In, in_map. by destruct Hy.
Qed.

Lemma answer_numbers n response s : current_numbers s -> current_numbers (answer n response s).
Proof.
  intros (Hnd & Hcur). unfold answer. destruct (existsb _ (waiting s)); [|done].
  assert (Hkept : forall s', waiting s' = List.filter (fun w => negb (w.1 =? n)%nat) (waiting s) ->
    sequence s' = sequence s -> props s' = props s -> current_numbers s').
  { intros s' Hw Hseq Hprops. unfold current_numbers. rewrite Hw, Hseq, Hprops. split; [by apply filter_NoDup|].
    intros m r (Hin & _)%in_filter. by apply Hcur. }
  destruct (negb _); [by apply Hkept|]. by destruct response; apply Hkept.
Qed.

Lemma step_numbers s e : current_numbers s -> current_numbers (discovery_step s e).
Proof.
  intros Hs. destruct e as [p|auto| | |n response|]; cbn [discovery_step].
  - destruct (mounted s); [|done]. unfold change_props. destruct (restart_kept
      (next_sequence {| status := status (next_sequence s); models := models (next_sequence s);
         failure := failure (next_sequence s); sequence := sequence (next_sequence s); props := p;
         waiting := waiting (next_sequence s); timer := wants_timer p; mounted := mounted (next_sequence s) |}))
      as (Hw & Hseq & _). apply (current_numbers_skip s); [by rewrite Hw| |done]. rewrite Hseq. cbn. lia.
  - by destruct (mounted s).
  - destruct (mounted s); [by apply fetch_numbers|done].
  - destruct (timer s); [by apply fetch_numbers|done].
  - by apply answer_numbers.
  - apply (current_numbers_skip s); [done|cbn; lia|done].
Qed.

(** What a success answered. *)
Definition answers_current (p : discovery_props) (es : list discovery_event) (s : discovery) : Prop :=
  exists before n after, es = before ++ Answer n (inr (models s)) :: after
    /\ (n, request_ (props s)) ∈ waiting (discovery_run p before) /\ enabled (props s) = true.

Lemma answers_later p es s s' e : answers_current p es s -> models s' = models s -> request_ (props s') = request_ (props s) ->
  enabled (props s') = enabled (props s) -> answers_current p (es ++ [e]) s'.
Proof.
  intros (before & n & after & -> & Hw & He) Hm Hr Hen. exists before, n, (after ++ [e]).
  rewrite Hm, Hr, Hen, <- app_assoc. done.
Qed.

Lemma fetch_success s : status (fetch s) = Success -> fetch s = s.
Proof. unfold fetch. by destruct (enabled (props s)). Qed.

Lemma answer_success p es n response : let s := discovery_run p es in
  current_numbers s -> status (answer n response s) = Success -> (status s = Success -> answers_current p es s) ->
  answers_current p (es ++ [Answer n response]) (answer n response s).
Proof.
  cbv zeta. set (s := discovery_run p es). intros (_ & Hcur) Hsuccess Hbefore. unfold answer in *.
  destruct (existsb _ (waiting s)) eqn:Hw; [|by apply (answers_later p es s _ _ (Hbefore Hsuccess))].
  destruct (n =? sequence s)%nat eqn:Hn; cbn [negb sequence] in *; rewrite Hn in *; cbn [negb] in *;
    [|by apply (answers_later p es s _ _ (Hbefore Hsuccess))].
  destruct response as [e|ms]; [done|]. cbn [models show props].
  apply existsb_exists in Hw as ([m r] & Hin & Hm). apply Nat.eqb_eq in Hm, Hn. cbn in Hm. subst m.
  apply list_elem_of_In in Hin. destruct (Hcur n r Hin) as (_ & Hr). destruct (Hr Hn) as (-> & He).
  by exists es, n, [].
Qed.

Lemma run_current p es : let s := discovery_run p es in
  current_numbers s /\ (status s = Success -> answers_current p es s).
Proof.
  induction es as [|e es IH] using rev_ind; cbv zeta in *.
  { split; [split; [constructor|intros n r Hin; inversion Hin]|]. unfold discovery_run, mount, restart. done. }
  unfold discovery_run. rewrite fold_left_app. cbn [fold_left]. fold (discovery_run p es).
  destruct IH as (Hnum & Hsuccess). split; [by apply step_numbers|]. set (s := discovery_run p es) in *. intros Hstep.
  assert (Hsame : discovery_step s e = s -> answers_current p (es ++ [e]) (discovery_step s e)).
  { intros Heq. rewrite Heq in *. by apply (answers_later p es s s e (Hsuccess Hstep)). }
  destruct e as [q|auto| | |n response|]; cbn [discovery_step] in *.
  - destruct (mounted s); [|by apply Hsame]. exfalso. by apply (restart_kept (next_sequence _)) in Hstep.
  - destruct (mounted s); [|by apply Hsame]. by apply (answers_later p es s _ _ (Hsuccess Hstep)).
  - destruct (mounted s); [|by apply Hsame]. by apply Hsame, fetch_success.
  - destruct (timer s); [|by apply Hsame]. pose proof (fetch_success _ Hstep) as Heq. rewrite Heq in *.
    by apply (answers_later p es s _ _ (Hsuccess Hstep)).
  - by apply answer_success.
  - by apply (answers_later p es s _ _ (Hsuccess Hstep)).
Qed.

(** C34. Models are shown as found only if the server answered them to a fetch of the very
    request that is current, whatever was changed, fetched and answered in between. *)
Theorem discovery_current p es : let s := discovery_run p es in
  status s = Success ->
  exists before n after, es = before ++ Answer n (inr (models s)) :: after
    /\ (n, request_ (props s)) ∈ waiting (discovery_run p before) /\ enabled (props s) = true.
Proof. cbv zeta. apply run_current. Qed.

(** An answer to the last fetch is shown. *)
Lemma last_answer_shown s r ms : (sequence s, r) ∈ waiting s ->
  status (answer (sequence s) (inr ms) s) = Success /\ models (answer (sequence s) (inr ms) s) = ms.
Proof.
  intros Hin. unfold answer. assert (existsb (fun w => (w.1 =? sequence s)%nat) (waiting s) = true) as ->.
  { apply existsb_exists. exists (sequence s, r). split; [by apply list_elem_of_In|apply Nat.eqb_refl]. }
  cbn [sequence]. by rewrite Nat.eqb_refl.
Qed.
End Discovery.

Definition sample_props : @discovery_props string :=
  {| enabled := true; request_ := "saved channel"%string; autoFetch := false |}.

Definition sample_events : list (@discovery_event string string) := [Fetch; Fetch; Answer 2 (inr []); Answer 3 (inr [js "gpt-4"])].

Lemma discovery_current_witness :
  models (discovery_run sample_props sample_events) = [js "gpt-4"]
  /\ exists before n after, sample_events = before ++ Answer n (inr [js "gpt-4"]) :: after
      /\ (n, "saved channel"%string) ∈ waiting (discovery_run sample_props before) /\ true = true.
Proof.
  split; [reflexivity|]. exact (discovery_current sample_props sample_events eq_refl).
Defined.
