(* ===== verification/Interaction.v ===== *)
(** * Programs that ask

    A finite program with effects it does not define: it ends with a result, or asks
    a question whose answer decides how it goes on.  What it asked and was answered
    is a trace; [upholds] is the proof method for statements about all traces. *)

From S2P Require Import Prelude.

Section Prog.
Context {Q : Type} {answer : Q -> Type}.

Inductive prog (A : Type) : Type :=
| Done (a : A)
| Ask (q : Q) (k : answer q -> prog A).
Arguments Done {A} _.
Arguments Ask {A} _ _.

Fixpoint pbind {A B} (p : prog A) (f : A -> prog B) : prog B :=
  match p with
  | Done a => f a
  | Ask q k => Ask q (fun a => pbind (k a) f)
  end.

Definition ask (q : Q) : prog (answer q) := Ask q (fun a => Done a).

(** A question with its answer. *)
Definition exchange : Type := { q : Q & answer q }.
Definition answered (q : Q) (a : answer q) : exchange := existT q a.

(** [run p tr p']: after the exchanges [tr], [p] is at [p']. *)
Inductive run {A} : prog A -> list exchange -> prog A -> Prop :=
| run_here p : run p [] p
| run_on q k a tr p : run (k a) tr p -> run (Ask q k) (answered q a :: tr) p.

Definition asks {A} (p : prog A) (tr : list exchange) (q : Q) : Prop := exists k, run p tr (Ask q k).
Definition ends {A} (p : prog A) (tr : list exchange) (a : A) : Prop := run p tr (Done a).

(** Every question satisfies [I] and every end [E], given the exchanges before. *)
Fixpoint upholds {A} (I : list exchange -> Q -> Prop) (E : list exchange -> A -> Prop) (past : list exchange)
    (p : prog A) : Prop :=
  match p with
  | Done a => E past a
  | Ask q k => I past q /\ forall a, upholds I E (past ++ [answered q a]) (k a)
  end.

(** At most [n] questions. *)
Fixpoint within {A} (n : nat) (p : prog A) {struct p} : Prop :=
  match p with
  | Done _ => True
  | Ask q k => match n with O => False | S n => forall a, within n (k a) end
  end.

Lemma upholds_run {A} I E past (p : prog A) tr p' : run p tr p' -> upholds I E past p -> upholds I E (past ++ tr) p'.
Proof.
  intros Hr. revert past. induction Hr as [p|q k a tr p Hr IH]; intros past; [by rewrite app_nil_r|].
  intros (_ & Hk). specialize (IH (past ++ [answered q a]) (Hk a)). by rewrite <- app_assoc in IH.
Qed.

Lemma upholds_asks {A} I E (p : prog A) tr q : upholds I E [] p -> asks p tr q -> I tr q.
Proof. intros Hp (k & Hr). by destruct (upholds_run I E [] p tr _ Hr Hp). Qed.

Lemma upholds_ends {A} I E (p : prog A) tr a : upholds I E [] p -> ends p tr a -> E tr a.
Proof. intros Hp Hr. exact (upholds_run I E [] p tr _ Hr Hp). Qed.

Lemma upholds_bind {A B} I (E : list exchange -> B -> Prop) (p : prog A) (f : A -> prog B) : forall past,
  upholds I (fun past a => upholds I E past (f a)) past p -> upholds I E past (pbind p f).
Proof. induction p as [a|q k IH]; intros past; [done|]. intros (Hq & Hk). split; [done|]. intros a. apply IH, Hk. Qed.

Lemma upholds_mono {A} (I I' : list exchange -> Q -> Prop) (E E' : list exchange -> A -> Prop) (p : prog A) :
  (forall past q, I past q -> I' past q) -> (forall past a, E past a -> E' past a) ->
  forall past, upholds I E past p -> upholds I' E' past p.
Proof.
  intros HI HE. induction p as [a|q k IH]; intros past; [apply HE|]. intros (Hq & Hk). split; [by apply HI|].
  intros a. apply IH, Hk.
Qed.

Lemma within_run {A} (p : prog A) tr p' : run p tr p' -> forall n, within n p -> (length tr <= n)%nat /\ within (n - length tr) p'.
Proof.
  induction 1 as [p|q k a tr p Hr IH]; intros n Hn; [cbn; rewrite Nat.sub_0_r; split; [lia|done]|].
  destruct n as [|n]; [done|]. destruct (IH n (Hn a)) as (Hl & Hw). cbn [length]. split; [lia|done].
Qed.

(** A program that may still ask can be answered until it ends. *)
Lemma ends_somehow {A} (p : prog A) : (forall q : Q, answer q) -> exists tr a, ends p tr a.
Proof.
  intros ans. induction p as [a|q k IH]; [by exists [], a; constructor|].
  destruct (IH (ans q)) as (tr & a & Hr). exists (answered q (ans q) :: tr), a. by constructor.
Qed.
End Prog.

Arguments prog {Q} answer A.
Arguments Done {Q answer A} _.
Arguments Ask {Q answer A} _ _.
Arguments exchange {Q} answer.

Declare Scope prog_scope.
Delimit Scope prog_scope with prog.
Notation "'ask!' x ':=' q 'in' k" := (Ask q (fun x => k)) (at level 200, x name, q at level 100, k at level 200) : prog_scope.
Notation "'run!' x ':=' p 'in' k" := (pbind p (fun x => k)) (at level 200, x name, p at level 100, k at level 200) : prog_scope.
