(* ===== verification/ChannelDialog.v ===== *)
(** * Saving a channel ([features/channels/components/drawers/channel-mutate-dialog.tsx],
      [features/channels/hooks/use-channel-mutate-form.ts],
      [features/channels/lib/channel-reference-conflict.ts], [lib/admin-permissions.ts])

    What the dialog of a channel does when the form is submitted: the checks, the
    questions to the user, the request to the server, and the retry when lanes still
    refer to models that were removed.  A submission is a program that asks
    ([Interaction]): the user and the server answer.  Errors of the server are values
    of a heap ([ServerError]); the translation is an argument.  Toasts, and the focus
    of the field at fault, are left out. *)

From S2P Require Import Prelude JsString JsNumber JsValue JsJson JsonRoundtrip StatusCodes ServerError.
From S2P Require Import ChannelForm ModelMapping Interaction.

(** ** Permissions *)

Definition ROLE_SUPER_ADMIN : Z := 100.

(** Reading a field of what has none gives [undefined]. *)
Definition hasPermission (user : jsval) (resource action : string) : bool :=
  if negb (truthy user) then false
  else if strict_eq (prop user (js "role")) (JNum (num_of_Z ROLE_SUPER_ADMIN)) then true
  else
    is_true (prop (prop (prop user (js "permissions")) (js "admin_permissions")) (js resource)) action.

(** ** References by lanes *)

Section Conflict.
Context (h : heap) (t : jsstr -> jsstr).

Record ChannelReferenceConflict := {
  conflict_code : option jsstr;
  conflict_message : jsstr;
  lanes : list jsstr;
  blocked : option object
}.

Definition asStringArray (v : value) : list jsstr :=
  match isRecord h v with
  | Some (_, o) => omap (fun x => match x with VStr s => Some s | _ => None end) (default [] (items o))
  | None => []
  end.

Definition FULLWIDTH_COLON : N := 0xFF1A.
Definition FULLWIDTH_COMMA : N := 0xFF0C.

(** The text behind the first unit that satisfies [p]. *)
Fixpoint after_first (p : N -> bool) (s : jsstr) : option jsstr :=
  match s with [] => None | c :: s => if p c then Some s else after_first p s end.

(** [s.split(/[...]/)] for a class of code units *)
Definition split_class (p : N -> bool) (c : N) (s : jsstr) : list jsstr :=
  split c (map (fun x => if p x then c else x) s).

Definition lanesFromMessage (message : jsstr) : list jsstr :=
  match after_first (fun c => (c =? ch ":") || (c =? FULLWIDTH_COLON))%N message with
  | Some rest =>
      List.filter nonempty (map trim (split_class (fun c => (c =? ch ",") || (c =? FULLWIDTH_COMMA))%N (ch ",") rest))
  | None => []
  end.

(** The own enumerable keys: of an [Error] not its message, cause and stack. *)
Definition has_keys (o : object) : bool :=
  match items o with
  | Some (_ :: _) => true
  | _ => existsb (fun kv => negb (is_error o && includes_str [js "message"; js "cause"; js "stack"] kv.1)) (fields o)
  end.

(** [Object.keys(blocked).length > 0] *)
Definition blocked_lanes (b : option object) : bool := match b with Some o => has_keys o | None => false end.

Definition parseChannelReferenceConflict (error : value) (fallbackMessage : jsstr) : ChannelReferenceConflict :=
  let details_ := getServerErrorDetails h t error (Some fallbackMessage) in
  let '(lanes_, blocked_) :=
    match details details_ with
    | Some raw =>
        match isRecord h raw with
        | Some (_, o) => (asStringArray (get_prop o "lanes"), snd <$> isRecord h (get_prop o "blocked"))
        | None => ([], None)
        end
    | None => ([], None)
    end in
  {| conflict_code := code details_;
     conflict_message := message details_;
     lanes := match lanes_ with
              | [] => if blocked_lanes blocked_ then [] else lanesFromMessage (message details_)
              | _ => lanes_
              end;
     blocked := blocked_ |}.

(** The characters of the Chinese message for "still referenced by lanes". *)
Definition STILL_REFERENCED : jsstr := [0x4ECD; 0x88AB; 0x8F66; 0x9053; 0x5F15; 0x7528]%N.

(** [/.../i.test(s)] for the two messages *)
Definition REFERENCED_MODELS_MESSAGE_PATTERN (s : jsstr) : bool :=
  includes STILL_REFERENCED s || includes (js "referenced by lanes") (ascii_lower s).

Definition isChannelReferenceConflict (error : value) : bool :=
  let conflict := parseChannelReferenceConflict error [] in
  if nonempty_list (lanes conflict) || blocked_lanes (blocked conflict) then true
  else if match conflict_code conflict with
          | Some c => (c === js "conflict") || (c === js "models_referenced_by_lanes")
          | None => false
          end then true
  else REFERENCED_MODELS_MESSAGE_PATTERN (conflict_message conflict).
End Conflict.

(** ** Questions and answers *)

Inductive MissingModelsAction := Cancel | Submit | Add.

Inductive question :=
| ConfirmStatusCodeRisk (detailItems : list jsstr)
| ConfirmMissingModels (missingModels : list jsstr)
| ConfirmReferencedModels (lanes : list jsstr)
| CreateChannel (payload : CreatePayload)
| UpdateChannel (id : num) (payload : list (jsstr * jsval)).

Record update_response := { cleaned_lanes : option (list jsstr); deleted_lanes : option (list jsstr) }.

(** A failed request rejects with a value of a heap. *)
Inductive response (A : Type) := Succeeded (a : A) | Failed (h : heap) (error : value).
Arguments Succeeded {A} _.
Arguments Failed {A} _ _.

Definition answer (q : question) : Type :=
  match q with
  | ConfirmStatusCodeRisk _ => bool
  | ConfirmMissingModels _ => MissingModelsAction
  | ConfirmReferencedModels _ => bool
  | CreateChannel _ => response unit
  | UpdateChannel _ _ => response update_response
  end.

(** ** The request ([use-channel-mutate-form.ts]) *)

Definition SENSITIVE_UPDATE_FIELDS : list jsstr :=
  map js ["type"; "key"; "base_url"; "openai_organization"; "param_override"; "header_override"; "setting";
          "settings"; "other"]%string.

(** What the dialog knows: the row that is edited, its loaded channel and whether that
    has several keys, the user, what was loaded into the form and which of its fields
    the user changed. *)
Record dialog := {
  currentRow : option num;
  channelData : option bool;
  currentUser : jsval;
  initialModels : list jsstr;
  initialModelMapping : jsstr;
  initialStatusCodeMapping : jsstr;
  dirtyFields : list jsstr
}.

Definition isEditing (d : dialog) : bool := match currentRow d with Some _ => true | None => false end.
Definition canEditSensitive (d : dialog) : bool := hasPermission (currentUser d) "channel" "sensitive_write".
Definition isMultiKeyChannel (d : dialog) : bool :=
  isEditing d && match channelData d with Some multi => multi | None => false end.

Definition has_key_text (data : ChannelFormValues) : bool := nonempty (trim (key data)).

Definition without_sensitive (payload : list (jsstr * jsval)) : list (jsstr * jsval) :=
  fold_left delete_field SENSITIVE_UPDATE_FIELDS payload.

Definition update_payload (d : dialog) (id : num) (data : ChannelFormValues)
    : outcome type_error (list (jsstr * jsval)) :=
  let? payload := transformFormDataToUpdatePayload data id in
  let payload := if has_key_text data then payload else delete_field payload (js "key") in
  let payload := if canEditSensitive d then payload else without_sensitive payload in
  let payload :=
    match key_mode data with
    | Some mode =>
        if canEditSensitive d && isMultiKeyChannel d && has_key_text data && nonempty mode
        then set_field payload (js "key_mode") (JStr mode) else payload
    | None => payload
    end in
  Ret (if canEditSensitive d && isMultiKeyChannel d
       then set_field payload (js "multi_key_mode")
              (match multi_key_type data with Some type => JStr type | None => JUndefined end)
       else payload).

Definition with_cleanup (payload : list (jsstr * jsval)) : list (jsstr * jsval) :=
  set_field payload (js "cleanup_models") (JBool true).

(** How a mutation ends; what is thrown is a [TypeError] or what the server answered. *)
Inductive mutation_end :=
| Updated (cleanedLanes deletedLanes : list jsstr)
| Created
| Cancelled
| ThrownType
| ThrownServer (h : heap) (error : value).

Definition updated (r : update_response) : mutation_end :=
  Updated (default [] (cleaned_lanes r)) (default [] (deleted_lanes r)).

Section Submission.
Context (translate : jsstr -> list (jsstr * jsstr) -> jsstr).

Definition t (s : jsstr) : jsstr := translate s [].

Definition mutate (d : dialog) (data : ChannelFormValues) : prog answer mutation_end :=
  match currentRow d with
  | Some id =>
      match update_payload d id data with
      | Ret payload =>
          (ask! response := UpdateChannel id payload in
           match response with
           | Succeeded r => Done (updated r)
           | Failed h error =>
               if negb (isChannelReferenceConflict h t error) then Done (ThrownServer h error)
               else
                 ask! confirmed := ConfirmReferencedModels (lanes (parseChannelReferenceConflict h t error [])) in
                 if negb confirmed then Done Cancelled
                 else
                   ask! response := UpdateChannel id (with_cleanup payload) in
                   match response with
                   | Succeeded r => Done (updated r)
                   | Failed h error => Done (ThrownServer h error)
                   end
           end)%prog
      | _ => Done ThrownType
      end
  | None =>
      match transformFormDataToCreatePayload data with
      | Ret payload =>
          (ask! response := CreateChannel payload in
           match response with
           | Succeeded _ => Done Created
           | Failed h error => Done (ThrownServer h error)
           end)%prog
      | _ => Done ThrownType
      end
  end.

(** ** The submission *)

Definition SENSITIVE_FORM_FIELDS : list jsstr :=
  map js ["type"; "base_url"; "key"; "other"; "key_mode"; "param_override"; "header_override"; "settings"; "setting";
          "advanced_custom"; "is_enterprise_account"; "vertex_key_type"; "aws_key_type"; "azure_responses_version";
          "force_format"; "thinking_to_content"; "proxy"; "http_protocol"; "http2_connection_shards";
          "pass_through_body_enabled"; "system_prompt"; "system_prompt_override"; "allow_service_tier";
          "disable_store"; "allow_safety_identifier"; "allow_include_obfuscation"; "allow_inference_geo";
          "allow_speed"; "claude_beta_query"; "upstream_model_update_check_enabled";
          "upstream_model_update_auto_sync_enabled"; "upstream_model_update_ignored_models"]%string.

(** [Refused]: an error is set on a field, in a section of the form.  [Sent]: the
    request was made; [Some] is the new text of the models, also set in the form. *)
Inductive submit_end :=
| Ignored
| NotAllowed
| Refused (field section : string) (message : jsstr)
| Declined
| Sent (new_models : option jsstr) (result : mutation_end).

(** [data] with other models; the code assigns the field. *)
Definition with_models (value : jsstr) (data : ChannelFormValues) : ChannelFormValues := {|
    name := name data; type := type data; base_url := base_url data; key := key data;
    openai_organization := openai_organization data; models := value; model_mapping := model_mapping data;
    test_model := test_model data; auto_ban := auto_ban data; status := status data;
    status_code_mapping := status_code_mapping data; tag := tag data; remark := remark data;
    setting := setting data; param_override := param_override data; header_override := header_override data;
    settings := settings data; advanced_custom := advanced_custom data; other := other data;
    multi_key_mode := multi_key_mode data; multi_key_type := multi_key_type data;
    batch_add_set_key_prefix_2_name := batch_add_set_key_prefix_2_name data; key_mode := key_mode data;
    force_format := force_format data; thinking_to_content := thinking_to_content data; proxy := proxy data;
    http_protocol := http_protocol data; http2_connection_shards := http2_connection_shards data;
    pass_through_body_enabled := pass_through_body_enabled data; system_prompt := system_prompt data;
    system_prompt_override := system_prompt_override data; pbr_prices := pbr_prices data;
    is_enterprise_account := is_enterprise_account data; vertex_key_type := vertex_key_type data;
    aws_key_type := aws_key_type data; azure_responses_version := azure_responses_version data;
    protocol := protocol data; allow_service_tier := allow_service_tier data;
    disable_store := disable_store data; allow_safety_identifier := allow_safety_identifier data;
    allow_include_obfuscation := allow_include_obfuscation data;
    allow_inference_geo := allow_inference_geo data; allow_speed := allow_speed data;
    claude_beta_query := claude_beta_query data;
    upstream_model_update_check_enabled := upstream_model_update_check_enabled data;
    upstream_model_update_auto_sync_enabled := upstream_model_update_auto_sync_enabled data;
    upstream_model_update_ignored_models := upstream_model_update_ignored_models data |}.

Definition send (d : dialog) (data : ChannelFormValues) (new_models : option jsstr) : prog answer submit_end :=
  let data := match new_models with Some value => with_models value data | None => data end in
  (run! result := mutate d data in Done (Sent new_models result))%prog.

Definition mapping_of (data : ChannelFormValues) : jsstr := default [] (model_mapping data).

(** The check of the mapping against the models, and the request. *)
Definition submit_models (d : dialog) (data : ChannelFormValues) : prog answer submit_end :=
  let normalizedModels := parseModelsString (models data) in
  if nonempty (trim (mapping_of data)) then
    let missingModels := findMissingModelsInMapping (mapping_of data) normalizedModels in
    if nonempty_list missingModels
       && hasModelConfigChanged normalizedModels (mapping_of data) (initialModels d) (initialModelMapping d)
    then
      (ask! confirmAction := ConfirmMissingModels missingModels in
       match confirmAction with
       | Cancel => Done Declined
       | Add => send d data (Some (formatModelsArray (dedupe (normalizedModels ++ missingModels))))
       | Submit => send d data None
       end)%prog
    else send d data None
  else send d data None.

Definition submit_mapping (d : dialog) (data : ChannelFormValues) : prog answer submit_end :=
  match (if nonempty (trim (mapping_of data)) then validateModelMappingJson (mapping_of data) else None) with
  | Some error => Done (Refused "model_mapping" "routing" (t error))
  | None => submit_models d data
  end.

(** The check of the status code mapping, and what follows. *)
Definition submit_checked (d : dialog) (data : ChannelFormValues) : prog answer submit_end :=
  let mapping := default [] (status_code_mapping data) in
  if nonempty (trim mapping) then
    let invalidEntries := collectInvalidStatusCodeEntries mapping in
    if nonempty_list invalidEntries then
      Done (Refused "status_code_mapping" "other"
              (translate (js "Invalid status code mapping entries: {{entries}}")
                 [(js "entries", join (js ", ") invalidEntries)]))
    else
      let riskyRedirects := collectNewDisallowedStatusCodeRedirects (initialStatusCodeMapping d) mapping in
      if nonempty_list riskyRedirects then
        (ask! confirmed := ConfirmStatusCodeRisk riskyRedirects in
         if negb confirmed then Done Declined else submit_mapping d data)%prog
      else submit_mapping d data
  else submit_mapping d data.

Definition onSubmit (d : dialog) (data : ChannelFormValues) : prog answer submit_end :=
  if isEditing d && negb (match channelData d with Some _ => true | None => false end) then Done Ignored
  else if negb (isEditing d) && negb (canEditSensitive d) then Done Ignored
  else if negb (isEditing d) && negb (has_key_text data)
  then Done (Refused "key" "connection" (js "API key is required"))
  else if isEditing d && negb (canEditSensitive d) && existsb (fun f => includes_str (dirtyFields d) f) SENSITIVE_FORM_FIELDS
  then Done NotAllowed
  else submit_checked d data.
End Submission.

(** ** Samples *)

(** A channel with a mapping from a model that is not listed, as the form shows it. *)
Definition sample_mapping : jsstr := js "{" ++ json_quote (js "alias") ++ js ":" ++ json_quote (js "gpt-4") ++ js "}".

Definition mapped_channel : Channel := {|
  c_name := js "upstream"; c_type := one; c_base_url := None; c_openai_organization := None; c_models := js "gpt-4";
  c_model_mapping := Some sample_mapping; c_test_model := None; c_auto_ban := None; c_status := one;
  c_status_code_mapping := None; c_tag := None; c_remark := []; c_setting := None; c_param_override := None;
  c_header_override := None; c_settings := js "{}"; c_other := []; c_multi_key_mode := js "random" |}.

Definition mapped_data : ChannelFormValues := transformChannelToFormDefaults mapped_channel.
