(* ===== verification/ChannelEdit.v ===== *)
(** * Editing a channel ([features/channels/components/drawers/channel-mutate-dialog.tsx],
      [lib/channel-connection-info.ts])

    What the dialog of a channel does to the form before it is submitted: the list of
    models, the warnings about the mapping, duplicate keys, the protocol, connection
    information from the clipboard, defaults of some types, and the choice of the
    request that probes the models.  The values that a handler sets are listed as
    edits of the form; toasts and open panels are left out. *)

From S2P Require Import Prelude JsString JsNumber JsValue JsJson JsonRoundtrip ChannelForm ModelMapping.
From S2P Require Import ChannelList ChannelDialog.

(** ** Edits of the form *)

(** A call of [form.setValue]. *)
Inductive field_edit :=
| SetModels (s : jsstr) | SetType (n : num) | SetProtocol (s : jsstr) | SetName (s : jsstr) | SetKey (s : jsstr)
| SetBaseUrl (s : jsstr) | SetOther (s : jsstr) | SetMultiKeyMode (s : jsstr).

Definition set_value (data : ChannelFormValues) (e : field_edit) : ChannelFormValues := {|
    name := match e with SetName s => s | _ => name data end;
    type := match e with SetType n => n | _ => type data end;
    base_url := match e with SetBaseUrl s => Some s | _ => base_url data end;
    key := match e with SetKey s => s | _ => key data end; openai_organization := openai_organization data;
    models := match e with SetModels s => s | _ => models data end; model_mapping := model_mapping data;
    test_model := test_model data; auto_ban := auto_ban data; status := status data;
    status_code_mapping := status_code_mapping data; tag := tag data; remark := remark data;
    setting := setting data; param_override := param_override data; header_override := header_override data;
    settings := settings data; advanced_custom := advanced_custom data;
    other := match e with SetOther s => Some s | _ => other data end;
    multi_key_mode := match e with SetMultiKeyMode s => Some s | _ => multi_key_mode data end;
    multi_key_type := multi_key_type data; batch_add_set_key_prefix_2_name := batch_add_set_key_prefix_2_name data;
    key_mode := key_mode data; force_format := force_format data; thinking_to_content := thinking_to_content data;
    proxy := proxy data; http_protocol := http_protocol data;
    http2_connection_shards := http2_connection_shards data;
    pass_through_body_enabled := pass_through_body_enabled data; system_prompt := system_prompt data;
    system_prompt_override := system_prompt_override data; pbr_prices := pbr_prices data;
    is_enterprise_account := is_enterprise_account data; vertex_key_type := vertex_key_type data;
    aws_key_type := aws_key_type data; azure_responses_version := azure_responses_version data;
    protocol := match e with SetProtocol s => Some s | _ => protocol data end;
    allow_service_tier := allow_service_tier data; disable_store := disable_store data;
    allow_safety_identifier := allow_safety_identifier data;
    allow_include_obfuscation := allow_include_obfuscation data; allow_inference_geo := allow_inference_geo data;
    allow_speed := allow_speed data; claude_beta_query := claude_beta_query data;
    upstream_model_update_check_enabled := upstream_model_update_check_enabled data;
    upstream_model_update_auto_sync_enabled := upstream_model_update_auto_sync_enabled data;
    upstream_model_update_ignored_models := upstream_model_update_ignored_models data |}.

Definition set_values (es : list field_edit) (data : ChannelFormValues) : ChannelFormValues := fold_left set_value es data.

(** ** The list of models *)

Definition currentModelsArray (data : ChannelFormValues) : list jsstr := parseModelsString (models data).

Definition updateModels (data : ChannelFormValues) (newModels : list jsstr) (merge : bool) : field_edit :=
  SetModels (if merge then formatModelsArray (currentModelsArray data ++ newModels) else formatModelsArray newModels).

Definition IDEOGRAPHIC_COMMA : N := 0x3001.

(** [/[\s,，、\n]+/]; the empty parts that a run of separators would leave are dropped. *)
Definition is_model_separator (c : N) : bool :=
  is_space c || (c =? ch ",")%N || (c =? FULLWIDTH_COMMA)%N || (c =? IDEOGRAPHIC_COMMA)%N.

Definition typed_models (raw : jsstr) : list jsstr :=
  List.filter nonempty (map trim (split_class is_model_separator 32%N raw)).

(** The loop over the names: those that are not known yet. *)
Fixpoint model_additions (known parsed : list jsstr) : list jsstr :=
  match parsed with
  | [] => []
  | model :: parsed =>
      if includes_str known model then model_additions known parsed
      else model :: model_additions (known ++ [model]) parsed
  end.

Definition handleAddManualModel (data : ChannelFormValues) (raw : jsstr) : list field_edit :=
  match typed_models raw with
  | [] => []
  | parsed =>
      match model_additions (currentModelsArray data) parsed with
      | [] => []
      | additions => [updateModels data (currentModelsArray data ++ additions) false]
      end
  end.

Definition handleRemoveModel (data : ChannelFormValues) (model : jsstr) : list field_edit :=
  [updateModels data (List.filter (fun item => item !== model) (currentModelsArray data)) false].

Definition handleModelDiscoveryApply (data : ChannelFormValues) (selected : list jsstr) : list field_edit :=
  [updateModels data selected false].

Definition handleConfirmClearModels : list field_edit := [SetModels []].

Definition handleDeduplicateKeys (data : ChannelFormValues) : list field_edit :=
  if negb (nonempty (key data)) || negb (nonempty (trim (key data))) then []
  else
    let result := deduplicateKeys (key data) in
    if (removedCount result =? 0)%nat then [] else [SetKey (deduplicatedText result)].

(** ** The mapping *)

Definition mappingTargetOptions (data : ChannelFormValues) : list jsstr :=
  dedupe (extractRedirectModels (mapping_of data) ++ currentModelsArray data).

Record ModelMappingGuardrail := {
  invalidJson : bool;
  mapping_pairs : list (jsstr * jsstr);
  missingSourceModels : list jsstr;
  exposedTargetModels : list jsstr
}.

Definition empty_guardrail (invalid : bool) : ModelMappingGuardrail :=
  {| invalidJson := invalid; mapping_pairs := []; missingSourceModels := []; exposedTargetModels := [] |}.

(** [String(rawTarget ?? '').trim()] *)
Definition target_text (v : jsval) : jsstr := trim (if is_nullish v then [] else string_of_val v).

Definition mapping_pair (kv : jsstr * jsval) : option (jsstr * jsstr) :=
  let source := trim kv.1 in
  let target := target_text kv.2 in
  if negb (nonempty source) || negb (nonempty target) then None else Some (source, target).

Definition modelMappingGuardrail (data : ChannelFormValues) : ModelMappingGuardrail :=
  let currentModels := currentModelsArray data in
  if negb (nonempty (trim (mapping_of data))) then empty_guardrail false
  else
    match parsed_mapping (mapping_of data) with
    | None => empty_guardrail true
    | Some parsed =>
        let entries := omap mapping_pair parsed in
        {| invalidJson := false;
           mapping_pairs := entries;
           missingSourceModels :=
             dedupe (map fst (List.filter (fun e => nonempty e.1 && negb (includes_str currentModels e.1)) entries));
           exposedTargetModels :=
             dedupe (map snd (List.filter (fun e => nonempty e.2 && includes_str currentModels e.2) entries)) |}
    end.

(** ** Protocol, connection, defaults *)

Definition currentProtocol (data : ChannelFormValues) : jsstr :=
  default [] (getChannelProtocol (type data) (parseChannelOtherSettings (settings data))).

(** [t] translates the label that names a new channel. *)
Definition selectChannelProtocol (t : jsstr -> jsstr) (d : dialog) (data : ChannelFormValues) (protocol : jsstr)
    : list field_edit :=
  if negb (canEditSensitive d) then []
  else
    match List.find (fun item => o_value item === protocol) CHANNEL_PROTOCOL_OPTIONS with
    | None => []
    | Some option =>
        [SetType (num_of_Z (o_type option)); SetProtocol protocol]
        ++ (if negb (isEditing d) && negb (nonempty (trim (name data))) then [SetName (t (o_label option))] else [])
    end.

Definition CHANNEL_CONNECTION_INFO_TYPE : jsstr := js "pbr_channel_conn".

Record ChannelConnectionInfo := { info_key : jsstr; info_url : jsstr }.

Definition encodeChannelConnectionInfo (key url : jsstr) : option jsstr :=
  json_stringify (JObj [(js "_type", JStr CHANNEL_CONNECTION_INFO_TYPE); (js "key", JStr key); (js "url", JStr url)]).

Definition parseChannelConnectionInfo (text : option jsstr) : option ChannelConnectionInfo :=
  if negb (nonempty (default [] text)) then None
  else
    match json_parse (trim (default [] text)) with
    | Some parsed =>
        if is_typeof_object parsed && strict_eq (prop parsed (js "_type")) (JStr CHANNEL_CONNECTION_INFO_TYPE)
        then match prop parsed (js "key"), prop parsed (js "url") with
             | JStr key, JStr url => Some {| info_key := key; info_url := url |}
             | _, _ => None
             end
        else None
    | None => None
    end.

Definition applyConnectionInfo (info : ChannelConnectionInfo) : list field_edit :=
  [SetKey (info_key info); SetBaseUrl (info_url info)].

Definition VOLCENGINE_URL : jsstr := js "https://ark.cn-beijing.volces.com".

(** The effect on a change of the type. *)
Definition type_defaults (d : dialog) (data : ChannelFormValues) : list field_edit :=
  if isEditing d then []
  else
    (if is_type (type data) 45 && negb (nonempty (default [] (base_url data))) then [SetBaseUrl VOLCENGINE_URL] else [])
    ++ (if is_type (type data) 18 && negb (nonempty (default [] (other data))) then [SetOther (js "v2.1")] else []).

(** The effect on a base URL that stands for a plan. *)
Definition plan_url (data : ChannelFormValues) : list field_edit :=
  if negb (is_type (type data) 45) || (default [] (base_url data) !== js "doubao-coding-plan") then []
  else [SetBaseUrl VOLCENGINE_URL].

Definition supportsMultiKeyAddMode (data : ChannelFormValues) : bool :=
  negb (is_type (type data) 57) && negb (is_type (type data) 41 && is_text (vertex_key_type data) "api_key").

(** The effect that leaves the modes for several keys. *)
Definition single_key_mode (d : dialog) (data : ChannelFormValues) : list field_edit :=
  if isEditing d || supportsMultiKeyAddMode data then []
  else if multi_key data then [SetMultiKeyMode (js "single")] else [].

(** ** Probing the models *)

Inductive ChannelModelDiscoveryRequest :=
| Preview (type : num) (key : option jsstr) (channel_id : option num) (base_url : jsstr)
    (advanced_custom header_override : option jsstr) (proxy : jsval)
| Saved (channelId : num).

Definition DISCOVERY_BASE_URL_REQUIRED_TYPES : list Z := [3; 8; 36; 45; CHANNEL_TYPE_NEW_API].

Definition is_advanced (data : ChannelFormValues) : bool := is_type (type data) CHANNEL_TYPE_ADVANCED_CUSTOM.

Definition draftKeyProbing (d : dialog) (data : ChannelFormValues) : bool :=
  isEditing d && canEditSensitive d && negb (is_advanced data) && has_key_text data.

Definition previewModels (d : dialog) (data : ChannelFormValues) : bool :=
  negb (isEditing d) || (is_advanced data && canEditSensitive d) || draftKeyProbing d data.

Definition canOperateChannel (d : dialog) : bool := hasPermission (currentUser d) "channel" "operate".

Definition canDiscoverModels (d : dialog) (data : ChannelFormValues) : bool :=
  if previewModels d data then canEditSensitive d else canOperateChannel d.

(** [channelId || undefined] and [channelId || 0]: identifiers are not 0. *)
Definition discovery_request (d : dialog) (data : ChannelFormValues) : ChannelModelDiscoveryRequest :=
  if previewModels d data then
    Preview (type data) (if isEditing d && is_advanced data then None else Some (key data)) (currentRow d)
      (default [] (base_url data)) (advanced_custom data) (header_override data) (proxy data)
  else Saved (default zero (currentRow d)).

Definition loaded (d : dialog) : bool := match channelData d with Some _ => true | None => false end.

Definition discoveryConnectionReady (d : dialog) (data : ChannelFormValues) : bool :=
  if negb (type_in MODEL_FETCHABLE_TYPES (type data)) then false
  else if negb (previewModels d data) then loaded d
  else if negb (isEditing d) && negb (is_advanced data) && negb (has_key_text data) then false
  else if type_in DISCOVERY_BASE_URL_REQUIRED_TYPES (type data) && blank (base_url data) then false
  else true.

Definition discovery_enabled (open : bool) (d : dialog) (data : ChannelFormValues) : bool :=
  open && canDiscoverModels d data && type_in MODEL_FETCHABLE_TYPES (type data) && (negb (isEditing d) || loaded d).

Definition normalizedDiscoveredModels (found : list jsstr) : list jsstr :=
  dedupe (List.filter nonempty (map normalizeModelName found)).

Definition discoveredNewModels (d : dialog) (data : ChannelFormValues) (found : list jsstr) : list jsstr :=
  let existing := map normalizeModelName (if isEditing d then initialModels d else currentModelsArray data) in
  List.filter (fun model => negb (includes_str existing model)) (normalizedDiscoveredModels found).

(** ** The warnings agree with the submission *)

Lemma guardrail_pairs (keep : jsstr -> bool) fs : Forall (fun kv => nonempty (target_text kv.2) = true) fs ->
  (forall s, keep s = true -> nonempty s = true) ->
  map fst (List.filter (fun e => keep e.1) (omap mapping_pair fs)) = List.filter keep (map (fun kv => trim kv.1) fs).
Proof.
  intros Hfs Hkeep. induction Hfs as [|kv fs Hkv _ IH]; [done|]. cbn [omap list_omap map List.filter].
  unfold mapping_pair at 1. cbv zeta. rewrite Hkv. cbn [negb]. rewrite orb_false_r.
  destruct (nonempty (trim kv.1)) eqn:Hs; cbn [negb List.filter fst map].
  - destruct (keep (trim kv.1)); cbn [map fst]; by rewrite IH.
  - destruct (keep (trim kv.1)) eqn:Hk; [apply Hkeep in Hk; congruence|]. exact IH.
Qed.

(** C33. The form warns of exactly the models that the submission asks about, in the same
    order, when every source of the mapping has a target. *)
Theorem guardrail_agrees data fs :
  parsed_mapping (mapping_of data) = Some fs -> Forall (fun kv => nonempty (target_text kv.2) = true) fs ->
  missingSourceModels (modelMappingGuardrail data) = findMissingModelsInMapping (mapping_of data) (currentModelsArray data).
Proof.
  intros Hparsed Htargets. unfold modelMappingGuardrail, findMissingModelsInMapping.
  destruct (nonempty (trim (mapping_of data))); [|done]. cbn [negb]. rewrite Hparsed. cbn [missingSourceModels].
  unfold normalizeModelName, currentModelsArray. rewrite trimmed_models. f_equal.
  apply (guardrail_pairs (fun s => nonempty s && negb (includes_str (parseModelsString (models data)) s))); [done|].
  by intros s (Hs & _)%andb_prop.
Qed.

(** ** Edits of the list of models *)

Lemma split_class_plain p c s x : x ∈ split_class p c s -> forall u, u ∈ x -> u <> c -> p u = false.
Proof.
  unfold split_class. intros Hx u Hu Hne. destruct (p u) eqn:Hp; [|done]. exfalso.
  assert (Hin : u ∈ map (fun x => if p x then c else x) s).
  { rewrite <- (join_split c (map _ s)). clear -Hx Hu. revert Hx. generalize (split c (map (fun x => if p x then c else x) s)).
    intros parts Hx. induction parts as [|q parts IH]; [inversion Hx|].
    apply elem_of_cons in Hx as [<-|Hx].
    - destruct parts; [done|]. cbn [join]. set_solver.
    - destruct parts as [|q' parts]; [inversion Hx|]. cbn [join]. apply elem_of_app. right.
      apply elem_of_app. right. by apply IH. }
  apply list_elem_of_In, in_map_iff in Hin as (v & Hv & _). destruct (p v) eqn:Hpv; congruence.
Qed.

Lemma typed_models_plain raw : Forall plain_model (typed_models raw).
Proof.
  apply Forall_forall. intros m (Hm & Hne)%in_filter. apply list_elem_of_In, in_map_iff in Hm as (x & <- & Hx).
  apply list_elem_of_In in Hx. split_and!; [apply trim_idemp|by destruct (trim x)|].
  intros Hin%elem_of_trim. pose proof (split_class_plain _ _ _ _ Hx _ Hin ltac:(done)) as Hp. done.
Qed.

Lemma additions_spec known parsed x : x ∈ model_additions known parsed <-> x ∈ parsed /\ x ∉ known.
Proof.
  revert known. induction parsed as [|m parsed IH]; intros known; cbn [model_additions]; [set_solver|].
  destruct (includes_str known m) eqn:Hm.
  - apply includes_str_spec in Hm. rewrite IH. set_solver.
  - apply includes_str_false in Hm. rewrite elem_of_cons, IH. destruct (decide (x = m)); set_solver.
Qed.

Lemma additions_dedupe known parsed : model_additions known parsed = dedupe_from known parsed.
Proof.
  revert known. induction parsed as [|m parsed IH]; intros known; [done|]. cbn [model_additions dedupe_from].
  destruct (includes_str known m); by rewrite IH.
Qed.

Lemma set_models data s : models (set_value data (SetModels s)) = s.
Proof. done. Qed.

(** The list of models after some edits. *)
Definition edited_models (data : ChannelFormValues) (es : list field_edit) : list jsstr :=
  currentModelsArray (set_values es data).

Lemma updated_models data ms : Forall plain_model ms -> edited_models data [updateModels data ms false] = dedupe ms.
Proof.
  intros Hms. unfold edited_models, set_values, updateModels, currentModelsArray. cbn [fold_left].
  rewrite set_models. by apply parse_format.
Qed.

Lemma current_plain data : Forall plain_model (currentModelsArray data).
Proof. apply parsed_models_plain. Qed.

Lemma filter_plain p ms : Forall plain_model ms -> Forall plain_model (List.filter p ms).
Proof. rewrite !Forall_forall. intros H x (Hx & _)%in_filter. by apply H. Qed.

Lemma dedupe_from_ext seen seen' xs : (forall x, x ∈ seen <-> x ∈ seen') -> dedupe_from seen xs = dedupe_from seen' xs.
Proof.
  revert seen seen'. induction xs as [|y xs IH]; intros seen seen' H; [done|]. cbn [dedupe_from].
  assert (includes_str seen y = includes_str seen' y) as -> by (apply eq_true_iff_eq; by rewrite !includes_str_spec).
  destruct (includes_str seen' y); [by apply IH|]. f_equal. apply IH. set_solver.
Qed.

Lemma dedupe_app_known known xs : dedupe_from [] (known ++ xs) = dedupe known ++ dedupe_from known xs.
Proof.
  unfold dedupe. assert (H : forall seen, dedupe_from seen (known ++ xs) = dedupe_from seen known ++ dedupe_from (seen ++ known) xs).
  { induction known as [|k known IH]; intros seen; cbn [app dedupe_from]; [by rewrite app_nil_r|].
    destruct (includes_str seen k) eqn:Hk; [|by rewrite IH, <- app_assoc].
    rewrite IH. f_equal. apply dedupe_from_ext. apply includes_str_spec in Hk. set_solver. }
  apply (H []).
Qed.

(** Adding typed names appends those that are new. *)
Lemma add_models data raw : let added := model_additions (currentModelsArray data) (typed_models raw) in
  edited_models data (handleAddManualModel data raw)
  = match added with [] => currentModelsArray data | _ => dedupe (currentModelsArray data) ++ added end.
Proof.
  cbv zeta. unfold handleAddManualModel. pose proof (typed_models_plain raw) as Htyped.
  destruct (typed_models raw) as [|m ms] eqn:Hm; [done|]. rewrite <- Hm in *. clear Hm m ms.
  destruct (model_additions _ _) as [|a added] eqn:Ha; [done|]. rewrite <- Ha.
  rewrite updated_models.
  - unfold dedupe at 1. rewrite dedupe_app_known. f_equal. rewrite additions_dedupe in *.
    apply dedupe_from_id; [apply dedupe_from_NoDup|]. intros x. rewrite dedupe_from_spec. by intros (_ & Hx).
  - apply Forall_app. split; [apply current_plain|]. apply Forall_forall. intros x (Hx & _)%additions_spec.
    rewrite Forall_forall in Htyped. by apply Htyped.
Qed.

(** Typed names are appended to the list, those that are new and each once; a removed
    name is gone and the others stay; the models chosen from those probed become the
    list, each once; and a cleared list is empty.  All are read back from the text. *)
Theorem model_edits data raw model selected :
  (let current := currentModelsArray data in
   let added := model_additions current (typed_models raw) in
   NoDup added /\ (forall x, x ∈ added <-> x ∈ typed_models raw /\ x ∉ current)
   /\ edited_models data (handleAddManualModel data raw)
      = match added with [] => current | _ => dedupe current ++ added end)
  /\ edited_models data (handleRemoveModel data model)
     = dedupe (List.filter (fun m => m !== model) (currentModelsArray data))
  /\ (Forall plain_model selected -> edited_models data (handleModelDiscoveryApply data selected) = dedupe selected)
  /\ edited_models data handleConfirmClearModels = [].
Proof.
  split_and!.
  - cbv zeta. split_and!; [|apply additions_spec|apply add_models]. rewrite additions_dedupe. apply dedupe_from_NoDup.
  - apply updated_models, filter_plain, current_plain.
  - apply updated_models.
  - done.
Qed.

(** ** Connection information *)

(** A printed object has no space at its ends. *)
Lemma object_printed fs : exists text, json_stringify (JObj fs) = Some text /\ trim text = text.
Proof.
  eexists. split; [reflexivity|]. apply (trim_ends _ (ch "{") (ch "}")); try reflexivity; [done|].
  rewrite !rev_app_distr. reflexivity.
Qed.

(** Encoded connection information is read back. *)
Theorem connection_info_roundtrip key url : exists text,
  encodeChannelConnectionInfo key url = Some text
  /\ parseChannelConnectionInfo (Some text) = Some {| info_key := key; info_url := url |}.
Proof.
  set (fs := [(js "_type", JStr CHANNEL_CONNECTION_INFO_TYPE); (js "key", JStr key); (js "url", JStr url)]).
  assert (Hstorable : storable (JObj fs)) by (apply storable_literal; [reflexivity|repeat constructor]).
  destruct (object_printed fs) as (text & Htext & Htrim). exists text. split; [exact Htext|].
  unfold parseChannelConnectionInfo. change (default [] (Some text)) with text.
  pose proof (json_parse_stringify (JObj fs) text Hstorable Htext) as Hparse.
  rewrite (json_parse_nonempty _ _ Hparse), Htrim, Hparse. reflexivity.
Qed.

(** ** Probing needs permission *)

(** A probe that is allowed with the values of the form needs the sensitive permission;
    without it only the stored channel is probed. *)
Lemma preview_needs_permission d data :
  canDiscoverModels d data = true -> canEditSensitive d = false ->
  discovery_request d data = Saved (default zero (currentRow d)) /\ canOperateChannel d = true.
Proof.
  unfold canDiscoverModels, discovery_request. by destruct (previewModels d data); [congruence|].
Qed.

(** ** Examples *)

Lemma guardrail_agrees_witness :
  parsed_mapping (mapping_of mapped_data) = Some [(js "alias", JStr (js "gpt-4"))]
  /\ missingSourceModels (modelMappingGuardrail mapped_data)
     = findMissingModelsInMapping (mapping_of mapped_data) (currentModelsArray mapped_data)
  /\ findMissingModelsInMapping (mapping_of mapped_data) (currentModelsArray mapped_data) = [js "alias"].
Proof.
  assert (Hparsed : parsed_mapping (mapping_of mapped_data) = Some [(js "alias", JStr (js "gpt-4"))])
    by (vm_compute; reflexivity).
  split; [exact Hparsed|]. split; [|vm_compute; reflexivity].
  apply (guardrail_agrees mapped_data _ Hparsed). constructor; [vm_compute; reflexivity|constructor].
Defined.
