(* ===== verification/ChannelSubmit.v ===== *)
(** * Saving a channel: what a submission does

    Proofs about [ChannelDialog].  A submission asks only for confirmations before it
    sends; [ready] says what is known when it does, and [onSubmit_upholds] reduces a
    statement about a submission to one about its request. *)

From S2P Require Import Prelude JsString JsNumber JsValue JsJson JsonRoundtrip StatusCodes ServerError.
From S2P Require Import ChannelForm ChannelSave ModelMapping Interaction ChannelDialog.

(** ** Until the request *)

(** The questions asked before a request. *)
Definition is_confirmation (q : question) : bool :=
  match q with ConfirmStatusCodeRisk _ | ConfirmMissingModels _ => true | _ => false end.

Definition confirmations (tr : list (exchange answer)) : Prop :=
  Forall (fun x => is_confirmation (projT1 x) = true) tr.

(** The user was told of all the new risky redirects, and agreed. *)
Definition risks_confirmed (d : dialog) (data : ChannelFormValues) (past : list (exchange answer)) : Prop :=
  let risky := collectNewDisallowedStatusCodeRedirects (initialStatusCodeMapping d) (default [] (status_code_mapping data)) in
  risky = [] \/ answered (ConfirmStatusCodeRisk risky) true ∈ past.

(** The models sent: those of the form, or joined by the missing ones if the user said so. *)
Definition models_confirmed (d : dialog) (data : ChannelFormValues) (past : list (exchange answer))
    (new_models : option jsstr) : Prop :=
  let models_ := parseModelsString (models data) in
  let missing := findMissingModelsInMapping (mapping_of data) models_ in
  match new_models with
  | Some text =>
      text = formatModelsArray (dedupe (models_ ++ missing)) /\ answered (ConfirmMissingModels missing) Add ∈ past
  | None =>
      missing = [] \/ answered (ConfirmMissingModels missing) Submit ∈ past
      \/ hasModelConfigChanged models_ (mapping_of data) (initialModels d) (initialModelMapping d) = false
  end.

Record ready (d : dialog) (data : ChannelFormValues) (past : list (exchange answer)) (new_models : option jsstr)
    : Prop := {
  ready_loaded : isEditing d = true -> channelData d <> None;
  ready_create : isEditing d = false -> canEditSensitive d = true /\ has_key_text data = true;
  ready_dirty : canEditSensitive d = false -> Forall (fun f => f ∉ dirtyFields d) SENSITIVE_FORM_FIELDS;
  ready_codes : collectInvalidStatusCodeEntries (default [] (status_code_mapping data)) = [];
  ready_risks : risks_confirmed d data past;
  ready_mapping : validateModelMappingJson (mapping_of data) = None;
  ready_models : models_confirmed d data past new_models;
  ready_past : confirmations past
}.

Definition not_sent (e : submit_end) : bool := match e with Sent _ _ => false | _ => true end.

Lemma nonempty_list_false {A} (xs : list A) : nonempty_list xs = false -> xs = [].
Proof. by destruct xs. Qed.

Lemma nonempty_text_false (s : jsstr) : nonempty s = false -> s = [].
Proof. by destruct s. Qed.

Lemma missing_of_blank mapping models_ :
  nonempty (trim mapping) = false -> findMissingModelsInMapping mapping models_ = [].
Proof. intros H. unfold findMissingModelsInMapping. by rewrite H. Qed.

Lemma valid_if_blank mapping : nonempty (trim mapping) = false -> validateModelMappingJson mapping = None.
Proof. intros H. unfold validateModelMappingJson. by rewrite H. Qed.

Lemma no_entries_of_blank s : nonempty (trim s) = false -> mapping_entries s = [].
Proof. intros H. unfold mapping_entries. by rewrite H. Qed.

Lemma new_risky_of_blank s s' : nonempty (trim s') = false -> collectNewDisallowedStatusCodeRedirects s s' = [].
Proof.
  intros H. unfold collectNewDisallowedStatusCodeRedirects, collectDisallowedStatusCodeRedirects.
  by rewrite (no_entries_of_blank s' H).
Qed.

Section Submitting.
Context (translate : jsstr -> list (jsstr * jsstr) -> jsstr) (d : dialog) (data : ChannelFormValues).
Context (I : list (exchange answer) -> question -> Prop) (E : list (exchange answer) -> submit_end -> Prop).
Hypothesis Hconfirm : forall past q, is_confirmation q = true -> I past q.
Hypothesis Hend : forall past e, confirmations past -> not_sent e = true -> E past e.
Hypothesis Hsend : forall past new_models, ready d data past new_models ->
  upholds I E past (send translate d data new_models).

Lemma submit_models_upholds past : confirmations past -> (forall m past', confirmations past' -> models_confirmed d data (past ++ past') m ->
    ready d data (past ++ past') m) ->
  upholds I E past (submit_models translate d data).
Proof.
  intros Hpast Hready. unfold submit_models. cbv zeta.
  assert (Hnow : models_confirmed d data past None -> upholds I E past (send translate d data None)).
  { intros Hm. apply Hsend. rewrite <- (app_nil_r past) in Hm |- *. apply Hready; [constructor|done]. }
  destruct (nonempty (trim (mapping_of data))) eqn:Hblank; [|by apply Hnow; left; apply missing_of_blank].
  destruct (nonempty_list _) eqn:Hmissing; cbn [andb]; [|by apply Hnow; left; apply nonempty_list_false].
  destruct (hasModelConfigChanged _ _ _ _) eqn:Hchanged; [|by apply Hnow; right; right].
  cbn [upholds]. split; [by apply Hconfirm|]. intros [| |].
  - apply Hend; [|done]. apply Forall_app. by repeat constructor.
  - apply Hsend, Hready; [by repeat constructor|]. right. left. set_solver.
  - apply Hsend, Hready; [by repeat constructor|]. split; [done|set_solver].
Qed.

Lemma submit_checked_upholds :
  (isEditing d = true -> channelData d <> None) ->
  (isEditing d = false -> canEditSensitive d = true /\ has_key_text data = true) ->
  (canEditSensitive d = false -> Forall (fun f => f ∉ dirtyFields d) SENSITIVE_FORM_FIELDS) ->
  upholds I E [] (submit_checked translate d data).
Proof.
  intros Hloaded Hcreate Hdirty. unfold submit_checked. cbv zeta.
  set (codes := default [] (status_code_mapping data)).
  assert (Hmapping : forall past, confirmations past -> collectInvalidStatusCodeEntries codes = [] ->
    risks_confirmed d data past -> upholds I E past (submit_mapping translate d data)).
  { intros past Hpast Hcodes Hrisks. unfold submit_mapping.
    destruct (nonempty (trim (mapping_of data))) eqn:Hblank;
      [destruct (validateModelMappingJson (mapping_of data)) eqn:Hvalid; [by apply Hend|]
      |pose proof (valid_if_blank _ Hblank) as Hvalid].
    all: apply submit_models_upholds; [done|]; intros m past' Hpast' Hm; split; try done;
      [destruct Hrisks as [Hrisks|Hrisks]; [by left|right; set_solver]|by apply Forall_app]. }
  destruct (nonempty (trim codes)) eqn:Hblank.
  2: { apply Hmapping; [constructor| |left; by apply new_risky_of_blank].
       unfold collectInvalidStatusCodeEntries. by rewrite (no_entries_of_blank codes Hblank). }
  destruct (nonempty_list (collectInvalidStatusCodeEntries codes)) eqn:Hinvalid; [by apply Hend; [constructor|]|].
  apply nonempty_list_false in Hinvalid.
  destruct (nonempty_list (collectNewDisallowedStatusCodeRedirects _ _)) eqn:Hrisky.
  - cbn [upholds]. split; [by apply Hconfirm|]. intros [|]; cbn [negb]; [|by apply Hend; [repeat constructor|]].
    apply Hmapping; [by repeat constructor|done|]. right. set_solver.
  - apply Hmapping; [constructor|done|]. left. by apply nonempty_list_false.
Qed.

Lemma onSubmit_upholds : upholds I E [] (onSubmit translate d data).
Proof.
  unfold onSubmit. destruct (isEditing d) eqn:Hediting; cbn [andb negb].
  - destruct (channelData d) as [multi|] eqn:Hloaded; cbn [negb]; [|by apply Hend; [constructor|]].
    destruct (canEditSensitive d) eqn:Hcan; cbn [andb negb];
      [|destruct (existsb _ SENSITIVE_FORM_FIELDS) eqn:Hdirty; [by apply Hend; [constructor|]|]].
    all: apply submit_checked_upholds; try congruence.
    intros _. apply Forall_forall. intros f Hf Hin. apply includes_str_spec in Hin.
    assert (Hex : existsb (fun f => includes_str (dirtyFields d) f) SENSITIVE_FORM_FIELDS = true).
    { apply existsb_exists. exists f. split; [by apply list_elem_of_In|done]. }
    congruence.
  - destruct (canEditSensitive d) eqn:Hcan; cbn [andb negb]; [|by apply Hend; [constructor|]].
    destruct (has_key_text data) eqn:Hkey; cbn [negb]; [|by apply Hend; [constructor|]].
    by apply submit_checked_upholds; rewrite ?Hediting, ?Hcan.
Qed.
End Submitting.

(** ** The request *)

(** The data that is sent. *)
Definition sent_data (data : ChannelFormValues) (new_models : option jsstr) : ChannelFormValues :=
  match new_models with Some text => with_models text data | None => data end.

Definition sent_models (data : ChannelFormValues) (new_models : option jsstr) : jsstr :=
  match new_models with Some text => text | None => models data end.

(** What of a channel does not need the sensitive permission. *)
Definition public_fields (id : num) (data : ChannelFormValues) (models_ : jsstr) : list (jsstr * jsval) :=
  let kept s := JStr (default [] s) in
  [(js "id", JNum id); (js "name", empty_to_null (JStr (name data)));
   (js "models", empty_to_null (JStr models_)); (js "group", JStr (js "default"));
   (js "model_mapping", kept (model_mapping data)); (js "test_model", kept (test_model data));
   (js "auto_ban", JNum (default one (auto_ban data)));
   (js "status_code_mapping", kept (status_code_mapping data)); (js "tag", kept (tag data));
   (js "remark", kept (remark data))].

Lemma base_payload data id payload : transformFormDataToUpdatePayload data id = Ret payload ->
  exists setting_ settings_, payload = payload_of id data setting_ settings_ ++ key_field data.
Proof.
  intros H. destruct (buildSettingJSON data) as [setting_| |] eqn:Hset;
    [|unfold transformFormDataToUpdatePayload in H; by rewrite Hset in H..].
  destruct (buildSettingsJSON data) as [settings_| |] eqn:Hsets;
    [|unfold transformFormDataToUpdatePayload in H; by rewrite Hset, Hsets in H..].
  rewrite (update_payload_eq data id setting_ settings_ Hset Hsets) in H. apply Ret_inj in H. by eexists _, _.
Qed.

Lemma public_payload id data setting_ settings_ :
  without_sensitive (payload_of id data setting_ settings_ ++ key_field data) = public_fields id data (models data)
  /\ without_sensitive (payload_of id data setting_ settings_) = public_fields id data (models data).
Proof. unfold key_field. destruct (_ && _); split; reflexivity. Qed.

Lemma public_update d id data payload : canEditSensitive d = false -> update_payload d id data = Ret payload ->
  payload = public_fields id data (models data).
Proof.
  intros Hcan. unfold update_payload. destruct (transformFormDataToUpdatePayload data id) as [base| |] eqn:Hbase; [|done..].
  cbn [obind]. rewrite Hcan. cbn [andb]. apply base_payload in Hbase as (setting_ & settings_ & ->).
  rewrite payload_without_key. destruct (public_payload id data setting_ settings_) as (Hwith & Hwithout).
  intros H. assert (Hpublic : payload = if has_key_text data then public_fields id data (models data)
                                       else public_fields id data (models data)).
  { destruct (has_key_text data), (key_mode data); apply Ret_inj in H; by rewrite <- H. }
  by destruct (has_key_text data).
Qed.

Lemma has_key_set {A} (fs : list (jsstr * A)) k v k' : has_key (set_field fs k v) k' = (k === k') || has_key fs k'.
Proof. unfold has_key. rewrite assoc_set_field. by destruct (k === k'). Qed.

Lemma has_key_delete {A} (fs : list (jsstr * A)) k k' : has_key (delete_field fs k) k' = negb (k === k') && has_key fs k'.
Proof. unfold has_key. rewrite assoc_delete_field. by destruct (k === k'). Qed.

Lemma has_key_deletes {A} ks (fs : list (jsstr * A)) k :
  has_key fs k = false -> has_key (fold_left delete_field ks fs) k = false.
Proof.
  revert fs. induction ks as [|k' ks IH]; intros fs H; [done|]. cbn [fold_left]. apply IH.
  rewrite has_key_delete, H. apply andb_false_r.
Qed.

(** A first request never asks to clean up. *)
Lemma no_cleanup d id data payload : update_payload d id data = Ret payload -> has_key payload (js "cleanup_models") = false.
Proof.
  unfold update_payload. destruct (transformFormDataToUpdatePayload data id) as [base| |] eqn:Hbase; [|done..].
  apply base_payload in Hbase as (setting_ & settings_ & ->). cbn [obind]. cbv zeta.
  set (start := payload_of id data setting_ settings_ ++ key_field data).
  assert (Hstart : has_key start (js "cleanup_models") = false) by (unfold start, key_field; destruct (_ && _); reflexivity).
  intros H%Ret_inj. rewrite <- H. clear H. clearbody start.
  repeat match goal with
  | |- has_key (if ?b then _ else _) _ = _ => destruct b
  | |- has_key (match ?o with Some _ => _ | None => _ end) _ = _ => destruct o
  | |- has_key (set_field _ _ _) _ = _ => rewrite has_key_set; apply orb_false_intro; [reflexivity|]
  | |- has_key (delete_field _ _) _ = _ => rewrite has_key_delete; apply andb_false_intro2
  | |- has_key (without_sensitive _) _ = _ => apply has_key_deletes
  end; exact Hstart.
Qed.

Section Sending.
Context (translate : jsstr -> list (jsstr * jsstr) -> jsstr) (d : dialog).

(** What an update may ask: a first request, the lanes of its conflict, and the same
    request with the clean-up once the user agreed. *)
Inductive update_question (payload : list (jsstr * jsval)) (id : num) : list (exchange answer) -> question -> Prop :=
| asks_update past : update_question payload id past (UpdateChannel id payload)
| asks_lanes past h error :
    isChannelReferenceConflict h (t translate) error = true ->
    update_question payload id (past ++ [answered (UpdateChannel id payload) (Failed h error)])
      (ConfirmReferencedModels (lanes (parseChannelReferenceConflict h (t translate) error [])))
| asks_cleanup past h error :
    isChannelReferenceConflict h (t translate) error = true ->
    update_question payload id
      (past ++ [answered (UpdateChannel id payload) (Failed h error);
                answered (ConfirmReferencedModels (lanes (parseChannelReferenceConflict h (t translate) error []))) true])
      (UpdateChannel id (with_cleanup payload)).

(** How a mutation ended agrees with the last answer of the server. *)
Definition end_agrees (past : list (exchange answer)) (r : mutation_end) : Prop :=
  match r with
  | Updated cleaned deleted => exists before id payload response,
      past = before ++ [answered (UpdateChannel id payload) (Succeeded response)]
      /\ cleaned = default [] (cleaned_lanes response) /\ deleted = default [] (deleted_lanes response)
  | Created => exists before payload, past = before ++ [answered (CreateChannel payload) (Succeeded tt)]
  | ThrownServer h error => exists before,
      (exists id payload, past = before ++ [answered (UpdateChannel id payload) (Failed h error)])
      \/ (exists payload, past = before ++ [answered (CreateChannel payload) (Failed h error)])
  | Cancelled => exists before lanes, past = before ++ [answered (ConfirmReferencedModels lanes) false]
  | ThrownType => True
  end.

Lemma mutate_upholds data (I : list (exchange answer) -> question -> Prop) past :
  (forall id payload past' q, currentRow d = Some id -> update_payload d id data = Ret payload ->
     update_question payload id (past ++ past') q -> I (past ++ past') q) ->
  (forall payload, currentRow d = None -> transformFormDataToCreatePayload data = Ret payload ->
     I past (CreateChannel payload)) ->
  upholds I (fun past r => end_agrees past r) past (mutate translate d data).
Proof.
  intros Hupdate Hcreate. unfold mutate. destruct (currentRow d) as [id|] eqn:Hrow.
  - destruct (update_payload d id data) as [payload| |] eqn:Hpayload; [|done..].
    assert (HI : forall past' q, update_question payload id (past ++ past') q -> I (past ++ past') q)
      by (intros past' q; by apply Hupdate). clear Hupdate.
    cbn [upholds]. split; [rewrite <- (app_nil_r past); apply HI; constructor|].
    intros [r|h error]; [by exists past, id, payload, r|].
    destruct (isChannelReferenceConflict h (t translate) error) eqn:Hconflict; cbn [negb];
      [|exists past; left; by exists id, payload].
    cbn [upholds]. split; [by apply HI, asks_lanes|]. intros [|]; cbn [negb]; [|by eexists _, _].
    cbn [upholds]. rewrite <- app_assoc. split; [by apply HI, asks_cleanup|].
    intros [r|h' error']; [by eexists _, id, _, r|]. eexists. left. by eexists id, _.
  - destruct (transformFormDataToCreatePayload data) as [payload| |] eqn:Hpayload; [|done..].
    cbn [upholds]. split; [by apply Hcreate|].
    intros [[]|h error]; [by exists past, payload|]. exists past. right. by exists payload.
Qed.
End Sending.

(** ** Submissions *)

Section Submissions.
Context (translate : jsstr -> list (jsstr * jsstr) -> jsstr) (d : dialog) (data : ChannelFormValues).

(** What is asked from the request on. *)
Definition request_question (tr : list (exchange answer)) (q : question) : Prop :=
  exists past past' new_models, tr = past ++ past' /\ ready d data past new_models /\
    ((exists id payload, currentRow d = Some id /\ update_payload d id (sent_data data new_models) = Ret payload
        /\ update_question translate payload id tr q)
     \/ (exists payload, currentRow d = None /\ transformFormDataToCreatePayload (sent_data data new_models) = Ret payload
        /\ q = CreateChannel payload)).

Lemma submission_upholds :
  upholds (fun tr q => is_confirmation q = true \/ request_question tr q)
    (fun tr e => match e with Sent _ r => end_agrees tr r | _ => confirmations tr end) []
    (onSubmit translate d data).
Proof.
  apply onSubmit_upholds.
  - intros past q Hq. by left.
  - intros past e Hpast He. by destruct e.
  - intros past m Hready. unfold send. apply upholds_bind. cbn [upholds].
    apply (mutate_upholds translate d (sent_data data m)).
    + intros id payload past' q Hid Hpayload Hq. right. exists past, past', m. split_and!; [done|done|].
      left. by exists id, payload.
    + intros payload Hnone Hpayload. right. exists past, [], m. split_and!; [by rewrite app_nil_r|done|].
      right. by exists payload.
Qed.

Lemma submission_asks tr q : asks (onSubmit translate d data) tr q -> is_confirmation q = true \/ request_question tr q.
Proof. apply (upholds_asks _ _ _ _ _ submission_upholds). Qed.

Lemma no_create_locked : canEditSensitive d = false -> currentRow d = None -> forall past m, ~ ready d data past m.
Proof.
  intros Hcan Hrow past m Hready. destruct (ready_create _ _ _ _ Hready) as (Hcan' & _); [|congruence].
  unfold isEditing. by rewrite Hrow.
Qed.
End Submissions.

(** ** Properties *)

(** C30. Without the sensitive permission nothing is created, and an update is sent only if
    no sensitive field was changed; it holds the public fields alone. *)
Theorem update_without_permission translate d data tr q :
  canEditSensitive d = false -> asks (onSubmit translate d data) tr q -> is_confirmation q = false ->
  Forall (fun f => f ∉ dirtyFields d) SENSITIVE_FORM_FIELDS
  /\ match q with
     | UpdateChannel id payload => currentRow d = Some id /\ exists models_,
         let public := public_fields id data models_ in payload = public \/ payload = with_cleanup public
     | ConfirmReferencedModels _ => True
     | _ => False
     end.
Proof.
  intros Hcan [Hq|Hq]%submission_asks Hrequest; [congruence|].
  destruct Hq as (past & past' & m & -> & Hready & [(id & payload & Hrow & Hpayload & Hq)|(payload & Hrow & _)]);
    [|by destruct (no_create_locked d data Hcan Hrow past m)].
  split; [by apply (ready_dirty _ _ _ _ Hready)|].
  apply public_update in Hpayload; [|done].
  assert (Hpublic : payload = public_fields id data (sent_models data m)) by (rewrite Hpayload; by destruct m).
  inversion Hq; subst q; [|done|]; (split; [done|]); exists (sent_models data m); [left|right]; congruence.
Qed.

(** The exchanges end with a request that failed with a conflict, and the user's
    agreement to the lanes it named. *)
Definition conflict_agreed translate (tr : list (exchange answer)) (id : num) (first : list (jsstr * jsval)) : Prop :=
  exists before h error,
    tr = before ++ [answered (UpdateChannel id first) (Failed h error);
                    answered (ConfirmReferencedModels (lanes (parseChannelReferenceConflict h (t translate) error []))) true]
    /\ isChannelReferenceConflict h (t translate) error = true.

(** C31. A request that lets the server remove the channel from lanes is sent only after the
    same request failed with a conflict and the user agreed to the lanes it named. *)
Theorem cleanup_only_confirmed translate d data tr id payload :
  asks (onSubmit translate d data) tr (UpdateChannel id payload) -> has_key payload (js "cleanup_models") = true ->
  exists first, conflict_agreed translate tr id first /\ has_key first (js "cleanup_models") = false
    /\ payload = with_cleanup first.
Proof.
  intros [Hq|Hq]%submission_asks Hcleanup; [done|].
  destruct Hq as (past & past' & m & -> & Hready & [(id' & first & _ & Hpayload & Hq)|(? & _ & _ & ?)]); [|done].
  apply no_cleanup in Hpayload. inversion Hq; subst; [congruence|]. exists first. split_and!; [by eexists _, _, _|done|done].
Qed.

Lemma risks_confirmed_in d data past past' r : risks_confirmed d data past ->
  r ∈ collectNewDisallowedStatusCodeRedirects (initialStatusCodeMapping d) (default [] (status_code_mapping data)) ->
  exists detailItems, r ∈ detailItems /\ answered (ConfirmStatusCodeRisk detailItems) true ∈ past ++ past'.
Proof. intros [Hnone|Hin] Hr; [rewrite Hnone in Hr; inversion Hr|]. eexists. split; [exact Hr|set_solver]. Qed.

(** The models sent leave none of the mapping missing, unless the user chose so or the
    configuration is the one that was loaded. *)
Lemma models_confirmed_complete d data past past' m : models_confirmed d data past m ->
  (forall x, source_model (mapping_of data) x -> ch "," ∉ x) ->
  findMissingModelsInMapping (mapping_of data) (parseModelsString (sent_models data m)) = []
  \/ (exists missing, answered (ConfirmMissingModels missing) Submit ∈ past ++ past')
  \/ hasModelConfigChanged (parseModelsString (models data)) (mapping_of data) (initialModels d) (initialModelMapping d)
     = false.
Proof.
  intros Hm Hcomma. destruct m as [text|]; cbn [models_confirmed sent_models] in *.
  - destruct Hm as (-> & _). left. destruct (completed_models (mapping_of data) (models data) Hcomma) as (-> & Hnone). exact Hnone.
  - destruct Hm as [Hm|[Hm|Hm]]; [by left|right; left|by right; right]. eexists. apply elem_of_app. left. exact Hm.
Qed.


(** At most five questions: two before the request, the request, its lanes, its retry. *)
Lemma mutate_within translate d data : within 3 (mutate translate d data).
Proof.
  unfold mutate. destruct (currentRow d) as [id|].
  - destruct (update_payload d id data); [|done..]. intros [r|h error]; [done|].
    destruct (negb _); [done|]. intros confirmed. destruct (negb confirmed); [done|]. by intros [r|h' error'].
  - destruct (transformFormDataToCreatePayload data); [|done..]. by intros [r|h error].
Qed.

Lemma within_more {A} (p : prog answer A) : forall n m, (n <= m)%nat -> within n p -> within m p.
Proof.
  induction p as [a|q k IH]; intros n m Hle Hn; [done|]. destruct n as [|n]; [done|]. destruct m as [|m]; [lia|].
  intros a. apply (IH a n); [lia|apply Hn].
Qed.

Lemma within_bind {A B} (p : prog answer A) (f : A -> prog answer B) n m :
  within n p -> (forall a, within m (f a)) -> within (n + m) (pbind p f).
Proof.
  revert n. induction p as [a|q k IH]; intros n Hn Hf; [apply (within_more _ m); [lia|apply Hf]|].
  destruct n as [|n]; [done|]. intros a. by apply IH.
Qed.

Lemma send_within translate d data m : within 3 (send translate d data m).
Proof. unfold send. apply (within_bind _ _ 3 0); [apply mutate_within|done]. Qed.

Lemma submit_within translate d data : within 5 (onSubmit translate d data).
Proof.
  assert (Hmodels : within 4 (submit_models translate d data)).
  { unfold submit_models. cbv zeta. destruct (nonempty (trim (mapping_of data)));
      [|apply (within_more _ 3); [lia|apply send_within]].
    destruct (_ && _); [|apply (within_more _ 3); [lia|apply send_within]].
    by intros [| |]; [|apply send_within..]. }
  assert (Hmapping : within 4 (submit_mapping translate d data)).
  { unfold submit_mapping. by destruct (if nonempty (trim (mapping_of data)) then _ else _). }
  assert (Hmore : within 5 (submit_mapping translate d data)) by (apply (within_more _ 4); [lia|done]).
  unfold onSubmit. do 4 (destruct (_ && _); [done|]). unfold submit_checked. cbv zeta.
  destruct (nonempty (trim _)); [|done]. destruct (nonempty_list (collectInvalidStatusCodeEntries _)); [done|].
  destruct (nonempty_list _); [|done]. by intros [|].
Qed.

(** A submission ends after at most five questions.  One that sends nothing asked no
    request, and one that sends reports what the server answered last. *)
Theorem submission_reports translate d data tr :
  (forall p, run (onSubmit translate d data) tr p -> (length tr <= 5)%nat)
  /\ forall e, ends (onSubmit translate d data) tr e ->
     match e with Sent _ r => end_agrees tr r | _ => confirmations tr end.
Proof.
  split; [intros p Hr; by apply (within_run _ _ _ Hr 5), submit_within|].
  intros e He. exact (upholds_ends _ _ _ _ _ (submission_upholds translate d data) He).
Qed.

(** ** Examples *)

Definition plain_translate (s : jsstr) (_ : list (jsstr * jsstr)) : jsstr := s.

(** A failure whose payload carries a message, and details. *)
Definition failure (message_ : string) (details_ : list (string * value)) : heap :=
  {[ 0%nat := plain_object [("response", VObj 1%nat)]%string;
     1%nat := plain_object [("status", VNum (num_of_Z 409)); ("data", VObj 2%nat)]%string;
     2%nat := plain_object [("message", VStr (js message_)); ("details", VObj 3%nat)]%string;
     3%nat := plain_object details_;
     4%nat := {| fields := []; items := Some [VStr (js "lane-a"); VStr (js "lane-b")]; is_error := false;
                 is_safe := false; is_cancelled := false |} ]}.

Definition conflict_heap : heap := failure "still in use" [("lanes", VObj 4%nat)]%string.

Example conflict_lanes :
  isChannelReferenceConflict conflict_heap (fun s => s) (VObj 0%nat) = true
  /\ lanes (parseChannelReferenceConflict conflict_heap (fun s => s) (VObj 0%nat) []) = [js "lane-a"; js "lane-b"].
Proof. vm_compute. split; reflexivity. Qed.

(** Any message with a colon is taken for a conflict, and its tail for lanes. *)
Example colon_is_conflict :
  let h := failure "invalid base url: example.org, retry" [] in
  isChannelReferenceConflict h (fun s => s) (VObj 0%nat) = true
  /\ lanes (parseChannelReferenceConflict h (fun s => s) (VObj 0%nat) []) = [js "example.org"; js "retry"].
Proof. vm_compute. split; reflexivity. Qed.

Definition sample_data : ChannelFormValues := CHANNEL_FORM_DEFAULT_VALUES.

Definition sample_dialog (user : jsval) : dialog := {|
  currentRow := Some one; channelData := Some false; currentUser := user; initialModels := [];
  initialModelMapping := []; initialStatusCodeMapping := []; dirtyFields := [] |}.

Definition sample_payload (user : jsval) : list (jsstr * jsval) :=
  match update_payload (sample_dialog user) one sample_data with Ret p => p | _ => [] end.

Lemma update_without_permission_witness :
  Forall (fun f => f ∉ dirtyFields (sample_dialog JNull)) SENSITIVE_FORM_FIELDS
  /\ currentRow (sample_dialog JNull) = Some one
  /\ exists models_, let public := public_fields one sample_data models_ in
       sample_payload JNull = public \/ sample_payload JNull = with_cleanup public.
Proof.
  refine (update_without_permission plain_translate (sample_dialog JNull) sample_data []
            (UpdateChannel one (sample_payload JNull)) _ _ _).
  - reflexivity.
  - eexists. exact (run_here (onSubmit plain_translate (sample_dialog JNull) sample_data)).
  - reflexivity.
Defined.

Definition admin : jsval := JObj [(js "role", JNum (num_of_Z 100))].

Definition conflict_trace : list (exchange answer) :=
  [answered (UpdateChannel one (sample_payload admin)) (Failed conflict_heap (VObj 0%nat));
   answered (ConfirmReferencedModels
     (lanes (parseChannelReferenceConflict conflict_heap (t plain_translate) (VObj 0%nat) []))) true].

Lemma conflict_trace_asks :
  asks (onSubmit plain_translate (sample_dialog admin) sample_data) conflict_trace
    (UpdateChannel one (with_cleanup (sample_payload admin))).
Proof.
  eexists. refine (run_on (UpdateChannel one (sample_payload admin)) _ _ _ _ _). cbn [answer].
  refine (run_on (ConfirmReferencedModels _) _ true _ _ _).
  exact (run_here _).
Qed.

Lemma cleanup_only_confirmed_witness :
  has_key (with_cleanup (sample_payload admin)) (js "cleanup_models") = true
  /\ exists first, conflict_agreed plain_translate conflict_trace one first
      /\ has_key first (js "cleanup_models") = false /\ with_cleanup (sample_payload admin) = with_cleanup first.
Proof.
  assert (Hkey : has_key (with_cleanup (sample_payload admin)) (js "cleanup_models") = true).
  { unfold with_cleanup. rewrite has_key_set. reflexivity. }
  split; [exact Hkey|].
  exact (cleanup_only_confirmed plain_translate (sample_dialog admin) sample_data conflict_trace one
           (with_cleanup (sample_payload admin)) conflict_trace_asks Hkey).
Defined.

Definition added_trace : list (exchange answer) := [answered (ConfirmMissingModels [js "alias"]) Add].

Definition added_payload : list (jsstr * jsval) :=
  match update_payload (sample_dialog admin) one (with_models (js "gpt-4,alias") mapped_data) with
  | Ret p => p | _ => [] end.

