(* ===== verification/ParamOverride.v ===== *)
(** * Parameter overrides of a channel
      ([features/channels/components/dialogs/param-override-editor-dialog.tsx])

    The rules that rewrite the requests of a channel: their vocabulary, the text of a
    value, identifiers, the editors' drafts of special values, validation, and the
    JSON text that is saved and opened again.  [localIdSeed] is the state of the
    computations that make identifiers, and [now k] the time read for the [k]-th of
    them.  Modes are the strings of the code. *)

From S2P Require Import Prelude JsString JsNumber JsValue JsJson JsonRoundtrip.

(** ** Vocabulary *)

Record ParamOverrideCondition := {
  co_id : jsstr;
  co_path : jsstr;
  co_mode : jsstr;
  co_value_text : jsstr;
  co_invert : bool;
  co_pass_missing_key : bool
}.

Record ParamOverrideOperation := {
  op_id : jsstr;
  op_description : jsstr;
  op_path : jsstr;
  op_mode : jsstr;
  op_from : jsstr;
  op_to : jsstr;
  op_value_text : jsstr;
  op_keep_origin : bool;
  op_logic : jsstr;
  op_conditions : list ParamOverrideCondition
}.

(** Value and label. *)
Definition OPERATION_MODE_OPTIONS : list (jsstr * jsstr) := [
  (js "set", js "Set Field");
  (js "delete", js "Delete Field");
  (js "append", js "Append to End");
  (js "prepend", js "Prepend to Start");
  (js "copy", js "Copy Field");
  (js "move", js "Move Field");
  (js "replace", js "String Replace");
  (js "regex_replace", js "Regex Replace");
  (js "trim_prefix", js "Trim Prefix");
  (js "trim_suffix", js "Trim Suffix");
  (js "ensure_prefix", js "Ensure Prefix");
  (js "ensure_suffix", js "Ensure Suffix");
  (js "trim_space", js "Trim Space");
  (js "to_lower", js "To Lowercase");
  (js "to_upper", js "To Uppercase");
  (js "return_error", js "Return Custom Error");
  (js "prune_objects", js "Prune Object Items");
  (js "pass_headers", js "Pass Through Headers");
  (js "sync_fields", js "Sync Fields");
  (js "set_header", js "Set Request Header");
  (js "delete_header", js "Delete Request Header");
  (js "copy_header", js "Copy Request Header");
  (js "move_header", js "Move Request Header")].

Definition OPERATION_MODE_VALUES : list jsstr := map fst OPERATION_MODE_OPTIONS.

Definition OPERATION_MODE_LABEL_MAP (mode : jsstr) : option jsstr := assoc OPERATION_MODE_OPTIONS mode.

Definition CONDITION_MODE_OPTIONS : list (jsstr * jsstr) := [
  (js "full", js "Exact Match");
  (js "prefix", js "Prefix");
  (js "suffix", js "Suffix");
  (js "contains", js "Contains");
  (js "gt", js "Greater Than");
  (js "gte", js "Greater Than or Equal");
  (js "lt", js "Less Than");
  (js "lte", js "Less Than or Equal")].

Definition CONDITION_MODE_VALUES : list jsstr := map fst CONDITION_MODE_OPTIONS.

(** What a mode asks for; an absent flag is [undefined], and [to: false] is not. *)
Record ModeMeta := {
  m_path : bool;
  m_pathOptional : bool;
  m_value : bool;
  m_from : bool;
  m_to : option bool;
  m_keepOrigin : bool;
  m_pathAlias : bool
}.

Definition asks_path (value keepOrigin : bool) : ModeMeta :=
  {| m_path := true; m_pathOptional := false; m_value := value; m_from := false; m_to := None;
     m_keepOrigin := keepOrigin; m_pathAlias := false |}.
Definition asks_replacement : ModeMeta :=
  {| m_path := true; m_pathOptional := false; m_value := false; m_from := true; m_to := Some false;
     m_keepOrigin := false; m_pathAlias := false |}.
Definition asks_value (pathOptional keepOrigin : bool) : ModeMeta :=
  {| m_path := false; m_pathOptional := pathOptional; m_value := true; m_from := false; m_to := None;
     m_keepOrigin := keepOrigin; m_pathAlias := false |}.
Definition asks_endpoints (header : bool) : ModeMeta :=
  {| m_path := false; m_pathOptional := false; m_value := false; m_from := true; m_to := Some true;
     m_keepOrigin := header; m_pathAlias := header |}.

Definition MODE_META : list (jsstr * ModeMeta) := [
  (js "delete", asks_path false false);
  (js "set", asks_path true true);
  (js "append", asks_path true true);
  (js "prepend", asks_path true true);
  (js "copy", asks_endpoints false);
  (js "move", asks_endpoints false);
  (js "replace", asks_replacement);
  (js "regex_replace", asks_replacement);
  (js "trim_prefix", asks_path true false);
  (js "trim_suffix", asks_path true false);
  (js "ensure_prefix", asks_path true false);
  (js "ensure_suffix", asks_path true false);
  (js "trim_space", asks_path false false);
  (js "to_lower", asks_path false false);
  (js "to_upper", asks_path false false);
  (js "return_error", asks_value false false);
  (js "prune_objects", asks_value true false);
  (js "pass_headers", asks_value false true);
  (js "sync_fields", asks_endpoints false);
  (js "set_header", asks_path true true);
  (js "delete_header", asks_path false false);
  (js "copy_header", asks_endpoints true);
  (js "move_header", asks_endpoints true)].

Definition VALUE_REQUIRED_MODES : list jsstr :=
  [js "trim_prefix"; js "trim_suffix"; js "ensure_prefix"; js "ensure_suffix"; js "set_header";
   js "return_error"; js "prune_objects"; js "pass_headers"].

Definition FROM_REQUIRED_MODES : list jsstr :=
  [js "copy"; js "move"; js "replace"; js "regex_replace"; js "copy_header"; js "move_header";
   js "sync_fields"].

Definition TO_REQUIRED_MODES : list jsstr :=
  [js "copy"; js "move"; js "copy_header"; js "move_header"; js "sync_fields"].

(** [operation.mode || 'set'] and [MODE_META[mode] || MODE_META.set] *)
Definition mode_of (operation : ParamOverrideOperation) : jsstr :=
  if nonempty (op_mode operation) then op_mode operation else js "set".

Definition meta_of (mode : jsstr) : ModeMeta := default (asks_path true true) (assoc MODE_META mode).

(** [!!meta.to] *)
Definition takes_to (meta : ModeMeta) : bool := default false (m_to meta).

(** ** Values as text *)

Definition toValueText (value : jsval) : jsstr :=
  match value with
  | JUndefined => []
  | JStr s => s
  | _ => default [] (json_stringify value)
  end.

Definition parseLooseValue (valueText : jsstr) : jsval :=
  let raw := trim valueText in
  if raw === [] then JStr []
  else match json_parse raw with Some v => v | None => JStr raw end.

Definition verifyJSON (text : jsstr) : bool :=
  match json_parse text with Some _ => true | None => false end.

(** [typeof v === 'string' ? v : ''] *)
Definition text_or_empty (v : jsval) : jsstr := match v with JStr s => s | _ => [] end.

(** [v === true] *)
Definition true_flag (v : jsval) : bool := match v with JBool b => b | _ => false end.

(** [values.has(v) ? v : fallback] *)
Definition known_mode (values : list jsstr) (v : jsval) (fallback : jsstr) : jsstr :=
  match v with JStr s => if includes_str values s then s else fallback | _ => fallback end.

(** [s.toUpperCase()] as far as comparing with a word of ASCII letters needs it: no
    other letter of one unit has one of [A], [D], [N], [O], [R] as its upper case. *)
Definition upper_unit (c : N) : N := if is_lower c then (c - 32)%N else c.
Definition to_upper (s : jsstr) : jsstr := map upper_unit s.

(** ** Identifiers *)

Section Identifiers.
Variable now : N -> N.

Definition local_id (seed : N) : jsstr := js "po_" ++ string_of_N (now seed) ++ js "_" ++ string_of_N seed.

Definition nextLocalId : action N type_error jsstr := fun seed => Ret (local_id seed, (seed + 1)%N).

(** The fields that are read from a condition; [id] was made before. *)
Definition condition_with (id : jsstr) (condition : jsval) : ParamOverrideCondition := {|
  co_id := id;
  co_path := text_or_empty (prop condition (js "path"));
  co_mode := known_mode CONDITION_MODE_VALUES (prop condition (js "mode")) (js "full");
  co_value_text := toValueText (prop condition (js "value"));
  co_invert := true_flag (prop condition (js "invert"));
  co_pass_missing_key := true_flag (prop condition (js "pass_missing_key"))
|}.

(** Reading a property of [null] throws; a missing argument is an empty object. *)
Definition normalizeCondition (condition : jsval) : action N type_error ParamOverrideCondition :=
  let! id := nextLocalId in
  if strict_eq condition JNull then throw TypeError else ret (condition_with id condition).

Definition createDefaultCondition : action N type_error ParamOverrideCondition := normalizeCondition (JObj []).

(** [values.map(f)] *)
Fixpoint mapA {A B} (f : A -> action N type_error B) (xs : list A) : action N type_error (list B) :=
  match xs with
  | [] => ret []
  | x :: xs => let! y := f x in let! ys := mapA f xs in ret (y :: ys)
  end.

Definition items_of (v : jsval) : list jsval := match v with JArr l => l | _ => [] end.

Definition logic_of (v : jsval) : jsstr :=
  if to_upper (string_of_val (js_or v (JStr (js "OR")))) === js "AND" then js "AND" else js "OR".

Definition operation_with (id : jsstr) (operation : jsval) (conditions : list ParamOverrideCondition)
    : ParamOverrideOperation := {|
  op_id := id;
  op_description := text_or_empty (prop operation (js "description"));
  op_path := text_or_empty (prop operation (js "path"));
  op_mode := known_mode OPERATION_MODE_VALUES (prop operation (js "mode")) (js "set");
  op_value_text := toValueText (prop operation (js "value"));
  op_keep_origin := true_flag (prop operation (js "keep_origin"));
  op_from := text_or_empty (prop operation (js "from"));
  op_to := text_or_empty (prop operation (js "to"));
  op_logic := logic_of (prop operation (js "logic"));
  op_conditions := conditions
|}.

Definition normalizeOperation (operation : jsval) : action N type_error ParamOverrideOperation :=
  let! id := nextLocalId in
  if strict_eq operation JNull then throw TypeError
  else
    let! conditions := mapA normalizeCondition (items_of (prop operation (js "conditions"))) in
    ret (operation_with id operation conditions).

Definition createDefaultOperation : action N type_error ParamOverrideOperation :=
  normalizeOperation (JObj [(js "mode", JStr (js "set"))]).

(** ** Lists of rules *)

Definition is_id (id : jsstr) (operation : ParamOverrideOperation) : bool := op_id operation === id.

Inductive drop_position := Before | After.

(** [findIndex], [None] for [-1] *)
Fixpoint find_position {A} (p : A -> bool) (xs : list A) : option nat :=
  match xs with
  | [] => None
  | x :: xs => if p x then Some 0%nat else S <$> find_position p xs
  end.

Definition insert_at {A} (i : nat) (x : A) (xs : list A) : list A := take i xs ++ x :: drop i xs.

Definition reorderOperations (ops : list ParamOverrideOperation) (sourceId targetId : jsstr)
    (position : drop_position) : list ParamOverrideOperation :=
  if negb (nonempty sourceId) || negb (nonempty targetId) || (sourceId === targetId) then ops
  else
    match find_position (is_id sourceId) ops with
    | None => ops
    | Some srcIdx =>
        match ops !! srcIdx with
        | None => ops
        | Some moved =>
            let next := take srcIdx ops ++ drop (S srcIdx) ops in
            match find_position (is_id targetId) next with
            | None => ops
            | Some insertIdx =>
                insert_at (match position with Before => insertIdx | After => S insertIdx end) moved next
            end
        end
    end.

Definition is_blank (s : jsstr) : bool := negb (nonempty (trim s)).

Definition condition_touched (c : ParamOverrideCondition) : bool :=
  negb (is_blank (co_path c)) || negb (is_blank (co_value_text c)) || (co_mode c !== js "full")
  || co_invert c || co_pass_missing_key c.

Definition isOperationBlank (operation : ParamOverrideOperation) : bool :=
  (op_mode operation === js "set") && is_blank (op_path operation) && is_blank (op_from operation)
  && is_blank (op_to operation) && (trim (op_value_text operation) === []) && negb (op_keep_origin operation)
  && negb (existsb condition_touched (op_conditions operation)).

(** [a || b] on strings *)
Definition text_or_else (a b : jsstr) : jsstr := if nonempty a then a else b.

Definition MIDDLE_DOT : N := 0xB7.

Definition getOperationSummary (operation : ParamOverrideOperation) (index : nat) : jsstr :=
  let mode := mode_of operation in
  let modeLabel := default mode (OPERATION_MODE_LABEL_MAP mode) in
  let path := trim (op_path operation) in
  let from := trim (op_from operation) in
  let to := trim (op_to operation) in
  let shown := text_or_else from (text_or_else to (js "-")) in
  string_of_N (N.of_nat (S index)) ++ js ". " ++ modeLabel ++ js " " ++ [MIDDLE_DOT] ++ js " "
  ++ (if mode === js "sync_fields" then shown else text_or_else path shown).

(** ** Endpoints of a synchronisation *)

Record sync_target := { st_type : jsstr; st_key : jsstr }.

Definition parseSyncTargetSpec (spec : jsstr) : sync_target :=
  let raw := trim spec in
  if negb (nonempty raw) then {| st_type := js "json"; st_key := [] |}
  else
    match index_of (js ":") raw with
    | None => {| st_type := js "json"; st_key := raw |}
    | Some idx =>
        let prefix := to_lower (trim (take idx raw)) in
        let key := trim (drop (S idx) raw) in
        if prefix === js "header" then {| st_type := js "header"; st_key := key |}
        else {| st_type := js "json"; st_key := key |}
    end.

Definition buildSyncTargetSpec (type key : jsstr) : jsstr :=
  let normalizedType := if type === js "header" then js "header" else js "json" in
  let normalizedKey := trim key in
  if negb (nonempty normalizedKey) then [] else normalizedType ++ js ":" ++ normalizedKey.

(** ** A custom error *)

Record ReturnErrorDraft := {
  re_message : jsstr;
  re_statusCode : num;
  re_code : jsstr;
  re_type : jsstr;
  re_skipRetry : bool;
  re_simpleMode : bool
}.

Definition BAD_REQUEST : num := num_of_Z 400.

Definition error_defaults : ReturnErrorDraft :=
  {| re_message := []; re_statusCode := BAD_REQUEST; re_code := []; re_type := []; re_skipRetry := true;
     re_simpleMode := true |}.

Definition simple_error (message : jsstr) : ReturnErrorDraft :=
  {| re_message := message; re_statusCode := BAD_REQUEST; re_code := []; re_type := []; re_skipRetry := true;
     re_simpleMode := true |}.

(** [Number.isInteger(n) && n >= 100 && n <= 599 ? n : 400] *)
Definition http_status (n : num) : num :=
  if is_integer n && num_leb (num_of_Z 100) n && num_leb n (num_of_Z 599) then n else BAD_REQUEST.

(** [String(v || '').trim()] *)
Definition or_empty_text (v : jsval) : jsstr := trim (string_of_val (js_or v (JStr []))).

Definition undefined_value (v : jsval) : bool := match v with JUndefined => true | _ => false end.

Definition error_of_object (parsed : jsval) : ReturnErrorDraft :=
  let statusRaw :=
    if negb (undefined_value (prop parsed (js "status_code"))) then prop parsed (js "status_code")
    else prop parsed (js "status") in
  {| re_message := or_empty_text (js_or (prop parsed (js "message")) (prop parsed (js "msg")));
     re_statusCode := http_status (to_number statusRaw);
     re_code := or_empty_text (prop parsed (js "code"));
     re_type := or_empty_text (prop parsed (js "type"));
     re_skipRetry := negb (strict_eq (prop parsed (js "skip_retry")) (JBool false));
     re_simpleMode := false |}.

Definition parseReturnErrorDraft (valueText : jsstr) : ReturnErrorDraft :=
  let raw := trim valueText in
  if negb (nonempty raw) then error_defaults
  else match json_parse raw with
       | Some (JObj fields) => error_of_object (JObj fields)
       | _ => simple_error raw
       end.

(** A property that is written under a condition. *)
Definition field_if (b : bool) (key : jsstr) (v : jsval) : list (jsstr * jsval) := if b then [(key, v)] else [].

Definition error_payload (draft : ReturnErrorDraft) : jsval :=
  let code := trim (re_code draft) in
  let type := trim (re_type draft) in
  JObj ([(js "message", JStr (trim (re_message draft)));
         (js "status_code", JNum (http_status (re_statusCode draft)))]
        ++ field_if (nonempty code) (js "code") (JStr code)
        ++ field_if (nonempty type) (js "type") (JStr type)
        ++ field_if (negb (re_skipRetry draft)) (js "skip_retry") (JBool false)).

Definition buildReturnErrorValueText (draft : ReturnErrorDraft) : jsstr :=
  if re_simpleMode draft then trim (re_message draft)
  else default [] (json_stringify (error_payload draft)).

(** ** Pruning of objects *)

(** A rule has the fields of a condition. *)
Definition PruneRule : Type := ParamOverrideCondition.

Record PruneObjectsDraft := {
  pr_simpleMode : bool;
  pr_typeText : jsstr;
  pr_logic : jsstr;
  pr_recursive : bool;
  pr_rules : list PruneRule
}.

Definition prune_defaults (typeText : jsstr) : PruneObjectsDraft :=
  {| pr_simpleMode := true; pr_typeText := typeText; pr_logic := js "AND"; pr_recursive := true; pr_rules := [] |}.

(** The rule is an object. *)
Definition normalizePruneRule (rule : jsval) : action N type_error PruneRule :=
  let! id := nextLocalId in ret (condition_with id rule).

(** [{ path, mode: 'full', value }] *)
Definition full_match_rule (entry : jsstr * jsval) : jsval :=
  JObj [(js "path", JStr entry.1); (js "mode", JStr (js "full")); (js "value", entry.2)].

(** The arguments of [normalizePruneRule], in order: [where], then [conditions]. *)
Definition prune_rule_sources (parsed : jsval) : list jsval :=
  match prop parsed (js "where") with JObj entries => map full_match_rule entries | _ => [] end
  ++ match prop parsed (js "conditions") with
     | JArr items => List.filter (fun item => truthy item && is_typeof_object item) items
     | JObj entries => map full_match_rule entries
     | _ => []
     end.

Definition has_advanced_fields (parsed : jsval) : bool :=
  existsb (fun key => negb (undefined_value (prop parsed key)))
    [js "logic"; js "recursive"; js "where"; js "conditions"].

Definition prune_logic (v : jsval) : jsstr :=
  if to_upper (string_of_val (js_or v (JStr (js "AND")))) === js "OR" then js "OR" else js "AND".

Definition prune_draft_with (parsed : jsval) (rules : list PruneRule) : PruneObjectsDraft :=
  let type := prop parsed (js "type") in
  {| pr_simpleMode := negb (has_advanced_fields parsed);
     pr_typeText := if undefined_value type then [] else trim (string_of_val type);
     pr_logic := prune_logic (prop parsed (js "logic"));
     pr_recursive := negb (strict_eq (prop parsed (js "recursive")) (JBool false));
     pr_rules := rules |}.

Definition parsePruneObjectsDraft (valueText : jsstr) : action N type_error PruneObjectsDraft :=
  let raw := trim valueText in
  if negb (nonempty raw) then ret (prune_defaults [])
  else
    match json_parse raw with
    | None => ret (prune_defaults raw)
    | Some (JObj fields) =>
        let! rules := mapA normalizePruneRule (prune_rule_sources (JObj fields)) in
        ret (prune_draft_with (JObj fields) rules)
    | Some parsed =>
        ret (prune_defaults (trim (if is_nullish parsed then [] else string_of_val parsed)))
    end.

Definition rule_payload (rule : PruneRule) : jsval :=
  let valueRaw := trim (co_value_text rule) in
  JObj ([(js "path", JStr (trim (co_path rule)));
         (js "mode", JStr (known_mode CONDITION_MODE_VALUES (JStr (co_mode rule)) (js "full")))]
        ++ field_if (valueRaw !== []) (js "value") (parseLooseValue valueRaw)
        ++ field_if (co_invert rule) (js "invert") (JBool true)
        ++ field_if (co_pass_missing_key rule) (js "pass_missing_key") (JBool true)).

Definition buildPruneObjectsValueText (draft : PruneObjectsDraft) : jsstr :=
  let typeText := trim (pr_typeText draft) in
  if pr_simpleMode draft then typeText
  else
    let conditions := map rule_payload (List.filter (fun rule => negb (is_blank (co_path rule))) (pr_rules draft)) in
    let payload :=
      JObj (field_if (nonempty typeText) (js "type") (JStr typeText)
            ++ field_if (to_upper (text_or_else (pr_logic draft) (js "AND")) === js "OR") (js "logic") (JStr (js "OR"))
            ++ field_if (negb (pr_recursive draft)) (js "recursive") (JBool false)
            ++ field_if (nonempty_list conditions) (js "conditions") (JArr conditions)) in
    default [] (json_stringify
      (if negb (nonempty typeText) && negb (nonempty_list conditions)
       then JObj [(js "logic", JStr (js "AND"))] else payload)).

(** ** Headers *)

(** [values.map((i) => String(i ?? '').trim()).filter(Boolean)] *)
Definition nullish_text (v : jsval) : jsstr := trim (if is_nullish v then [] else string_of_val v).
Definition header_names (values : list jsval) : list jsstr := List.filter nonempty (map nullish_text values).

Definition parsePassHeaderNames (rawValue : jsval) : list jsstr :=
  match rawValue with
  | JArr items => header_names items
  | JObj fields =>
      match prop rawValue (js "headers") with
      | JArr items => header_names items
      | _ =>
          if negb (undefined_value (prop rawValue (js "header")))
          then List.filter nonempty [nullish_text (prop rawValue (js "header"))] else []
      end
  | JStr s => List.filter nonempty (map trim (split (ch ",") s))
  | _ => []
  end.

(** ** Saving *)

Definition buildConditionPayload (condition : ParamOverrideCondition) : option jsval :=
  let path := trim (co_path condition) in
  if negb (nonempty path) then None
  else Some (JObj ([(js "path", JStr path);
                    (js "mode", JStr (text_or_else (co_mode condition) (js "full")));
                    (js "value", parseLooseValue (co_value_text condition))]
                   ++ field_if (co_invert condition) (js "invert") (JBool true)
                   ++ field_if (co_pass_missing_key condition) (js "pass_missing_key") (JBool true))).

(** What is wrong with a rule, by the text that names it; the checks in their order. *)
Definition endpoint_missing (required : list jsstr) (mode value pathValue : jsstr) (meta : ModeMeta) : bool :=
  includes_str required mode && negb (nonempty value) && negb (m_pathAlias meta && nonempty pathValue).

Definition special_problem (mode raw : jsstr) : option jsstr :=
  if mode === js "return_error" then
    if negb (nonempty raw) then Some (js "Rule {{line}} is missing value")
    else match json_parse raw with
         | Some (JObj fields) =>
             if negb (nonempty (or_empty_text (prop (JObj fields) (js "message"))))
             then Some (js "Rule {{line}} return_error requires a message field") else None
         | _ => None
         end
  else if mode === js "prune_objects" then
    if negb (nonempty raw) then Some (js "Rule {{line}} prune_objects is missing conditions") else None
  else if mode === js "pass_headers" then
    if negb (nonempty raw) then Some (js "Rule {{line}} pass_headers is missing header names")
    else match parsePassHeaderNames (parseLooseValue raw) with
         | [] => Some (js "Rule {{line}} pass_headers format is invalid")
         | _ => None
         end
  else None.

Definition operation_problem (op : ParamOverrideOperation) : option jsstr :=
  let mode := mode_of op in
  let meta := meta_of mode in
  let pathValue := trim (op_path op) in
  if m_path meta && negb (nonempty pathValue) then Some (js "Rule {{line}} is missing target path")
  else if endpoint_missing FROM_REQUIRED_MODES mode (trim (op_from op)) pathValue meta
  then Some (js "Rule {{line}} is missing source field")
  else if endpoint_missing TO_REQUIRED_MODES mode (trim (op_to op)) pathValue meta
  then Some (js "Rule {{line}} is missing target field")
  else if includes_str VALUE_REQUIRED_MODES mode && (trim (op_value_text op) === [])
  then Some (js "Rule {{line}} is missing value")
  else special_problem mode (trim (op_value_text op)).

Section Translated.
(** The translation of a text with the number of a rule. *)
Variable t : jsstr -> nat -> jsstr.

Fixpoint validate_from (line : nat) (operations : list ParamOverrideOperation) : jsstr :=
  match operations with
  | [] => []
  | op :: operations =>
      match operation_problem op with
      | Some text => t text line
      | None => validate_from (S line) operations
      end
  end.

Definition validateOperations (operations : list ParamOverrideOperation) : jsstr := validate_from 1 operations.

(** [from] and [to] of the payload, where the path may stand for either. *)
Definition aliased (meta : ModeMeta) (value pathValue : jsstr) : jsstr :=
  if m_pathAlias meta && negb (nonempty value) then pathValue else value.

Definition operation_payload (operation : ParamOverrideOperation) : jsval :=
  let mode := mode_of operation in
  let meta := meta_of mode in
  let descriptionValue := trim (op_description operation) in
  let pathValue := trim (op_path operation) in
  let fromValue := trim (op_from operation) in
  let toValue := trim (op_to operation) in
  let conditions := omap buildConditionPayload (op_conditions operation) in
  JObj ([(js "mode", JStr mode)]
        ++ field_if (nonempty descriptionValue) (js "description") (JStr descriptionValue)
        ++ field_if (m_path meta || m_pathOptional meta && nonempty pathValue) (js "path") (JStr pathValue)
        ++ field_if (m_value meta) (js "value") (parseLooseValue (op_value_text operation))
        ++ field_if (m_keepOrigin meta && op_keep_origin operation) (js "keep_origin") (JBool true)
        ++ field_if (m_from meta) (js "from") (JStr (aliased meta fromValue pathValue))
        ++ field_if (takes_to meta || nonempty toValue) (js "to") (JStr (aliased meta toValue pathValue))
        ++ (if nonempty_list conditions
            then [(js "conditions", JArr conditions);
                  (js "logic", JStr (if op_logic operation === js "AND" then js "AND" else js "OR"))]
            else [])).

Definition saved_operations (sourceOperations : list ParamOverrideOperation) : list ParamOverrideOperation :=
  List.filter (fun o => negb (isOperationBlank o)) sourceOperations.

(** [JSON.stringify(value, null, 2)] *)
Definition pretty (value : jsval) : jsstr := default [] (json_stringify_gap (js "  ") [] value).

(** A thrown error is its message. *)
Definition buildOperationsJson (sourceOperations : list ParamOverrideOperation) (validate : bool)
    : outcome jsstr jsstr :=
  match saved_operations sourceOperations with
  | [] => Ret []
  | filteredOps =>
      let message := if validate then validateOperations filteredOps else [] in
      if nonempty message then Throw message
      else Ret (pretty (JObj [(js "operations", JArr (map operation_payload filteredOps))]))
  end.
End Translated.

(** ** Opening *)

Inductive edit_mode := Visual | JsonText.
Inductive visual_mode := Operations | Legacy.

Record EditorState := {
  es_editMode : edit_mode;
  es_visualMode : visual_mode;
  es_legacyValue : jsstr;
  es_operations : list ParamOverrideOperation;
  es_jsonText : jsstr;
  es_jsonError : jsstr
}.

(** [values.length > 0 ? values.map(normalizeOperation) : [createDefaultOperation()]] *)
Definition normalizeOperations (values : list jsval) : action N type_error (list ParamOverrideOperation) :=
  match values with
  | [] => let! created := createDefaultOperation in ret [created]
  | _ => mapA normalizeOperation values
  end.

Definition parseInitialState (text : jsstr) : action N type_error EditorState :=
  let default_state edit_mode visual_mode legacyValue jsonText jsonError :=
    let! created := createDefaultOperation in
    ret {| es_editMode := edit_mode; es_visualMode := visual_mode; es_legacyValue := legacyValue;
           es_operations := [created]; es_jsonText := jsonText; es_jsonError := jsonError |} in
  let trimmed := trim text in
  if negb (nonempty trimmed) then default_state Visual Operations [] [] []
  else
    match json_parse trimmed with
    | None => default_state JsonText Operations [] text (js "Invalid JSON format")
    | Some parsed =>
        match parsed, prop parsed (js "operations") with
        | JObj _, JArr values =>
            let! operations := normalizeOperations values in
            ret {| es_editMode := Visual; es_visualMode := Operations; es_legacyValue := [];
                   es_operations := operations; es_jsonText := pretty parsed; es_jsonError := [] |}
        | JObj _, _ => default_state Visual Legacy (pretty parsed) (pretty parsed) []
        | _, _ => default_state JsonText Operations [] (pretty parsed) []
        end
    end.
End Identifiers.

(** ** Identifiers differ *)

Lemma cut_at_first {A} (c : A) a b x y : c ∉ a -> c ∉ b -> a ++ c :: x = b ++ c :: y -> a = b /\ x = y.
Proof.
  revert b. induction a as [|h a IH]; intros [|k b] Ha Hb; cbn; intros H; simplify_eq; [done|set_solver|set_solver|].
  destruct (IH b) as [-> ->]; set_solver.
Qed.

Lemma underscore_not_digit n : ch "_" ∉ string_of_N n.
Proof.
  intros H%list_elem_of_In. pose proof (string_of_N_digits n) as Hd. rewrite forallb_forall in Hd.
  by specialize (Hd _ H).
Qed.

(** The counter alone makes them different. *)
Lemma local_id_inj now i j : local_id now i = local_id now j -> i = j.
Proof.
  unfold local_id. intros H. apply app_inv_head in H.
  by apply cut_at_first in H as [_ H%string_of_N_inj]; [|apply underscore_not_digit..].
Qed.

Lemma local_id_nonempty now i : nonempty (local_id now i) = true.
Proof. done. Qed.
