(* ===== verification/ParamSaved.v ===== *)
(** * Saved parameter overrides

    What the dialog of parameter overrides saves: rules that are complete, in a text
    that opens again as rules that save the same text.  [reopened] relates a rule to
    the one that is read from its payload; a value is kept when its text is not the
    JSON literal of a string ([kept_text]).  [complete] states what a saved rule has
    without the tables of the code. *)

From S2P Require Import Prelude JsString JsNumber JsValue JsJson JsonRoundtrip ParamOverride.

(** ** Written properties *)

Lemma assoc_field_if b k v rest k' :
  assoc (field_if b k v ++ rest) k' = if k === k' then (if b then Some v else assoc rest k') else assoc rest k'.
Proof. destruct b; cbn [field_if app]; [by rewrite assoc_cons|]. by destruct (k === k'). Qed.

Lemma assoc_field_if_last b k v k' :
  assoc (field_if b k v) k' = if k === k' then (if b then Some v else None) else None.
Proof. rewrite <- (app_nil_r (field_if b k v)). rewrite assoc_field_if. done. Qed.

Lemma sublist_field_if b k v rest ks :
  sublist (map fst rest) ks -> sublist (map fst (field_if b k v ++ rest)) (k :: ks).
Proof. intros H. destruct b; cbn; by constructor. Qed.

Lemma sublist_field_if_last b k v : sublist (map fst (field_if b k v)) [k].
Proof. destruct b; cbn; by repeat constructor. Qed.

(** Some of the properties of a literal object, in its order. *)
Lemma in_order_sublist ks fs : plain_keys ks = true -> sublist (map fst fs) ks -> in_order fs.
Proof.
  intros Hks Hsub. apply in_order_plain. revert Hks. unfold plain_keys. rewrite !andb_true_iff, !bool_decide_eq_true.
  intros [Hidx Hnd%NoDup_keys]. split.
  - rewrite forallb_forall in *. intros k Hk%list_elem_of_In. apply Hidx, list_elem_of_In.
    by apply (elem_of_sublist _ _ _ Hk).
  - apply dedupe_from_id; [by eapply sublist_NoDup|set_solver].
Qed.

Lemma Forall_field_if (P : jsval -> Prop) b k v rest :
  (b = true -> P v) -> Forall (fun kv => P kv.2) rest -> Forall (fun kv => P kv.2) (field_if b k v ++ rest).
Proof. intros Hv Hr. destruct b; cbn; [constructor; [by apply Hv|done]|done]. Qed.

Lemma Forall_field_if_last (P : jsval -> Prop) b k v :
  (b = true -> P v) -> Forall (fun kv => P kv.2) (field_if b k v).
Proof. intros Hv. destruct b; cbn; repeat constructor. by apply Hv. Qed.

(** ** Texts that are read alike *)

(** Of two trimmed texts: the same, or both the text of one value. *)
Definition same_reading (a b : jsstr) : Prop :=
  a = b \/ nonempty a = true /\ nonempty b = true /\ exists v, json_parse a = Some v /\ json_parse b = Some v.

Lemma parseLooseValue_same a b : same_reading (trim a) (trim b) -> parseLooseValue a = parseLooseValue b.
Proof.
  unfold parseLooseValue. intros [->|(Ha & Hb & v & -> & ->)]; [done|].
  destruct (trim a) as [|x s]; [done|]. by destruct (trim b).
Qed.

Lemma special_problem_same mode a b :
  same_reading (trim a) (trim b) -> special_problem mode (trim a) = special_problem mode (trim b).
Proof.
  intros H. unfold special_problem.
  rewrite (parseLooseValue_same (trim a) (trim b)) by by rewrite !trim_idemp.
  destruct H as [->|(-> & -> & v & -> & ->)]; done.
Qed.

(** A text that is not the literal of a string keeps its value when the value is
    written as text again. *)
Definition kept_text (text : jsstr) : bool :=
  match json_parse (trim text) with
  | Some (JStr _) => false
  | Some v => numbers_read_back v
  | None => true
  end.

Lemma kept_value text : kept_text text = true ->
  storable (parseLooseValue text)
  /\ same_reading (trim (toValueText (parseLooseValue text))) (trim text).
Proof.
  unfold kept_text, parseLooseValue. destruct (str_eqb_spec (trim text) []) as [->|Hne].
  { intros _. split; [constructor|by left]. }
  destruct (json_parse (trim text)) as [v|] eqn:Hv.
  - intros Hk. assert (Hs : storable v).
    { destruct v; try done; by apply (json_parse_storable _ _ Hv). }
    split; [done|]. destruct (storable_prints v [] [] Hs) as [t Ht].
    pose proof (printed_trim _ _ _ _ Hs Ht) as Htrim. pose proof (printed_not_blank _ _ _ _ Hs Ht) as Hn.
    rewrite json_stringify_no_gap in Ht.
    assert (Htext : toValueText v = t).
    { destruct v; try done; cbn [toValueText]; by rewrite Ht. }
    rewrite Htext. right. split_and!; [done|by destruct (trim text)|]. exists v. split; [|done].
    rewrite Htrim. by apply json_parse_stringify.
  - intros _. split; [constructor|]. cbn [toValueText]. left. by rewrite trim_idemp.
Qed.

(** ** Conditions *)

Definition typed_condition (c : ParamOverrideCondition) : bool := includes_str CONDITION_MODE_VALUES (co_mode c).
Definition kept_condition (c : ParamOverrideCondition) : bool := is_blank (co_path c) || kept_text (co_value_text c).

Lemma known_nonempty values s : includes_str values s = true -> includes_str values [] = false -> nonempty s = true.
Proof. destruct s; [congruence|done]. Qed.

Lemma assoc_empty k : assoc ([] : list (jsstr * jsval)) k = None.
Proof. done. Qed.

(** Read a property of a written object. *)
Ltac read_property :=
  unfold prop, own; cbn [app];
  repeat (first [rewrite assoc_cons | rewrite assoc_field_if | rewrite assoc_field_if_last | rewrite assoc_empty];
          repeat match goal with |- context [js ?a === js ?b] =>
            let c := eval vm_compute in (js a === js b) in change (js a === js b) with c end; cbv iota);
  cbn [from_option Datatypes.id].

Lemma known_again values s fallback : includes_str values s = true -> known_mode values (JStr s) fallback = s.
Proof. unfold known_mode. by intros ->. Qed.

Lemma is_true_field (b : bool) : true_flag (default JUndefined (if b then Some (JBool true) else None)) = b.
Proof. by destruct b. Qed.

Definition condition_keys : list jsstr := [js "path"; js "mode"; js "value"; js "invert"; js "pass_missing_key"].

Lemma condition_payload_again id c p :
  typed_condition c = true -> kept_condition c = true -> buildConditionPayload c = Some p ->
  storable p /\ strict_eq p JNull = false /\ buildConditionPayload (condition_with id p) = Some p.
Proof.
  unfold typed_condition, kept_condition, buildConditionPayload, is_blank. intros Ht Hk.
  destruct (nonempty (trim (co_path c))) eqn:Hp; [|done]. cbn [negb orb] in *.
  pose proof (known_nonempty _ _ Ht eq_refl) as Hmode. unfold text_or_else. rewrite Hmode.
  destruct (kept_value _ Hk) as (Hs & Hsame). intros [= <-]. split_and!; [|done|].
  - constructor.
    + apply (in_order_sublist condition_keys); [by vm_compute|].
      cbn [map app fst]. repeat apply sublist_skip. apply sublist_field_if, sublist_field_if_last.
    + each_field. apply Forall_field_if; [constructor|]. by apply Forall_field_if_last; constructor.
  - cbn [condition_with co_path co_mode co_value_text co_invert co_pass_missing_key].
    read_property. cbn [text_or_empty]. rewrite trim_idemp, Hp, !is_true_field, known_again by done.
    rewrite Hmode, (parseLooseValue_same _ _ Hsame). done.
Qed.

Section Reopening.
Variable now : N -> N.

(** Items that are not [null] are all read. *)
Lemma mapA_reads {A} (f : jsval -> action N type_error A) (P : jsval -> A -> Prop) items :
  Forall (fun p => forall seed, exists c seed', f p seed = Ret (c, seed') /\ P p c) items ->
  forall seed, exists cs seed', mapA f items seed = Ret (cs, seed') /\ Forall2 P items cs.
Proof.
  induction 1 as [|p items Hp _ IH]; intros seed; [by exists [], seed|].
  destruct (Hp seed) as (c & seed1 & Hc & HP). destruct (IH seed1) as (cs & seed2 & Hcs & HPs).
  exists (c :: cs), seed2. cbn [mapA]. unfold bind, ret. rewrite Hc, Hcs. split; [done|by constructor].
Qed.

Lemma normalize_condition_reads p seed : strict_eq p JNull = false ->
  normalizeCondition now p seed = Ret (condition_with (local_id now seed) p, (seed + 1)%N).
Proof. intros Hp. unfold normalizeCondition, bind, nextLocalId. by rewrite Hp. Qed.

(** ** Rules *)

Definition typed_operation (op : ParamOverrideOperation) : bool :=
  includes_str OPERATION_MODE_VALUES (op_mode op) && forallb typed_condition (op_conditions op).

(** The values that are saved are kept. *)
Definition kept_operation (op : ParamOverrideOperation) : bool :=
  (negb (m_value (meta_of (op_mode op))) || kept_text (op_value_text op))
  && forallb kept_condition (op_conditions op).

Lemma conditions_payload_again cs :
  forallb typed_condition cs = true -> forallb kept_condition cs = true ->
  Forall storable (omap buildConditionPayload cs)
  /\ Forall (fun p => strict_eq p JNull = false) (omap buildConditionPayload cs)
  /\ forall cs', Forall2 (fun p c => exists id, c = condition_with id p) (omap buildConditionPayload cs) cs' ->
       omap buildConditionPayload cs' = omap buildConditionPayload cs.
Proof.
  intros Ht Hk. induction cs as [|c cs IH]; cbn [omap list_omap forallb] in *.
  { split_and!; [constructor..|]. intros cs' H. by inversion H. }
  apply andb_prop in Ht as [Htc Ht]. apply andb_prop in Hk as [Hkc Hk]. destruct (IH Ht Hk) as (Hs & Hn & Hagain).
  destruct (buildConditionPayload c) as [p|] eqn:Hp; [|done].
  destruct (condition_payload_again [] c p Htc Hkc Hp) as (Hsp & Hnp & _). split_and!; [by constructor..|].
  intros cs' H. inversion H as [|? c' ? cs'' (id & ->) Hrest]; subst. cbn [omap list_omap].
  destruct (condition_payload_again id c p Htc Hkc Hp) as (_ & _ & ->). f_equal. by apply Hagain.
Qed.

Lemma mode_of_typed op : includes_str OPERATION_MODE_VALUES (op_mode op) = true -> mode_of op = op_mode op.
Proof. intros H. unfold mode_of. by rewrite (known_nonempty _ _ H eq_refl). Qed.

Definition payload_keys : list jsstr :=
  [js "mode"; js "description"; js "path"; js "value"; js "keep_origin"; js "from"; js "to"; js "conditions"; js "logic"].

Lemma conditions_field_keys (cs : list jsval) v :
  sublist (map fst (if nonempty_list cs then [(js "conditions", JArr cs); (js "logic", v)] else []))
    [js "conditions"; js "logic"].
Proof. destruct (nonempty_list cs); cbn; by repeat constructor. Qed.

Lemma operation_payload_storable op :
  typed_operation op = true -> kept_operation op = true -> storable (operation_payload op).
Proof.
  unfold typed_operation, kept_operation. intros [Hm Ht]%andb_prop [Hk Hc]%andb_prop.
  destruct (conditions_payload_again _ Ht Hc) as (Hs & _ & _).
  unfold operation_payload. rewrite mode_of_typed by done. constructor.
  - apply (in_order_sublist payload_keys); [by vm_compute|]. cbn [map app fst]. apply sublist_skip.
    do 6 apply sublist_field_if. apply conditions_field_keys.
  - cbn [app]. apply Forall_cons_2; [constructor|].
    apply Forall_field_if; [constructor|]. apply Forall_field_if; [constructor|].
    apply Forall_field_if; [intros Hv; rewrite Hv in Hk; by apply kept_value|].
    do 3 (apply Forall_field_if; [constructor|]).
    destruct (nonempty_list _); [|constructor]. repeat constructor. done.
Qed.

Definition path_written (op : ParamOverrideOperation) : bool :=
  m_path (meta_of (op_mode op)) || m_pathOptional (meta_of (op_mode op)) && nonempty (trim (op_path op)).

Definition to_written (op : ParamOverrideOperation) : bool :=
  takes_to (meta_of (op_mode op)) || nonempty (trim (op_to op)).

(** What a payload says, and the rule that is read from it. *)
Record reopened (op o : ParamOverrideOperation) : Prop := {
  again_mode : op_mode o = op_mode op;
  again_description : op_description o = trim (op_description op);
  again_path : op_path o = if path_written op then trim (op_path op) else [];
  again_value : op_value_text o =
    if m_value (meta_of (op_mode op)) then toValueText (parseLooseValue (op_value_text op)) else [];
  again_keep : op_keep_origin o = m_keepOrigin (meta_of (op_mode op)) && op_keep_origin op;
  again_from : op_from o =
    if m_from (meta_of (op_mode op))
    then aliased (meta_of (op_mode op)) (trim (op_from op)) (trim (op_path op)) else [];
  again_to : op_to o =
    if to_written op then aliased (meta_of (op_mode op)) (trim (op_to op)) (trim (op_path op)) else [];
  again_logic : nonempty_list (omap buildConditionPayload (op_conditions op)) = true ->
    op_logic o = if op_logic op === js "AND" then js "AND" else js "OR";
  again_conditions : omap buildConditionPayload (op_conditions o) = omap buildConditionPayload (op_conditions op)
}.

Lemma text_of_field (b : bool) s :
  text_or_empty (default JUndefined (if b then Some (JStr s) else None)) = if b then s else [].
Proof. by destruct b. Qed.

Lemma some_text s : (if nonempty s then s else []) = s.
Proof. by destruct s. Qed.

Lemma payload_properties op : includes_str OPERATION_MODE_VALUES (op_mode op) = true ->
  let p := operation_payload op in
  let conditions := omap buildConditionPayload (op_conditions op) in
  prop p (js "mode") = JStr (op_mode op)
  /\ text_or_empty (prop p (js "description")) = trim (op_description op)
  /\ text_or_empty (prop p (js "path")) = (if path_written op then trim (op_path op) else [])
  /\ toValueText (prop p (js "value"))
     = (if m_value (meta_of (op_mode op)) then toValueText (parseLooseValue (op_value_text op)) else [])
  /\ true_flag (prop p (js "keep_origin")) = m_keepOrigin (meta_of (op_mode op)) && op_keep_origin op
  /\ text_or_empty (prop p (js "from"))
     = (if m_from (meta_of (op_mode op))
        then aliased (meta_of (op_mode op)) (trim (op_from op)) (trim (op_path op)) else [])
  /\ text_or_empty (prop p (js "to"))
     = (if to_written op then aliased (meta_of (op_mode op)) (trim (op_to op)) (trim (op_path op)) else [])
  /\ items_of (prop p (js "conditions")) = conditions
  /\ (nonempty_list conditions = true ->
      prop p (js "logic") = JStr (if op_logic op === js "AND" then js "AND" else js "OR")).
Proof.
  intros Hm p conditions. subst p. unfold operation_payload. rewrite mode_of_typed by done. fold conditions.
  assert (Hc : nonempty_list conditions = false -> conditions = []) by by destruct conditions.
  unfold path_written, to_written. split_and!; destruct (nonempty_list conditions); read_property;
    rewrite ?text_of_field, ?some_text, ?is_true_field; try done; try (by rewrite Hc).
  all: by destruct (m_value _).
Qed.

Lemma operation_read_again op seed :
  typed_operation op = true -> kept_operation op = true ->
  exists o seed', normalizeOperation now (operation_payload op) seed = Ret (o, seed') /\ reopened op o.
Proof.
  intros Htyped Hkept. pose proof Htyped as [Hm Ht]%andb_prop. pose proof Hkept as [_ Hc]%andb_prop.
  destruct (conditions_payload_again _ Ht Hc) as (_ & Hn & Hagain).
  destruct (payload_properties op Hm) as (Pm & Pd & Pp & Pv & Pk & Pf & Pt & Pc & Pl).
  unfold normalizeOperation, bind, nextLocalId. rewrite Pc.
  destruct (mapA_reads (normalizeCondition now) (fun p c => exists id, c = condition_with id p)
    (omap buildConditionPayload (op_conditions op))) with (seed := (seed + 1)%N) as (cs & seed' & Hcs & Hall).
  { eapply Forall_impl; [exact Hn|]. intros p Hp s. rewrite normalize_condition_reads by done. eauto. }
  change (strict_eq (operation_payload op) JNull) with false. cbv beta iota. rewrite Hcs. eexists _, seed'. split; [done|].
  constructor; cbn [operation_with op_mode op_description op_path op_value_text op_keep_origin op_from op_to op_logic
    op_conditions]; try done.
  - rewrite Pm. by apply known_again.
  - intros Hne. rewrite (Pl Hne). by destruct (op_logic op === js "AND").
  - by apply Hagain.
Qed.
End Reopening.

(** What holds of every mode of the table. *)
Lemma every_mode (P : jsstr -> ModeMeta -> bool) mode :
  forallb (fun m => P m (meta_of m)) OPERATION_MODE_VALUES = true ->
  includes_str OPERATION_MODE_VALUES mode = true -> P mode (meta_of mode) = true.
Proof. rewrite forallb_forall. intros HP Hm. apply HP, list_elem_of_In. by apply includes_str_spec. Qed.

(** Where the path stands for an endpoint it is not written itself. *)
Lemma alias_without_path mode : includes_str OPERATION_MODE_VALUES mode = true ->
  m_pathAlias (meta_of mode) = true -> m_path (meta_of mode) = false /\ m_pathOptional (meta_of mode) = false.
Proof.
  intros Hm Ha.
  pose proof (every_mode (fun _ meta => negb (m_pathAlias meta) || negb (m_path meta) && negb (m_pathOptional meta))
    mode ltac:(vm_compute; reflexivity) Hm) as H.
  cbv beta in H. rewrite Ha in H. by destruct (m_path _), (m_pathOptional _).
Qed.

Lemma trim_aliased meta a p : trim p = p -> trim (aliased meta (trim a) p) = aliased meta (trim a) p.
Proof. intros Hp. unfold aliased. destruct (_ && _); [done|apply trim_idemp]. Qed.

Lemma aliased_again op meta a : includes_str OPERATION_MODE_VALUES (op_mode op) = true -> meta = meta_of (op_mode op) ->
  let b := aliased meta (trim a) (trim (op_path op)) in
  aliased meta b (if path_written op then trim (op_path op) else []) = b.
Proof.
  intros Hm -> b. unfold aliased at 1. destruct (m_pathAlias _) eqn:Ha; [|done].
  destruct (alias_without_path _ Hm Ha) as [Hp Ho]. unfold path_written. rewrite Hp, Ho. cbn [orb andb].
  by destruct b.
Qed.

Lemma trim_if (b : bool) s : trim (if b then trim s else []) = if b then trim s else [].
Proof. destruct b; [apply trim_idemp|done]. Qed.

Lemma mode_again op o : typed_operation op = true -> reopened op o -> mode_of o = op_mode op.
Proof. intros [Hm _]%andb_prop Ho. rewrite mode_of_typed; [by apply again_mode|]. by rewrite (again_mode op o Ho). Qed.

Lemma value_again op o : kept_operation op = true -> reopened op o -> m_value (meta_of (op_mode op)) = true ->
  same_reading (trim (op_value_text o)) (trim (op_value_text op)).
Proof.
  intros [Hk _]%andb_prop Ho Hv. rewrite (again_value op o Ho), Hv in *. cbn [negb orb] in Hk. by apply kept_value.
Qed.

(** A rule that is read again is written as before. *)
Lemma payload_again op o : typed_operation op = true -> kept_operation op = true -> reopened op o ->
  operation_payload o = operation_payload op.
Proof.
  intros Htyped Hkept Ho. pose proof Htyped as [Hm _]%andb_prop.
  unfold operation_payload. rewrite (mode_again op o), (mode_of_typed op) by done.
  rewrite (again_description op o Ho), (again_path op o Ho), (again_keep op o Ho), (again_from op o Ho),
    (again_to op o Ho), (again_conditions op o Ho), trim_idemp, trim_if.
  set (meta := meta_of (op_mode op)). set (path := trim (op_path op)).
  assert (Hlogic : nonempty_list (omap buildConditionPayload (op_conditions op)) = true ->
    (if op_logic o === js "AND" then js "AND" else js "OR") = if op_logic op === js "AND" then js "AND" else js "OR").
  { intros Hc. rewrite (again_logic op o Ho Hc). by destruct (op_logic op === js "AND"). }
  assert (Hpath : trim path = path) by apply trim_idemp.
  do 2 f_equal. f_equal. f_equal.
  { unfold path_written. fold meta path. destruct (m_path meta), (m_pathOptional meta), (nonempty path) eqn:Hn; cbn; rewrite ?Hn; done. }
  f_equal.
  { destruct (m_value meta) eqn:Hv; [|done]. cbn [field_if]. do 2 f_equal.
    by apply parseLooseValue_same, value_again. }
  f_equal; [by destruct (m_keepOrigin meta), (op_keep_origin op)|]. f_equal.
  { destruct (m_from meta); [|done]. rewrite trim_aliased by done. cbn [field_if]. do 3 f_equal. by apply aliased_again. }
  f_equal.
  { unfold to_written. fold meta. destruct (takes_to meta || nonempty (trim (op_to op))) eqn:Hw.
    - rewrite trim_aliased by done.
      assert (Hwritten : takes_to meta || nonempty (aliased meta (trim (op_to op)) path) = true).
      { destruct (takes_to meta); [done|]. cbn [orb] in *. unfold aliased. rewrite Hw. by destruct (m_pathAlias meta). }
      rewrite Hwritten. cbn [field_if]. do 3 f_equal. by apply aliased_again.
    - destruct (takes_to meta); [done|]. done. }
  destruct (nonempty_list _) eqn:Hc; [|done]. by rewrite Hlogic.
Qed.

(** ** Validation *)

(** The endpoints and values that a mode requires are asked for. *)
Lemma required_asked mode : includes_str OPERATION_MODE_VALUES mode = true ->
  (includes_str FROM_REQUIRED_MODES mode = true -> m_from (meta_of mode) = true)
  /\ (includes_str TO_REQUIRED_MODES mode = true -> takes_to (meta_of mode) = true)
  /\ (includes_str VALUE_REQUIRED_MODES mode = true -> m_value (meta_of mode) = true).
Proof.
  intros Hm. pose proof (every_mode (fun mode meta =>
    (negb (includes_str FROM_REQUIRED_MODES mode) || m_from meta)
    && (negb (includes_str TO_REQUIRED_MODES mode) || takes_to meta)
    && (negb (includes_str VALUE_REQUIRED_MODES mode) || m_value meta)) mode ltac:(vm_compute; reflexivity) Hm) as H.
  cbv beta in H. rewrite !andb_true_iff in H. destruct H as [[Hf Ht] Hv].
  split_and!; intros Hr; [rewrite Hr in Hf|rewrite Hr in Ht|rewrite Hr in Hv]; done.
Qed.

(** Modes without a check of their own. *)
Lemma special_problem_mode mode raw : includes_str VALUE_REQUIRED_MODES mode = false -> special_problem mode raw = None.
Proof.
  unfold special_problem. intros Hr.
  destruct (str_eqb_spec mode (js "return_error")) as [->|_]; [discriminate Hr|].
  destruct (str_eqb_spec mode (js "prune_objects")) as [->|_]; [discriminate Hr|].
  by destruct (str_eqb_spec mode (js "pass_headers")) as [->|_].
Qed.

Lemma same_reading_empty a b : same_reading a b -> (a === []) = (b === []).
Proof. intros [->|(Ha & Hb & _)]; [done|]. by destruct a, b. Qed.

Lemma required_endpoint required mode meta a p :
  endpoint_missing required mode a p meta = false -> includes_str required mode = true ->
  nonempty (aliased meta a p) = true.
Proof.
  unfold endpoint_missing, aliased. intros H Hr. rewrite Hr in H. cbn [andb] in H.
  destruct (nonempty a) eqn:Ha; [by rewrite andb_false_r|]. cbn [negb andb] in H.
  apply negb_false_iff, andb_prop in H as [-> Hp]. done.
Qed.

Lemma problem_parts op : operation_problem op = None <->
  (m_path (meta_of (mode_of op)) = true -> nonempty (trim (op_path op)) = true)
  /\ endpoint_missing FROM_REQUIRED_MODES (mode_of op) (trim (op_from op)) (trim (op_path op)) (meta_of (mode_of op)) = false
  /\ endpoint_missing TO_REQUIRED_MODES (mode_of op) (trim (op_to op)) (trim (op_path op)) (meta_of (mode_of op)) = false
  /\ (includes_str VALUE_REQUIRED_MODES (mode_of op) = true -> nonempty (trim (op_value_text op)) = true)
  /\ special_problem (mode_of op) (trim (op_value_text op)) = None.
Proof.
  unfold operation_problem. destruct (m_path _), (nonempty (trim (op_path op))); cbn [andb negb];
    try (split; [done|intros (H & _); by specialize (H eq_refl)]);
    (destruct (endpoint_missing FROM_REQUIRED_MODES _ _ _ _); [split; [done|by intros (_ & ? & _)]|]);
    (destruct (endpoint_missing TO_REQUIRED_MODES _ _ _ _); [split; [done|by intros (_ & _ & ? & _)]|]);
    destruct (includes_str VALUE_REQUIRED_MODES _), (trim (op_value_text op)); cbn [andb str_eqb nonempty];
    naive_solver.
Qed.

Lemma endpoint_present required mode a p meta : nonempty a = true -> endpoint_missing required mode a p meta = false.
Proof. intros Ha. unfold endpoint_missing. by rewrite Ha, andb_false_r. Qed.

Lemma endpoint_optional required mode a p meta :
  includes_str required mode = false -> endpoint_missing required mode a p meta = false.
Proof. intros Hr. unfold endpoint_missing. by rewrite Hr. Qed.

(** A rule that is read again is accepted again. *)
Lemma problem_again op o : typed_operation op = true -> kept_operation op = true -> reopened op o ->
  operation_problem op = None -> operation_problem o = None.
Proof.
  intros Htyped Hkept Ho. pose proof Htyped as [Hm _]%andb_prop. rewrite !problem_parts.
  rewrite (mode_again op o), (mode_of_typed op) by done. destruct (required_asked _ Hm) as (Hf & Ht & Hv).
  intros (Hpath & Hfrom & Hto & Hvalue & Hspecial).
  assert (Hp : trim (op_path o) = if path_written op then trim (op_path op) else []).
  { rewrite (again_path op o Ho). apply trim_if. }
  split_and!.
  - intros Hmp. rewrite Hp. unfold path_written. rewrite Hmp. by apply Hpath.
  - destruct (includes_str FROM_REQUIRED_MODES (op_mode op)) eqn:Hr; [|by apply endpoint_optional].
    apply endpoint_present. rewrite (again_from op o Ho), (Hf eq_refl), trim_aliased by apply trim_idemp.
    by apply (required_endpoint _ _ _ _ _ Hfrom).
  - destruct (includes_str TO_REQUIRED_MODES (op_mode op)) eqn:Hr; [|by apply endpoint_optional].
    apply endpoint_present. rewrite (again_to op o Ho). unfold to_written. rewrite (Ht eq_refl). cbn [orb].
    rewrite trim_aliased by apply trim_idemp. by apply (required_endpoint _ _ _ _ _ Hto).
  - intros Hr. pose proof (same_reading_empty _ _ (value_again op o Hkept Ho (Hv Hr))) as He. specialize (Hvalue Hr).
    by destruct (trim (op_value_text op)), (trim (op_value_text o)).
  - destruct (includes_str VALUE_REQUIRED_MODES (op_mode op)) eqn:Hr; [|by apply special_problem_mode].
    by rewrite (special_problem_same _ _ _ (value_again op o Hkept Ho (Hv eq_refl))).
Qed.

Lemma accepted_not_blank op : includes_str OPERATION_MODE_VALUES (op_mode op) = true ->
  operation_problem op = None -> isOperationBlank op = false.
Proof.
  intros Hm (Hpath & _)%problem_parts. rewrite mode_of_typed in Hpath by done. unfold isOperationBlank, is_blank.
  destruct (str_eqb_spec (op_mode op) (js "set")) as [Hs|]; [|done]. rewrite Hs in Hpath. by rewrite (Hpath eq_refl).
Qed.

Section Saving.
Variable now : N -> N.
(** The translation of a message shows something. *)
Variable t : jsstr -> nat -> jsstr.
Hypothesis messages : forall text line, t text line <> [].

Lemma validate_accepts ops line : Forall (fun op => operation_problem op = None) ops -> validate_from t line ops = [].
Proof. intros H. revert line. induction H as [|op ops Hop _ IH]; intros line; cbn [validate_from]; [done|]. by rewrite Hop. Qed.

Lemma validate_empty ops line : validate_from t line ops = [] -> Forall (fun op => operation_problem op = None) ops.
Proof.
  revert line. induction ops as [|op ops IH]; intros line; cbn [validate_from]; [constructor|].
  destruct (operation_problem op) eqn:Hop; [intros H; by apply messages in H|]. intros H. constructor; [done|by eapply IH].
Qed.

Lemma built_text ops text : buildOperationsJson t ops true = Ret text -> text <> [] ->
  saved_operations ops <> [] /\ Forall (fun op => operation_problem op = None) (saved_operations ops)
  /\ text = pretty (JObj [(js "operations", JArr (map operation_payload (saved_operations ops)))]).
Proof.
  unfold buildOperationsJson. destruct (saved_operations ops) as [|op rest]; [by intros [= <-]|].
  destruct (validateOperations t (op :: rest)) as [|c m] eqn:Hv; cbn [nonempty]; [|done].
  intros H _. apply Ret_inj in H as <-. split_and!; [done| |done]. by apply (validate_empty _ 1%nat).
Qed.

Lemma build_accepted ops : ops <> [] -> Forall (fun op => operation_problem op = None) ops ->
  Forall (fun op => includes_str OPERATION_MODE_VALUES (op_mode op) = true) ops ->
  buildOperationsJson t ops true = Ret (pretty (JObj [(js "operations", JArr (map operation_payload ops))])).
Proof.
  intros Hne Hok Hm. unfold buildOperationsJson.
  assert (Hs : saved_operations ops = ops).
  { apply filter_all. rewrite Forall_forall in *. intros op Hop. by rewrite accepted_not_blank by auto. }
  rewrite Hs. destruct ops as [|op ops]; [done|]. unfold validateOperations. by rewrite validate_accepts.
Qed.

(** Rules that are read again, one by one. *)
Lemma operations_read_again ops : Forall (fun op => typed_operation op = true) ops ->
  Forall (fun op => kept_operation op = true) ops ->
  forall seed, exists os seed', mapA (normalizeOperation now) (map operation_payload ops) seed = Ret (os, seed')
    /\ Forall2 reopened ops os.
Proof.
  intros Ht Hk. induction ops as [|op ops IH]; intros seed; [by exists [], seed|]. inversion Ht; inversion Hk; subst.
  destruct (operation_read_again now op seed) as (o & seed1 & Ho & Hro); [done..|].
  destruct (IH ltac:(done) ltac:(done) seed1) as (os & seed2 & Hos & Hall). exists (o :: os), seed2.
  cbn [map mapA]. unfold bind, ret. rewrite Ho, Hos. split; [done|by constructor].
Qed.

Lemma reopened_all ops os : Forall2 reopened ops os -> Forall (fun op => typed_operation op = true) ops ->
  Forall (fun op => kept_operation op = true) ops -> Forall (fun op => operation_problem op = None) ops ->
  map operation_payload os = map operation_payload ops
  /\ Forall (fun op => operation_problem op = None) os
  /\ Forall (fun op => includes_str OPERATION_MODE_VALUES (op_mode op) = true) os.
Proof.
  induction 1 as [|op o ops os Ho _ IH]; [done|]. intros [Ht Hts]%Forall_cons [Hk Hks]%Forall_cons [Hp Hps]%Forall_cons.
  destruct (IH Hts Hks Hps) as (Hpay & Hok & Hm). cbn [map]. rewrite (payload_again op o), Hpay by done.
  split_and!; [done|constructor; [by apply (problem_again op)|done]|]. constructor; [|done].
  rewrite (again_mode op o Ho). by apply andb_prop in Ht as [? _].
Qed.

(** A saved text is the text of its rules, and they are read from it as rules that
    are saved alike. *)
Lemma saved_text_read ops text :
  Forall (fun op => typed_operation op = true) ops ->
  Forall (fun op => kept_operation op = true) (saved_operations ops) ->
  buildOperationsJson t ops true = Ret text -> text <> [] ->
  let payloads := map operation_payload (saved_operations ops) in
  let v := JObj [(js "operations", JArr payloads)] in
  text = pretty v /\ trim text = text /\ json_parse text = Some v
  /\ forall seed, exists os seed', normalizeOperations now payloads seed = Ret (os, seed')
       /\ map operation_payload os = payloads /\ buildOperationsJson t os true = Ret text.
Proof.
  intros Htyped Hkept Hbuilt Hne. destruct (built_text _ _ Hbuilt Hne) as (Hsaved & Hok & Htext). clear Hne Hbuilt.
  assert (Ht : Forall (fun op => typed_operation op = true) (saved_operations ops)) by by apply Forall_filter_list.
  set (saved := saved_operations ops) in *. intros payloads v.
  assert (Hv : storable v).
  { apply storable_literal; [reflexivity|]. each_field. constructor. apply Forall_map. rewrite Forall_forall in *.
    intros op Hop. by apply operation_payload_storable; auto. }
  destruct (storable_prints v (js "  ") [] Hv) as [printed Hprinted].
  assert (Hp : pretty v = printed) by (unfold pretty; by rewrite Hprinted).
  fold payloads v in Htext. rewrite Hp in Htext. subst printed. split_and!; [done|by eapply printed_trim| |].
  { by apply (json_parse_stringify_gap v (js "  ")). }
  intros seed. destruct (operations_read_again saved Ht Hkept seed) as (os & seed' & Hos & Hall).
  destruct (reopened_all _ _ Hall Ht Hkept Hok) as (Hpay & Hok' & Hm'). exists os, seed'. split_and!.
  - unfold payloads. destruct saved; [done|]. exact Hos.
  - exact Hpay.
  - rewrite build_accepted; [|destruct saved, os; [done..|inversion Hall|done]|done..]. rewrite Hpay. by rewrite <- Hp.
Qed.


(** *** What a saved rule has *)

Definition PATH_MODES : list jsstr :=
  [js "set"; js "delete"; js "append"; js "prepend"; js "replace"; js "regex_replace"; js "trim_prefix";
   js "trim_suffix"; js "ensure_prefix"; js "ensure_suffix"; js "trim_space"; js "to_lower"; js "to_upper";
   js "set_header"; js "delete_header"].

Definition filled (p : jsval) (key : jsstr) : bool := negb (is_blank (text_or_empty (prop p key))).

Definition complete_value (mode : jsstr) (value : jsval) : bool :=
  if mode === js "return_error" then
    match value with JObj _ => nonempty (or_empty_text (prop value (js "message"))) | _ => true end
  else if mode === js "pass_headers" then nonempty_list (parsePassHeaderNames value)
  else true.

Definition complete (p : jsval) : bool :=
  let mode := text_or_empty (prop p (js "mode")) in
  includes_str OPERATION_MODE_VALUES mode
  && implb (includes_str PATH_MODES mode) (filled p (js "path"))
  && implb (includes_str FROM_REQUIRED_MODES mode) (filled p (js "from"))
  && implb (includes_str TO_REQUIRED_MODES mode) (filled p (js "to"))
  && implb (includes_str VALUE_REQUIRED_MODES mode) (negb (undefined_value (prop p (js "value"))))
  && complete_value mode (prop p (js "value")).

Lemma path_modes mode : includes_str OPERATION_MODE_VALUES mode = true ->
  includes_str PATH_MODES mode = true -> m_path (meta_of mode) = true.
Proof.
  intros Hm Hp. pose proof (every_mode (fun mode meta => implb (includes_str PATH_MODES mode) (m_path meta))
    mode ltac:(vm_compute; reflexivity) Hm) as H. cbv beta in H. by rewrite Hp in H.
Qed.

Lemma filled_text p key s : text_or_empty (prop p key) = s -> trim s = s -> nonempty s = true -> filled p key = true.
Proof. unfold filled, is_blank. intros -> -> ->. done. Qed.

Lemma loose_present text : undefined_value (parseLooseValue text) = false.
Proof.
  unfold parseLooseValue. destruct (_ === _); [done|]. destruct (json_parse _) as [v|] eqn:Hv; [|done].
  apply json_parse_present in Hv. by destruct v.
Qed.

Lemma special_complete mode text : nonempty (trim text) = true -> special_problem mode (trim text) = None ->
  complete_value mode (parseLooseValue text) = true.
Proof.
  unfold special_problem, complete_value. intros Hn. rewrite Hn.
  destruct (str_eqb_spec mode (js "return_error")) as [->|_]; cbn [negb].
  { unfold parseLooseValue. destruct (trim text) as [|c s] eqn:Ht; [done|]. cbn [str_eqb].
    destruct (json_parse (c :: s)) as [[]|]; try done. by destruct (nonempty (or_empty_text _)). }
  destruct (str_eqb_spec mode (js "prune_objects")) as [->|_]; [done|].
  destruct (mode === js "pass_headers"); [|done].
  rewrite (parseLooseValue_same (trim text) text) by (left; apply trim_idemp). by destruct (parsePassHeaderNames _).
Qed.

Lemma payload_value op : includes_str OPERATION_MODE_VALUES (op_mode op) = true ->
  m_value (meta_of (op_mode op)) = true ->
  prop (operation_payload op) (js "value") = parseLooseValue (op_value_text op).
Proof.
  intros Hm Hv. unfold operation_payload. rewrite mode_of_typed, Hv by done. read_property. done.
Qed.

Lemma accepted_complete op : includes_str OPERATION_MODE_VALUES (op_mode op) = true ->
  operation_problem op = None -> complete (operation_payload op) = true.
Proof.
  intros Hm (Hpath & Hfrom & Hto & Hvalue & Hspecial)%problem_parts. rewrite (mode_of_typed op Hm) in *.
  destruct (required_asked _ Hm) as (Hf & Ht & Hv).
  destruct (payload_properties op Hm) as (Pm & _ & Pp & _ & _ & Pf & Pt & _).
  unfold complete. rewrite Pm. cbn [text_or_empty]. rewrite Hm. cbn [andb]. rewrite !andb_true_iff, !implb_true_iff.
  split_and!.
  - intros Hr. pose proof (path_modes _ Hm Hr) as Hp. apply (filled_text _ _ _ Pp); unfold path_written; rewrite Hp;
      [apply trim_idemp|by apply Hpath].
  - intros Hr. rewrite (Hf Hr) in Pf.
    apply (filled_text _ _ _ Pf); [by apply trim_aliased, trim_idemp|by apply (required_endpoint _ _ _ _ _ Hfrom)].
  - intros Hr. unfold to_written in Pt. rewrite (Ht Hr) in Pt. cbn [orb] in Pt.
    apply (filled_text _ _ _ Pt); [by apply trim_aliased, trim_idemp|by apply (required_endpoint _ _ _ _ _ Hto)].
  - intros Hr. rewrite payload_value by auto. by rewrite loose_present.
  - destruct (includes_str VALUE_REQUIRED_MODES (op_mode op)) eqn:Hr.
    + rewrite payload_value by auto. by apply special_complete; auto.
    + unfold complete_value. destruct (str_eqb_spec (op_mode op) (js "return_error")) as [Heq|_].
      { rewrite Heq in Hr. discriminate Hr. }
      destruct (str_eqb_spec (op_mode op) (js "pass_headers")) as [Heq|_]; [|done].
      rewrite Heq in Hr. discriminate Hr.
Qed.

End Saving.

Lemma validate_first t line ops : validate_from t line ops <> [] ->
  exists before op after text, ops = before ++ op :: after
    /\ Forall (fun op => operation_problem op = None) before /\ operation_problem op = Some text
    /\ validate_from t line ops = t text (length before + line)%nat.
Proof.
  revert line. induction ops as [|op ops IH]; intros line; cbn [validate_from]; [done|].
  destruct (operation_problem op) as [text|] eqn:Hop; [intros _; by exists [], op, ops, text|].
  intros Hne. destruct (IH _ Hne) as (before & op' & after & text & -> & Hb & Ht & ->).
  exists (op :: before), op', after, text. cbn [length]. split_and!; [done|by constructor|done|]. f_equal. lia.
Qed.

(** A refusal names the first rule that lacks something, counting the rules that are
    not blank; nothing is saved. *)
Theorem refused_rule t ops message :
  buildOperationsJson t ops true = Throw message ->
  exists before op after text, saved_operations ops = before ++ op :: after
    /\ Forall (fun op => operation_problem op = None) before /\ operation_problem op = Some text
    /\ message = t text (S (length before)).
Proof.
  unfold buildOperationsJson. destruct (saved_operations ops) as [|op0 rest]; [done|].
  destruct (nonempty (validateOperations t (op0 :: rest))) eqn:Hv; [|done]. intros [= <-].
  destruct (validate_first t 1 (op0 :: rest)) as (before & op & after & text & Hops & Hb & Hp & Hm).
  { fold (validateOperations t (op0 :: rest)). by destruct (validateOperations t (op0 :: rest)). }
  exists before, op, after, text. split_and!; [done..|]. unfold validateOperations. rewrite Hm. f_equal. lia.
Qed.

(** ** Examples *)

(** An untranslated message and the number of its rule. *)
Definition plain_message (text : jsstr) (line : nat) : jsstr := text ++ js " #" ++ string_of_N (N.of_nat line).

Definition rule (mode path value_text : jsstr) (conditions : list ParamOverrideCondition) : ParamOverrideOperation := {|
  op_id := js "po_1_0"; op_description := []; op_path := path; op_mode := mode; op_from := []; op_to := [];
  op_value_text := value_text; op_keep_origin := false; op_logic := js "OR"; op_conditions := conditions |}.

Definition on_model (value_text : jsstr) : ParamOverrideCondition := {|
  co_id := js "po_1_1"; co_path := js " model"; co_mode := js "prefix"; co_value_text := value_text;
  co_invert := false; co_pass_missing_key := false |}.

Definition example_rules : list ParamOverrideOperation :=
  [rule (js "set") (js " temperature ") (js " 0.7 ") [on_model (js "openai/")];
   rule (js "set") [] [] [];
   rule (js "pass_headers") [] (js "Authorization, X-Request-Id") []].

Definition built (ops : list ParamOverrideOperation) : jsstr :=
  match buildOperationsJson plain_message ops true with Ret text => text | _ => [] end.

Lemma plain_message_shown text line : plain_message text line <> [].
Proof. unfold plain_message. by destruct text. Qed.



Definition incomplete_rules : list ParamOverrideOperation :=
  [rule (js "set") [] [] []; rule (js "delete") (js "tools") [] []; rule (js "delete") (js " ") [] []].

Lemma refused_rule_witness :
  exists before op after text, saved_operations incomplete_rules = before ++ op :: after
    /\ Forall (fun op => operation_problem op = None) before /\ operation_problem op = Some text
    /\ plain_message (js "Rule {{line}} is missing target path") 2 = plain_message text (S (length before)).
Proof. apply (refused_rule plain_message incomplete_rules). vm_compute. reflexivity. Defined.

(** The third rule of the list is called the second: blank rules are not counted. *)
Example blank_rules_shift_numbers :
  isOperationBlank (rule (js "set") [] [] []) = true
  /\ buildOperationsJson plain_message incomplete_rules true
     = Throw (js "Rule {{line}} is missing target path #2").
Proof. vm_compute. done. Qed.

(** Opening a rule again turns the string of digits into a number. *)
Definition quoted (s : jsstr) : jsstr := [DQUOTE] ++ s ++ [DQUOTE].

Definition reopened_operations (text : jsstr) : list ParamOverrideOperation :=
  match parseInitialState (fun _ => 1%N) text 2%N with Ret (state, _) => es_operations state | _ => [] end.

Example string_value_retyped :
  let first := built [rule (js "set") (js "user") (quoted (js "123")) []] in
  let second := built (reopened_operations first) in
  map operation_payload (reopened_operations first)
  = [JObj [(js "mode", JStr (js "set")); (js "path", JStr (js "user")); (js "value", JNum (num_of_Z 123))]]
  /\ str_eqb first second = false.
Proof. vm_compute. done. Qed.

(** An empty string in quotes passes as a required value, and is refused once the
    rule was opened again. *)
Example quoted_nothing_is_a_value :
  let text := built [rule (js "set_header") (js "X-Tag") (quoted []) []] in
  str_eqb text [] = false
  /\ buildOperationsJson plain_message (reopened_operations text) true
     = Throw (js "Rule {{line}} is missing value #1").
Proof. vm_compute. done. Qed.
