(* ===== verification/ParamDrafts.v ===== *)
(** * The editors of special values of a parameter override

    The editors of a custom error, of pruning rules and of synchronised fields work
    on drafts that are parsed from the text of a rule and written back to it after
    every edit. *)

From S2P Require Import Prelude JsString JsNumber JsValue JsJson JsonRoundtrip ParamOverride ParamSaved.

(** ** Edits of a rule *)

(** A call of [updateOperation]: the fields of the patch. *)
Inductive operation_edit :=
| EditDescription (s : jsstr) | EditPath (s : jsstr) | EditMode (s : jsstr) | EditFrom (s : jsstr)
| EditTo (s : jsstr) | EditValueText (s : jsstr) | EditKeepOrigin (b : bool) | EditLogic (s : jsstr).

Definition with_edit (o : ParamOverrideOperation) (e : operation_edit) : ParamOverrideOperation := {|
  op_id := op_id o;
  op_description := match e with EditDescription s => s | _ => op_description o end;
  op_path := match e with EditPath s => s | _ => op_path o end;
  op_mode := match e with EditMode s => s | _ => op_mode o end;
  op_from := match e with EditFrom s => s | _ => op_from o end;
  op_to := match e with EditTo s => s | _ => op_to o end;
  op_value_text := match e with EditValueText s => s | _ => op_value_text o end;
  op_keep_origin := match e with EditKeepOrigin b => b | _ => op_keep_origin o end;
  op_logic := match e with EditLogic s => s | _ => op_logic o end;
  op_conditions := op_conditions o
|}.

Definition with_edits (es : list operation_edit) (o : ParamOverrideOperation) : ParamOverrideOperation :=
  fold_left with_edit es o.

Definition updateOperation (operationId : jsstr) (patch : list operation_edit)
    (prev : list ParamOverrideOperation) : list ParamOverrideOperation :=
  map (fun o => if is_id operationId o then with_edits patch o else o) prev.

(** A patch of a condition, or of a pruning rule. *)
Inductive condition_edit :=
| ConditionPath (s : jsstr) | ConditionMode (s : jsstr) | ConditionValue (s : jsstr)
| ConditionInvert (b : bool) | ConditionPassMissing (b : bool).

Definition edit_condition (c : ParamOverrideCondition) (e : condition_edit) : ParamOverrideCondition := {|
  co_id := co_id c;
  co_path := match e with ConditionPath s => s | _ => co_path c end;
  co_mode := match e with ConditionMode s => s | _ => co_mode c end;
  co_value_text := match e with ConditionValue s => s | _ => co_value_text c end;
  co_invert := match e with ConditionInvert b => b | _ => co_invert c end;
  co_pass_missing_key := match e with ConditionPassMissing b => b | _ => co_pass_missing_key c end
|}.

(** ** The custom error *)

Inductive error_edit :=
| ErrorSimple (b : bool) | ErrorMessage (s : jsstr) | ErrorStatus (n : num) | ErrorCode (s : jsstr)
| ErrorType (s : jsstr) | ErrorSkipRetry (b : bool).

Definition edit_error (d : ReturnErrorDraft) (e : error_edit) : ReturnErrorDraft := {|
  re_message := match e with ErrorMessage s => s | _ => re_message d end;
  re_statusCode := match e with ErrorStatus n => n | _ => re_statusCode d end;
  re_code := match e with ErrorCode s => s | _ => re_code d end;
  re_type := match e with ErrorType s => s | _ => re_type d end;
  re_skipRetry := match e with ErrorSkipRetry b => b | _ => re_skipRetry d end;
  re_simpleMode := match e with ErrorSimple b => b | _ => re_simpleMode d end
|}.

Definition error_text_after (patch : list error_edit) (value_text : jsstr) : jsstr :=
  buildReturnErrorValueText (fold_left edit_error patch (parseReturnErrorDraft value_text)).

Definition updateReturnErrorDraft (operationId : jsstr) (draftPatch : list error_edit)
    (prev : list ParamOverrideOperation) : list ParamOverrideOperation :=
  map (fun op => if is_id operationId op
                 then with_edit op (EditValueText (error_text_after draftPatch (op_value_text op))) else op) prev.

(** The buttons of the editor: status, code and type. *)
Definition error_preset (status : Z) (code type : jsstr) : list error_edit :=
  [ErrorStatus (num_of_Z status); ErrorCode code; ErrorType type].
Definition error_presets : list (list error_edit) :=
  [error_preset 400 (js "invalid_request") (js "invalid_request_error");
   error_preset 401 (js "unauthorized") (js "authentication_error");
   error_preset 429 (js "rate_limited") (js "rate_limit_error")].

(** ** Pruning rules *)

Inductive prune_edit :=
| PruneSimple (b : bool) | PruneType (s : jsstr) | PruneLogic (s : jsstr) | PruneRecursive (b : bool).

(** [{ ...draft, ...updater }] and the functions given to [updatePruneObjectsDraft]. *)
Definition edit_prune (d : PruneObjectsDraft) (e : prune_edit) : PruneObjectsDraft := {|
  pr_simpleMode := match e with PruneSimple b => b | _ => pr_simpleMode d end;
  pr_typeText := match e with PruneType s => s | _ => pr_typeText d end;
  pr_logic := match e with PruneLogic s => s | _ => pr_logic d end;
  pr_recursive := match e with PruneRecursive b => b | _ => pr_recursive d end;
  pr_rules := pr_rules d
|}.

Definition with_rules (d : PruneObjectsDraft) (simpleMode : bool) (rules : list PruneRule) : PruneObjectsDraft :=
  {| pr_simpleMode := simpleMode; pr_typeText := pr_typeText d; pr_logic := pr_logic d;
     pr_recursive := pr_recursive d; pr_rules := rules |}.

Section Pruning.
Variable now : N -> N.

Definition prune_updater : Type := PruneObjectsDraft -> action N type_error PruneObjectsDraft.

Definition updatePruneObjectsDraft (operationId : jsstr) (updater : prune_updater)
    : list ParamOverrideOperation -> action N type_error (list ParamOverrideOperation) :=
  mapA (fun op =>
    if negb (is_id operationId op) then ret op
    else
      let! draft := parsePruneObjectsDraft now (op_value_text op) in
      let! nextDraft := updater draft in
      ret (with_edit op (EditValueText (buildPruneObjectsValueText nextDraft)))).

Definition patch_prune (e : prune_edit) : prune_updater := fun draft => ret (edit_prune draft e).

Definition add_rule : prune_updater := fun draft =>
  let! rule := normalizePruneRule now (JObj []) in ret (with_rules draft false (pr_rules draft ++ [rule])).

Definition is_rule (ruleId : jsstr) (r : PruneRule) : bool := co_id r === ruleId.

Definition update_rule (ruleId : jsstr) (patch : condition_edit) : prune_updater := fun draft =>
  ret (with_rules draft (pr_simpleMode draft)
         (map (fun r => if is_rule ruleId r then edit_condition r patch else r) (pr_rules draft))).

Definition remove_rule (ruleId : jsstr) : prune_updater := fun draft =>
  ret (with_rules draft (pr_simpleMode draft) (List.filter (fun r => negb (is_rule ruleId r)) (pr_rules draft))).

Definition addPruneRule (operationId : jsstr) := updatePruneObjectsDraft operationId add_rule.
Definition updatePruneRule (operationId ruleId : jsstr) (patch : condition_edit) :=
  updatePruneObjectsDraft operationId (update_rule ruleId patch).
Definition removePruneRule (operationId ruleId : jsstr) := updatePruneObjectsDraft operationId (remove_rule ruleId).

(** What the editor of pruning rules calls. *)
Inductive prune_call :=
| PatchDraft (e : prune_edit) | AddRule | UpdateRule (ruleId : jsstr) (patch : condition_edit)
| RemoveRule (ruleId : jsstr).

Definition prune_call_updater (call : prune_call) : prune_updater :=
  match call with
  | PatchDraft e => patch_prune e
  | AddRule => add_rule
  | UpdateRule ruleId patch => update_rule ruleId patch
  | RemoveRule ruleId => remove_rule ruleId
  end.

Fixpoint prune_calls (operationId : jsstr) (calls : list prune_call) (ops : list ParamOverrideOperation)
    : action N type_error (list ParamOverrideOperation) :=
  match calls with
  | [] => ret ops
  | call :: calls =>
      let! next := updatePruneObjectsDraft operationId (prune_call_updater call) ops in
      prune_calls operationId calls next
  end.
End Pruning.

(** ** Synchronised fields *)

(** The calls of the editor: the type or the key of an end, or both ends. *)
Inductive sync_edit :=
| SyncFromType (s : jsstr) | SyncFromKey (s : jsstr) | SyncToType (s : jsstr) | SyncToKey (s : jsstr)
| SyncPreset (from to : jsstr).

Definition sync_patch (op : ParamOverrideOperation) (e : sync_edit) : list operation_edit :=
  let syncFromTarget := parseSyncTargetSpec (op_from op) in
  let syncToTarget := parseSyncTargetSpec (op_to op) in
  match e with
  | SyncFromType v => [EditFrom (buildSyncTargetSpec v (st_key syncFromTarget))]
  | SyncFromKey v => [EditFrom (buildSyncTargetSpec (st_type syncFromTarget) v)]
  | SyncToType v => [EditTo (buildSyncTargetSpec v (st_key syncToTarget))]
  | SyncToKey v => [EditTo (buildSyncTargetSpec (st_type syncToTarget) v)]
  | SyncPreset from to => [EditFrom from; EditTo to]
  end.

(** ** The custom error is read back *)

Definition trimmed_error (d : ReturnErrorDraft) : ReturnErrorDraft := {|
  re_message := trim (re_message d);
  re_statusCode := http_status (re_statusCode d);
  re_code := trim (re_code d);
  re_type := trim (re_type d);
  re_skipRetry := re_skipRetry d;
  re_simpleMode := false
|}.

Lemma http_status_idemp n : http_status (http_status n) = http_status n.
Proof. unfold http_status at 2 3. destruct (is_integer n && _ && _) eqn:Hn; [unfold http_status; by rewrite Hn|done]. Qed.

Lemma or_empty_string s : or_empty_text (JStr (trim s)) = trim s.
Proof. unfold or_empty_text, js_or. cbn [truthy]. destruct (trim s) eqn:Hs; [done|]. cbn [nonempty string_of_val]. rewrite <- Hs. apply trim_idemp. Qed.

Lemma or_empty_field s :
  or_empty_text (default JUndefined (if nonempty (trim s) then Some (JStr (trim s)) else None)) = trim s.
Proof. destruct (nonempty (trim s)) eqn:Hs; [apply or_empty_string|]. by destruct (trim s). Qed.

Lemma message_or_msg s : or_empty_text (js_or (JStr (trim s)) JUndefined) = trim s.
Proof.
  destruct (trim s) as [|c m] eqn:Hs; [done|]. unfold js_or. cbn [truthy nonempty]. rewrite <- Hs. apply or_empty_string.
Qed.

Lemma error_payload_storable d : numbers_read_back (JNum (http_status (re_statusCode d))) = true ->
  storable (error_payload d).
Proof.
  intros Hn. constructor.
  - apply (in_order_sublist [js "message"; js "status_code"; js "code"; js "type"; js "skip_retry"]); [by vm_compute|].
    cbn [map app fst]. do 2 apply sublist_skip. do 2 apply sublist_field_if. apply sublist_field_if_last.
  - cbn [app]. apply Forall_cons_2; [constructor|]. apply Forall_cons_2; [constructor; by apply numbers_read_back_num|].
    do 2 (apply Forall_field_if; [constructor|]). by apply Forall_field_if_last; constructor.
Qed.

(** What is written is what is read, for a printed object. *)
Lemma printed_object_read fs : storable (JObj fs) ->
  let text := default [] (json_stringify (JObj fs)) in
  nonempty (trim text) = true /\ json_parse (trim text) = Some (JObj fs).
Proof.
  intros Hs. destruct (storable_prints (JObj fs) [] [] Hs) as [text Ht].
  pose proof (printed_trim _ _ _ _ Hs Ht) as Htrim. pose proof (printed_not_blank _ _ _ _ Hs Ht) as Hn.
  rewrite json_stringify_no_gap in Ht. rewrite Ht. cbn [from_option Datatypes.id]. split; [done|].
  rewrite Htrim. by apply json_parse_stringify.
Qed.

Lemma error_of_payload d : error_of_object (error_payload d) = trimmed_error d.
Proof.
  assert (Hbool : forall b : bool, negb (strict_eq (default JUndefined (if negb b then Some (JBool false) else None))
    (JBool false)) = b) by by intros [].
  unfold error_of_object, error_payload. read_property. cbn [undefined_value negb].
  unfold trimmed_error. f_equal.
  - apply message_or_msg.
  - cbn [to_number]. apply http_status_idemp.
  - apply or_empty_field.
  - apply or_empty_field.
  - apply Hbool.
Qed.

(** The draft of a custom error is read back from its text, trimmed and with its
    status in bounds; a simple error is its message, unless the message is itself the
    text of an object. *)
Theorem return_error_roundtrip d :
  numbers_read_back (JNum (http_status (re_statusCode d))) = true ->
  (re_simpleMode d = true -> forall fields, json_parse (trim (re_message d)) <> Some (JObj fields)) ->
  parseReturnErrorDraft (buildReturnErrorValueText d)
  = if re_simpleMode d then simple_error (trim (re_message d)) else trimmed_error d.
Proof.
  intros Hn Hplain. unfold buildReturnErrorValueText, parseReturnErrorDraft. destruct (re_simpleMode d).
  - rewrite trim_idemp. specialize (Hplain eq_refl).
    destruct (trim (re_message d)) as [|c s]; [done|]. cbn [nonempty negb].
    destruct (json_parse (c :: s)) as [[]|]; try done. by destruct (Hplain fields).
  - destruct (printed_object_read _ (error_payload_storable d Hn)) as [Hne Hparse].
    fold (error_payload d) in Hne, Hparse. rewrite Hne, Hparse. cbn [negb]. apply error_of_payload.
Qed.

(** ** Synchronised fields are read back *)

Lemma trim_last s c t : trim s = s -> rev s = c :: t -> is_space c = false.
Proof.
  intros Hs Hr. apply (drop_while_head is_space (rev (trim_start s)) c t).
  assert (H : rev (trim s) = drop_while is_space (rev (trim_start s))) by (unfold trim, trim_end; by rewrite rev_involutive).
  by rewrite <- H, Hs.
Qed.

Lemma sync_spec_read type key : type = js "header" \/ type = js "json" -> trim key = key -> key <> [] ->
  parseSyncTargetSpec (buildSyncTargetSpec type key) = {| st_type := type; st_key := key |}.
Proof.
  intros Htype Hkey Hne. unfold buildSyncTargetSpec. rewrite Hkey.
  assert (Hn : nonempty key = true) by by destruct key. rewrite Hn. cbn [negb].
  assert (Hspec : forall p h q, p = h :: q -> is_space h = false -> ch ":" ∉ p -> trim p = p ->
    parseSyncTargetSpec (p ++ js ":" ++ key) = if to_lower p === js "header"
      then {| st_type := js "header"; st_key := key |} else {| st_type := js "json"; st_key := key |}).
  { intros p h q Hp Hh Hcolon Htp. unfold parseSyncTargetSpec.
    assert (Htrim : trim (p ++ js ":" ++ key) = p ++ js ":" ++ key).
    { destruct (rev key) as [|z r] eqn:Hr; [by destruct key; [|apply (f_equal length) in Hr; rewrite length_rev in Hr]|].
      apply (trim_ends _ h z); try done; [by rewrite Hp|by rewrite Hp| |by apply (trim_last key _ r)].
      rewrite !rev_app_distr, Hr. done. }
    rewrite Htrim. replace (nonempty (p ++ js ":" ++ key)) with true by by rewrite Hp. cbn [negb].
    change (js ":") with [ch ":"]. rewrite (index_of_needle (ch ":") [] p key); [|set_solver|].
    - rewrite take_app_length, Htp. change (S (length p)) with (1 + length p)%nat.
      rewrite <- skipn_skipn, drop_app_length. cbn [skipn app]. by rewrite drop_0, Hkey.
    - apply not_true_iff_false. intros (a & b & Hab)%includes_spec. apply Hcolon. rewrite Hab. set_solver. }
  destruct Htype as [-> | ->].
  - change (js "header" === js "header") with true. cbv iota. by rewrite (Hspec _ (ch "h") (js "eader")) by (done || (vm_compute; set_solver)).
  - change (js "json" === js "header") with false. cbv iota. by rewrite (Hspec _ (ch "j") (js "son")) by (done || (vm_compute; set_solver)).
Qed.

(** ** The editor of pruning rules *)

Section PruneTheorems.
Variable now : N -> N.

(** A text that is no JSON: a word such as [redacted_thinking], or nothing. *)
Definition word (s : jsstr) : Prop := json_parse (trim s) = None.

(** A draft without rules, whose text needs no identifiers to be read. *)
Definition ruleless (text : jsstr) : Prop :=
  exists d, (forall seed, parsePruneObjectsDraft now text seed = Ret (d, seed))
    /\ pr_rules d = [] /\ word (pr_typeText d).

Lemma word_trim s : word s -> word (trim s).
Proof. unfold word. by rewrite trim_idemp. Qed.

Lemma parse_object fs seed : storable (JObj fs) -> prune_rule_sources (JObj fs) = [] ->
  parsePruneObjectsDraft now (default [] (json_stringify (JObj fs))) seed
  = Ret (prune_draft_with (JObj fs) [], seed).
Proof.
  intros Hs Hsrc. destruct (printed_object_read fs Hs) as [Hn Hp]. unfold parsePruneObjectsDraft.
  rewrite Hn, Hp. cbn [negb]. by rewrite Hsrc.
Qed.

Definition given_rules (d : PruneObjectsDraft) : list PruneRule :=
  List.filter (fun rule => negb (is_blank (co_path rule))) (pr_rules d).

(** The object that is written for a type without rules. *)
Definition typed_payload (d : PruneObjectsDraft) : list (jsstr * jsval) :=
  [(js "type", JStr (trim (pr_typeText d)))]
  ++ field_if (to_upper (text_or_else (pr_logic d) (js "AND")) === js "OR") (js "logic") (JStr (js "OR"))
  ++ field_if (negb (pr_recursive d)) (js "recursive") (JBool false).

Lemma typed_payload_read d seed :
  parsePruneObjectsDraft now (default [] (json_stringify (JObj (typed_payload d)))) seed
  = Ret (prune_draft_with (JObj (typed_payload d)) [], seed)
  /\ pr_typeText (prune_draft_with (JObj (typed_payload d)) []) = trim (pr_typeText d).
Proof.
  unfold typed_payload. split; [apply parse_object|].
  - constructor.
    + apply (in_order_sublist [js "type"; js "logic"; js "recursive"]); [by vm_compute|]. cbn [map app fst].
      apply sublist_skip. apply sublist_field_if, sublist_field_if_last.
    + cbn [app]. apply Forall_cons_2; [constructor|]. apply Forall_field_if; [constructor|].
      by apply Forall_field_if_last; constructor.
  - unfold prune_rule_sources. read_property. done.
  - cbn [prune_draft_with pr_typeText]. read_property. cbn [undefined_value string_of_val]. apply trim_idemp.
Qed.

Lemma built_without_rules d : given_rules d = [] -> pr_simpleMode d = false ->
  buildPruneObjectsValueText d
  = default [] (json_stringify (if nonempty (trim (pr_typeText d)) then JObj (typed_payload d)
                                else JObj [(js "logic", JStr (js "AND"))])).
Proof.
  unfold given_rules, buildPruneObjectsValueText. intros -> ->. cbn [map nonempty_list negb andb field_if].
  rewrite app_nil_r, andb_true_r. destruct (nonempty (trim (pr_typeText d))); done.
Qed.

Lemma built_ruleless d : given_rules d = [] -> word (pr_typeText d) -> ruleless (buildPruneObjectsValueText d).
Proof.
  intros Hr Hw. destruct (pr_simpleMode d) eqn:Hs.
  - unfold buildPruneObjectsValueText. rewrite Hs. unfold ruleless, parsePruneObjectsDraft. rewrite trim_idemp.
    destruct (trim (pr_typeText d)) as [|c s] eqn:Ht; cbn [nonempty negb].
    + exists (prune_defaults []). done.
    + exists (prune_defaults (c :: s)). unfold word in Hw. rewrite Ht in Hw. rewrite Hw. split_and!; [done..|].
      cbn [prune_defaults pr_typeText]. rewrite <- Ht. apply word_trim. unfold word. by rewrite Ht.
  - rewrite built_without_rules by done. destruct (nonempty (trim (pr_typeText d))) eqn:Hn.
    + destruct (typed_payload_read d 0) as [_ Htype]. eexists. split_and!; [intros seed; apply typed_payload_read|done|].
      rewrite Htype. by apply word_trim.
    + exists (prune_draft_with (JObj [(js "logic", JStr (js "AND"))]) []). split_and!; [|done|done].
      intros seed. by apply parse_object; [apply storable_literal; [reflexivity|repeat constructor]|].
Qed.

Definition types_words (call : prune_call) : Prop :=
  match call with PatchDraft (PruneType s) => word s | _ => True end.

Lemma call_ruleless call d seed : types_words call -> pr_rules d = [] -> word (pr_typeText d) ->
  exists d' seed', prune_call_updater now call d seed = Ret (d', seed')
    /\ given_rules d' = [] /\ word (pr_typeText d').
Proof.
  intros Hc Hr Hw. unfold given_rules. destruct call as [e| |ruleId patch|ruleId]; cbn [prune_call_updater].
  - eexists _, seed. split; [done|]. cbn [edit_prune pr_rules pr_typeText]. rewrite Hr. split; [done|]. by destruct e.
  - eexists _, _. split; [reflexivity|]. cbn [with_rules pr_rules pr_typeText]. rewrite Hr. done.
  - eexists _, seed. split; [done|]. cbn [with_rules pr_rules pr_typeText]. rewrite Hr. done.
  - eexists _, seed. split; [done|]. cbn [with_rules pr_rules pr_typeText]. rewrite Hr. done.
Qed.

Definition ruleless_rule (operationId : jsstr) (op : ParamOverrideOperation) : Prop :=
  is_id operationId op = true -> ruleless (op_value_text op).

Lemma update_ruleless operationId call ops : types_words call -> Forall (ruleless_rule operationId) ops ->
  forall seed, exists ops' seed',
    updatePruneObjectsDraft now operationId (prune_call_updater now call) ops seed = Ret (ops', seed')
    /\ Forall (ruleless_rule operationId) ops'.
Proof.
  intros Hc Hops. unfold updatePruneObjectsDraft. induction Hops as [|op ops Hop _ IH]; intros seed; [by exists [], seed|].
  cbn [mapA]. unfold ruleless_rule in Hop. unfold bind, ret in *. destruct (is_id operationId op) eqn:Hid; cbn [negb].
  - destruct (Hop eq_refl) as (d & Hd & Hr & Hw). rewrite Hd.
    destruct (call_ruleless call d seed Hc Hr Hw) as (d' & seed1 & -> & Hg & Hw').
    destruct (IH seed1) as (ops' & seed2 & -> & Hall). eexists _, seed2. split; [reflexivity|].
    constructor; [|done]. intros _. cbn [with_edit op_value_text]. by apply built_ruleless.
  - destruct (IH seed) as (ops' & seed2 & -> & Hall). eexists _, seed2. split; [reflexivity|].
    constructor; [|done]. unfold ruleless_rule. by rewrite Hid.
Qed.


(** ** Stale identifiers *)

Definition issued_from (k : N) (id : jsstr) : Prop := exists i, (k <= i)%N /\ id = local_id now i.

Lemma stale_id k i id : (i < k)%N -> issued_from k id -> (id === local_id now i) = false.
Proof.
  intros Hi (j & Hj & ->). apply str_eqb_neq. intros H%local_id_inj. lia.
Qed.

Lemma mapA_prune_rules sources seed : exists rules,
  mapA (normalizePruneRule now) sources seed = Ret (rules, (seed + N.of_nat (length sources))%N)
  /\ Forall (fun r => issued_from seed (co_id r)) rules.
Proof.
  revert seed. induction sources as [|s sources IH]; intros seed.
  { exists []. cbn. split; [|constructor]. unfold ret. do 2 f_equal. lia. }
  destruct (IH (seed + 1)%N) as (rules & Hr & Hall). cbn [mapA].
  assert (Hs : normalizePruneRule now s seed = Ret (condition_with (local_id now seed) s, (seed + 1)%N)) by done.
  unfold bind, ret. rewrite Hs, Hr. eexists. split.
  - cbn [length]. do 2 f_equal. lia.
  - constructor; [exists seed; split; [lia|done]|]. eapply Forall_impl; [exact Hall|]. cbv beta.
    intros r (j & Hj & Heq). exists j. split; [lia|done].
Qed.

(** A draft is read anew, with rules that have new identifiers. *)
Lemma parse_prune text seed : exists d seed', parsePruneObjectsDraft now text seed = Ret (d, seed')
  /\ (seed <= seed')%N /\ Forall (fun r => issued_from seed (co_id r)) (pr_rules d).
Proof.
  unfold parsePruneObjectsDraft. destruct (nonempty (trim text)); cbn [negb].
  2: { eexists _, seed. split; [reflexivity|]. split; [lia|constructor]. }
  destruct (json_parse (trim text)) as [[| | | | | |fs]|];
    try (eexists _, seed; split; [reflexivity|]; split; [lia|constructor]).
  destruct (mapA_prune_rules (prune_rule_sources (JObj fs)) seed) as (rules & Hr & Hall).
  unfold bind. rewrite Hr. eexists _, _. split; [reflexivity|]. split; [lia|exact Hall].
Qed.

(** [f] acts as [g] on every item, from the counter [k] on. *)
Lemma mapA_same {A B} (f g : A -> action N type_error B) k xs :
  (forall x seed, (k <= seed)%N -> f x seed = g x seed /\ forall y seed', g x seed = Ret (y, seed') -> (seed <= seed')%N) ->
  forall seed, (k <= seed)%N -> mapA f xs seed = mapA g xs seed.
Proof.
  intros Hfg. induction xs as [|x xs IH]; intros seed Hs; [done|]. cbn [mapA]. unfold bind, ret.
  destruct (Hfg x seed Hs) as [-> Hmono]. destruct (g x seed) as [[y seed']| |]; [|done..].
  rewrite IH; [done|]. pose proof (Hmono y seed' eq_refl). lia.
Qed.

Definition keep_draft : prune_updater := fun draft => ret draft.

(** An updater that only looks for rules by a stale identifier keeps the draft. *)
Lemma stale_update operationId updater k ops :
  (forall d seed, Forall (fun r => issued_from k (co_id r)) (pr_rules d) -> updater d seed = Ret (d, seed)) ->
  forall seed, (k <= seed)%N ->
  updatePruneObjectsDraft now operationId updater ops seed = updatePruneObjectsDraft now operationId keep_draft ops seed.
Proof.
  intros Hu. apply mapA_same. intros op seed Hs. destruct (is_id operationId op); cbn [negb].
  2: { split; [done|]. unfold ret. intros ? ? [= <- <-]. lia. }
  destruct (parse_prune (op_value_text op) seed) as (d & seed1 & Hp & Hle & Hids). unfold bind, ret, keep_draft. rewrite Hp.
  rewrite (Hu d seed1).
  - split; [done|]. unfold ret. intros ? ? [= <- <-]. lia.
  - eapply Forall_impl; [exact Hids|]. intros r (j & Hj & ->). exists j. split; [lia|done].
Qed.

(** C38. An edit or a removal of a pruning rule, by an identifier that was made before the
    call, does nothing but write the draft back: the rules are read anew, with new
    identifiers, by every call. *)
Theorem stale_rule_edits operationId i patch ops seed :
  (i < seed)%N ->
  updatePruneRule now operationId (local_id now i) patch ops seed
  = updatePruneObjectsDraft now operationId keep_draft ops seed
  /\ removePruneRule now operationId (local_id now i) ops seed
     = updatePruneObjectsDraft now operationId keep_draft ops seed.
Proof.
  intros Hi. split; apply (stale_update _ _ seed); try lia; intros [simple type logic recursive rules] s Hids;
    unfold update_rule, remove_rule, with_rules, ret; cbn [pr_simpleMode pr_typeText pr_logic pr_recursive pr_rules] in *;
    do 3 f_equal; induction Hids as [|r rules Hr Hids IH]; cbn [map List.filter]; try done;
    unfold is_rule at 1; rewrite (stale_id seed i _ Hi Hr); cbn [negb]; by rewrite IH.
Qed.
End PruneTheorems.

(** *** At concrete rules *)

Definition example_clock : N -> N := fun _ => 1700000000000%N.

Definition pruning (value_text : jsstr) : ParamOverrideOperation := rule (js "prune_objects") [] value_text [].

Definition pressed : list prune_call :=
  [PatchDraft (PruneSimple false); AddRule; PatchDraft (PruneType (js "redacted_thinking")); AddRule].

Lemma return_error_roundtrip_witness :
  let d := {| re_message := js " No access "; re_statusCode := num_of_Z 403; re_code := js "denied"; re_type := [];
              re_skipRetry := false; re_simpleMode := false |} in
  parseReturnErrorDraft (buildReturnErrorValueText d) = trimmed_error d.
Proof. intros d. apply (return_error_roundtrip d); [vm_compute; reflexivity|discriminate]. Defined.


Lemma stale_rule_edits_witness :
  let ops := [pruning (default [] (json_stringify
                (JObj [(js "conditions", JArr [JObj [(js "path", JStr (js "a"))]])])))] in
  updatePruneRule example_clock (js "po_1_0") (local_id example_clock 3) (ConditionPath (js "b")) ops 5%N
  = updatePruneObjectsDraft example_clock (js "po_1_0") keep_draft ops 5%N
  /\ removePruneRule example_clock (js "po_1_0") (local_id example_clock 3) ops 5%N
     = updatePruneObjectsDraft example_clock (js "po_1_0") keep_draft ops 5%N.
Proof. intros ops. apply stale_rule_edits. lia. Defined.

(** *** What the drafts lose *)

Definition draft_after (calls : list prune_call) (text : jsstr) : option PruneObjectsDraft :=
  match prune_calls example_clock (js "po_1_0") calls [pruning text] 2%N with
  | Ret ([op], seed) =>
      match parsePruneObjectsDraft example_clock (op_value_text op) seed with Ret (d, _) => Some d | _ => None end
  | _ => None
  end.

(** The advanced editor cannot be entered with a type, is left when a type is typed,
    and forgets the logic and the recursion that are chosen before. *)
Example advanced_pruning_forgets :
  pr_simpleMode <$> draft_after [PatchDraft (PruneSimple false)] (js "thinking") = Some true
  /\ pr_simpleMode <$> draft_after [PatchDraft (PruneSimple false)] [] = Some false
  /\ pr_simpleMode <$> draft_after [PatchDraft (PruneSimple false); PatchDraft (PruneType (js "thinking"))] [] = Some true
  /\ pr_logic <$> draft_after [PatchDraft (PruneSimple false); PatchDraft (PruneLogic (js "OR"))] [] = Some (js "AND")
  /\ pr_recursive <$> draft_after [PatchDraft (PruneSimple false); PatchDraft (PruneRecursive false)] [] = Some true.
Proof. vm_compute. done. Qed.

(** A space typed at the end of the message is gone before the next letter. *)
Example typed_space_lost :
  re_message (parseReturnErrorDraft (error_text_after [ErrorMessage (js "No ")] (js "No"))) = js "No".
Proof. vm_compute. done. Qed.

(** The type of an end is not kept before its key is typed. *)
Example sync_type_forgotten :
  st_type (parseSyncTargetSpec (buildSyncTargetSpec (js "header") [])) = js "json".
Proof. vm_compute. done. Qed.
