(* ===== verification/ParamEditor.v ===== *)
(** * The dialog of parameter overrides

    Its state and what its controls do to it: the list of rules, their conditions,
    drag and drop, templates, the switch between rules and JSON text, and saving.  The
    handlers take the counter of identifiers; a handler that throws leaves the state
    of the dialog as it was. *)

From S2P Require Import Prelude JsString JsNumber JsValue JsJson JsonRoundtrip ParamOverride ParamSaved ParamDrafts.

(** ** Templates *)

Inductive template_kind := OperationsTemplate | LegacyTemplate.

Record TemplatePresetConfig := { tp_label : jsstr; tp_kind : template_kind; tp_payload : list (jsstr * jsval) }.

Definition txt (s : string) : jsval := JStr (js s).
Definition operations_payload (operations : list jsval) : list (jsstr * jsval) := [(js "operations", JArr operations)].

Definition LEGACY_TEMPLATE : list (jsstr * jsval) :=
  [(js "temperature", JNum zero); (js "max_tokens", JNum (num_of_Z 1000))].

Definition OPERATION_TEMPLATE := operations_payload
  [JObj [(js "description", txt "Set default temperature for openai/* models.");
         (js "path", txt "temperature"); (js "mode", txt "set"); (js "value", JNum (number_of_text (js "0.7")));
         (js "conditions", JArr [JObj [(js "path", txt "model"); (js "mode", txt "prefix");
                                       (js "value", txt "openai/")]]);
         (js "logic", txt "AND")]].

Definition HEADER_PASSTHROUGH_TEMPLATE := operations_payload
  [JObj [(js "description", txt "Pass through X-Request-Id header to upstream."); (js "mode", txt "pass_headers");
         (js "value", JArr [txt "X-Request-Id"]); (js "keep_origin", JBool true)]].

Definition model_condition (mode value : string) : jsval :=
  JObj [(js "path", txt "original_model"); (js "mode", txt mode); (js "value", txt value)].

Definition GEMINI_IMAGE_4K_TEMPLATE := operations_payload
  [JObj [(js "description", txt "Set imageSize to 4K when model contains gemini/image and ends with 4k.");
         (js "mode", txt "set"); (js "path", txt "generationConfig.imageConfig.imageSize"); (js "value", txt "4K");
         (js "conditions", JArr [model_condition "contains" "gemini"; model_condition "contains" "image";
                                 model_condition "suffix" "4k"]);
         (js "logic", txt "AND")]].

Definition CODEX_CLI_HEADER_PASSTHROUGH_HEADERS : list string :=
  ["Originator"; "Session_id"; "Thread_id"; "Session-Id"; "Thread-Id"; "X-Client-Request-Id"; "User-Agent";
   "X-Codex-Beta-Features"; "X-Codex-Turn-State"; "X-Codex-Turn-Metadata"; "X-Codex-Window-Id";
   "X-Codex-Parent-Thread-Id"; "X-OpenAI-Subagent"; "X-OpenAI-Memgen-Request";
   "X-ResponsesAPI-Include-Timing-Metrics"; "X-OpenAI-Internal-Codex-Responses-Lite"]%string.

Definition CLAUDE_CLI_HEADER_PASSTHROUGH_HEADERS : list string :=
  ["X-Stainless-Arch"; "X-Stainless-Lang"; "X-Stainless-Os"; "X-Stainless-Package-Version";
   "X-Stainless-Retry-Count"; "X-Stainless-Runtime"; "X-Stainless-Runtime-Version"; "X-Stainless-Timeout";
   "User-Agent"; "X-App"; "Anthropic-Beta"; "Anthropic-Dangerous-Direct-Browser-Access"; "Anthropic-Version"]%string.

Definition buildPassHeadersTemplate (headers : list string) : list (jsstr * jsval) := operations_payload
  [JObj [(js "mode", txt "pass_headers"); (js "value", JArr (map txt headers)); (js "keep_origin", JBool true)]].

Definition CODEX_CLI_HEADER_PASSTHROUGH_TEMPLATE := buildPassHeadersTemplate CODEX_CLI_HEADER_PASSTHROUGH_HEADERS.
Definition CLAUDE_CLI_HEADER_PASSTHROUGH_TEMPLATE := buildPassHeadersTemplate CLAUDE_CLI_HEADER_PASSTHROUGH_HEADERS.

Definition removed (feature : string) : jsstr * jsval := (js feature, JNull).
Definition renamed (feature other : string) : jsstr * jsval := (js feature, txt other).
Definition allowed (feature : string) : jsstr * jsval := renamed feature feature.

Definition bedrock_features : list (jsstr * jsval) :=
  [renamed "advanced-tool-use-2025-11-20" "tool-search-tool-2025-10-19"; removed "bash_20241022";
   removed "bash_20250124"; removed "code-execution-2025-08-25"; allowed "compact-2026-01-12";
   allowed "computer-use-2025-01-24"; allowed "computer-use-2025-11-24"; allowed "context-1m-2025-08-07";
   allowed "context-management-2025-06-27"; removed "effort-2025-11-24"; removed "fast-mode-2026-02-01";
   removed "files-api-2025-04-14"; removed "fine-grained-tool-streaming-2025-05-14";
   allowed "interleaved-thinking-2025-05-14"; removed "mcp-client-2025-11-20"; removed "mcp-client-2025-04-04";
   removed "mcp-servers-2025-12-04"; removed "output-128k-2025-02-19"; removed "structured-output-2024-03-01";
   removed "prompt-caching-scope-2026-01-05"; removed "skills-2025-10-02"; removed "structured-outputs-2025-11-13";
   removed "text_editor_20241022"; removed "text_editor_20250124"; removed "token-efficient-tools-2025-02-19";
   allowed "tool-search-tool-2025-10-19"; removed "web-fetch-2025-09-10"; removed "web-search-2025-03-05";
   removed "oauth-2025-04-20"].

Definition AWS_BEDROCK_ANTHROPIC_COMPAT_TEMPLATE := operations_payload
  [JObj [(js "description", txt "Normalize anthropic-beta header tokens for Bedrock compatibility.");
         (js "mode", txt "set_header"); (js "path", txt "anthropic-beta"); (js "value", JObj bedrock_features)];
   JObj [(js "description", txt "Remove all tools[*].custom.input_examples before upstream relay.");
         (js "mode", txt "delete"); (js "path", txt "tools.*.custom.input_examples")]].

Definition preset (label : string) (kind : template_kind) (payload : list (jsstr * jsval)) : TemplatePresetConfig :=
  {| tp_label := js label; tp_kind := kind; tp_payload := payload |}.

Definition operations_default : TemplatePresetConfig := preset "New Format Template" OperationsTemplate OPERATION_TEMPLATE.

Definition TEMPLATE_PRESET_CONFIG : list (jsstr * TemplatePresetConfig) :=
  [(js "operations_default", operations_default);
   (js "legacy_default", preset "Legacy Format Template" LegacyTemplate LEGACY_TEMPLATE);
   (js "pass_headers_auth", preset "Header Passthrough (X-Request-Id)" OperationsTemplate HEADER_PASSTHROUGH_TEMPLATE);
   (js "gemini_image_4k", preset "Gemini Image 4K" OperationsTemplate GEMINI_IMAGE_4K_TEMPLATE);
   (js "claude_cli_headers_passthrough",
    preset "Claude CLI Header Passthrough" OperationsTemplate CLAUDE_CLI_HEADER_PASSTHROUGH_TEMPLATE);
   (js "codex_cli_headers_passthrough",
    preset "Codex CLI Header Passthrough" OperationsTemplate CODEX_CLI_HEADER_PASSTHROUGH_TEMPLATE);
   (js "aws_bedrock_anthropic_beta_override",
    preset "AWS Bedrock Claude Compat" OperationsTemplate AWS_BEDROCK_ANTHROPIC_COMPAT_TEMPLATE)].

(** ** The state *)

Record editor := {
  content : EditorState;
  operationSearch : jsstr;
  selectedOperationId : jsstr;
  expandedConditions : list (jsstr * bool);
  draggedOperationId : jsstr;
  dragOverOperationId : jsstr;
  dragOverPosition : drop_position;
  templatePresetKey : jsstr
}.

Definition operations (e : editor) : list ParamOverrideOperation := es_operations (content e).

(** Setters of the parts of the state. *)
Definition with_content (c : EditorState) (e : editor) : editor :=
  {| content := c; operationSearch := operationSearch e; selectedOperationId := selectedOperationId e;
     expandedConditions := expandedConditions e; draggedOperationId := draggedOperationId e;
     dragOverOperationId := dragOverOperationId e; dragOverPosition := dragOverPosition e;
     templatePresetKey := templatePresetKey e |}.

Definition setOperations (ops : list ParamOverrideOperation) (e : editor) : editor :=
  let c := content e in
  with_content {| es_editMode := es_editMode c; es_visualMode := es_visualMode c; es_legacyValue := es_legacyValue c;
                  es_operations := ops; es_jsonText := es_jsonText c; es_jsonError := es_jsonError c |} e.

Definition setEditMode (m : edit_mode) (e : editor) : editor :=
  let c := content e in
  with_content {| es_editMode := m; es_visualMode := es_visualMode c; es_legacyValue := es_legacyValue c;
                  es_operations := es_operations c; es_jsonText := es_jsonText c; es_jsonError := es_jsonError c |} e.

Definition setVisualMode (m : visual_mode) (e : editor) : editor :=
  let c := content e in
  with_content {| es_editMode := es_editMode c; es_visualMode := m; es_legacyValue := es_legacyValue c;
                  es_operations := es_operations c; es_jsonText := es_jsonText c; es_jsonError := es_jsonError c |} e.

Definition setLegacyValue (s : jsstr) (e : editor) : editor :=
  let c := content e in
  with_content {| es_editMode := es_editMode c; es_visualMode := es_visualMode c; es_legacyValue := s;
                  es_operations := es_operations c; es_jsonText := es_jsonText c; es_jsonError := es_jsonError c |} e.

Definition setJson (json error : jsstr) (e : editor) : editor :=
  let c := content e in
  with_content {| es_editMode := es_editMode c; es_visualMode := es_visualMode c; es_legacyValue := es_legacyValue c;
                  es_operations := es_operations c; es_jsonText := json; es_jsonError := error |} e.

Definition setJsonError (error : jsstr) (e : editor) : editor := setJson (es_jsonText (content e)) error e.

Definition setSelected (id : jsstr) (e : editor) : editor :=
  {| content := content e; operationSearch := operationSearch e; selectedOperationId := id;
     expandedConditions := expandedConditions e; draggedOperationId := draggedOperationId e;
     dragOverOperationId := dragOverOperationId e; dragOverPosition := dragOverPosition e;
     templatePresetKey := templatePresetKey e |}.

Definition setExpanded (m : list (jsstr * bool)) (e : editor) : editor :=
  {| content := content e; operationSearch := operationSearch e; selectedOperationId := selectedOperationId e;
     expandedConditions := m; draggedOperationId := draggedOperationId e;
     dragOverOperationId := dragOverOperationId e; dragOverPosition := dragOverPosition e;
     templatePresetKey := templatePresetKey e |}.

Definition setSearch (s : jsstr) (e : editor) : editor :=
  {| content := content e; operationSearch := s; selectedOperationId := selectedOperationId e;
     expandedConditions := expandedConditions e; draggedOperationId := draggedOperationId e;
     dragOverOperationId := dragOverOperationId e; dragOverPosition := dragOverPosition e;
     templatePresetKey := templatePresetKey e |}.

Definition setDrag (dragged over : jsstr) (position : drop_position) (e : editor) : editor :=
  {| content := content e; operationSearch := operationSearch e; selectedOperationId := selectedOperationId e;
     expandedConditions := expandedConditions e; draggedOperationId := dragged;
     dragOverOperationId := over; dragOverPosition := position; templatePresetKey := templatePresetKey e |}.

Definition setPreset (key : jsstr) (e : editor) : editor :=
  {| content := content e; operationSearch := operationSearch e; selectedOperationId := selectedOperationId e;
     expandedConditions := expandedConditions e; draggedOperationId := draggedOperationId e;
     dragOverOperationId := dragOverOperationId e; dragOverPosition := dragOverPosition e;
     templatePresetKey := key |}.

Definition resetDragState : editor -> editor := setDrag [] [] Before.

(** ** What is shown *)

Definition first_id (ops : list ParamOverrideOperation) : jsstr :=
  match ops with op :: _ => op_id op | [] => [] end.

(** The effect that keeps the selection valid. *)
Definition settle_selection (e : editor) : editor :=
  match operations e with
  | [] => setSelected [] e
  | op :: _ =>
      if existsb (is_id (selectedOperationId e)) (operations e) then e else setSelected (op_id op) e
  end.

Definition selectedOperation (e : editor) : option ParamOverrideOperation :=
  List.find (is_id (selectedOperationId e)) (operations e).

Definition selectedOperationIndex (e : editor) : option nat := find_position (is_id (selectedOperationId e)) (operations e).

Definition operationCount (e : editor) : nat := length (saved_operations (operations e)).

Definition searchable_text (op : ParamOverrideOperation) : jsstr :=
  to_lower (join (js " ") (List.filter nonempty
    [op_description op; op_mode op; op_path op; op_from op; op_to op; op_value_text op])).

Definition filteredOperations (e : editor) : list ParamOverrideOperation :=
  let keyword := to_lower (trim (operationSearch e)) in
  if negb (nonempty keyword) then operations e
  else List.filter (fun op => includes keyword (searchable_text op)) (operations e).

Definition returnErrorDraft (e : editor) : option ReturnErrorDraft :=
  match selectedOperation e with
  | Some op => if op_mode op === js "return_error" then Some (parseReturnErrorDraft (op_value_text op)) else None
  | None => None
  end.

(** How often each mode occurs, in the order of first occurrence. *)
Fixpoint count_mode (mode : jsstr) (counts : list (jsstr * nat)) : list (jsstr * nat) :=
  match counts with
  | [] => [(mode, 1%nat)]
  | (m, n) :: counts => if m === mode then (m, S n) :: counts else (m, n) :: count_mode mode counts
  end.

Definition mode_counts (ops : list ParamOverrideOperation) : list (jsstr * nat) :=
  fold_left (fun counts op => count_mode (mode_of op) counts) ops [].

(** A stable sort by descending count. *)
Fixpoint insert_count (x : jsstr * nat) (sorted : list (jsstr * nat)) : list (jsstr * nat) :=
  match sorted with
  | [] => [x]
  | y :: sorted' => if (y.2 <=? x.2)%nat then x :: sorted else y :: insert_count x sorted'
  end.

Definition topOperationModes (e : editor) : list (jsstr * nat) :=
  take 4 (fold_right insert_count [] (mode_counts (operations e))).

(** ** Rules *)

Section Handlers.
Variable now : N -> N.
(** Translations of messages, without and with the number of a rule. *)
Variable t : jsstr -> jsstr.
Variable t_line : jsstr -> nat -> jsstr.

Inductive effect := ToastError (message : jsstr) | Saved (result : jsstr) | Closed.

Definition handler : Type := editor -> action N type_error (editor * list effect).

(** A handler that makes no identifier and shows nothing. *)
Definition quietly (f : editor -> editor) : handler := fun e => ret (f e, []).

(** The effect on opening. *)
Definition open_dialog (value : jsstr) : handler := fun e =>
  let! state := parseInitialState now value in
  ret ({| content := state; operationSearch := []; selectedOperationId := first_id (es_operations state);
          expandedConditions := []; draggedOperationId := []; dragOverOperationId := []; dragOverPosition := Before;
          templatePresetKey :=
            match es_visualMode state with Legacy => js "legacy_default" | Operations => js "operations_default" end |}, []).

Definition addOperation : handler := fun e =>
  let! created := createDefaultOperation now in
  ret (setSelected (op_id created) (setOperations (operations e ++ [created]) e), []).

(** The argument of [normalizeOperation] for a copy. *)
Definition condition_copy (c : ParamOverrideCondition) : jsval :=
  JObj [(js "path", JStr (co_path c)); (js "mode", JStr (co_mode c)); (js "value", parseLooseValue (co_value_text c));
        (js "invert", JBool (co_invert c)); (js "pass_missing_key", JBool (co_pass_missing_key c))].

Definition operation_copy (source : ParamOverrideOperation) : jsval :=
  JObj [(js "description", JStr (op_description source)); (js "path", JStr (op_path source));
        (js "mode", JStr (op_mode source)); (js "value", parseLooseValue (op_value_text source));
        (js "keep_origin", JBool (op_keep_origin source)); (js "from", JStr (op_from source));
        (js "to", JStr (op_to source)); (js "logic", JStr (op_logic source));
        (js "conditions", JArr (map condition_copy (op_conditions source)))].

(** React runs the update at once ([eager]) or at the next render, after the handler
    has looked at [insertedId]. *)
Definition duplicateOperation (eager : bool) (operationId : jsstr) : handler := fun e =>
  let prev := operations e in
  match find_position (is_id operationId) prev with
  | None => ret (e, [])
  | Some idx =>
      match prev !! idx with
      | None => ret (e, [])
      | Some source =>
          let! cloned := normalizeOperation now (operation_copy source) in
          let e' := setOperations (insert_at (S idx) cloned prev) e in
          ret (if eager then setSelected (op_id cloned) e' else e', [])
      end
  end.

Definition removeOperation (operationId : jsstr) : handler := fun e =>
  if (length (operations e) <=? 1)%nat then
    let! created := createDefaultOperation now in ret (setOperations [created] e, [])
  else ret (setOperations (List.filter (fun o => negb (is_id operationId o)) (operations e)) e, []).

(** *** Conditions *)

Definition with_conditions (op : ParamOverrideOperation) (conditions : list ParamOverrideCondition)
    : ParamOverrideOperation := {|
  op_id := op_id op; op_description := op_description op; op_path := op_path op; op_mode := op_mode op;
  op_from := op_from op; op_to := op_to op; op_value_text := op_value_text op; op_keep_origin := op_keep_origin op;
  op_logic := op_logic op; op_conditions := conditions |}.

Definition on_conditions (operationId : jsstr) (f : list ParamOverrideCondition -> list ParamOverrideCondition)
    (e : editor) : editor :=
  setOperations (map (fun op => if is_id operationId op then with_conditions op (f (op_conditions op)) else op)
                   (operations e)) e.

(** [{ ...map, [id]: expanded }] *)
Definition expand (id : jsstr) (expanded : bool) (e : editor) : editor :=
  setExpanded (set_field (expandedConditions e) id expanded) e.

Definition addCondition (operationId : jsstr) : handler := fun e =>
  let! created := createDefaultCondition now in
  ret (expand (co_id created) true (on_conditions operationId (fun cs => cs ++ [created]) e), []).

Definition updateCondition (operationId conditionId : jsstr) (patch : condition_edit) : handler :=
  quietly (on_conditions operationId
             (map (fun c => if co_id c === conditionId then edit_condition c patch else c))).

Definition removeCondition (operationId conditionId : jsstr) : handler :=
  quietly (on_conditions operationId (List.filter (fun c => co_id c !== conditionId))).

Definition expand_all (expanded : bool) : handler := quietly (fun e =>
  match selectedOperation e with
  | None => e
  | Some op => fold_left (fun e c => expand (co_id c) expanded e) (op_conditions op) e
  end).
Definition expandAllConditions : handler := expand_all true.
Definition collapseAllConditions : handler := expand_all false.

(** *** Drag and drop *)

Definition handleDragStart (operationId : jsstr) : handler := quietly (fun e =>
  setSelected operationId (setDrag operationId (dragOverOperationId e) (dragOverPosition e) e)).

(** [position] is the half of the row that the pointer is on. *)
Definition handleDragOver (operationId : jsstr) (position : drop_position) : handler := quietly (fun e =>
  if negb (nonempty (draggedOperationId e)) || (draggedOperationId e === operationId) then e
  else setDrag (draggedOperationId e) operationId position e).

(** [transferred] is the text of the drop event. *)
Definition handleDrop (transferred operationId : jsstr) : handler := quietly (fun e =>
  let sourceId := text_or_else (draggedOperationId e) transferred in
  let position := if dragOverOperationId e === operationId then dragOverPosition e else Before in
  resetDragState
    (if nonempty sourceId && nonempty operationId && (sourceId !== operationId)
     then setSelected sourceId
            (setOperations (reorderOperations (operations e) sourceId operationId position) e)
     else e)).

(** ** Text *)

Definition buildVisualJson (e : editor) : outcome jsstr jsstr :=
  match es_visualMode (content e) with
  | Legacy =>
      let trimmed := trim (es_legacyValue (content e)) in
      if negb (nonempty trimmed) then Ret []
      else
        match json_parse trimmed with
        | None => Throw (t (js "Parameter override must be valid JSON format"))
        | Some (JObj fields) => Ret (pretty (JObj fields))
        | Some _ => Throw (t (js "Legacy format must be a JSON object"))
        end
  | Operations => buildOperationsJson t_line (operations e) true
  end.

Definition unchecked_json (e : editor) : jsstr :=
  match buildOperationsJson t_line (operations e) false with Ret json => json | _ => [] end.

Definition switchToJsonMode : handler := fun e =>
  match es_editMode (content e) with
  | JsonText => ret (e, [])
  | Visual =>
      match buildVisualJson e with
      | Ret json => ret (setEditMode JsonText (setJson json [] e), [])
      | Throw message =>
          let json := match es_visualMode (content e) with
                      | Legacy => es_legacyValue (content e)
                      | Operations => unchecked_json e
                      end in
          ret (setEditMode JsonText (setJson json (text_or_else message (t (js "Parameter configuration error"))) e),
               [ToastError message])
      | OutOfFuel => stuck
      end
  end.

Definition switchToVisualMode : handler := fun e =>
  match es_editMode (content e) with
  | Visual => ret (e, [])
  | JsonText =>
      let trimmed := trim (es_jsonText (content e)) in
      if negb (nonempty trimmed) then
        let! fallback := createDefaultOperation now in
        ret (setEditMode Visual (setJsonError [] (setLegacyValue [] (setSelected (op_id fallback)
               (setOperations [fallback] (setVisualMode Operations e))))), [])
      else
        match json_parse trimmed with
        | None => ret (e, [ToastError (t (js "Parameter override must be valid JSON format"))])
        | Some parsed =>
            match parsed, prop parsed (js "operations") with
            | JObj _, JArr values =>
                let! nextOps := normalizeOperations now values in
                ret (setPreset (js "operations_default") (setEditMode Visual (setJsonError [] (setLegacyValue []
                       (setSelected (first_id nextOps) (setOperations nextOps (setVisualMode Operations e)))))), [])
            | JObj _, _ =>
                let! fallback := createDefaultOperation now in
                ret (setPreset (js "legacy_default") (setEditMode Visual (setJsonError []
                       (setSelected (op_id fallback) (setOperations [fallback] (setLegacyValue (pretty parsed)
                          (setVisualMode Legacy e)))))), [])
            | _, _ => ret (e, [ToastError (t (js "Parameter override must be a valid JSON object"))])
            end
        end
  end.

(** [{ ...base, ...v }]: the entries of an object, the items of an array, the units of
    a string. *)
Definition indexed {A} (f : A -> jsval) (xs : list A) : list (jsstr * jsval) :=
  imap (fun i x => (string_of_N (N.of_nat i), f x)) xs.
Definition spread_entries (v : jsval) : list (jsstr * jsval) :=
  match v with
  | JObj fields => fields
  | JArr items => indexed (fun x => x) items
  | JStr s => indexed (fun c => JStr [c]) s
  | _ => []
  end.
Definition spread (base : list (jsstr * jsval)) (v : jsval) : list (jsstr * jsval) :=
  fold_left (fun fs kv => set_field fs kv.1 kv.2) (spread_entries v) base.

Inductive fill_mode := Fill | Append.

Definition chosen_preset (e : editor) : TemplatePresetConfig :=
  default operations_default (assoc TEMPLATE_PRESET_CONFIG (templatePresetKey e)).

(** Showing a legacy object. *)
Definition show_legacy (payload : list (jsstr * jsval)) : handler := fun e =>
  let! created := createDefaultOperation now in
  let json := pretty (JObj payload) in
  ret (setEditMode Visual (setJson json [] (setOperations [created] (setLegacyValue json (setVisualMode Legacy e)))), []).

Definition fill_legacy (payload : list (jsstr * jsval)) (mode : fill_mode) : handler := fun e =>
  match mode, es_visualMode (content e) with
  | Append, Legacy =>
      let trimmed := trim (es_legacyValue (content e)) in
      if negb (nonempty trimmed) then show_legacy payload e
      else match json_parse trimmed with
           | None => ret (e, [ToastError (t (js "Current legacy JSON is invalid, cannot append"))])
           | Some parsedCurrent => show_legacy (spread payload parsedCurrent) e
           end
  | _, _ => show_legacy payload e
  end.

Definition fill_operations (payload : list (jsstr * jsval)) (mode : fill_mode) : handler := fun e =>
  let operationsPayload := items_of (js_or (prop (JObj payload) (js "operations")) (JArr [])) in
  match mode with
  | Append =>
      let! appended := mapA (normalizeOperation now) operationsPayload in
      let existing := match es_visualMode (content e) with Operations => saved_operations (operations e) | Legacy => [] end in
      let nextOps := existing ++ appended in
      ret (setEditMode Visual (setJson [] [] (setLegacyValue [] (setSelected (text_or_else (first_id nextOps) (first_id appended))
             (setOperations (if nonempty_list nextOps then nextOps else appended) (setVisualMode Operations e))))), [])
  | Fill =>
      let! finalOps := normalizeOperations now operationsPayload in
      ret (setEditMode Visual (setJson (pretty (JObj [(js "operations", JArr operationsPayload)])) []
             (setSelected (first_id finalOps) (setOperations finalOps (setVisualMode Operations e)))), [])
  end.

Definition fillTemplate (mode : fill_mode) : handler := fun e =>
  let preset := chosen_preset e in
  match tp_kind preset with
  | LegacyTemplate => fill_legacy (tp_payload preset) mode e
  | OperationsTemplate => fill_operations (tp_payload preset) mode e
  end.

Definition resetEditorState : handler := fun e =>
  let! fallback := createDefaultOperation now in
  ret (setEditMode Visual (setPreset (js "operations_default") (setJson [] [] (setSelected (op_id fallback)
         (setOperations [fallback] (setLegacyValue [] (setVisualMode Operations e)))))), []).

Definition handleJsonChange (nextValue : jsstr) : handler := quietly (fun e =>
  let trimmed := trim nextValue in
  if negb (nonempty trimmed) then setJson nextValue [] e
  else setJson nextValue (if verifyJSON trimmed then [] else t (js "JSON format error")) e).

Definition visualValidationError (e : editor) : jsstr :=
  match es_editMode (content e) with
  | JsonText => []
  | Visual => match buildVisualJson e with
              | Throw message => text_or_else message (t (js "Parameter configuration error"))
              | _ => []
              end
  end.

Definition save_result (e : editor) : outcome jsstr jsstr :=
  match es_editMode (content e) with
  | JsonText =>
      let trimmed := trim (es_jsonText (content e)) in
      if negb (nonempty trimmed) then Ret []
      else match json_parse trimmed with
           | None => Throw (t (js "Parameter override must be valid JSON format"))
           | Some v => Ret (pretty v)
           end
  | Visual => buildVisualJson e
  end.

Definition handleSave : handler := fun e =>
  match save_result e with
  | Ret result => ret (e, [Saved result; Closed])
  | Throw message => ret (e, [ToastError message])
  | OutOfFuel => stuck
  end.
End Handlers.

(** ** The dialog as a machine *)

Inductive event :=
| Opened (value : jsstr)
| AddOperation | DuplicateOperation (eager : bool) (id : jsstr) | RemoveOperation (id : jsstr)
| SelectOperation (id : jsstr) | EditOperation (id : jsstr) (patch : list operation_edit)
| EditError (id : jsstr) (patch : list error_edit) | EditPrune (id : jsstr) (call : prune_call)
| AddCondition (id : jsstr) | UpdateCondition (id conditionId : jsstr) (patch : condition_edit)
| RemoveCondition (id conditionId : jsstr) | ExpandCondition (id : jsstr) (expanded : bool) | ExpandAll (expanded : bool)
| DragStart (id : jsstr) | DragOver (id : jsstr) (position : drop_position) | Drop (transferred id : jsstr) | DragEnd
| SwitchToJson | SwitchToVisual | ChoosePreset (key : jsstr) | FillTemplate (mode : fill_mode) | ResetEditor
| JsonChange (s : jsstr) | LegacyChange (s : jsstr) | SearchChange (s : jsstr) | Save.

Section Machine.
Variable now : N -> N.
Variable t : jsstr -> jsstr.
Variable t_line : jsstr -> nat -> jsstr.

Definition on_operations (f : list ParamOverrideOperation -> list ParamOverrideOperation) : handler :=
  quietly (fun e => setOperations (f (operations e)) e).

Definition handle (ev : event) : handler :=
  match ev with
  | Opened value => open_dialog now value
  | AddOperation => addOperation now
  | DuplicateOperation eager id => duplicateOperation now eager id
  | RemoveOperation id => removeOperation now id
  | SelectOperation id => quietly (setSelected id)
  | EditOperation id patch => on_operations (updateOperation id patch)
  | EditError id patch => on_operations (updateReturnErrorDraft id patch)
  | EditPrune id call => fun e =>
      let! ops := updatePruneObjectsDraft now id (prune_call_updater now call) (operations e) in
      ret (setOperations ops e, [])
  | AddCondition id => addCondition now id
  | UpdateCondition id conditionId patch => updateCondition id conditionId patch
  | RemoveCondition id conditionId => removeCondition id conditionId
  | ExpandCondition id expanded => quietly (expand id expanded)
  | ExpandAll expanded => expand_all expanded
  | DragStart id => handleDragStart id
  | DragOver id position => handleDragOver id position
  | Drop transferred id => handleDrop transferred id
  | DragEnd => quietly resetDragState
  | SwitchToJson => switchToJsonMode t t_line
  | SwitchToVisual => switchToVisualMode now t
  | ChoosePreset key => quietly (setPreset (text_or_else key (js "operations_default")))
  | FillTemplate mode => fillTemplate now t mode
  | ResetEditor => resetEditorState now
  | JsonChange s => handleJsonChange t s
  | LegacyChange s => quietly (setLegacyValue s)
  | SearchChange s => quietly (setSearch s)
  | Save => handleSave t t_line
  end.

(** A handler, and the render after it. *)
Definition dialog_step (ev : event) : handler := fun e =>
  let! result := handle ev e in ret (settle_selection result.1, result.2).

(** The choices of the controls: modes and logic come from lists. *)
Definition edit_ok (e : operation_edit) : bool :=
  match e with
  | EditMode s => includes_str OPERATION_MODE_VALUES s
  | EditLogic s => includes_str [js "OR"; js "AND"] s
  | _ => true
  end.

Definition condition_edit_ok (e : condition_edit) : bool :=
  match e with ConditionMode s => includes_str CONDITION_MODE_VALUES s | _ => true end.

Definition choice_ok (ev : event) : bool :=
  match ev with
  | EditOperation _ patch => forallb edit_ok patch
  | UpdateCondition _ _ patch => condition_edit_ok patch
  | _ => true
  end.

(** The dialog is opened, and events follow. *)
Inductive reachable : editor -> N -> Prop :=
| reach_open e0 value seed0 e seed effects :
    dialog_step (Opened value) e0 seed0 = Ret ((e, effects), seed) -> reachable e seed
| reach_step e seed ev e' seed' effects :
    reachable e seed -> choice_ok ev = true -> dialog_step ev e seed = Ret ((e', effects), seed') ->
    reachable e' seed'.

(** *** What holds of its rules *)

(** An identifier that was made between two values of the counter. *)
Definition issued (lo hi : N) (id : jsstr) : Prop := exists i, (lo <= i < hi)%N /\ id = local_id now i.

Definition logic_ok (op : ParamOverrideOperation) : bool := includes_str [js "OR"; js "AND"] (op_logic op).

Record sound_rule (lo hi : N) (op : ParamOverrideOperation) : Prop := {
  rule_issued : issued lo hi (op_id op);
  rule_conditions : Forall (fun c => issued lo hi (co_id c)) (op_conditions op);
  rule_distinct : NoDup (map co_id (op_conditions op));
  rule_typed : typed_operation op = true;
  rule_logic : logic_ok op = true
}.

Definition sound_rules (lo hi : N) (ops : list ParamOverrideOperation) : Prop :=
  Forall (sound_rule lo hi) ops /\ NoDup (map op_id ops).

Record sound (seed : N) (e : editor) : Prop := {
  some_rules : operations e <> [];
  all_sound : sound_rules 0 seed (operations e);
  selection_valid : selectedOperationId e ∈ map op_id (operations e)
}.

Lemma issued_mono lo hi lo' hi' id : (lo' <= lo)%N -> (hi <= hi')%N -> issued lo hi id -> issued lo' hi' id.
Proof. intros Hlo Hhi (i & Hi & ->). exists i. split; [lia|done]. Qed.

Lemma issued_apart lo mid hi a b : issued lo mid a -> issued mid hi b -> a <> b.
Proof. intros (i & Hi & ->) (j & Hj & ->) H%local_id_inj. lia. Qed.

Lemma sound_rule_mono lo hi lo' hi' op : (lo' <= lo)%N -> (hi <= hi')%N -> sound_rule lo hi op -> sound_rule lo' hi' op.
Proof.
  intros Hlo Hhi [Hi Hc Hd Ht Hl]. constructor; try done; [by eapply issued_mono|].
  eapply Forall_impl; [exact Hc|]. intros c. by apply issued_mono.
Qed.

Lemma sound_rules_mono lo hi lo' hi' ops : (lo' <= lo)%N -> (hi <= hi')%N -> sound_rules lo hi ops -> sound_rules lo' hi' ops.
Proof.
  intros Hlo Hhi [Ha Hn]. split; [|done]. eapply Forall_impl; [exact Ha|]. intros op. by apply sound_rule_mono.
Qed.

Lemma in_ids (ops : list ParamOverrideOperation) id : id ∈ map op_id ops <-> exists op, op ∈ ops /\ op_id op = id.
Proof. rewrite list_elem_of_In, in_map_iff. setoid_rewrite list_elem_of_In. split; intros (op & H1 & H2); by exists op. Qed.

Lemma issued_ids lo hi ops id : Forall (sound_rule lo hi) ops -> id ∈ map op_id ops -> issued lo hi id.
Proof. rewrite Forall_forall. intros Ha (op & Hop & <-)%in_ids. by apply (rule_issued lo hi op), Ha. Qed.

Lemma sound_rules_app lo mid hi a b : (lo <= mid <= hi)%N ->
  sound_rules lo mid a -> sound_rules mid hi b -> sound_rules lo hi (a ++ b).
Proof.
  intros Hm [Ha Hna] [Hb Hnb]. split.
  - apply Forall_app. split; (eapply Forall_impl; [eassumption|]); intros op; apply sound_rule_mono; lia.
  - rewrite map_app. apply NoDup_app. split_and!; [done| |done]. intros id Hia Hib.
    by apply (issued_apart lo mid hi id id); [apply (issued_ids _ _ a)|apply (issued_ids _ _ b)|].
Qed.

Lemma sound_rules_perm lo hi a b : a ≡ₚ b -> sound_rules lo hi a -> sound_rules lo hi b.
Proof. intros Hp [Ha Hn]. split; [by rewrite <- Hp|]. eapply NoDup_Permutation_proper; [|exact Hn]. by rewrite Hp. Qed.

Lemma sound_rules_filter lo hi (p : ParamOverrideOperation -> bool) ops :
  sound_rules lo hi ops -> sound_rules lo hi (List.filter p ops).
Proof.
  intros [Ha Hn]. split; [by apply Forall_filter_list|]. clear Ha.
  induction ops as [|op ops IH]; [done|]. cbn [map List.filter] in *. apply NoDup_cons in Hn as [Hnew Hn].
  destruct (p op); [|by apply IH]. cbn [map]. constructor; [|by apply IH].
  intros (o & Ho & Heq)%in_ids. apply Hnew, in_ids. exists o. by apply in_filter in Ho as [? _].
Qed.

(** An edit of rules that keeps their identifiers. *)
Lemma sound_rules_related lo hi lo' hi' ops ops' :
  Forall2 (fun op op' => op_id op' = op_id op /\ (sound_rule lo hi op -> sound_rule lo' hi' op')) ops ops' ->
  sound_rules lo hi ops -> sound_rules lo' hi' ops'.
Proof.
  intros H [Ha Hn]. assert (Hids : map op_id ops' = map op_id ops).
  { clear Ha Hn. induction H as [|op op' ops ops' [Hid _] _ IH]; [done|]. cbn [map]. by rewrite Hid, IH. }
  split; [|by rewrite Hids]. clear Hn Hids. induction H as [|op op' ops ops' [_ Hs] _ IH]; [done|].
  inversion Ha; subst. constructor; [by apply Hs|by apply IH].
Qed.

Lemma sound_rules_map lo hi lo' hi' f ops :
  (forall op, op_id (f op) = op_id op /\ (sound_rule lo hi op -> sound_rule lo' hi' (f op))) ->
  sound_rules lo hi ops -> sound_rules lo' hi' (map f ops).
Proof. intros Hf. apply sound_rules_related. induction ops as [|op ops IH]; constructor; [apply Hf|done]. Qed.

(** *** New rules *)

Lemma wp_normalizeCondition p seed :
  wp (normalizeCondition now p) seed (fun c seed' => seed' = (seed + 1)%N /\ co_id c = local_id now seed
                                                    /\ typed_condition c = true).
Proof.
  unfold normalizeCondition, wp, bind, nextLocalId. destruct (strict_eq p JNull); [done|]. cbn.
  split_and!; [done..|]. unfold typed_condition, condition_with, known_mode. cbn [co_mode].
  destruct (prop p (js "mode")); try done. by case_match.
Qed.

Definition new_conditions (lo hi : N) (cs : list ParamOverrideCondition) : Prop :=
  Forall (fun c => issued lo hi (co_id c)) cs /\ NoDup (map co_id cs) /\ forallb typed_condition cs = true.

Lemma new_conditions_cons lo hi c cs : co_id c = local_id now lo -> (lo < hi)%N -> typed_condition c = true ->
  new_conditions (lo + 1) hi cs -> new_conditions lo hi (c :: cs).
Proof.
  intros Hid Hlt Ht (Hi & Hn & Hts). split_and!.
  - constructor; [exists lo; split; [lia|done]|]. eapply Forall_impl; [exact Hi|]. intros x. apply issued_mono; lia.
  - cbn [map]. constructor; [|done]. rewrite list_elem_of_In, in_map_iff. intros (x & Hx & Hin%list_elem_of_In).
    rewrite Forall_forall in Hi. destruct (Hi x Hin) as (j & Hj & Heq). rewrite Heq, Hid in Hx.
    apply local_id_inj in Hx. lia.
  - cbn [forallb]. by rewrite Ht.
Qed.

Lemma wp_conditions ps seed :
  wp (mapA (normalizeCondition now) ps) seed (fun cs seed' => (seed <= seed')%N /\ new_conditions seed seed' cs).
Proof.
  revert seed. induction ps as [|p ps IH]; intros seed; cbn [mapA].
  { split; [lia|]. split_and!; constructor. }
  apply wp_bind. eapply wp_mono; [apply wp_normalizeCondition|]. intros c s (-> & Hid & Ht).
  apply wp_bind. eapply wp_mono; [apply IH|]. intros cs s' (Hle & Hcs). apply wp_ret. split; [lia|].
  apply new_conditions_cons; [done|lia|done|done].
Qed.

Lemma wp_normalizeOperation p seed :
  wp (normalizeOperation now p) seed (fun op seed' => (seed < seed')%N /\ sound_rule seed seed' op
    /\ op_id op = local_id now seed).
Proof.
  unfold normalizeOperation. apply wp_bind. cbn [wp nextLocalId]. destruct (strict_eq p JNull); [done|].
  apply wp_bind. eapply wp_mono; [apply wp_conditions|]. intros cs s (Hle & Hi & Hn & Ht). apply wp_ret.
  split; [lia|]. split; [|done]. constructor; cbn [operation_with op_id op_conditions]; try done.
  - exists seed. split; [lia|done].
  - eapply Forall_impl; [exact Hi|]. intros c. apply issued_mono; lia.
  - unfold typed_operation. cbn [operation_with op_mode op_conditions]. rewrite Ht, andb_true_r. unfold known_mode.
    destruct (prop p (js "mode")); try done. by case_match.
  - unfold logic_ok. cbn [operation_with op_logic]. unfold logic_of. by case_match.
Qed.

Lemma sound_rules_one lo hi op : sound_rule lo hi op -> sound_rules lo hi [op].
Proof. intros H. split; [by constructor|]. apply NoDup_singleton. Qed.

Lemma wp_operations ps seed :
  wp (mapA (normalizeOperation now) ps) seed (fun ops seed' => (seed <= seed')%N /\ sound_rules seed seed' ops
    /\ length ops = length ps).
Proof.
  revert seed. induction ps as [|p ps IH]; intros seed; cbn [mapA].
  { split; [lia|]. split; [split; constructor|done]. }
  apply wp_bind. eapply wp_mono; [apply wp_normalizeOperation|]. intros op s (Hlt & Hop & _).
  apply wp_bind. eapply wp_mono; [apply IH|]. intros ops s' (Hle & Hops & Hlen). apply wp_ret.
  split; [lia|]. split; [|cbn; lia]. apply (sound_rules_app seed s s' [op] ops); [lia|by apply sound_rules_one|done].
Qed.

Lemma wp_default seed :
  wp (createDefaultOperation now) seed (fun op seed' => (seed < seed')%N /\ sound_rule seed seed' op
    /\ op_id op = local_id now seed).
Proof. apply wp_normalizeOperation. Qed.

Lemma wp_normalizeOperations ps seed :
  wp (normalizeOperations now ps) seed (fun ops seed' => (seed <= seed')%N /\ sound_rules seed seed' ops /\ ops <> []).
Proof.
  unfold normalizeOperations. destruct ps as [|p ps].
  - apply wp_bind. eapply wp_mono; [apply wp_default|]. intros op s (Hlt & Hop & _). apply wp_ret.
    split; [lia|]. split; [by apply sound_rules_one|done].
  - eapply wp_mono; [apply wp_operations|]. intros ops s (Hle & Hops & Hlen). split_and!; [done..|]. by destruct ops.
Qed.

(** *** Edited rules *)

Lemma sound_edit lo hi op e : edit_ok e = true -> sound_rule lo hi op -> sound_rule lo hi (with_edit op e).
Proof.
  intros He [Hi Hc Hd Ht Hl]. constructor; try done.
  - unfold typed_operation in *. apply andb_prop in Ht as [Hm Ht]. apply andb_true_iff.
    destruct e; done.
  - unfold logic_ok in *. by destruct e.
Qed.

Lemma sound_edits lo hi es op : forallb edit_ok es = true -> sound_rule lo hi op -> sound_rule lo hi (with_edits es op).
Proof.
  revert op. induction es as [|e es IH]; intros op; cbn [forallb]; [done|].
  intros [He Hes]%andb_prop Hop. apply IH; [done|]. by apply sound_edit.
Qed.

Lemma with_edits_id es op : op_id (with_edits es op) = op_id op.
Proof. revert op. induction es as [|e es IH]; intros op; [done|]. by apply (eq_trans (IH (with_edit op e))). Qed.

Definition distinct_conditions (cs cs' : list ParamOverrideCondition) : Prop :=
  sublist (map co_id cs') (map co_id cs) /\ (forallb typed_condition cs = true -> forallb typed_condition cs' = true).

Lemma sound_with_conditions lo hi op cs' :
  distinct_conditions (op_conditions op) cs' -> sound_rule lo hi op -> sound_rule lo hi (with_conditions op cs').
Proof.
  intros [Hsub Htyped] [Hi Hc Hd Ht Hl]. constructor; try done; cbn [with_conditions op_conditions].
  - rewrite Forall_forall in *. intros c Hin. assert (Hid : co_id c ∈ map co_id cs').
    { apply list_elem_of_In, in_map, list_elem_of_In. done. }
    apply (elem_of_sublist _ _ _ Hid) in Hsub. apply list_elem_of_In, in_map_iff in Hsub as (c' & <- & Hc'%list_elem_of_In).
    by apply Hc.
  - by eapply sublist_NoDup.
  - unfold typed_operation in *. apply andb_prop in Ht as [Hm Ht]. cbn [with_conditions op_mode op_conditions].
    by rewrite Hm, Htyped.
Qed.

Lemma distinct_update conditionId patch cs : condition_edit_ok patch = true ->
  distinct_conditions cs (map (fun c => if co_id c === conditionId then edit_condition c patch else c) cs).
Proof.
  intros Hp. split.
  - replace (map co_id (map _ cs)) with (map co_id cs); [done|]. rewrite map_map. apply map_ext. intros c.
    by destruct (_ === _).
  - rewrite !forallb_forall. intros Ht x (c & <- & Hc)%in_map_iff. destruct (_ === _); [|by apply Ht].
    unfold typed_condition. cbn [edit_condition co_mode]. destruct patch; try (by apply Ht). exact Hp.
Qed.

Lemma distinct_remove conditionId cs :
  distinct_conditions cs (List.filter (fun c => co_id c !== conditionId) cs).
Proof.
  split; [|rewrite !forallb_forall; intros Ht x [Hx _]%filter_In; by apply Ht].
  induction cs as [|c cs IH]; [constructor|]. cbn [List.filter map]. destruct (_ !== _); cbn [map]; by constructor.
Qed.

Lemma sound_add_condition seed op created : co_id created = local_id now seed -> typed_condition created = true ->
  sound_rule 0 seed op -> sound_rule 0 (seed + 1) (with_conditions op (op_conditions op ++ [created])).
Proof.
  intros Hid Htyped Hop. pose proof (sound_rule_mono 0 seed 0 (seed + 1) op ltac:(lia) ltac:(lia) Hop) as [Hi Hc Hd Ht Hl].
  constructor; try done; cbn [with_conditions op_conditions].
  - apply Forall_app. split; [done|]. constructor; [|constructor]. exists seed. split; [lia|done].
  - rewrite map_app. apply NoDup_app. split_and!; [done| |apply NoDup_singleton].
    intros id Hin. cbn [map]. rewrite list_elem_of_singleton. intros ->.
    apply list_elem_of_In, in_map_iff in Hin as (c & Heq & Hin%list_elem_of_In).
    destruct Hop as [_ Hold _ _ _]. rewrite Forall_forall in Hold. destruct (Hold c Hin) as (j & Hj & Hcj).
    rewrite Hcj, Hid in Heq. apply local_id_inj in Heq. lia.
  - unfold typed_operation in *. apply andb_prop in Ht as [Hm Ht]. cbn [with_conditions op_mode op_conditions].
    rewrite Hm, forallb_app, Ht. cbn [forallb]. by rewrite Htyped.
Qed.

(** *** Reordering *)

Lemma find_index_some {A} (p : A -> bool) xs i : find_position p xs = Some i ->
  exists l x r, xs = l ++ x :: r /\ p x = true /\ i = length l /\ Forall (fun y => p y = false) l.
Proof.
  revert i. induction xs as [|x xs IH]; intros i; cbn [find_position]; [done|].
  destruct (p x) eqn:Hp; [intros [= <-]; by exists [], x, xs|].
  destruct (find_position p xs) as [j|]; [|done]. cbn. intros [= <-]. destruct (IH j eq_refl) as (l & y & r & -> & Hy & -> & Hl).
  exists (x :: l), y, r. split_and!; [done..|]. by constructor.
Qed.

Lemma insert_at_app {A} (l r : list A) x : insert_at (length l) x (l ++ r) = l ++ x :: r.
Proof. unfold insert_at. by rewrite take_app_length, drop_app_length. Qed.

Lemma insert_after_app {A} (l r : list A) x y : insert_at (S (length l)) x (l ++ y :: r) = l ++ y :: x :: r.
Proof.
  replace (S (length l)) with (length (l ++ [y])) by (rewrite length_app; cbn; lia).
  replace (l ++ y :: r) with ((l ++ [y]) ++ r) by by rewrite <- app_assoc. rewrite insert_at_app. by rewrite <- app_assoc.
Qed.

Definition placed (position : drop_position) (l r : list ParamOverrideOperation) (moved target : ParamOverrideOperation) :=
  match position with Before => l ++ moved :: target :: r | After => l ++ target :: moved :: r end.

Lemma reorder_cases ops sourceId targetId position :
  reorderOperations ops sourceId targetId position = ops
  \/ exists before moved after l target r, ops = before ++ moved :: after /\ op_id moved = sourceId
       /\ before ++ after = l ++ target :: r /\ op_id target = targetId
       /\ reorderOperations ops sourceId targetId position = placed position l r moved target.
Proof.
  unfold reorderOperations. destruct (_ || _); [by left|].
  destruct (find_position (is_id sourceId) ops) as [i|] eqn:Hi; [|by left].
  destruct (find_index_some _ _ _ Hi) as (before & moved & after & -> & Hm%str_eqb_eq & -> & _).
  rewrite list_lookup_middle by done. rewrite take_app_length.
  replace (drop (S (length before)) (before ++ moved :: after)) with after.
  2: { change (S (length before)) with (1 + length before)%nat. rewrite <- skipn_skipn, drop_app_length. done. }
  destruct (find_position (is_id targetId) (before ++ after)) as [j|] eqn:Hj; [|by left].
  destruct (find_index_some _ _ _ Hj) as (l & target & r & Hnext & Ht%str_eqb_eq & -> & _). right.
  exists before, moved, after, l, target, r. rewrite Hnext. split_and!; try done.
  destruct position; [apply insert_at_app|apply insert_after_app].
Qed.

Lemma reorder_perm ops sourceId targetId position : reorderOperations ops sourceId targetId position ≡ₚ ops.
Proof.
  destruct (reorder_cases ops sourceId targetId position) as [->|(b & m & a & l & t' & r & -> & _ & Hn & _ & ->)]; [done|].
  assert (Hp : placed position l r m t' ≡ₚ m :: l ++ t' :: r).
  { destruct position; cbn [placed]; [by rewrite <- Permutation_middle|].
    change (l ++ t' :: m :: r) with (l ++ [t'] ++ m :: r). rewrite app_assoc, <- Permutation_middle, <- app_assoc. done. }
  rewrite Hp, <- Hn. by rewrite <- Permutation_middle.
Qed.

(** *** Every handler keeps the rules sound *)

Definition sound_content (seed : N) (e : editor) : Prop := operations e <> [] /\ sound_rules 0 seed (operations e).

Definition keeps_rules (seed : N) (m : action N type_error (editor * list effect)) : Prop :=
  wp m seed (fun r seed' => (seed <= seed')%N /\ sound_content seed' r.1).

Lemma keeps_ret seed e effects : sound_content seed e -> keeps_rules seed (ret (e, effects)).
Proof. intros He. split; [lia|done]. Qed.

Lemma keeps_quietly seed f e : sound_content seed (f e) -> keeps_rules seed (quietly f e).
Proof. apply keeps_ret. Qed.

(** The rules are replaced by new ones. *)
Lemma keeps_new seed ops seed' e effects : (seed <= seed')%N -> ops <> [] -> sound_rules seed seed' ops ->
  operations e = ops -> wp (@ret N type_error _ (e, effects : list effect)) seed' (fun r s => (seed <= s)%N /\ sound_content s r.1).
Proof.
  intros Hle Hne Hops He. split; [done|]. unfold sound_content. cbn [fst]. rewrite He. split; [done|].
  by apply (sound_rules_mono seed seed'); [lia|lia|].
Qed.

Lemma keeps_default seed (f : ParamOverrideOperation -> editor * list effect) :
  (forall created, operations (f created).1 = [created]) ->
  keeps_rules seed (bind (createDefaultOperation now) (fun created => ret (f created))).
Proof.
  intros Hf. apply wp_bind. eapply wp_mono; [apply wp_default|]. intros op s (Hlt & Hop & _).
  rewrite (surjective_pairing (f op)). by apply (keeps_new seed [op]); [lia|done|apply sound_rules_one|].
Qed.

Lemma keeps_operations seed values (f : list ParamOverrideOperation -> editor * list effect) :
  (forall ops, operations (f ops).1 = ops) ->
  keeps_rules seed (bind (normalizeOperations now values) (fun ops => ret (f ops))).
Proof.
  intros Hf. apply wp_bind. eapply wp_mono; [apply wp_normalizeOperations|]. intros ops s (Hle & Hops & Hne).
  rewrite (surjective_pairing (f ops)). by apply (keeps_new seed ops).
Qed.

Lemma opens_sound seed value e : keeps_rules seed (open_dialog now value e).
Proof.
  unfold open_dialog. apply wp_bind. eapply (wp_mono _ _ (fun state s => (seed <= s)%N
    /\ es_operations state <> [] /\ sound_rules seed s (es_operations state))).
  2: { intros state s (Hle & Hne & Hops). by apply (keeps_new seed (es_operations state)). }
  assert (Hdefault : forall a b c d f, wp (let! created := createDefaultOperation now in
      ret {| es_editMode := a; es_visualMode := b; es_legacyValue := c; es_operations := [created];
             es_jsonText := d; es_jsonError := f |}) seed
      (fun state s => (seed <= s)%N /\ es_operations state <> [] /\ sound_rules seed s (es_operations state))).
  { intros a b c d f. apply wp_bind. eapply wp_mono; [apply wp_default|]. intros op s (Hlt & Hop & _). apply wp_ret.
    cbn [es_operations]. split_and!; [lia|done|by apply sound_rules_one]. }
  unfold parseInitialState. destruct (nonempty (trim value)); [|apply Hdefault]. cbn [negb].
  destruct (json_parse (trim value)) as [v|]; [|apply Hdefault]. destruct v as [| | | | | |fs]; try apply Hdefault.
  destruct (prop (JObj fs) (js "operations")) as [| | | | |items|]; try apply Hdefault.
  apply wp_bind. eapply wp_mono; [apply wp_normalizeOperations|]. intros ops s (Hle & Hops & Hne). by apply wp_ret.
Qed.

Lemma keeps_duplicate eager id seed e : sound_content seed e -> keeps_rules seed (duplicateOperation now eager id e).
Proof.
  intros [Hne Hops]. unfold duplicateOperation. destruct (find_position _ _) as [i|] eqn:Hi; [|by apply keeps_ret].
  destruct (find_index_some _ _ _ Hi) as (l & x & r & Heq & _ & -> & _).
  destruct (operations e !! length l) as [source|]; [|by apply keeps_ret].
  apply wp_bind. eapply wp_mono; [apply wp_normalizeOperation|]. intros cloned s (Hlt & Hc & _).
  apply wp_ret. split; [lia|]. assert (H : sound_content s (setOperations (insert_at (S (length l)) cloned (operations e)) e)).
  { unfold sound_content. change (operations (setOperations ?ops e)) with ops. rewrite Heq, insert_after_app. split; [by destruct l|].
    apply (sound_rules_perm 0 s ((l ++ x :: r) ++ [cloned])).
    - rewrite <- app_assoc. apply Permutation_app_head. cbn [app]. constructor. symmetry. apply Permutation_cons_append.
    - rewrite Heq in Hops. apply (sound_rules_app 0 seed s); [lia|done|by apply sound_rules_one]. }
  by destruct eager.
Qed.

Lemma keeps_add seed e : sound_content seed e -> keeps_rules seed (addOperation now e).
Proof.
  intros [Hne Hops]. unfold addOperation. apply wp_bind. eapply wp_mono; [apply wp_default|].
  intros op s (Hlt & Hop & _). apply wp_ret. split; [lia|]. unfold sound_content.
  change (operations _) with (operations e ++ [op]). split; [by destruct (operations e)|].
  apply (sound_rules_app 0 seed s); [lia|done|by apply sound_rules_one].
Qed.

(** Of two rules with different identifiers one is left. *)
Lemma keeps_remove id seed e : sound_content seed e -> keeps_rules seed (removeOperation now id e).
Proof.
  intros [Hne Hops]. unfold removeOperation. destruct (Nat.leb_spec (length (operations e)) 1); [by apply keeps_default|].
  apply keeps_ret. unfold sound_content. change (operations (setOperations ?ops e)) with ops.
  split; [|by apply sound_rules_filter]. destruct Hops as [_ Hn].
  destruct (operations e) as [|a [|b ops]]; [done|cbn in *; lia|]. cbn [List.filter]. unfold is_id.
  destruct (str_eqb_spec (op_id a) id) as [Ha|]; cbn [negb]; [|done].
  destruct (str_eqb_spec (op_id b) id) as [Hb|]; cbn [negb]; [|done].
  cbn [map] in Hn. apply NoDup_cons in Hn as [Hnew _]. destruct Hnew. rewrite Ha, <- Hb. by left.
Qed.

Lemma sound_content_map seed seed' f e :
  (forall op, op_id (f op) = op_id op /\ (sound_rule 0 seed op -> sound_rule 0 seed' (f op))) ->
  sound_content seed e -> sound_content seed' (setOperations (map f (operations e)) e).
Proof.
  intros Hf [Hne Hops]. unfold sound_content. change (operations (setOperations ?ops e)) with ops.
  split; [by destruct (operations e)|by apply (sound_rules_map 0 seed)].
Qed.

Lemma keeps_conditions id f seed e : (forall cs, distinct_conditions cs (f cs)) -> sound_content seed e ->
  sound_content seed (on_conditions id f e).
Proof.
  intros Hf. apply sound_content_map. intros op. destruct (is_id id op); [|done]. split; [done|].
  apply sound_with_conditions, Hf.
Qed.

Lemma keeps_add_condition id seed e : sound_content seed e -> keeps_rules seed (addCondition now id e).
Proof.
  intros He. unfold addCondition. apply wp_bind. eapply wp_mono; [apply wp_normalizeCondition|].
  intros c s (-> & Hid & Ht). apply wp_ret. split; [lia|]. unfold sound_content.
  change (operations (expand ?a ?b ?e)) with (operations e).
  change (sound_content (seed + 1) (on_conditions id (fun cs => cs ++ [c]) e)). unfold on_conditions.
  apply (sound_content_map seed); [|done]. intros op. destruct (is_id id op).
  - split; [done|]. by apply sound_add_condition.
  - split; [done|]. apply sound_rule_mono; lia.
Qed.

Lemma wp_parse_prune text seed : wp (parsePruneObjectsDraft now text) seed (fun _ seed' => (seed <= seed')%N).
Proof. destruct (parse_prune now text seed) as (d & seed' & Hp & Hle & _). unfold wp. by rewrite Hp. Qed.

Lemma wp_prune_call call d seed : wp (prune_call_updater now call d) seed (fun _ seed' => (seed <= seed')%N).
Proof. destruct call; cbn; lia. Qed.

Lemma keeps_prune id call seed e : sound_content seed e -> keeps_rules seed (handle (EditPrune id call) e).
Proof.
  intros [Hne Hops]. cbn [handle]. apply wp_bind.
  eapply (wp_mono _ _ (fun ops' s => (seed <= s)%N /\ Forall2 (fun op op' => op_id op' = op_id op
    /\ (sound_rule 0 seed op -> sound_rule 0 s op')) (operations e) ops')).
  2: { intros ops' s (Hle & Hrel). apply wp_ret. split; [done|]. unfold sound_content.
       change (operations _) with ops'. split; [|by apply (sound_rules_related 0 seed 0 s (operations e))].
       intros ->. by inversion Hrel; subst; destruct (operations e). }
  assert (H : forall ops s0, (seed <= s0)%N ->
    wp (updatePruneObjectsDraft now id (prune_call_updater now call) ops) s0
       (fun ops' s => (s0 <= s)%N /\ Forall2 (fun op op' => op_id op' = op_id op
          /\ forall s1, (s <= s1)%N -> sound_rule 0 seed op -> sound_rule 0 s1 op') ops ops')).
  { unfold updatePruneObjectsDraft. intros ops. induction ops as [|op ops IH]; intros s0 Hs0; cbn [mapA].
    { split; [lia|constructor]. }
    apply wp_bind. eapply (wp_mono _ _ (fun op' s => (s0 <= s)%N /\ op_id op' = op_id op
      /\ (sound_rule 0 seed op -> sound_rule 0 seed op'))).
    { destruct (is_id id op); cbn [negb]; [|by apply wp_ret].
      apply wp_bind. eapply wp_mono; [apply wp_parse_prune|]. intros d s Hs.
      apply wp_bind. eapply wp_mono; [apply wp_prune_call|]. intros d' s' Hs'. cbv beta in Hs, Hs'. apply wp_ret.
      split_and!; [lia|done|]. by apply sound_edit. }
    intros op' s (Hs & Hid & Hsound). apply wp_bind. eapply wp_mono; [apply IH; lia|]. intros ops' s' (Hs' & Hrel).
    apply wp_ret. split; [lia|]. constructor; [|done]. split; [done|]. intros s1 Hs1 Hop.
    apply (sound_rule_mono 0 seed); [lia|lia|by apply Hsound]. }
  eapply wp_mono; [apply (H (operations e) seed); lia|]. intros ops' s (Hs & Hrel). split; [done|].
  eapply Forall2_impl; [exact Hrel|]. intros op op' [Hid Hop]. split; [done|]. by apply Hop.
Qed.

Lemma keeps_text seed e e' effects : operations e' = operations e -> sound_content seed e -> keeps_rules seed (ret (e', effects)).
Proof. intros Heq He. apply keeps_ret. unfold sound_content. by rewrite Heq. Qed.

Lemma expand_all_operations b cs e : operations (fold_left (fun e c => expand (co_id c) b e) cs e) = operations e.
Proof. revert e. induction cs as [|c cs IH]; intros e; [done|]. cbn [fold_left]. by rewrite IH. Qed.

Lemma keeps_drop transferred id seed e : sound_content seed e -> keeps_rules seed (handleDrop transferred id e).
Proof.
  intros [Hne Hops]. unfold handleDrop. apply keeps_quietly. unfold sound_content. destruct (_ && _); [|done].
  match goal with |- operations (resetDragState (setSelected _ (setOperations ?ops _))) <> [] /\ _ =>
    change (operations _) with ops end.
  pose proof (reorder_perm (operations e) (text_or_else (draggedOperationId e) transferred) id
    (if dragOverOperationId e === id then dragOverPosition e else Before)) as Hp.
  split; [|by apply (sound_rules_perm _ _ (operations e))]. intros Heq. rewrite Heq in Hp.
  by apply Permutation_nil_l in Hp.
Qed.

Lemma build_answers ops validate : buildOperationsJson t_line ops validate <> OutOfFuel.
Proof.
  unfold buildOperationsJson. destruct (saved_operations ops) as [|op rest]; [done|].
  by destruct (nonempty (if validate then _ else _)).
Qed.

Lemma visual_answers e : buildVisualJson t t_line e <> OutOfFuel.
Proof.
  unfold buildVisualJson. destruct (es_visualMode (content e)); [apply build_answers|].
  destruct (nonempty _); cbn [negb]; [|done]. by destruct (json_parse _) as [[]|].
Qed.

Lemma keeps_switch_json seed e : sound_content seed e -> keeps_rules seed (switchToJsonMode t t_line e).
Proof.
  intros He. unfold switchToJsonMode. destruct (es_editMode (content e)); [|by apply keeps_ret].
  destruct (buildVisualJson t t_line e) eqn:Hb; [by apply (keeps_text seed e)|by apply (keeps_text seed e)|].
  by apply visual_answers in Hb.
Qed.

Lemma keeps_switch_visual seed e : sound_content seed e -> keeps_rules seed (switchToVisualMode now t e).
Proof.
  intros He. unfold switchToVisualMode. destruct (es_editMode (content e)); [by apply keeps_ret|].
  destruct (nonempty (trim (es_jsonText (content e)))); cbn [negb]; [|by apply keeps_default].
  destruct (json_parse _) as [v|]; [|by apply keeps_ret].
  destruct v as [| | | | | |fs]; try by apply keeps_ret.
  destruct (prop (JObj fs) (js "operations")) as [| | | | |items|]; try by apply keeps_default. by apply keeps_operations.
Qed.

Lemma keeps_save seed e : sound_content seed e -> keeps_rules seed (handleSave t t_line e).
Proof.
  intros He. unfold handleSave. destruct (save_result t t_line e) eqn:Hs; [by apply keeps_ret|by apply keeps_ret|].
  unfold save_result in Hs. destruct (es_editMode (content e)); [by apply visual_answers in Hs|].
  destruct (nonempty _); cbn [negb] in Hs; [|done]. by destruct (json_parse _).
Qed.

(** A template of rules has rules. *)
Definition template_operations (payload : list (jsstr * jsval)) : list jsval :=
  items_of (js_or (prop (JObj payload) (js "operations")) (JArr [])).

Lemma template_filled e : tp_kind (chosen_preset e) = OperationsTemplate ->
  template_operations (tp_payload (chosen_preset e)) <> [].
Proof.
  unfold chosen_preset. destruct (assoc TEMPLATE_PRESET_CONFIG (templatePresetKey e)) as [config|] eqn:Hc;
    cbn [from_option Datatypes.id]; [|done]. intros Hk Heq.
  assert (H : forallb (fun kv => match tp_kind kv.2 with
      LegacyTemplate => true | OperationsTemplate => nonempty_list (template_operations (tp_payload kv.2)) end)
      TEMPLATE_PRESET_CONFIG = true) by (vm_compute; reflexivity).
  rewrite forallb_forall in H. apply assoc_in, list_elem_of_In, H in Hc. cbn [snd] in Hc. by rewrite Hk, Heq in Hc.
Qed.

Lemma keeps_fill_operations payload mode seed e : template_operations payload <> [] -> sound_content seed e ->
  keeps_rules seed (fill_operations now payload mode e).
Proof.
  intros Hp [Hne Hops]. unfold fill_operations. fold (template_operations payload).
  destruct mode; [by apply keeps_operations|].
  apply wp_bind. eapply wp_mono; [apply wp_operations|]. intros appended s (Hle & Happ & Hlen).
  apply wp_ret. split; [done|]. unfold sound_content. cbn [fst].
  set (existing := match es_visualMode (content e) with Operations => saved_operations (operations e) | Legacy => [] end).
  assert (Hnext : sound_rules 0 s (existing ++ appended)).
  { apply (sound_rules_app 0 seed s); [lia| |done]. unfold existing. destruct (es_visualMode (content e)).
    - by apply sound_rules_filter.
    - split; constructor. }
  assert (Hfilled : existing ++ appended <> []).
  { destruct appended; [by destruct (template_operations payload)|]. by destruct existing. }
  replace (nonempty_list (existing ++ appended)) with true by by destruct (existing ++ appended).
  by split.
Qed.

Lemma keeps_fill mode seed e : sound_content seed e -> keeps_rules seed (fillTemplate now t mode e).
Proof.
  intros He. unfold fillTemplate. destruct (tp_kind (chosen_preset e)) eqn:Hk.
  - apply keeps_fill_operations; [by apply template_filled|done].
  - assert (Hshow : forall payload, keeps_rules seed (show_legacy now payload e)) by by intros payload; apply keeps_default.
    unfold fill_legacy. destruct mode, (es_visualMode (content e)); try apply Hshow.
    destruct (nonempty _); cbn [negb]; [|apply Hshow].
    destruct (json_parse _); [apply Hshow|by apply keeps_ret].
Qed.

(** Every event keeps the rules sound. *)
Lemma handle_keeps ev seed e : choice_ok ev = true -> sound_content seed e -> keeps_rules seed (handle ev e).
Proof.
  intros Hok He. destruct ev; cbn [handle choice_ok] in *;
    try (by apply (keeps_text seed e)); try (by apply keeps_default).
  - apply opens_sound.
  - by apply keeps_add.
  - by apply keeps_duplicate.
  - by apply keeps_remove.
  - apply keeps_quietly. unfold updateOperation. apply (sound_content_map seed); [|done]. intros op.
    destruct (is_id id op); [|done]. split; [apply with_edits_id|by apply sound_edits].
  - apply keeps_quietly. unfold updateReturnErrorDraft. apply (sound_content_map seed); [|done]. intros op.
    destruct (is_id id op); [|done]. split; [done|by apply sound_edit].
  - by apply (keeps_prune id call).
  - by apply keeps_add_condition.
  - apply keeps_quietly, keeps_conditions; [|done]. intros cs. by apply distinct_update.
  - apply keeps_quietly, keeps_conditions; [|done]. apply distinct_remove.
  - apply keeps_quietly. destruct (selectedOperation e) as [op|]; [|done]. unfold sound_content. by rewrite expand_all_operations.
  - apply keeps_quietly. by destruct (_ || _).
  - by apply keeps_drop.
  - by apply keeps_switch_json.
  - by apply keeps_switch_visual.
  - by apply keeps_fill.
  - apply keeps_quietly. cbv beta zeta. by destruct (negb (nonempty (trim s))).
  - by apply keeps_save.
Qed.

Lemma settle_sound seed e : sound_content seed e -> sound seed (settle_selection e).
Proof.
  intros [Hne Hops]. unfold settle_selection. destruct (operations e) as [|op ops] eqn:He; [done|].
  destruct (existsb _ _) eqn:Hx.
  - constructor; rewrite He; try done. apply existsb_exists in Hx as (o & Ho & Hid%str_eqb_eq).
    rewrite <- Hid. apply in_ids. exists o. by split; [apply list_elem_of_In|].
  - constructor; unfold operations, setSelected; cbn [content selectedOperationId]; fold (operations e); rewrite He;
      try done. by left.
Qed.

Lemma step_sound ev seed e : choice_ok ev = true -> sound_content seed e ->
  wp (dialog_step ev e) seed (fun r seed' => sound seed' r.1).
Proof.
  intros Hok He. unfold dialog_step. apply wp_bind. eapply wp_mono; [by apply handle_keeps|].
  intros r s (_ & Hr). apply wp_ret. cbn [fst]. by apply settle_sound.
Qed.


(** *** Drag and drop *)

Lemma filter_others (p : ParamOverrideOperation -> bool) ops : Forall (fun o => p o = false) ops ->
  List.filter (fun o => negb (p o)) ops = ops.
Proof. intros H. apply filter_all. eapply Forall_impl; [exact H|]. by intros o ->. Qed.

Lemma find_position_in sourceId ops : sourceId ∈ map op_id ops -> exists i, find_position (is_id sourceId) ops = Some i.
Proof.
  induction ops as [|op ops IH]; cbn [map]; [intros H; inversion H|]. cbn [find_position]. unfold is_id at 1.
  destruct (str_eqb_spec (op_id op) sourceId) as [|Hne]; [by eexists|]. intros [Heq|Hin]%elem_of_cons; [done|].
  destruct (IH Hin) as [i ->]. by exists (S i).
Qed.

(** A rule that is dropped on another stands right before or after it; the others keep
    their order. *)
Lemma reorder_spec ops sourceId targetId position : NoDup (map op_id ops) ->
  nonempty sourceId = true -> nonempty targetId = true -> sourceId <> targetId ->
  sourceId ∈ map op_id ops -> targetId ∈ map op_id ops ->
  exists moved target l r, op_id moved = sourceId /\ op_id target = targetId
    /\ reorderOperations ops sourceId targetId position = placed position l r moved target
    /\ l ++ target :: r = List.filter (fun o => negb (is_id sourceId o)) ops.
Proof.
  intros Hn Hs Ht Hne Hsin Htin. unfold reorderOperations. rewrite Hs, Ht. cbn [negb orb].
  rewrite (proj2 (str_eqb_neq _ _) Hne).
  destruct (find_position_in _ _ Hsin) as [i Hi]. rewrite Hi.
  destruct (find_index_some _ _ _ Hi) as (before & moved & after & -> & Hm%str_eqb_eq & -> & Hbefore).
  rewrite list_lookup_middle by done. rewrite take_app_length.
  replace (drop (S (length before)) (before ++ moved :: after)) with after.
  2: { change (S (length before)) with (1 + length before)%nat. rewrite <- skipn_skipn, drop_app_length. done. }
  assert (Hafter : Forall (fun o => is_id sourceId o = false) after).
  { rewrite map_app in Hn. apply NoDup_app in Hn as (_ & _ & Hn). cbn [map] in Hn. apply NoDup_cons in Hn as [Hnew _].
    apply Forall_forall. intros o Ho. unfold is_id. apply str_eqb_neq. intros Heq. apply Hnew, in_ids. exists o.
    by rewrite Heq. }
  assert (Htin' : targetId ∈ map op_id (before ++ after)).
  { apply in_ids in Htin as (o & Ho & Hid). apply in_ids. exists o. split; [|done].
    rewrite elem_of_app, elem_of_cons in Ho. rewrite elem_of_app. destruct Ho as [?|[->|?]]; [by left| |by right].
    congruence. }
  destruct (find_position_in _ _ Htin') as [j Hj]. rewrite Hj.
  destruct (find_index_some _ _ _ Hj) as (l & target & r & Hnext & Htarget%str_eqb_eq & -> & _).
  exists moved, target, l, r. rewrite Hnext. split_and!; [done|done| |].
  - destruct position; [apply insert_at_app|apply insert_after_app].
  - rewrite List.filter_app. cbn [List.filter]. unfold is_id at 2. rewrite Hm, str_eqb_refl. cbn [negb].
    by rewrite !filter_others.
Qed.

Lemma settle_keeps e : existsb (is_id (selectedOperationId e)) (operations e) = true -> settle_selection e = e.
Proof. unfold settle_selection. by destruct (operations e) as [|op ops]; [|intros ->]. Qed.

Lemma settle_content e : content (settle_selection e) = content e.
Proof. unfold settle_selection. destruct (operations e); [done|]. by destruct (existsb _ _). Qed.

(** C40. Dropping the rule that is dragged on another rule, on the half of it that the
    pointer was last over, puts it right before or after that rule, and selects it. *)
Theorem dropped_rule_placed e seed transferred targetId e' effects seed' :
  sound seed e -> draggedOperationId e ∈ map op_id (operations e) -> targetId ∈ map op_id (operations e) ->
  draggedOperationId e <> targetId -> dragOverOperationId e = targetId ->
  dialog_step (Drop transferred targetId) e seed = Ret ((e', effects), seed') ->
  exists moved target l r, op_id moved = draggedOperationId e /\ op_id target = targetId
    /\ operations e' = placed (dragOverPosition e) l r moved target
    /\ l ++ target :: r = List.filter (fun o => negb (is_id (draggedOperationId e) o)) (operations e)
    /\ selectedOperationId e' = draggedOperationId e /\ draggedOperationId e' = [].
Proof.
  intros [Hne [Hall Hn] _] Hs Ht Hdiff Hover.
  assert (Hfull : forall id, id ∈ map op_id (operations e) -> nonempty id = true).
  { intros id Hid. destruct (issued_ids _ _ _ _ Hall Hid) as (i & _ & ->). apply local_id_nonempty. }
  destruct (reorder_spec (operations e) _ _ (dragOverPosition e) Hn (Hfull _ Hs) (Hfull _ Ht) Hdiff Hs Ht)
    as (moved & target & l & r & Hm & Htg & Hre & Hfilter).
  unfold dialog_step, bind, ret. cbn [handle handleDrop quietly].
  unfold handleDrop, quietly, ret. unfold text_or_else. rewrite !(Hfull _ Hs), (Hfull _ Ht), Hover, str_eqb_refl,
    (proj2 (str_eqb_neq _ _) Hdiff). cbn [negb andb fst snd]. rewrite Hre. intros [= <- _ _].
  exists moved, target, l, r. rewrite settle_keeps; [by split_and!|].
  change (existsb (is_id (draggedOperationId e)) (placed (dragOverPosition e) l r moved target) = true).
  apply existsb_exists. exists moved. split; [|unfold is_id; rewrite Hm; apply str_eqb_refl].
  destruct (dragOverPosition e); cbn [placed]; rewrite in_app_iff; cbn; tauto.
Qed.

(** ** Text and rules *)

(** Switching to the JSON text and back keeps the rules that the dialog accepts. *)
Theorem json_and_back e seed text :
  (forall text line, t_line text line <> []) ->
  sound seed e -> es_editMode (content e) = Visual -> es_visualMode (content e) = Operations ->
  Forall (fun op => kept_operation op = true) (saved_operations (operations e)) ->
  buildOperationsJson t_line (operations e) true = Ret text -> text <> [] ->
  exists e1 e2 seed', dialog_step SwitchToJson e seed = Ret ((e1, []), seed)
    /\ es_editMode (content e1) = JsonText /\ es_jsonText (content e1) = text
    /\ dialog_step SwitchToVisual e1 seed = Ret ((e2, []), seed')
    /\ es_editMode (content e2) = Visual /\ es_visualMode (content e2) = Operations
    /\ map operation_payload (operations e2) = map operation_payload (saved_operations (operations e)).
Proof.
  intros Hmessages [Hne [Hall _] _] Hedit Hvisual Hkept Hbuilt Htext.
  assert (Htyped : Forall (fun op => typed_operation op = true) (operations e)).
  { eapply Forall_impl; [exact Hall|]. intros op Hop. by apply (rule_typed _ _ _ Hop). }
  destruct (saved_text_read now t_line Hmessages _ _ Htyped Hkept Hbuilt Htext) as (_ & Htrim & Hparse & Hread).
  destruct (Hread seed) as (os & seed' & Hos & Hpay & _).
  set (e1 := settle_selection (setEditMode JsonText (setJson text [] e))).
  assert (H1 : dialog_step SwitchToJson e seed = Ret ((e1, []), seed)).
  { unfold dialog_step, bind. cbn [handle]. unfold switchToJsonMode. rewrite Hedit. unfold buildVisualJson.
    by rewrite Hvisual, Hbuilt. }
  exists e1.
  assert (Hc1 : content e1 = content (setEditMode JsonText (setJson text [] e))) by apply settle_content.
  set (e2 := setPreset (js "operations_default") (setEditMode Visual (setJsonError [] (setLegacyValue []
               (setSelected (first_id os) (setOperations os (setVisualMode Operations e1))))))).
  assert (H2 : dialog_step SwitchToVisual e1 seed = Ret ((settle_selection e2, []), seed')).
  { unfold dialog_step, bind. cbn [handle]. unfold switchToVisualMode. rewrite Hc1. cbn [content setEditMode setJson
      with_content es_editMode es_jsonText]. rewrite Htrim, (json_parse_nonempty _ _ Hparse), Hparse. cbn [negb].
    change (prop _ (js "operations")) with (JArr (map operation_payload (saved_operations (operations e)))). cbv iota.
    unfold bind. by rewrite Hos. }
  exists (settle_selection e2), seed'. unfold operations. rewrite settle_content, Hc1. split_and!; done.
Qed.

(** ** Copies *)

Lemma condition_copied id c : typed_condition c = true -> kept_condition c = true ->
  buildConditionPayload (condition_with id (condition_copy c)) = buildConditionPayload c.
Proof.
  unfold typed_condition, kept_condition, is_blank. intros Ht Hk. unfold buildConditionPayload, condition_with, condition_copy.
  cbn [co_path co_mode co_value_text co_invert co_pass_missing_key]. read_property. cbn [text_or_empty true_flag].
  destruct (nonempty (trim (co_path c))) eqn:Hp; cbn [negb orb] in *; [|done].
  rewrite known_again by done. destruct (kept_value _ Hk) as [_ Hsame]. by rewrite (parseLooseValue_same _ _ Hsame).
Qed.

Lemma conditions_copied cs cs' : forallb typed_condition cs = true -> forallb kept_condition cs = true ->
  Forall2 (fun p c => exists id, c = condition_with id p) (map condition_copy cs) cs' ->
  omap buildConditionPayload cs' = omap buildConditionPayload cs.
Proof.
  revert cs'. induction cs as [|c cs IH]; intros cs' Ht Hk H; inversion H as [|? c' ? cs'' (id & ->) Hrest]; subst; [done|].
  cbn [forallb] in *. apply andb_prop in Ht as [Htc Ht]. apply andb_prop in Hk as [Hkc Hk].
  cbn [omap list_omap]. rewrite condition_copied by done. destruct (buildConditionPayload c); rewrite (IH cs''); done.
Qed.

Lemma copy_saved id source cs : typed_operation source = true -> logic_ok source = true ->
  kept_operation source = true ->
  Forall2 (fun p c => exists id, c = condition_with id p) (map condition_copy (op_conditions source)) cs ->
  operation_payload (operation_with id (operation_copy source) cs) = operation_payload source.
Proof.
  intros Htyped Hlogic Hkept Hcs. pose proof Htyped as [Hm Ht]%andb_prop. pose proof Hkept as [Hv Hk]%andb_prop.
  assert (Hmode : op_mode (operation_with id (operation_copy source) cs) = op_mode source).
  { unfold operation_with, operation_copy. cbn [op_mode]. read_property. by apply known_again. }
  unfold operation_payload. rewrite (mode_of_typed source) by done.
  rewrite (mode_of_typed (operation_with id (operation_copy source) cs)) by by rewrite Hmode. rewrite Hmode.
  unfold operation_with, operation_copy.
  cbn [op_description op_path op_from op_to op_value_text op_keep_origin op_logic op_conditions]. read_property.
  cbn [text_or_empty true_flag]. rewrite (conditions_copied _ _ Ht Hk Hcs).
  assert (Hl : logic_of (JStr (op_logic source)) = op_logic source).
  { apply includes_str_spec, elem_of_cons in Hlogic as [->|[->|H]%elem_of_cons]; [done|done|inversion H]. }
  rewrite Hl. do 4 f_equal.
  destruct (m_value (meta_of (op_mode source))) eqn:Hval; [|done]. cbn [negb orb] in Hv.
  destruct (kept_value _ Hv) as [_ Hsame]. by rewrite (parseLooseValue_same _ _ Hsame).
Qed.

(** A duplicate stands right after its rule and is saved as that rule is; it is
    selected when React runs the update at once. *)
Theorem duplicated_rule eager id e seed e' effects seed' :
  sound seed e -> id ∈ map op_id (operations e) ->
  Forall (fun op => kept_operation op = true) (operations e) ->
  dialog_step (DuplicateOperation eager id) e seed = Ret ((e', effects), seed') ->
  exists l source clone r, operations e = l ++ source :: r /\ op_id source = id
    /\ operations e' = l ++ source :: clone :: r
    /\ operation_payload clone = operation_payload source
    /\ (eager = true -> selectedOperationId e' = op_id clone).
Proof.
  intros [Hne [Hall Hn] _] Hin Hkept. destruct (find_position_in _ _ Hin) as [i Hi].
  destruct (find_index_some _ _ _ Hi) as (l & source & r & Hops & Hid%str_eqb_eq & -> & _).
  assert (Hsource : source ∈ operations e) by (rewrite Hops; set_solver).
  rewrite Forall_forall in Hall, Hkept. destruct (Hall _ Hsource) as [_ _ _ Htyped Hlogic].
  destruct (mapA_reads (normalizeCondition now) (fun p c => exists id, c = condition_with id p)
    (map condition_copy (op_conditions source))) with (seed := (seed + 1)%N) as (cs & seed1 & Hcs & Hread).
  { apply Forall_map, Forall_forall. intros c _ s. rewrite normalize_condition_reads by done. eauto. }
  unfold dialog_step, bind. cbn [handle]. unfold duplicateOperation. rewrite Hi.
  replace (operations e !! length l) with (Some source) by by rewrite Hops, list_lookup_middle.
  unfold normalizeOperation, bind, nextLocalId. change (strict_eq (operation_copy source) JNull) with false. cbv iota beta.
  change (items_of (prop (operation_copy source) (js "conditions"))) with (map condition_copy (op_conditions source)).
  rewrite Hcs. unfold ret. cbn [fst snd]. set (clone := operation_with _ _ _).
  assert (Hmid : insert_at (S (length l)) clone (operations e) = l ++ source :: clone :: r).
  { rewrite Hops. apply insert_after_app. }
  rewrite Hmid. intros [= <- _ _]. exists l, source, clone, r. unfold operations at 2. rewrite settle_content. split_and!; [done..| | |].
  - by destruct eager.
  - by apply copy_saved; auto.
  - intros ->. rewrite settle_keeps; [done|].
    change (existsb (is_id (op_id clone)) (l ++ source :: clone :: r) = true). apply existsb_exists. exists clone.
    split; [rewrite in_app_iff; cbn; tauto|]. unfold is_id. apply str_eqb_refl.
Qed.

(** ** Runs *)

Fixpoint run_events (evs : list event) (e : editor) (seed : N) : option (editor * N) :=
  match evs with
  | [] => Some (e, seed)
  | ev :: evs =>
      if choice_ok ev
      then match dialog_step ev e seed with Ret ((e', _), seed') => run_events evs e' seed' | _ => None end
      else None
  end.

Definition run_dialog (value : jsstr) (evs : list event) (e0 : editor) : option (editor * N) :=
  match dialog_step (Opened value) e0 0%N with Ret ((e, _), seed) => run_events evs e seed | _ => None end.

Lemma run_events_reach evs e seed e' seed' : reachable e seed -> run_events evs e seed = Some (e', seed') ->
  reachable e' seed'.
Proof.
  revert e seed. induction evs as [|ev evs IH]; intros e seed Hr; cbn [run_events]; [by intros [= <- <-]|].
  destruct (choice_ok ev) eqn:Hok; [|done]. destruct (dialog_step ev e seed) as [[[e1 effects] seed1]| |] eqn:Hs; [|done..].
  apply IH. by eapply reach_step.
Qed.

Lemma run_dialog_reach value evs e0 e seed : run_dialog value evs e0 = Some (e, seed) -> reachable e seed.
Proof.
  unfold run_dialog. destruct (dialog_step (Opened value) e0 0%N) as [[[e1 effects] seed1]| |] eqn:Hs; [|done..].
  apply run_events_reach. by eapply reach_open.
Qed.
End Machine.

(** *** At a concrete dialog *)

Definition closed_editor : editor := {|
  content := {| es_editMode := Visual; es_visualMode := Operations; es_legacyValue := []; es_operations := [];
                es_jsonText := []; es_jsonError := [] |};
  operationSearch := []; selectedOperationId := []; expandedConditions := []; draggedOperationId := [];
  dragOverOperationId := []; dragOverPosition := Before; templatePresetKey := js "operations_default" |}.

Definition plain_text (text : jsstr) : jsstr := text.

Definition example_dialog (evs : list event) : option (editor * N) :=
  run_dialog example_clock plain_text plain_message [] evs closed_editor.

Definition nth_id (i : N) : jsstr := local_id example_clock i.

(** A rule is typed, copied, and another is added, with a condition. *)
Definition example_events : list event :=
  [EditOperation (nth_id 0) [EditPath (js "temperature"); EditValueText (js "0.7")];
   DuplicateOperation true (nth_id 0); AddOperation;
   EditOperation (nth_id 2) [EditMode (js "delete"); EditPath (js "tools")];
   AddCondition (nth_id 2); UpdateCondition (nth_id 2) (nth_id 3) (ConditionPath (js "model"))].


(** The third rule is dropped on the upper half of the first. *)
Definition dragging_events : list event :=
  example_events ++ [DragStart (nth_id 2); DragOver (nth_id 0) Before].

Definition dragging : editor := match example_dialog dragging_events with Some (e, _) => e | None => closed_editor end.

Lemma run_events_sound now t t_line evs e seed e' seed' : sound now seed e ->
  run_events now t t_line evs e seed = Some (e', seed') -> sound now seed' e'.
Proof.
  revert e seed. induction evs as [|ev evs IH]; intros e seed He; cbn [run_events]; [by intros [= <- <-]|].
  destruct (choice_ok ev) eqn:Hok; [|done].
  destruct (dialog_step now t t_line ev e seed) as [[[e1 effects] seed1]| |] eqn:Hs; [|done..].
  apply IH. destruct He as [Hne Hops _].
  by apply (wp_Ret _ _ _ _ _ (step_sound now t t_line ev seed e Hok (conj Hne Hops)) Hs).
Qed.

Lemma run_dialog_sound now t t_line value evs e0 e seed : run_dialog now t t_line value evs e0 = Some (e, seed) ->
  sound now seed e.
Proof.
  unfold run_dialog. destruct (dialog_step now t t_line (Opened value) e0 0%N) as [[[e1 effects] seed1]| |] eqn:Hs; [|done..].
  assert (H : wp (dialog_step now t t_line (Opened value) e0) 0%N (fun r s => sound now s r.1)).
  { unfold dialog_step. apply wp_bind. eapply wp_mono; [apply opens_sound|]. intros r s (_ & Hr). apply wp_ret.
    by apply settle_sound. }
  apply run_events_sound. by apply (wp_Ret _ _ _ _ _ H Hs).
Qed.

Lemma all_true {A} (p : A -> bool) xs : forallb p xs = true -> Forall (fun x => p x = true) xs.
Proof. rewrite forallb_forall, Forall_forall. intros H x Hx. by apply H, list_elem_of_In. Qed.

Lemma dragging_sound : sound example_clock 4 dragging.
Proof.
  apply (run_dialog_sound example_clock plain_text plain_message [] dragging_events closed_editor).
  vm_compute. reflexivity.
Qed.

Lemma dropped_rule_placed_witness :
  exists e' effects seed', dialog_step example_clock plain_text plain_message (Drop [] (nth_id 0)) dragging 4%N
                           = Ret ((e', effects), seed')
    /\ map op_id (operations e') = [nth_id 2; nth_id 0; nth_id 1]
    /\ exists moved target l r, op_id moved = draggedOperationId dragging /\ op_id target = nth_id 0
       /\ operations e' = placed (dragOverPosition dragging) l r moved target
       /\ l ++ target :: r
          = List.filter (fun o => negb (is_id (draggedOperationId dragging) o)) (operations dragging)
       /\ selectedOperationId e' = draggedOperationId dragging /\ draggedOperationId e' = [].
Proof.
  eexists _, _, _. split; [vm_compute; reflexivity|]. split; [reflexivity|].
  apply (dropped_rule_placed example_clock plain_text plain_message dragging 4 [] (nth_id 0) _ [] 4 dragging_sound).
  - apply includes_str_spec. vm_compute. reflexivity.
  - apply includes_str_spec. vm_compute. reflexivity.
  - vm_compute. discriminate.
  - vm_compute. reflexivity.
  - vm_compute. reflexivity.
Defined.

Lemma duplicated_rule_witness :
  exists e' effects seed', dialog_step example_clock plain_text plain_message (DuplicateOperation true (nth_id 2)) dragging 4%N
                           = Ret ((e', effects), seed')
    /\ exists l source clone r, operations dragging = l ++ source :: r /\ op_id source = nth_id 2
       /\ operations e' = l ++ source :: clone :: r /\ operation_payload clone = operation_payload source
       /\ (true = true -> selectedOperationId e' = op_id clone).
Proof.
  eexists _, _, _. split; [vm_compute; reflexivity|].
  apply (duplicated_rule example_clock plain_text plain_message true (nth_id 2) dragging 4 _ [] 6 dragging_sound).
  - apply includes_str_spec. vm_compute. reflexivity.
  - apply all_true. vm_compute. reflexivity.
  - vm_compute. reflexivity.
Defined.

Lemma json_and_back_witness :
  exists text, buildOperationsJson plain_message (operations dragging) true = Ret text
    /\ exists e1 e2 seed', dialog_step example_clock plain_text plain_message SwitchToJson dragging 4%N = Ret ((e1, []), 4%N)
       /\ es_editMode (content e1) = JsonText /\ es_jsonText (content e1) = text
       /\ dialog_step example_clock plain_text plain_message SwitchToVisual e1 4%N = Ret ((e2, []), seed')
       /\ es_editMode (content e2) = Visual /\ es_visualMode (content e2) = Operations
       /\ map operation_payload (operations e2) = map operation_payload (saved_operations (operations dragging)).
Proof.
  eexists. split; [vm_compute; reflexivity|].
  apply (json_and_back example_clock plain_text plain_message); [exact plain_message_shown|exact dragging_sound|reflexivity..| | |].
  - apply all_true. vm_compute. reflexivity.
  - vm_compute. reflexivity.
  - discriminate.
Defined.

(** Every template of rules is accepted as it is filled in, and saves its rules. *)
Definition filled_template (key : jsstr) : outcome jsstr jsstr :=
  match example_dialog [ChoosePreset key; FillTemplate Fill] with
  | Some (e, _) => buildVisualJson plain_text plain_message e
  | None => Throw []
  end.

Example templates_accepted :
  forallb (fun kv => match filled_template kv.1 with
                     | Ret text => match json_parse text with
                                   | Some v => (length (items_of (prop v (js "operations")))
                                                =? length (template_operations (tp_payload kv.2)))%nat
                                   | None => false
                                   end
                     | _ => false
                     end) TEMPLATE_PRESET_CONFIG = true.
Proof. vm_compute. reflexivity. Qed.

(** Rules that hold a [null] stop the dialog from opening. *)
Example null_rule_throws :
  dialog_step example_clock plain_text plain_message
    (Opened (default [] (json_stringify (JObj [(js "operations", JArr [JNull])])))) closed_editor 0%N = Throw TypeError.
Proof. vm_compute. reflexivity. Qed.

(** Appending a template while the JSON text is edited drops that text: the rules it
    is appended to are those of before the switch. *)
Definition typed_json : jsstr :=
  default [] (json_stringify (JObj [(js "operations", JArr [JObj [(js "mode", txt "delete"); (js "path", txt "tools")]])])).

Example append_drops_text :
  match example_dialog [SwitchToJson; JsonChange typed_json; ChoosePreset (js "pass_headers_auth"); FillTemplate Append] with
  | Some (e, _) => map op_mode (operations e) = [js "pass_headers"] /\ es_jsonText (content e) = []
  | None => False
  end.
Proof. vm_compute. done. Qed.
